(* ===== verification/_CoqProject ===== *)
-Q . S2P
Prelude.v
Hash.v
Checksum.v
RingBuffer.v
RingConc.v
Blocks.v
DList.v
ListConc.v
Threads.v
SynchWait.v
AsyncWait.v
Layout.v
Segment.v
Frames.v
Memory.v
Outcome.v
Ifaces.v
Wire.v
Log.v
Sock.v
SockTables.v
Ports.v
RefCount.v
Out.v
SockApi.v
AcceptQueue.v
QueueConc.v
CallConc.v
Calls.v
TcpIn.v
Handshake.v
Timer.v
Stack.v
Races.v
System.v
Main.v
Sessions.v
Network.v
