(* ===== verification/Prelude.v ===== *)
(** * A verified model of a user-space TCP stack

    The program (src/) is a TCP stack that runs on raw sockets: frames arrive in
    the loop of [ustack_run] (main.c), go through [handle_ip_packet] (ip.c) and
    [handle_tcp_packet] (tcp.c) to [tcp_process] (tcp_in.c), which drives the state
    machine of a [struct tcp_sock] found in one of three hash tables (tcp_sock.c);
    packets are built in tcp_out.c and handed to an IP layer that is linked in as
    a binary library; applications (tcp_apps.c) use the socket calls of
    tcp_sock.c and block in wait structures (include/synch_wait.h); a timer
    thread scans a list of timers (tcp_timer.c).  At the start [main] looks for the
    host's interfaces, opens them, and starts one application.  The headers in include/ hold the
    lists, the ring buffer, the hashes and the checksum.

    ** Files

    - Prelude.v: integers of fixed width, memory images, byte order, tactics.
    - Hash.v: hash.h, tcp_hash.h.  The bucket function is the exclusive or of all
      bytes, in range and symmetric in the two ends of a connection.
    - Checksum.v: checksum.h against RFC 1071, for any length and any initial sum.
    - RingBuffer.v (Module [Ring]): ring_buffer.h refines a bounded queue of bytes.
      RingConc.v (Module [Spsc]): the same routines in a reading and a writing
      thread, access by access.
    - Blocks.v (Module [Blocks]): the six memory blocks of a socket, allocated and
      freed one by one.
    - DList.v: list.h over any store of list nodes (classes [NodeStore],
      [NodeStoreOk]); [dlist] relates the nodes in memory to a list.  ListConc.v: a
      list that is walked by one thread while another inserts, store by store.
      Threads.v: the functions of list.h as programs of loads and stores ([prog]),
      two of them in two threads, in any interleaving.
    - SynchWait.v (Module [Wait]): synch_wait.h, its critical sections as functions
      and the threads as a transition system.
    - AsyncWait.v (Module [Async]): async_wait.h, the same routines statement by
      statement with the mutex as a member; it refines SynchWait.v.
    - Layout.v: offsets of structure members on the LP64 ABI, needed where the code
      computes a pointer to one object and uses it as a pointer to another.
    - Segment.v: headers of tcp.h and ip.h and their bytes, checksums, control
      blocks, sequence numbers, flag names; the class [IpLayer] of what is taken
      from the IP library and [IpLayerOk] of what is assumed of it.
    - Frames.v: ether.h and the data of arp.h, arpcache.h and rtable.h; where the
      headers of a frame lie.
    - Memory.v: the state ([stack]: heap of sockets, tables, timer list, packets
      sent), pointers as block and offset, and the monad [M] of C functions, whose
      outcomes are a value, a fault, an exit, or a thread asleep with the rest of
      its work; the class [Env] of the environment.
    - Outcome.v: equality of outcomes and of programs in [M] up to what a sleeping
      thread computes later, an equivalence in which programs can be rewritten.
    - Ifaces.v: the start-up code of main.c and the structures of base.h; the
      kernel's answers are the class [Kernel], and [KernelOk] what is assumed.
    - Wire.v: the inline code of icmp.h and the address macros of ip.h.
    - Log.v: log.h and every call of [log], one definition each, with its text.
    - Sock.v: tcp_sock.c up to [tcp_sock_bind]; the invariant [tables_ok].
      SockTables.v and Ports.v: its theorems.  RefCount.v: the runs of the table
      operations as a step relation, and what the reference counts are in them.
    - Out.v: tcp_out.c and its theorems.
    - SockApi.v: the rest of tcp_sock.c.  AcceptQueue.v and Calls.v: its theorems.
      QueueConc.v: the accept queue between the receiving thread and the
      application, load by load and store by store.  CallConc.v: the two calls to
      their ends, with the count they both change.
    - TcpIn.v, Timer.v: tcp_in.c and tcp_timer.c with their theorems.  Handshake.v:
      packets and a thread in [tcp_sock_accept] together.
    - Stack.v: ip.c, [handle_tcp_packet], the frame handling of main.c, tcp_apps.c.
    - Races.v: packets that arrive while [tcp_sock_connect] or [tcp_hash] is at work.
    - System.v: applications, frames, timer rounds and socket calls as one
      transition system, and an invariant of the sockets and of the packets sent
      in every reachable state.
    - Main.v: the arguments, the start and the receive loop of main.c.
    - Sessions.v: everything together, from [main] to the end of a client and for
      a server under any traffic.
    - Network.v: two hosts, each with its own environment: a packet from one to the
      other, the client of the one against the server of the other, two clients.

    ** Correspondence

    A C function is the definition of the same name; [tsk->m] is [sock] followed by
    the projection, [tsk->m = e] is [modify], [list_op] lifts the operations of
    list.h to the heap.  Unsigned members wrap around at their width; the [int]
    members [ref_cnt], [backlog] and [accept_backlog] are unbounded, since the
    overflow of an [int] is undefined in C, and [ref_counts_exact] shows that
    [ref_cnt] stays between 0 and 2.  An access through a pointer that is null, freed, or does
    not point to an object of the type used is [Fault BadAccess]; where such an
    access only reads bytes of another member, and what the program does next
    depends on them, the bytes are computed ([load_u16], [tuple_at]).  Loops over
    lists run on fuel that the number of sockets bounds, and are proved to end on
    well-formed lists ([find_entry_spec], [scan_from_run]); a list that does not
    end is [Fault Endless].  The loops of the server and of the timer thread, which
    have no bound in the code, take the number of rounds as an argument; the
    receive loop takes the list of results of [poll] and [recvfrom].  The client's
    loop has fuel one more than the bytes of its file, of which each round but the
    last takes 1000 ([client_loop_run]).  The routines of AsyncWait.v are given by
    their statements (a program counter per thread); a bound on the statements a
    call still takes is [work].

    Some lines of tcp_in.c, tcp_timer.c and tcp_sock.c are not C; how they are read
    is said in TcpIn.v, Timer.v and at [tcp_sock_accept].

    ** What the theorems show

    The data structures are correct (ring buffer, lists, hashes), and the checksum
    is right exactly when its accumulator does not overflow and no odd byte
    carries; the tables link each open socket exactly where the lookups search
    it, and in every run of the table operations that keeps four rules (RefCount.v)
    the reference count of a socket is the number of tables that link it, so that
    it is freed with the last link, and its memory blocks with it; packets sent are accepted by the checksum
    test of a receiver, which recovers from them what the sender put in; the
    receive window, the handshake from SYN_RECV on, the accept queue and the socket
    calls do what is stated with each theorem; a thread asleep in accept gets every
    connection that is completed, once and in order; and every reachable socket and
    every packet sent is well formed.  The ring buffer is a queue also when one
    thread reads it while another writes.  Two list operations that access
    different cells end as if one ran after the other; so the accept queue, which has
    no lock, is right while it holds at least two children, and with one a child can
    be lost; its count can go wrong with any number.  The wait structures exclude each other, lose no
    wake-up for a single sleeper, end, and behave as if their critical sections
    were atomic.  The start-up code finds exactly the usable interfaces
    and goes on exactly when the kernel opens and describes each of them, and the receive loop handles every frame once, in order, on the interface it
    came from.  They also show where the code fails: null dereferences for unknown
    connections and for connection requests, uses after free in closing and in the
    timer scan, ports that never look taken, lookups that leave a table while
    another thread inserts into it, and the others named in the files.
    Sessions.v states the consequence: a client sends three empty packets and
    nothing of its file, and a server never accepts a connection.  Network.v: every
    packet one host sends is read by another as it was meant; the client's first
    packet crashes the server; but two clients that connect to each other both come
    to their end.

    ** Not modelled

    The IP, ARP, ICMP and routing code is a binary library: [ip_init_hdr] is a
    parameter, sent packets are recorded, the start of the ARP cache and of the
    routing table is left out (arp.h, arpcache.h, rtable.h and packet.h declare the
    functions; the data they define is in Frames.v).  The kernel and the C library's
    [inet_addr] and [rand] are parameters.  The messages have their text in Log.v,
    but the model of the stack does not emit them.  The failure of [fopen], the time
    that passes in [sleep] and [poll], and switches between threads elsewhere than
    where they block (but for AsyncWait.v, RingConc.v, ListConc.v, Threads.v,
    QueueConc.v, CallConc.v and Races.v) are not modelled, nor is a memory weaker than
    sequentially consistent; neither are the Python scripts.  The lines of src/ that no
    definition stands for are prototypes, [extern] declarations, comments and
    directives of the preprocessor. *)

From Stdlib Require Export ZArith Lia.
From stdpp Require Export base tactics numbers list gmap.

#[export] Set Default Goal Selector "!".

Declare Scope c_scope.
Delimit Scope c_scope with C.
#[global] Open Scope Z_scope.

(** ** Fixed-width integers

    A [w]-bit object of the source is a [Z]; conversions between widths are
    written out with the functions below.  [u8], [u16], [u32] are the C
    conversions to [uint8_t], [uint16_t], [uint32_t]; [s8] and [s32] those to
    [signed char] and [int32_t] (two's complement, as gcc defines them). *)

Definition u8 (z : Z) : Z := z mod 2 ^ 8.
Definition u16 (z : Z) : Z := z mod 2 ^ 16.
Definition u32 (z : Z) : Z := z mod 2 ^ 32.
Definition s8 (z : Z) : Z := (z + 2 ^ 7) mod 2 ^ 8 - 2 ^ 7.
Definition s32 (z : Z) : Z := (z + 2 ^ 31) mod 2 ^ 32 - 2 ^ 31.

Definition is_u8 (z : Z) : Prop := 0 <= z < 2 ^ 8.
Definition is_u16 (z : Z) : Prop := 0 <= z < 2 ^ 16.
Definition is_u32 (z : Z) : Prop := 0 <= z < 2 ^ 32.
Definition is_int (z : Z) : Prop := - 2 ^ 31 <= z < 2 ^ 31.

Create HintDb cint.
Create Rewrite HintDb cint.

Lemma u8_range z : is_u8 (u8 z).
Proof. apply Z.mod_pos_bound; lia. Qed.
Lemma u16_range z : is_u16 (u16 z).
Proof. apply Z.mod_pos_bound; lia. Qed.
Lemma u32_range z : is_u32 (u32 z).
Proof. apply Z.mod_pos_bound; lia. Qed.

Lemma u8_id z : is_u8 z -> u8 z = z.
Proof. apply Z.mod_small. Qed.
Lemma u16_id z : is_u16 z -> u16 z = z.
Proof. apply Z.mod_small. Qed.
Lemma u32_id z : is_u32 z -> u32 z = z.
Proof. apply Z.mod_small. Qed.

#[export] Hint Resolve u8_range u16_range u32_range : cint.
#[export] Hint Rewrite u8_id u16_id u32_id using (solve [auto with cint]) : cint.

(** Case analysis on every integer comparison of the goal. *)
Ltac zcases :=
  repeat match goal with
  | |- context [?a =? ?b] => destruct (Z.eqb_spec a b)
  | |- context [?a <=? ?b] => destruct (Z.leb_spec a b)
  | |- context [?a <? ?b] => destruct (Z.ltb_spec a b)
  end.

(** Read the integer comparisons of the hypotheses as propositions. *)
Ltac zprop :=
  repeat match goal with
  | H : (_ && _)%bool = true |- _ => apply andb_prop in H; destruct H
  | H : (_ || _)%bool = false |- _ => apply orb_false_elim in H; destruct H
  | H : negb _ = true |- _ => apply negb_true_iff in H
  | H : negb _ = false |- _ => apply negb_false_iff in H
  | H : (_ =? _) = true |- _ => apply Z.eqb_eq in H
  | H : (_ =? _) = false |- _ => apply Z.eqb_neq in H
  | H : (_ <=? _) = true |- _ => apply Z.leb_le in H
  | H : (_ <=? _) = false |- _ => apply Z.leb_gt in H
  | H : (_ <? _) = true |- _ => apply Z.ltb_lt in H
  | H : (_ <? _) = false |- _ => apply Z.ltb_ge in H
  end.

(** ** Bytes in memory

    Memory is little-endian (x86-64).  [le_store n z] is the [n]-byte image of
    an integer and [le_load] reads one back. *)

Fixpoint le_load (bs : list Z) : Z :=
  match bs with
  | [] => 0
  | b :: bs => b + 2 ^ 8 * le_load bs
  end.

Fixpoint le_store (n : nat) (z : Z) : list Z :=
  match n with
  | O => []
  | S n => u8 z :: le_store n (z / 2 ^ 8)
  end.

Abbreviation bytes_ok := (Forall is_u8).

Lemma length_le_store n z : length (le_store n z) = n.
Proof. revert z; induction n; simpl; auto. Qed.

Lemma le_store_bytes n z : bytes_ok (le_store n z).
Proof. revert z; induction n; simpl; auto with cint. Qed.

Lemma le_load_range bs :
  bytes_ok bs -> 0 <= le_load bs < 2 ^ (8 * Z.of_nat (length bs)).
Proof.
  induction 1 as [|b bs Hb _ IH]; [simpl; lia|].
  cbn [le_load length]. unfold is_u8 in Hb.
  replace (8 * Z.of_nat (S (length bs))) with (8 + 8 * Z.of_nat (length bs)) by lia.
  rewrite Z.pow_add_r by lia. lia.
Qed.

Lemma le_load_store n z : le_load (le_store n z) = z mod 2 ^ (8 * Z.of_nat n).
Proof.
  revert z; induction n as [|n IH]; intros z; [symmetry; apply Z.mod_1_r|].
  cbn [le_store le_load]. rewrite IH.
  replace (8 * Z.of_nat (S n)) with (8 + 8 * Z.of_nat n) by lia.
  rewrite Z.pow_add_r, Z.rem_mul_r by lia. reflexivity.
Qed.

Lemma le_store_load bs : bytes_ok bs -> le_store (length bs) (le_load bs) = bs.
Proof.
  induction 1 as [|b bs Hb _ IH]; [done|]. cbn [le_load length le_store].
  unfold is_u8 in Hb. unfold u8. f_equal.
  - rewrite Z.mul_comm, Z_mod_plus_full. apply Z.mod_small; lia.
  - rewrite Z.mul_comm, Z_div_plus_full, Z.div_small by lia. exact IH.
Qed.

Lemma le_load_app bs cs :
  le_load (bs ++ cs) = le_load bs + 2 ^ (8 * Z.of_nat (length bs)) * le_load cs.
Proof.
  induction bs as [|b bs IH]; [simpl; lia|].
  cbn [le_load app length]. rewrite IH.
  replace (8 * Z.of_nat (S (length bs))) with (8 + 8 * Z.of_nat (length bs)) by lia.
  rewrite Z.pow_add_r by lia. ring.
Qed.

(** [htons], [ntohs], [htonl], [ntohl] of <arpa/inet.h> on a little-endian
    host: the bytes of the argument in the opposite order. *)
Definition htons (x : Z) : Z := le_load (rev (le_store 2 x)).
Definition htonl (x : Z) : Z := le_load (rev (le_store 4 x)).
Abbreviation ntohs := htons.
Abbreviation ntohl := htonl.

Lemma le_store_htons x : le_store 2 (htons x) = rev (le_store 2 x).
Proof.
  unfold htons. apply (le_store_load (rev (le_store 2 x))).
  apply Forall_rev, le_store_bytes.
Qed.
Lemma le_store_htonl x : le_store 4 (htonl x) = rev (le_store 4 x).
Proof.
  unfold htonl. apply (le_store_load (rev (le_store 4 x))).
  apply Forall_rev, le_store_bytes.
Qed.

Lemma ntohs_htons x : ntohs (htons x) = u16 x.
Proof.
  unfold htons at 1. rewrite le_store_htons, rev_involutive.
  apply (le_load_store 2).
Qed.
Lemma ntohl_htonl x : ntohl (htonl x) = u32 x.
Proof.
  unfold htonl at 1. rewrite le_store_htonl, rev_involutive.
  apply (le_load_store 4).
Qed.

Lemma htons_range x : is_u16 (htons x).
Proof.
  pose proof (le_load_range (rev (le_store 2 x))) as H.
  rewrite length_rev, length_le_store in H.
  apply H, Forall_rev, le_store_bytes.
Qed.
Lemma htonl_range x : is_u32 (htonl x).
Proof.
  pose proof (le_load_range (rev (le_store 4 x))) as H.
  rewrite length_rev, length_le_store in H.
  apply H, Forall_rev, le_store_bytes.
Qed.

#[export] Hint Resolve htons_range htonl_range le_store_bytes : cint.
#[export] Hint Rewrite ntohs_htons ntohl_htonl length_le_store : cint.
