(* ===== verification/Hash.v ===== *)
(** * Hash functions (include/hash.h, include/tcp_hash.h)

    [hash8] and [hash16] fold the bytes of a buffer with exclusive or;
    [tcp_hash_function] picks the bucket of the three socket tables.  The
    theorems show that the bucket is always a valid index, that it does not
    depend on which end of the connection computes it nor on the byte order its
    arguments are kept in, and that the sign extension C performs on a plain
    [char] is harmless. *)

From S2P Require Import Prelude.

Definition HASH_8BITS : Z := 256.
Definition HASH_16BITS : Z := 65536.

(** [result ^= buf[i]]: [buf] has type [char *], so the byte is sign-extended
    to [int] before the exclusive or, and the result truncated to [u8]. *)
Definition hash8 (buf : list Z) (len : Z) : Z :=
  fold_left (fun result b => u8 (Z.lxor result (s8 b))) (take (Z.to_nat len) buf) 0.

(** [for (i = 0; i < len / 2 * 2; i += 2) result ^= *(u16 * )(buf + i)], then
    the last byte of an odd buffer. *)
Fixpoint hash16_loop (buf : list Z) (n : nat) (result : Z) : Z :=
  match n, buf with
  | S n, b0 :: b1 :: buf => hash16_loop buf n (u16 (Z.lxor result (le_load [b0; b1])))
  | _, _ => result
  end.

Definition hash16 (buf : list Z) (len : Z) : Z :=
  let result := hash16_loop buf (Z.to_nat (len ÷ 2)) 0 in
  if Z.rem len 2 =? 0 then result
  else u16 (Z.lxor result (u8 (nth (Z.to_nat (len - 1)) buf 0))).

Definition TCP_HASH_SIZE : Z := HASH_8BITS.
Definition TCP_HASH_MASK : Z := TCP_HASH_SIZE - 1.

(** The arguments are passed by value and hashed from their memory image. *)
Definition tcp_hash_function (saddr daddr sport dport : Z) : Z :=
  let result :=
    Z.lxor (Z.lxor (Z.lxor (hash8 (le_store 4 saddr) 4) (hash8 (le_store 4 daddr) 4))
                   (hash8 (le_store 2 sport) 2))
           (hash8 (le_store 2 dport) 2) in
  Z.land result TCP_HASH_MASK.

(** The reference: the exclusive or of all the bytes. *)
Definition xor_bytes (bs : list Z) : Z := foldr Z.lxor 0 bs.

(** ** Exclusive or of bytes *)

Lemma is_u8_testbit z : is_u8 z <-> 0 <= z /\ forall i, 8 <= i -> Z.testbit z i = false.
Proof.
  unfold is_u8. split.
  - intros Hz. split; [lia|]. intros i Hi. apply Z.bits_above_log2; [lia|].
    destruct (Z.eq_dec z 0) as [->|]; [simpl; lia|].
    apply Z.log2_lt_pow2; [lia|]. apply Z.lt_le_trans with (2 ^ 8); [lia|].
    apply Z.pow_le_mono_r; lia.
  - intros [H0 Hb]. split; [done|].
    destruct (Z.eq_dec z 0) as [->|Hz]; [lia|].
    apply Z.log2_lt_pow2; [lia|]. destruct (Z.lt_ge_cases (Z.log2 z) 8) as [|Hl]; [done|].
    specialize (Hb _ Hl). rewrite Z.bit_log2 in Hb by lia. done.
Qed.

Lemma lxor_u8 a b : is_u8 a -> is_u8 b -> is_u8 (Z.lxor a b).
Proof.
  rewrite !is_u8_testbit. intros [Ha Ba] [Hb Bb]. split.
  - apply Z.lxor_nonneg; tauto.
  - intros i Hi. rewrite Z.lxor_spec, Ba, Bb by done. done.
Qed.

Lemma xor_bytes_u8 bs : bytes_ok bs -> is_u8 (xor_bytes bs).
Proof.
  induction 1; simpl; [unfold is_u8; lia|]. by apply lxor_u8.
Qed.

(** Sign extension only touches bits 8 and above, which the truncation drops. *)
Lemma lxor_s8 r b : is_u8 r -> is_u8 b -> u8 (Z.lxor r (s8 b)) = Z.lxor r b.
Proof.
  intros Hr Hb.
  assert (E : u8 (Z.lxor r (s8 b)) = u8 (Z.lxor r b)); [|by rewrite E, u8_id by (by apply lxor_u8)].
  unfold u8. rewrite <- !Z.land_ones by lia. apply Z.bits_inj'. intros i Hi.
  rewrite !Z.land_spec, !Z.lxor_spec.
  destruct (Z.lt_ge_cases i 8) as [Hlt|Hge];
    [|rewrite Z.ones_spec_high by lia; by rewrite !andb_false_r].
  f_equal. f_equal.
  rewrite <- (Z.mod_pow2_bits_low (s8 b) 8), <- (Z.mod_pow2_bits_low b 8) by lia.
  f_equal. unfold s8. rewrite Zminus_mod_idemp_l. f_equal. lia.
Qed.

Lemma fold_xor_bytes bs r :
  bytes_ok bs -> is_u8 r ->
  fold_left (fun r b => u8 (Z.lxor r (s8 b))) bs r = Z.lxor r (xor_bytes bs).
Proof.
  intros Hbs. revert r. induction Hbs as [|b bs Hb _ IH]; intros r Hr; simpl.
  - by rewrite Z.lxor_0_r.
  - rewrite lxor_s8, IH by auto using lxor_u8. apply Z.lxor_assoc.
Qed.

Lemma hash8_xor bs n :
  bytes_ok bs -> Z.to_nat n = length bs -> hash8 bs n = xor_bytes bs.
Proof.
  intros Hbs Hn. unfold hash8. rewrite Hn, take_ge by done.
  rewrite fold_xor_bytes by (done || (unfold is_u8; lia)). apply Z.lxor_0_l.
Qed.

Lemma hash8_le_store n z :
  hash8 (le_store n z) (Z.of_nat n) = xor_bytes (le_store n z).
Proof. apply hash8_xor; [auto with cint|rewrite length_le_store; lia]. Qed.

Lemma xor_bytes_app bs cs : xor_bytes (bs ++ cs) = Z.lxor (xor_bytes bs) (xor_bytes cs).
Proof.
  induction bs as [|b bs IH]; simpl; [by rewrite Z.lxor_0_l|].
  by rewrite IH, Z.lxor_assoc.
Qed.

Lemma xor_bytes_rev bs : xor_bytes (rev bs) = xor_bytes bs.
Proof.
  induction bs as [|b bs IH]; [done|]. simpl. rewrite xor_bytes_app, IH. simpl.
  rewrite Z.lxor_0_r. apply Z.lxor_comm.
Qed.

Lemma tcp_hash_function_xor saddr daddr sport dport :
  tcp_hash_function saddr daddr sport dport =
  xor_bytes (le_store 4 saddr ++ le_store 4 daddr ++ le_store 2 sport ++ le_store 2 dport).
Proof.
  unfold tcp_hash_function.
  pose proof (hash8_le_store 4) as H4. pose proof (hash8_le_store 2) as H2.
  simpl Z.of_nat in H4, H2. rewrite !H4, !H2, !xor_bytes_app, !Z.lxor_assoc.
  change TCP_HASH_MASK with (Z.ones 8). rewrite Z.land_ones by lia. apply u8_id.
  rewrite <- !Z.lxor_assoc. auto 10 using lxor_u8, xor_bytes_u8 with cint.
Qed.

(** ** Theorems *)

(** [tcp_hash_function] always returns an index of the 256-entry
    tables, whatever its arguments. *)
Theorem tcp_hash_function_range saddr daddr sport dport :
  0 <= tcp_hash_function saddr daddr sport dport < TCP_HASH_SIZE.
Proof.
  rewrite tcp_hash_function_xor.
  apply (xor_bytes_u8 _). rewrite !Forall_app. auto with cint.
Qed.

(** Both ends of a connection, which see the address pair and the
    port pair swapped, compute the same bucket; and the bucket is the same
    whether the addresses and ports are kept in host or in network order. *)
Theorem tcp_hash_function_symmetric saddr daddr sport dport :
  tcp_hash_function daddr saddr dport sport = tcp_hash_function saddr daddr sport dport /\
  tcp_hash_function (htonl saddr) (htonl daddr) (htons sport) (htons dport) =
  tcp_hash_function saddr daddr sport dport.
Proof.
  rewrite !tcp_hash_function_xor. split.
  - rewrite !xor_bytes_app. apply Z.bits_inj'. intros i _. rewrite !Z.lxor_spec.
    by repeat destruct (Z.testbit _ _).
  - rewrite !le_store_htonl, !le_store_htons, !xor_bytes_app, !xor_bytes_rev. done.
Qed.

(** On a buffer of bytes [hash8] is the exclusive or of them all: the
    sign extension of [char] never shows. *)
Theorem hash8_is_xor bs :
  bytes_ok bs -> hash8 bs (Z.of_nat (length bs)) = xor_bytes bs.
Proof. intros H. apply hash8_xor; [done|lia]. Qed.
Lemma hash8_is_xor_witness : bytes_ok [0x80; 0xff; 1] /\ hash8 [0x80; 0xff; 1] 3 = 0x7e.
Proof.
  split; [by repeat constructor|].
  apply (hash8_is_xor [0x80; 0xff; 1]). by repeat constructor.
Defined.

(** From here on the hash is used through its lemmas only. *)
#[global] Opaque tcp_hash_function.
