(* ===== verification/Checksum.v ===== *)
(** * Internet checksum (include/checksum.h)

    [checksum] adds 16-bit words into a [u32], folds the carries twice and
    complements.  The reference is the one's complement sum of RFC 1071, with
    the carry added back after every word.  The two agree on buffers of even
    length as long as the accumulator does not overflow; on odd lengths the
    code adds the last byte after the folding, and the theorems say exactly
    when that differs ([checksum_value], [canon_lost] for any initial sum). *)

From S2P Require Import Prelude.

(** ** The code *)

(** The words [buf[0..n-1]] of a [u16 *] buffer. *)
Fixpoint words16 (bs : list Z) : list Z :=
  match bs with
  | b0 :: b1 :: bs => le_load [b0; b1] :: words16 bs
  | _ => []
  end.

(** [for (i = 0; i < nbytes / 2; i++) sum += buf[i];] *)
Fixpoint checksum_loop (ws : list Z) (sum : Z) : Z :=
  match ws with
  | [] => sum
  | w :: ws => checksum_loop ws (u32 (sum + w))
  end.

(** [buf] holds the [nbytes] bytes that the C function reads. *)
Definition checksum (buf : list Z) (sum : Z) : Z :=
  let nbytes := Z.of_nat (length buf) in
  let sum := checksum_loop (words16 buf) sum in
  let sum := u32 (Z.shiftr sum 16 + Z.land sum 0xffff) in
  let sum := u32 (sum + Z.shiftr sum 16) in
  let sum := if nbytes mod 2 =? 0 then sum
             else u32 (sum + nth (Z.to_nat (nbytes - 1)) buf 0) in
  u16 (Z.lnot sum).

(** ** The reference: one's complement arithmetic on 16-bit words *)

Definition onec_add (a b : Z) : Z := (a + b) mod 2 ^ 16 + (a + b) / 2 ^ 16.
Definition onec_sum (ws : list Z) : Z := foldr onec_add 0 ws.

(** RFC 1071: an odd buffer is padded with a zero byte. *)
Definition pad16 (bs : list Z) : list Z :=
  if Nat.even (length bs) then bs else bs ++ [0].
Definition rfc1071 (bs : list Z) : Z := 0xffff - onec_sum (words16 (pad16 bs)).

(** The byte after the last whole word. *)
Definition odd_byte (bs : list Z) : Z :=
  if Nat.even (length bs) then 0 else nth (length bs - 1) bs 0.

Definition zsum (ws : list Z) : Z := foldr Z.add 0 ws.

(** The representative of [s] modulo 65535 that folding produces: zero only
    for zero. *)
Definition canon (s : Z) : Z := if s =? 0 then 0 else (s - 1) mod 65535 + 1.

(** ** Lemmas *)

Lemma canon_range s : 0 <= canon s <= 65535.
Proof. unfold canon. zcases; [lia|]. pose proof (Z.mod_pos_bound (s - 1) 65535). lia. Qed.

Lemma canon_unique s c :
  0 <= s -> 0 <= c <= 65535 -> (c = 0 <-> s = 0) -> (exists k, s = c + 65535 * k) -> canon s = c.
Proof.
  intros Hs Hc Hz [k Hk]. unfold canon. zcases; [lia|].
  replace (s - 1) with (c - 1 + k * 65535) by lia.
  rewrite Z_mod_plus_full, Z.mod_small by lia. lia.
Qed.

Lemma canon_spec s : 0 <= s -> exists k, 0 <= k /\ s = canon s + 65535 * k.
Proof.
  intros Hs. unfold canon. zcases; [exists 0; lia|].
  exists ((s - 1) / 65535). pose proof (Z.div_pos (s - 1) 65535).
  pose proof (Z.div_mod (s - 1) 65535). lia.
Qed.

Lemma canon_zero s : 0 <= s -> canon s = 0 <-> s = 0.
Proof.
  intros Hs. unfold canon. zcases; [done|].
  pose proof (Z.mod_pos_bound (s - 1) 65535). lia.
Qed.

Lemma canon_eq s t :
  0 <= s -> 0 <= t -> (s = 0 <-> t = 0) -> (exists k, s = t + 65535 * k) -> canon s = canon t.
Proof.
  intros Hs Ht Hz [k Hk]. destruct (canon_spec t Ht) as (j & _ & Hj).
  apply canon_unique; auto using canon_range.
  - rewrite canon_zero by done. tauto.
  - exists (k + j). lia.
Qed.

Lemma canon_add_l s t : 0 <= s -> 0 <= t -> canon (canon s + t) = canon (s + t).
Proof.
  intros Hs Ht. pose proof (canon_range s). pose proof (canon_zero s Hs).
  destruct (canon_spec s Hs) as (k & _ & Hk).
  apply canon_eq; try lia. exists (- k). lia.
Qed.

Lemma onec_add_canon a b : 0 <= a < 2 ^ 16 -> 0 <= b < 2 ^ 16 -> onec_add a b = canon (a + b).
Proof.
  intros Ha Hb. unfold onec_add. symmetry. apply canon_unique; try lia;
    pose proof (Z.div_mod (a + b) (2 ^ 16)); pose proof (Z.mod_pos_bound (a + b) (2 ^ 16));
    pose proof (Z.div_lt_upper_bound (a + b) (2 ^ 16) 2); pose proof (Z.div_pos (a + b) (2 ^ 16)).
  - nia.
  - lia.
  - exists ((a + b) / 2 ^ 16). lia.
Qed.

Lemma zsum_nonneg ws : Forall is_u16 ws -> 0 <= zsum ws <= 65535 * Z.of_nat (length ws).
Proof. induction 1 as [|w ws Hw _ IH]; simpl; [lia|]. unfold is_u16 in Hw. lia. Qed.

Lemma onec_sum_canon ws : Forall is_u16 ws -> onec_sum ws = canon (zsum ws).
Proof.
  induction 1 as [|w ws Hw Hws IH]; [done|]. cbn [onec_sum foldr]. fold (onec_sum ws). rewrite IH.
  pose proof (canon_range (zsum ws)). pose proof (zsum_nonneg ws Hws). unfold is_u16 in Hw.
  rewrite onec_add_canon by lia. rewrite Z.add_comm, canon_add_l by lia.
  cbn [zsum foldr]. f_equal. unfold zsum. lia.
Qed.

(** The two folding lines, followed by the conversion to [u16]. *)
Lemma fold_canon s :
  0 <= s < 2 ^ 32 ->
  let s1 := u32 (Z.shiftr s 16 + Z.land s 0xffff) in
  let s2 := u32 (s1 + Z.shiftr s1 16) in
  0 <= s2 < 2 ^ 17 /\ u16 s2 = canon s.
Proof.
  intros Hs s1 s2.
  assert (E1 : s1 = s / 2 ^ 16 + s mod 2 ^ 16).
  { unfold s1. change 65535 with (Z.ones 16). rewrite Z.land_ones, Z.shiftr_div_pow2 by lia.
    apply u32_id. unfold is_u32.
    pose proof (Z.mod_pos_bound s (2 ^ 16)). pose proof (Z.div_lt_upper_bound s (2 ^ 16) (2 ^ 16)).
    pose proof (Z.div_pos s (2 ^ 16)). lia. }
  pose proof (Z.div_mod s (2 ^ 16)). pose proof (Z.mod_pos_bound s (2 ^ 16)).
  pose proof (Z.div_lt_upper_bound s (2 ^ 16) (2 ^ 16)). pose proof (Z.div_pos s (2 ^ 16)).
  assert (B1 : 0 <= s1 < 2 ^ 17) by lia.
  pose proof (Z.div_mod s1 (2 ^ 16)). pose proof (Z.mod_pos_bound s1 (2 ^ 16)).
  pose proof (Z.div_lt_upper_bound s1 (2 ^ 16) 2). pose proof (Z.div_pos s1 (2 ^ 16)).
  assert (E2 : s2 = s1 + s1 / 2 ^ 16).
  { unfold s2. rewrite Z.shiftr_div_pow2 by lia. apply u32_id. unfold is_u32. lia. }
  split; [lia|].
  assert (E3 : u16 s2 = s1 mod 2 ^ 16 + s1 / 2 ^ 16).
  { unfold u16. symmetry. apply Z.mod_unique with (s1 / 2 ^ 16); [left; nia|lia]. }
  rewrite E3. symmetry. apply canon_unique; [lia|nia|nia|].
  exists (s / 2 ^ 16 + s1 / 2 ^ 16). lia.
Qed.

Lemma checksum_loop_sum ws s :
  Forall is_u16 ws -> 0 <= s -> s + zsum ws < 2 ^ 32 -> checksum_loop ws s = s + zsum ws.
Proof.
  intros Hws. revert s. induction Hws as [|w ws Hw Hws IH]; intros s Hs Hb; simpl in *; [lia|].
  pose proof (zsum_nonneg ws Hws). unfold is_u16 in Hw. fold (zsum ws) in *.
  rewrite u32_id by (unfold is_u32; lia). rewrite IH by lia. lia.
Qed.

Lemma words16_ind (P : list Z -> Prop) :
  P [] -> (forall b, P [b]) -> (forall b0 b1 bs, P bs -> P (b0 :: b1 :: bs)) -> forall bs, P bs.
Proof.
  intros H0 H1 H2. refine (fix rec bs := match bs with
    | [] => H0 | [b] => H1 b | b0 :: b1 :: bs => H2 b0 b1 bs (rec bs) end).
Qed.

Lemma words16_u16 bs : bytes_ok bs -> Forall is_u16 (words16 bs).
Proof.
  induction bs as [|b|b0 b1 bs IH] using words16_ind; intros H; simpl; auto.
  apply Forall_cons_1 in H as [H0 H]. apply Forall_cons_1 in H as [H1 H].
  constructor; [|auto]. unfold is_u8 in *. unfold is_u16. lia.
Qed.

Lemma length_words16 bs : length (words16 bs) = (length bs / 2)%nat.
Proof.
  induction bs as [|b|b0 b1 bs IH] using words16_ind; [done..|].
  cbn [words16 length]. rewrite IH.
  change (S (S (length bs))) with (1 * 2 + length bs)%nat.
  rewrite Nat.div_add_l by lia. done.
Qed.

Lemma words16_app bs cs :
  Nat.even (length bs) = true -> words16 (bs ++ cs) = words16 bs ++ words16 cs.
Proof.
  induction bs as [|b|b0 b1 bs IH] using words16_ind; simpl; intros H; [done..|].
  by rewrite IH.
Qed.

Lemma zsum_app ws vs : zsum (ws ++ vs) = zsum ws + zsum vs.
Proof. induction ws; simpl; [done|]. fold (zsum ws) in *. unfold zsum in *. lia. Qed.

Lemma u16_lnot s : u16 (Z.lnot s) = 65535 - u16 s.
Proof.
  unfold u16, Z.lnot. symmetry. apply Z.mod_unique with (- (s / 2 ^ 16) - 1).
  - pose proof (Z.mod_pos_bound s (2 ^ 16)). left. lia.
  - pose proof (Z.div_mod s (2 ^ 16)). lia.
Qed.

Lemma even_mod n : (Z.of_nat n mod 2 =? 0) = Nat.even n.
Proof.
  destruct (Nat.even n) eqn:E.
  - apply Nat.even_spec in E as [k ->]. apply Z.eqb_eq.
    rewrite Nat2Z.inj_mul, Z.mul_comm. apply Z_mod_mult.
  - assert (O : Nat.odd n = true) by (unfold Nat.odd; by rewrite E).
    apply Nat.odd_spec in O as [k ->]. apply Z.eqb_neq.
    rewrite Nat2Z.inj_add, Nat2Z.inj_mul, Z.add_comm, Z.mul_comm, Z_mod_plus_full. done.
Qed.

(** The value of the code on any buffer of even length. *)
Lemma checksum_canon bs s :
  bytes_ok bs -> Nat.even (length bs) = true -> 0 <= s -> s + zsum (words16 bs) < 2 ^ 32 ->
  checksum bs s = 65535 - canon (s + zsum (words16 bs)).
Proof.
  intros Hbs He Hs Hb. pose proof (words16_u16 _ Hbs) as Hw. pose proof (zsum_nonneg _ Hw).
  unfold checksum. rewrite even_mod, He, checksum_loop_sum by done.
  rewrite u16_lnot. f_equal. apply fold_canon. lia.
Qed.

(** *** Any length, any carry *)

Lemma checksum_loop_mod ws s :
  is_u32 s -> checksum_loop ws s = (s + zsum ws) mod 2 ^ 32.
Proof.
  revert s. induction ws as [|w ws IH]; intros s Hs; simpl.
  - rewrite Z.mod_small; unfold is_u32 in Hs; lia.
  - rewrite IH by apply u32_range. unfold u32. rewrite Zplus_mod_idemp_l. f_equal. fold (zsum ws). lia.
Qed.

Lemma odd_byte_range bs : bytes_ok bs -> is_u8 (odd_byte bs).
Proof.
  intros Hbs. unfold odd_byte. case_match; [unfold is_u8; lia|].
  destruct (decide (length bs = 0)%nat) as [E|E].
  - rewrite nth_overflow by lia. unfold is_u8; lia.
  - apply (proj1 (List.Forall_forall _ _) Hbs), nth_In. lia.
Qed.

Lemma odd_byte_app bs cs : Nat.even (length bs) = true -> odd_byte (bs ++ cs) = odd_byte cs.
Proof.
  intros He. unfold odd_byte. rewrite length_app, Nat.even_add, He. destruct (Nat.even (length cs)) eqn:E; [done|].
  simpl. rewrite app_nth2 by (destruct cs; [done|simpl; lia]). f_equal. destruct cs; [done|simpl; lia].
Qed.

(** The code: the words and the initial sum modulo [2 ^ 32], folded, and the odd
    byte added without another fold. *)
Lemma checksum_value bs s :
  bytes_ok bs -> is_u32 s -> checksum bs s = 65535 - u16 (canon ((s + zsum (words16 bs)) mod 2 ^ 32) + odd_byte bs).
Proof.
  intros Hbs Hs. pose proof (odd_byte_range bs Hbs) as Hb. unfold checksum, odd_byte in *.
  rewrite even_mod, checksum_loop_mod by done. rewrite u16_lnot. f_equal.
  set (t := (s + zsum (words16 bs)) mod 2 ^ 32).
  destruct (fold_canon t) as [B E]; [apply Z.mod_pos_bound; lia|]. set (s2 := u32 (u32 _ + _)) in *. clearbody s2.
  destruct (Nat.even (length bs)).
  - rewrite Z.add_0_r, E, u16_id; [done|]. pose proof (canon_range t). unfold is_u16. lia.
  - replace (Z.to_nat (Z.of_nat (length bs) - 1)) with (length bs - 1)%nat by lia. unfold is_u8 in Hb.
    rewrite u32_id by (unfold is_u32; lia). rewrite <- E. unfold u16. by rewrite Zplus_mod_idemp_l.
Qed.

Lemma rfc1071_value bs :
  bytes_ok bs -> rfc1071 bs = 65535 - canon (zsum (words16 bs) + odd_byte bs).
Proof.
  intros Hbs. unfold rfc1071, pad16, odd_byte. destruct (Nat.even (length bs)) eqn:E.
  - rewrite onec_sum_canon by (by apply words16_u16). by rewrite Z.add_0_r.
  - destruct (exists_last (l := bs)) as (cs & b & ->); [by intros ->|].
    rewrite length_app, Nat.even_add in E. assert (Ec : Nat.even (length cs) = true) by (by destruct (Nat.even (length cs))).
    rewrite onec_sum_canon; [|apply words16_u16, Forall_app; split; [done|repeat constructor; unfold is_u8; lia]].
    rewrite <- app_assoc. change ([b] ++ [0]) with [b; 0].
    rewrite !words16_app, !zsum_app, app_nth2 by (first [done|rewrite length_app; simpl; lia]).
    do 2 f_equal. rewrite length_app. simpl. replace (_ - _)%nat with 0%nat by lia. unfold zsum. simpl. lia.
Qed.

(** A sum of which [2 ^ 32] was lost [k] times, and an odd byte added last: right
    only when nothing was lost and the byte does not carry. *)
Lemma canon_lost t k b :
  0 <= k <= 2 -> 0 <= t - 2 ^ 32 * k < 2 ^ 32 -> is_u8 b ->
  u16 (canon (t - 2 ^ 32 * k) + b) = canon (t + b) <-> k = 0 /\ canon t + b < 2 ^ 16.
Proof.
  intros Hk Ht Hb. unfold is_u8 in Hb. set (x := t - 2 ^ 32 * k) in *.
  pose proof (canon_range x). pose proof (canon_zero x). pose proof (canon_zero (t + b)).
  destruct (canon_spec x) as (i & _ & Hi); [lia|]. destruct (canon_spec (t + b)) as (j & _ & Hj); [lia|].
  assert (Hd : canon (t + b) = canon x + b + k + 65535 * (i + 65537 * k - j)) by (unfold x in *; lia).
  assert (Hu : u16 (canon x + b) = canon x + b \/ u16 (canon x + b) = canon x + b - 2 ^ 16 /\ 2 ^ 16 <= canon x + b).
  { destruct (Z.lt_ge_cases (canon x + b) (2 ^ 16)); [left; apply u16_id; unfold is_u16; lia|right].
    split; [|done]. unfold u16. symmetry. apply Z.mod_unique with 1; lia. }
  split.
  - intros E. assert (k = 0) as -> by (destruct Hu as [Eu|[Eu _]]; rewrite Eu in E; lia).
    split; [done|]. replace t with x by (unfold x; lia). destruct Hu as [Eu|[Eu ?]]; [|rewrite Eu in E; lia].
    pose proof (u16_range (canon x + b)) as Hr. unfold is_u16 in Hr. lia.
  - intros [-> Hlt]. replace t with x in Hlt |- * by (unfold x; lia). rewrite u16_id by (unfold is_u16; lia).
    rewrite <- canon_add_l by lia. symmetry. apply canon_unique; [lia..|]. by exists 0; lia.
Qed.

(** A [u16] length bounds the sum far below the accumulator's width. *)
Lemma words16_bound bs :
  bytes_ok bs -> Z.of_nat (length bs) <= 65535 -> 0 <= zsum (words16 bs) < 2 ^ 31.
Proof.
  intros Hbs Hl. pose proof (zsum_nonneg _ (words16_u16 _ Hbs)) as H.
  rewrite length_words16, Nat2Z.inj_div in H.
  pose proof (Z.div_le_mono (Z.of_nat (length bs)) 65535 2).
  change (65535 / 2) with 32767 in *. lia.
Qed.

(** ** Theorems *)

Lemma checksum_even_run bs :
  bytes_ok bs -> Nat.even (length bs) = true -> Z.of_nat (length bs) <= 65535 ->
  checksum bs 0 = rfc1071 bs.
Proof.
  intros Hbs He Hl. pose proof (words16_bound bs Hbs Hl).
  rewrite checksum_canon by (done || lia).
  unfold rfc1071, pad16. rewrite He. by rewrite onec_sum_canon by (by apply words16_u16).
Qed.

(** On a buffer of even length of at most 65535 bytes, with a zero
    initial sum, [checksum] is the RFC 1071 checksum. *)
Theorem checksum_even_rfc1071 bs :
  bytes_ok bs -> Nat.even (length bs) = true -> Z.of_nat (length bs) <= 65535 ->
  checksum bs 0 = rfc1071 bs.
Proof. apply checksum_even_run. Qed.

Lemma checksum_even_rfc1071_witness :
  checksum [0x45; 0; 0; 0x28] 0 = rfc1071 [0x45; 0; 0; 0x28].
Proof.
  apply checksum_even_rfc1071; [|reflexivity|simpl; lia].
  repeat constructor; unfold is_u8; lia.
Defined.

(** Storing the checksum [c] of a block in which its own 16-bit
    field was zero makes the one's complement sum of the whole block all ones,
    which is how a receiver verifies it. *)
Theorem checksum_verifies bs cs :
  bytes_ok bs -> bytes_ok cs -> Nat.even (length bs) = true -> Nat.even (length cs) = true ->
  Z.of_nat (length (bs ++ [0; 0] ++ cs)) <= 65535 ->
  let c := checksum (bs ++ [0; 0] ++ cs) 0 in
  onec_sum (words16 (bs ++ le_store 2 c ++ cs)) = 0xffff.
Proof.
  intros Hbs Hcs Eb Ec Hl c.
  assert (Hz : bytes_ok (bs ++ [0; 0] ++ cs)).
  { rewrite !Forall_app. repeat split; auto. repeat constructor; unfold is_u8; lia. }
  assert (Hw : zsum (words16 (bs ++ [0; 0] ++ cs)) = zsum (words16 bs) + zsum (words16 cs)).
  { rewrite words16_app by done. rewrite zsum_app. simpl. unfold zsum. lia. }
  pose proof (words16_bound _ Hz Hl) as Hb. rewrite Hw in Hb.
  assert (Ev : Nat.even (length (bs ++ [0; 0] ++ cs)) = true).
  { rewrite length_app, Nat.even_add, Eb. simpl. by rewrite Ec. }
  assert (Hc : c = 65535 - canon (zsum (words16 bs) + zsum (words16 cs))).
  { unfold c. rewrite checksum_canon by (done || lia). by rewrite Hw. }
  set (t := zsum (words16 bs) + zsum (words16 cs)) in *.
  pose proof (canon_range t) as Hr. destruct (canon_spec t) as (k & Hk & Ht); [lia|].
  rewrite onec_sum_canon; [|apply words16_u16; rewrite !Forall_app; auto with cint].
  rewrite !words16_app by (done || by rewrite length_le_store). rewrite !zsum_app.
  replace (zsum (words16 (le_store 2 c))) with c.
  - apply canon_unique; [lia..|]. exists k. lia.
  - change (zsum (words16 (le_store 2 c))) with (le_load (le_store 2 c) + 0).
    rewrite le_load_store. rewrite Z.mod_small; simpl; lia.
Qed.

Lemma checksum_verifies_witness :
  onec_sum (words16 ([0x45; 0] ++ le_store 2 (checksum ([0x45; 0] ++ [0; 0] ++ [10; 1]) 0) ++ [10; 1]))
  = 0xffff.
Proof.
  apply (checksum_verifies [0x45; 0] [10; 1]); try reflexivity; [..|simpl; lia];
    repeat constructor; unfold is_u8; lia.
Defined.

(** On a buffer [bs ++ [b]] of odd length the last byte is added after
    the carries have been folded, so the result is the RFC 1071 checksum when
    that addition does not carry out of 16 bits and one more than it when it
    does. *)
Theorem checksum_odd bs b :
  bytes_ok bs -> is_u8 b -> Nat.even (length bs) = true -> Z.of_nat (length bs) < 65535 ->
  let s := onec_sum (words16 bs) in
  checksum (bs ++ [b]) 0 =
  (if s + b <? 2 ^ 16 then rfc1071 (bs ++ [b]) else rfc1071 (bs ++ [b]) + 1).
Proof.
  intros Hbs Hb He Hl s. unfold is_u8 in Hb.
  pose proof (words16_u16 _ Hbs) as Hw. pose proof (words16_bound bs Hbs) as Hz.
  assert (Hs : s = canon (zsum (words16 bs))) by (unfold s; by rewrite onec_sum_canon).
  pose proof (canon_range (zsum (words16 bs))) as Hr.
  assert (Eo : Nat.even (length (bs ++ [b])) = false) by (by rewrite length_app, Nat.even_add, He).
  assert (Rfc : rfc1071 (bs ++ [b]) = 65535 - canon (s + b)).
  { unfold rfc1071, pad16. rewrite Eo, <- app_assoc, words16_app, onec_sum_canon; [|apply Forall_app|done].
    - rewrite zsum_app, Hs, canon_add_l by lia. unfold zsum at 2. simpl. do 2 f_equal. lia.
    - split; [done|]. repeat constructor; unfold is_u16; simpl; lia. }
  assert (Code : checksum (bs ++ [b]) 0 = 65535 - u16 (s + b)).
  { unfold checksum. rewrite even_mod, Eo, words16_app by done. rewrite app_nil_r.
    rewrite checksum_loop_sum by (done || lia). rewrite u16_lnot. f_equal.
    replace (nth _ _ 0) with b.
    2:{ rewrite length_app, app_nth2 by (simpl; lia). simpl.
        replace (_ - _)%nat with 0%nat by lia. done. }
    destruct (fold_canon (0 + zsum (words16 bs))) as [B E]; [lia|].
    rewrite u32_id by (unfold is_u32; lia).
    rewrite Hs. rewrite Z.add_0_l in *. rewrite <- E. unfold u16. by rewrite Zplus_mod_idemp_l. }
  rewrite Code, Rfc. unfold canon. clear Code Rfc. rewrite <- Hs in Hr. zcases; unfold u16.
  - replace (s + b) with 0 by lia. done.
  - lia.
  - rewrite !Z.mod_small by lia. lia.
  - rewrite <- (Z_mod_plus_full (s + b) (-1) (2 ^ 16)), <- (Z_mod_plus_full (s + b - 1) (-1) 65535).
    rewrite !Z.mod_small by lia. lia.
Qed.

(** Both sides of the test occur; on the second buffer the code is wrong. *)
Lemma checksum_odd_witness :
  checksum ([1; 0] ++ [2]) 0 = rfc1071 [1; 0; 2] /\
  checksum ([0xff; 0xff] ++ [0xff]) 0 = rfc1071 [0xff; 0xff; 0xff] + 1.
Proof.
  split.
  - apply (checksum_odd [1; 0] 2); try reflexivity; [repeat constructor|..];
      unfold is_u8; simpl; lia.
  - apply (checksum_odd [0xff; 0xff] 0xff); try reflexivity; [repeat constructor|..];
      unfold is_u8; simpl; lia.
Defined.
