(* ===== verification/RingBuffer.v ===== *)
(** * The receive buffer (include/ring_buffer.h)

    A circular byte buffer that keeps one cell free to tell a full buffer from
    an empty one.  [wf] is its invariant and [contents] the bytes it holds; the
    operations are shown to implement a bounded first-in first-out queue, for
    every sequence of reads and writes, the failing assertion of
    [write_ring_buffer] included. *)

From S2P Require Import Prelude.

Module Ring.

(** ** The code *)

(** [char buf[0]]: the flexible array member, [size] bytes long. *)
Record ring_buffer := RingBuffer {
  size : Z;
  head : Z;
  tail : Z;
  buf : list Z
}.

(** [malloc] and [memset(rbuf, 0, tot_size)], then [rbuf->size = size + 1]. *)
Definition alloc_ring_buffer (sz : Z) : ring_buffer :=
  RingBuffer (sz + 1) 0 0 (replicate (Z.to_nat (sz + 1)) 0).

Definition ring_buffer_used (rbuf : ring_buffer) : Z :=
  Z.rem (tail rbuf - head rbuf + size rbuf) (size rbuf).

Definition ring_buffer_free (rbuf : ring_buffer) : Z :=
  size rbuf - ring_buffer_used rbuf - 1.

Definition ring_buffer_empty (rbuf : ring_buffer) : bool := ring_buffer_used rbuf =? 0.
Definition ring_buffer_full (rbuf : ring_buffer) : bool := ring_buffer_free rbuf =? 0.

(** [memcpy(dst + off, src, length src)] and [n] bytes of a source at [off]. *)
Definition memcpy (dst : list Z) (off : Z) (src : list Z) : list Z :=
  list_inserts (Z.to_nat off) src dst.
Definition slice (src : list Z) (off n : Z) : list Z :=
  take (Z.to_nat n) (drop (Z.to_nat off) src).

(** The macro [min(x,y) ((x)<(y) ? (x) : (y))]. *)
Definition min (x y : Z) : Z := if x <? y then x else y.

(** The returned length, the bytes stored at [buf] and the buffer afterwards. *)
Definition read_ring_buffer (rbuf : ring_buffer) (sz : Z) : Z * list Z * ring_buffer :=
  let len := min (ring_buffer_used rbuf) sz in
  if 0 <? len then
    let data :=
      if size rbuf <? head rbuf + len then
        let right := size rbuf - head rbuf in
        let left := len - right in
        slice (buf rbuf) (head rbuf) right ++ slice (buf rbuf) 0 left
      else slice (buf rbuf) (head rbuf) len in
    (len, data,
     RingBuffer (size rbuf) (Z.rem (head rbuf + len) (size rbuf)) (tail rbuf) (buf rbuf))
  else (len, [], rbuf).

(** [None] is the failing [assert], which aborts the process.  [src] is the
    memory at [buf], at least [sz] bytes of it. *)
Definition write_ring_buffer (rbuf : ring_buffer) (src : list Z) (sz : Z) : option ring_buffer :=
  if negb ((0 <? sz) && (sz <=? ring_buffer_free rbuf)) then None
  else
    let len := sz in
    if 0 <? len then
      let buf' :=
        if size rbuf <? tail rbuf + len then
          let right := size rbuf - tail rbuf in
          let left := len - right in
          memcpy (memcpy (buf rbuf) (tail rbuf) (slice src 0 right)) 0 (slice src right left)
        else memcpy (buf rbuf) (tail rbuf) (slice src 0 len) in
      Some (RingBuffer (size rbuf) (head rbuf) (Z.rem (tail rbuf + len) (size rbuf)) buf')
    else Some rbuf.

(** ** Invariant and abstraction *)

(** [size < 2 ^ 30] keeps every sum of two positions inside [int]. *)
Definition wf (rbuf : ring_buffer) : Prop :=
  0 < size rbuf < 2 ^ 30 /\ 0 <= head rbuf < size rbuf /\ 0 <= tail rbuf < size rbuf /\
  Z.of_nat (length (buf rbuf)) = size rbuf.

(** The cell [k] positions after the start of the array, going round. *)
Definition cell (b : list Z) (sz k : Z) : Z := b !!! Z.to_nat (k mod sz).

Definition contents (rbuf : ring_buffer) : list Z :=
  (fun i => cell (buf rbuf) (size rbuf) (head rbuf + i)) <$> seqZ 0 (ring_buffer_used rbuf).

(** The specification: a queue of at most [cap] bytes. *)
Definition queue_write (cap : Z) (q data : list Z) : option (list Z) :=
  let n := Z.of_nat (length data) in
  if (0 <? n) && (Z.of_nat (length q) + n <=? cap) then Some (q ++ data) else None.
Definition queue_read (q : list Z) (n : Z) : list Z * list Z :=
  (take (Z.to_nat n) q, drop (Z.to_nat n) q).

(** ** Lemmas *)

Lemma mod_wrap x sz : 0 < sz -> 0 <= x < 2 * sz -> x mod sz = if x <? sz then x else x - sz.
Proof.
  intros Hs Hx. zcases; [apply Z.mod_small; lia|].
  symmetry. apply Z.mod_unique with 1; lia.
Qed.

Lemma used_cases rbuf :
  wf rbuf ->
  ring_buffer_used rbuf =
  if head rbuf <=? tail rbuf then tail rbuf - head rbuf
  else tail rbuf - head rbuf + size rbuf.
Proof.
  intros (Hs & Hh & Ht & _). unfold ring_buffer_used.
  rewrite Z.rem_mod_nonneg by lia. rewrite mod_wrap by lia. zcases; lia.
Qed.

Lemma used_range rbuf : wf rbuf -> 0 <= ring_buffer_used rbuf < size rbuf.
Proof. intros H. rewrite used_cases by done. destruct H as (? & ? & ? & _). zcases; lia. Qed.

Lemma length_contents rbuf :
  wf rbuf -> Z.of_nat (length (contents rbuf)) = ring_buffer_used rbuf.
Proof.
  intros H. unfold contents. rewrite length_fmap, length_seqZ.
  pose proof (used_range rbuf H). lia.
Qed.

Lemma length_memcpy dst off src : length (memcpy dst off src) = length dst.
Proof. apply length_inserts. Qed.

Lemma lookup_memcpy dst off src i :
  0 <= off -> 0 <= i -> off + Z.of_nat (length src) <= Z.of_nat (length dst) ->
  memcpy dst off src !!! Z.to_nat i =
  if (off <=? i) && (i <? off + Z.of_nat (length src)) then src !!! Z.to_nat (i - off)
  else dst !!! Z.to_nat i.
Proof.
  intros Ho Hi Hl. unfold memcpy. rewrite !list_lookup_total_alt.
  destruct (Z.leb_spec off i); simpl.
  - destruct (Z.ltb_spec i (off + Z.of_nat (length src))).
    + rewrite list_lookup_inserts by lia. do 2 f_equal. lia.
    + rewrite list_lookup_inserts_ge by lia. done.
  - rewrite list_lookup_inserts_lt by lia. done.
Qed.

Lemma length_slice src off n :
  0 <= off -> 0 <= n -> off + n <= Z.of_nat (length src) -> Z.of_nat (length (slice src off n)) = n.
Proof. intros. unfold slice. rewrite length_take, length_drop. lia. Qed.

Lemma lookup_slice src off n i :
  0 <= off -> 0 <= i < n -> slice src off n !!! Z.to_nat i = src !!! Z.to_nat (off + i).
Proof.
  intros Ho Hi. unfold slice. rewrite !list_lookup_total_alt, lookup_take_lt, lookup_drop by lia.
  do 2 f_equal. lia.
Qed.

Lemma list_eq_seqZ (l : list Z) (f : Z -> Z) m n :
  Z.of_nat (length l) = n -> (forall i, 0 <= i < n -> l !!! Z.to_nat i = f (m + i)) ->
  f <$> seqZ m n = l.
Proof.
  intros Hl Hf. apply list_eq. intros i. rewrite list_lookup_fmap.
  destruct (decide (Z.of_nat i < n)) as [Hi|Hi].
  - rewrite lookup_seqZ_lt by lia. simpl. rewrite <- Hf by lia. rewrite Nat2Z.id.
    symmetry. apply list_lookup_lookup_total_lt. lia.
  - rewrite lookup_seqZ_ge by lia. symmetry. apply lookup_ge_None. lia.
Qed.

(** What the two branches of the copy loop leave in the array: the data in the
    [len] cells from [tail] on, the other cells untouched. *)
Lemma write_cells rbuf src len rbuf' :
  wf rbuf -> len <= Z.of_nat (length src) ->
  write_ring_buffer rbuf src len = Some rbuf' ->
  forall k, 0 <= k < size rbuf ->
    cell (buf rbuf') (size rbuf) (tail rbuf + k) =
    if k <? len then src !!! Z.to_nat k else cell (buf rbuf) (size rbuf) (tail rbuf + k).
Proof.
  intros Hwf Hsrc Hw k Hk. pose proof (used_range _ Hwf) as Hu.
  destruct Hwf as (Hs & Hh & Ht & Hb). unfold write_ring_buffer, ring_buffer_free in Hw.
  destruct (negb _) eqn:Ea in Hw; [done|]. zprop.
  destruct (Z.ltb_spec 0 len); [|lia]. unfold cell.
  rewrite (mod_wrap (tail rbuf + k)) by lia.
  destruct (Z.ltb_spec (size rbuf) (tail rbuf + len)); inversion Hw; subst rbuf'; clear Hw; simpl.
  - set (right := size rbuf - tail rbuf).
    assert (L1 : Z.of_nat (length (slice src 0 right)) = right)
      by (apply length_slice; unfold right; lia).
    assert (L2 : Z.of_nat (length (slice src right (len - right))) = len - right)
      by (apply length_slice; unfold right; lia).
    destruct (Z.ltb_spec (tail rbuf + k) (size rbuf));
      rewrite !lookup_memcpy by (rewrite ?length_memcpy; lia); rewrite ?L1, ?L2.
    + replace (0 <=? tail rbuf + k) with true by (symmetry; lia).
      replace (tail rbuf + k <? 0 + (len - right)) with false by (symmetry; lia).
      replace (tail rbuf <=? tail rbuf + k) with true by (symmetry; lia).
      replace (tail rbuf + k <? tail rbuf + right) with true by (symmetry; lia).
      replace (k <? len) with true by (symmetry; lia). simpl.
      rewrite lookup_slice by (unfold right; lia). f_equal. f_equal. lia.
    + replace (0 <=? tail rbuf + k - size rbuf) with true by (symmetry; lia).
      replace (tail rbuf <=? tail rbuf + k - size rbuf) with false by (symmetry; lia). simpl.
      replace (tail rbuf + k - size rbuf <? 0 + (len - right)) with (k <? len)
        by (unfold right; zcases; lia).
      zcases; [|done]. rewrite lookup_slice by (unfold right; lia). f_equal. unfold right. f_equal. lia.
  - assert (L1 : Z.of_nat (length (slice src 0 len)) = len) by (apply length_slice; lia).
    rewrite lookup_memcpy by (zcases; lia). rewrite L1.
    destruct (Z.ltb_spec (tail rbuf + k) (size rbuf)).
    + replace (tail rbuf <=? tail rbuf + k) with true by (symmetry; lia).
      replace (tail rbuf + k <? tail rbuf + len) with (k <? len) by (zcases; lia). simpl.
      zcases; [|done]. rewrite lookup_slice by lia. f_equal. f_equal. lia.
    + replace (tail rbuf <=? tail rbuf + k - size rbuf) with false by (symmetry; lia). simpl.
      replace (k <? len) with false by (symmetry; lia). done.
Qed.

Lemma write_shape rbuf src len rbuf' :
  wf rbuf -> write_ring_buffer rbuf src len = Some rbuf' ->
  0 < len <= ring_buffer_free rbuf /\ size rbuf' = size rbuf /\ head rbuf' = head rbuf /\
  tail rbuf' = (tail rbuf + len) mod size rbuf /\ length (buf rbuf') = length (buf rbuf).
Proof.
  intros Hwf Hw. pose proof (used_range _ Hwf). destruct Hwf as (Hs & Hh & Ht & Hb).
  unfold write_ring_buffer in Hw. destruct (negb _) eqn:Ea in Hw; [done|]. zprop.
  destruct (Z.ltb_spec 0 len); [|lia]. inversion Hw; subst; clear Hw; simpl.
  rewrite Z.rem_mod_nonneg by lia. repeat split; try lia.
  destruct (_ <? _); by rewrite ?length_memcpy.
Qed.

Lemma write_wf rbuf src len rbuf' :
  wf rbuf -> write_ring_buffer rbuf src len = Some rbuf' -> wf rbuf'.
Proof.
  intros Hwf Hw. destruct (write_shape _ _ _ _ Hwf Hw) as (_ & Es & Eh & Et & Eb).
  destruct Hwf as (Hs & Hh & Ht & Hb). unfold wf. rewrite Es, Eh, Et, Eb.
  pose proof (Z.mod_pos_bound (tail rbuf + len) (size rbuf)). lia.
Qed.

(** Storing a new [tail], [len] cells on. *)
Lemma tail_used rbuf rbuf' len :
  wf rbuf -> wf rbuf' -> 0 < len <= ring_buffer_free rbuf ->
  size rbuf' = size rbuf -> head rbuf' = head rbuf -> tail rbuf' = (tail rbuf + len) mod size rbuf ->
  ring_buffer_used rbuf' = ring_buffer_used rbuf + len.
Proof.
  intros Hwf Hwf' Hl Es Eh Et. unfold ring_buffer_free in Hl. pose proof (used_range _ Hwf).
  rewrite (used_cases _ Hwf') in *. rewrite (used_cases _ Hwf) in *.
  destruct Hwf as (Hs & Hh & Ht & _). rewrite Es, Eh, Et.
  rewrite (mod_wrap (tail rbuf + len)) by (revert Hl; zcases; lia). revert Hl. zcases; lia.
Qed.

Lemma write_used rbuf src len rbuf' :
  wf rbuf -> write_ring_buffer rbuf src len = Some rbuf' ->
  ring_buffer_used rbuf' = ring_buffer_used rbuf + len.
Proof.
  intros Hwf Hw. destruct (write_shape _ _ _ _ Hwf Hw) as (Hl & Es & Eh & Et & _).
  eauto using tail_used, write_wf.
Qed.

(** The cells from [head] to [tail] in terms of the write position. *)
Lemma cell_from_tail rbuf i :
  wf rbuf -> 0 <= i < size rbuf ->
  exists k, 0 <= k < size rbuf /\
    (forall b, cell b (size rbuf) (head rbuf + i) = cell b (size rbuf) (tail rbuf + k)) /\
    k = (if i <? ring_buffer_used rbuf then size rbuf - ring_buffer_used rbuf + i
         else i - ring_buffer_used rbuf).
Proof.
  intros Hwf Hi. pose proof (used_range _ Hwf). pose proof (used_cases _ Hwf) as Hu.
  destruct Hwf as (Hs & Hh & Ht & _).
  eexists; split; [|split; [|reflexivity]].
  - zcases; lia.
  - intros b. unfold cell. do 2 f_equal. rewrite !mod_wrap by (zcases; lia).
    revert Hu. zcases; lia.
Qed.

(** Moving [tail] over [len] cells that hold [src] appends it. *)
Lemma append_contents rbuf rbuf' src len :
  wf rbuf -> wf rbuf' -> 0 < len <= ring_buffer_free rbuf -> len <= Z.of_nat (length src) ->
  size rbuf' = size rbuf -> head rbuf' = head rbuf -> tail rbuf' = (tail rbuf + len) mod size rbuf ->
  (forall k, 0 <= k < size rbuf ->
    cell (buf rbuf') (size rbuf) (tail rbuf + k) =
    if k <? len then src !!! Z.to_nat k else cell (buf rbuf) (size rbuf) (tail rbuf + k)) ->
  contents rbuf' = contents rbuf ++ take (Z.to_nat len) src.
Proof.
  intros Hwf Hwf' Hl Hsrc Es Eh Et Hcells.
  pose proof (tail_used _ _ _ Hwf Hwf' Hl Es Eh Et) as Hused.
  pose proof (used_range _ Hwf). unfold ring_buffer_free in Hl.
  unfold contents. rewrite Hused, Es, Eh, seqZ_app, fmap_app by lia.
  assert (Hc : forall i, 0 <= i < size rbuf ->
    cell (buf rbuf') (size rbuf) (head rbuf + i) =
    if (ring_buffer_used rbuf <=? i) && (i <? ring_buffer_used rbuf + len)
    then src !!! Z.to_nat (i - ring_buffer_used rbuf)
    else cell (buf rbuf) (size rbuf) (head rbuf + i)).
  { intros i Hi. destruct (cell_from_tail rbuf i Hwf Hi) as (k & Hk & Ek & Dk).
    rewrite !Ek, Hcells by done. rewrite Dk.
    destruct (Z.ltb_spec i (ring_buffer_used rbuf)).
    - replace (ring_buffer_used rbuf <=? i) with false by (symmetry; lia). simpl.
      zcases; [lia|done].
    - replace (ring_buffer_used rbuf <=? i) with true by (symmetry; lia). simpl.
      zcases; (done || lia). }
  f_equal.
  - apply list_fmap_ext. intros j x [-> Hj]%lookup_seqZ.
    rewrite Hc by lia. replace (_ <=? _) with false by (symmetry; lia). done.
  - apply list_eq_seqZ; [rewrite length_take; lia|]. intros i Hi.
    rewrite Hc by lia. replace (_ <=? _) with true by (symmetry; lia).
    replace (_ <? _) with true by (symmetry; lia). simpl.
    rewrite !list_lookup_total_alt, lookup_take_lt by lia. do 2 f_equal. lia.
Qed.

Lemma write_contents rbuf src len rbuf' :
  wf rbuf -> len <= Z.of_nat (length src) ->
  write_ring_buffer rbuf src len = Some rbuf' ->
  contents rbuf' = contents rbuf ++ take (Z.to_nat len) src.
Proof.
  intros Hwf Hsrc Hw. destruct (write_shape _ _ _ _ Hwf Hw) as (Hl & Es & Eh & Et & _).
  eauto using append_contents, write_wf, write_cells.
Qed.

(** ** Reading *)

Lemma read_shape rbuf sz :
  wf rbuf ->
  let '(len, data, rbuf') := read_ring_buffer rbuf sz in
  len = Z.min (ring_buffer_used rbuf) sz /\ size rbuf' = size rbuf /\
  tail rbuf' = tail rbuf /\ buf rbuf' = buf rbuf /\
  head rbuf' = (head rbuf + Z.max 0 len) mod size rbuf /\ wf rbuf' /\
  Z.of_nat (length data) = Z.max 0 len /\
  (forall i, 0 <= i < len -> data !!! Z.to_nat i = cell (buf rbuf) (size rbuf) (head rbuf + i)).
Proof.
  intros Hwf. pose proof (used_range _ Hwf) as Hu. destruct Hwf as (Hs & Hh & Ht & Hb).
  unfold read_ring_buffer.
  assert (Em : min (ring_buffer_used rbuf) sz = Z.min (ring_buffer_used rbuf) sz)
    by (unfold min; zcases; lia).
  rewrite Em. set (len := Z.min _ sz).
  destruct (Z.ltb_spec 0 len) as [Hl|Hl].
  - assert (Hlu : len <= ring_buffer_used rbuf) by lia.
    rewrite Z.rem_mod_nonneg by lia. rewrite (Z.max_r 0 len) by lia. simpl.
    repeat match goal with |- _ /\ _ => split; [done|] end.
    split; [unfold wf; simpl; pose proof (Z.mod_pos_bound (head rbuf + len) (size rbuf)); lia|].
    unfold cell. destruct (Z.ltb_spec (size rbuf) (head rbuf + len)).
    + set (right := size rbuf - head rbuf).
      assert (L1 : Z.of_nat (length (slice (buf rbuf) (head rbuf) right)) = right)
        by (apply length_slice; unfold right; lia).
      assert (L2 : Z.of_nat (length (slice (buf rbuf) 0 (len - right))) = len - right)
        by (apply length_slice; unfold right; lia).
      split; [rewrite length_app; lia|]. intros i Hi. rewrite mod_wrap by lia.
      destruct (decide (i < right)).
      * rewrite lookup_total_app_l by lia. rewrite lookup_slice by lia. f_equal. f_equal.
        zcases; unfold right in *; lia.
      * rewrite lookup_total_app_r by lia.
        replace (Z.to_nat i - length (slice (buf rbuf) (head rbuf) right))%nat
          with (Z.to_nat (i - right)) by lia.
        rewrite lookup_slice by lia. f_equal. f_equal. zcases; unfold right in *; lia.
    + split; [apply length_slice; lia|]. intros i Hi. rewrite lookup_slice by lia.
      rewrite mod_wrap by lia. f_equal. f_equal. zcases; lia.
  - rewrite (Z.max_l 0 len) by lia. rewrite Z.add_0_r, Z.mod_small by lia. simpl.
    repeat split; (done || lia).
Qed.

Lemma read_contents rbuf sz :
  wf rbuf ->
  let '(len, data, rbuf') := read_ring_buffer rbuf sz in
  data = take (Z.to_nat sz) (contents rbuf) /\ contents rbuf' = drop (Z.to_nat sz) (contents rbuf).
Proof.
  intros Hwf. pose proof (read_shape rbuf sz Hwf) as H. pose proof (used_range _ Hwf) as Hu.
  pose proof (length_contents _ Hwf) as Hlc.
  destruct (read_ring_buffer rbuf sz) as [[len data] rbuf'].
  destruct H as (El & Es & Et & Eb & Eh & Hwf' & Ld & Hd).
  assert (Eu : ring_buffer_used rbuf' = ring_buffer_used rbuf - Z.max 0 len).
  { rewrite (used_cases _ Hwf'), Es, Et, Eh. rewrite (used_cases _ Hwf) in *.
    destruct Hwf as (Hs & Hh & Ht & _). rewrite mod_wrap by (revert Hu El; zcases; lia).
    revert Hu El. zcases; lia. }
  set (m := Z.max 0 len) in *.
  assert (Hsplit : contents rbuf = data ++ contents rbuf').
  { unfold contents. rewrite Eu.
    replace (ring_buffer_used rbuf) with (m + (ring_buffer_used rbuf - m)) at 1 by lia.
    rewrite seqZ_app, fmap_app by lia. f_equal.
    - apply list_eq_seqZ; [done|]. intros i Hi. apply Hd. lia.
    - rewrite <- (Z.add_0_r (0 + m)), <- fmap_add_seqZ, <- list_fmap_compose.
      apply list_fmap_ext. intros j x [-> Hj]%lookup_seqZ. simpl.
      unfold cell. rewrite Es, Eb, Eh. do 2 f_equal.
      rewrite Zplus_mod_idemp_l. f_equal. lia. }
  assert (Em : m = 0 /\ Z.to_nat sz = 0%nat \/ m = sz \/ (contents rbuf' = [] /\ m = ring_buffer_used rbuf)).
  { destruct (decide (m = ring_buffer_used rbuf)) as [E|]; [right; right|lia].
    split; [|done]. unfold contents. rewrite Eu, E, Z.sub_diag. done. }
  rewrite Hsplit in Hlc |- *. rewrite length_app in Hlc.
  destruct Em as [[E0 ->]|[E|[E E']]].
  - replace data with (@nil Z); [done|]. symmetry. apply nil_length_inv. lia.
  - rewrite take_app_length', drop_app_length' by lia. done.
  - rewrite E, app_nil_r in *. rewrite take_ge, drop_ge by (simpl in *; lia). done.
Qed.

(** ** Sequences of operations *)

(** One call of the interface, and what the caller observes of it. *)
Inductive rb_op := OpWrite (data : list Z) | OpRead (n : Z).
Inductive rb_obs := Wrote | Got (len : Z) (data : list Z).

Definition rb_step (rbuf : ring_buffer) (o : rb_op) : option (rb_obs * ring_buffer) :=
  match o with
  | OpWrite data =>
      rbuf' ← write_ring_buffer rbuf data (Z.of_nat (length data)); Some (Wrote, rbuf')
  | OpRead n => let '(len, data, rbuf') := read_ring_buffer rbuf n in Some (Got len data, rbuf')
  end.

Definition queue_step (cap : Z) (q : list Z) (o : rb_op) : option (rb_obs * list Z) :=
  match o with
  | OpWrite data => q' ← queue_write cap q data; Some (Wrote, q')
  | OpRead n =>
      let '(data, q') := queue_read q n in Some (Got (Z.min (Z.of_nat (length q)) n) data, q')
  end.

(** Run a whole sequence; [None] as soon as one operation aborts. *)
Fixpoint run {S} (step : S -> rb_op -> option (rb_obs * S)) (s : S) (os : list rb_op) :
    option (list rb_obs * S) :=
  match os with
  | [] => Some ([], s)
  | o :: os =>
      '(r, s) ← step s o; '(rs, s) ← run step s os; Some (r :: rs, s)
  end.

Lemma write_None rbuf src len :
  wf rbuf ->
  write_ring_buffer rbuf src len = None <-> ~ (0 < len <= ring_buffer_free rbuf).
Proof.
  intros Hwf. unfold write_ring_buffer.
  destruct (Z.ltb_spec 0 len); simpl; [|split; [lia|done]].
  destruct (Z.leb_spec len (ring_buffer_free rbuf)); simpl; split; (done || lia).
Qed.

(** One step of the code is one step of the queue. *)
Lemma step_refines rbuf o :
  wf rbuf ->
  queue_step (size rbuf - 1) (contents rbuf) o =
  (fun '(r, rbuf') => (r, contents rbuf')) <$> rb_step rbuf o /\
  (forall r rbuf', rb_step rbuf o = Some (r, rbuf') -> wf rbuf' /\ size rbuf' = size rbuf).
Proof.
  intros Hwf. pose proof (length_contents _ Hwf) as Hl. destruct o as [data|n]; simpl.
  - unfold queue_write. rewrite Hl.
    pose proof (write_None rbuf data (Z.of_nat (length data)) Hwf) as HN.
    unfold ring_buffer_free in HN.
    destruct (write_ring_buffer _ _ _) as [rbuf'|] eqn:Hw; simpl.
    + pose proof (write_shape _ _ _ _ Hwf Hw) as (Hb & Es & _). unfold ring_buffer_free in Hb.
      replace (0 <? _) with true by (symmetry; lia).
      replace (_ <=? _) with true by (symmetry; lia). simpl.
      rewrite (write_contents _ _ _ _ Hwf ltac:(done) Hw), Nat2Z.id, firstn_all.
      split; [done|]. intros r rb [= <- <-]. eauto using write_wf.
    + destruct ((0 <? _) && (_ <=? _)) eqn:E; [|done]. zprop. destruct HN as [HN _]. specialize (HN eq_refl). lia.
  - pose proof (read_shape rbuf n Hwf) as Hs. pose proof (read_contents rbuf n Hwf) as Hc.
    destruct (read_ring_buffer rbuf n) as [[len data] rbuf'].
    destruct Hs as (El & Es & _ & _ & _ & Hwf' & _). destruct Hc as [Ed Ec]. simpl.
    rewrite Hl, El, Ed, Ec. split; [done|]. intros r rb [= <- <-]. done.
Qed.

Lemma alloc_wf cap : 0 <= cap < 2 ^ 30 - 1 -> wf (alloc_ring_buffer cap).
Proof. intros Hcap. unfold wf, alloc_ring_buffer; simpl. rewrite length_replicate. lia. Qed.

(** ** Theorems *)

(** C6: for every sequence of writes and reads on a buffer allocated
    with capacity [cap], the ring buffer returns exactly what a first-in
    first-out queue bounded by [cap] returns, aborts on the same operation, and
    ends up holding the same bytes with its invariant intact. *)
Theorem ring_buffer_refines_queue cap os :
  0 <= cap < 2 ^ 30 - 1 ->
  (run (queue_step cap) [] os =
   (fun '(rs, rbuf) => (rs, contents rbuf)) <$> run rb_step (alloc_ring_buffer cap) os) /\
  (forall rs rbuf, run rb_step (alloc_ring_buffer cap) os = Some (rs, rbuf) -> wf rbuf).
Proof.
  intros Hcap.
  assert (G : forall rbuf, wf rbuf -> size rbuf = cap + 1 ->
    (run (queue_step cap) (contents rbuf) os =
     (fun '(rs, rbuf) => (rs, contents rbuf)) <$> run rb_step rbuf os) /\
    (forall rs rbuf', run rb_step rbuf os = Some (rs, rbuf') -> wf rbuf')).
  { induction os as [|o os IH]; intros rbuf Hwf Hs; simpl.
    - split; [done|]. by intros ?? [= _ <-].
    - destruct (step_refines rbuf o Hwf) as [E P].
      replace (size rbuf - 1) with cap in E by lia. rewrite E.
      destruct (rb_step rbuf o) as [[r rbuf']|]; simpl; [|done].
      destruct (P _ _ eq_refl) as [Hwf' Hs'].
      destruct (IH rbuf' Hwf' ltac:(lia)) as [E' P']. rewrite E'.
      destruct (run rb_step rbuf' os) as [[rs rbuf'']|]; simpl; [|done].
      split; [done|]. intros ?? [= _ <-]. eauto. }
  pose proof (alloc_wf cap Hcap) as Hwf.
  destruct (G _ Hwf eq_refl) as [E P]. split; [|exact P]. rewrite <- E. f_equal.
  unfold contents, ring_buffer_used, alloc_ring_buffer; simpl.
  rewrite Z.rem_same by lia. done.
Qed.

(** Three bytes of capacity: a read that wraps round, then a write that aborts. *)
Lemma ring_buffer_refines_queue_witness :
  run (queue_step 3) [] [OpWrite [1; 2; 3]; OpRead 2; OpWrite [4; 5]; OpRead 9] =
    Some ([Wrote; Got 2 [1; 2]; Wrote; Got 3 [3; 4; 5]], []) /\
  run rb_step (alloc_ring_buffer 3) [OpWrite [1; 2]; OpWrite [3; 4]] = None.
Proof.
  split.
  - rewrite (proj1 (ring_buffer_refines_queue 3 _ ltac:(lia))). reflexivity.
  - reflexivity.
Defined.

(** [write_ring_buffer] aborts on its assertion exactly when the
    size is not positive or exceeds the free space; otherwise it appends the
    first [len] bytes of the source and the free space shrinks by [len]. *)
Theorem write_ring_buffer_spec rbuf src len :
  wf rbuf -> len <= Z.of_nat (length src) ->
  (write_ring_buffer rbuf src len = None <-> ~ (0 < len <= ring_buffer_free rbuf)) /\
  (forall rbuf', write_ring_buffer rbuf src len = Some rbuf' ->
     wf rbuf' /\ contents rbuf' = contents rbuf ++ take (Z.to_nat len) src /\
     ring_buffer_free rbuf' = ring_buffer_free rbuf - len).
Proof.
  intros Hwf Hsrc. split; [by apply write_None|]. intros rbuf' Hw.
  pose proof (write_used _ _ _ _ Hwf Hw). pose proof (write_shape _ _ _ _ Hwf Hw) as (_ & Es & _).
  split; [eauto using write_wf|]. split; [eauto using write_contents|].
  unfold ring_buffer_free. lia.
Qed.

Lemma write_ring_buffer_spec_witness :
  contents (RingBuffer 4 3 2 [2; 3; 0; 1]) = [1; 2; 3] /\
  write_ring_buffer (RingBuffer 4 3 2 [2; 3; 0; 1]) [7] 1 = None.
Proof.
  split; [reflexivity|].
  apply (write_ring_buffer_spec (RingBuffer 4 3 2 [2; 3; 0; 1]) [7] 1).
  - unfold wf; simpl; lia.
  - simpl; lia.
  - vm_compute. intros [_ H]. by apply H.
Defined.

(** [read_ring_buffer] returns [min(used, size)], copies out the
    oldest bytes in order and leaves the others; a size that is zero or
    negative is returned as it is and changes nothing. *)
Theorem read_ring_buffer_spec rbuf sz :
  wf rbuf ->
  let '(len, data, rbuf') := read_ring_buffer rbuf sz in
  len = Z.min (ring_buffer_used rbuf) sz /\ wf rbuf' /\
  data = take (Z.to_nat sz) (contents rbuf) /\
  contents rbuf' = drop (Z.to_nat sz) (contents rbuf) /\
  (sz <= 0 -> len = sz /\ rbuf' = rbuf).
Proof.
  intros Hwf. pose proof (read_shape rbuf sz Hwf) as Hs. pose proof (read_contents rbuf sz Hwf) as Hc.
  pose proof (used_range _ Hwf).
  destruct (read_ring_buffer rbuf sz) as [[len data] rbuf'] eqn:E.
  destruct Hs as (El & _ & _ & _ & _ & Hwf' & _). destruct Hc as [Ed Ec].
  repeat (split; [done|]). intros Hsz. split; [lia|].
  unfold read_ring_buffer, min in E. rewrite !(proj2 (Z.ltb_ge _ _)) in E by (zcases; lia).
  congruence.
Qed.

Lemma read_ring_buffer_spec_witness :
  contents (read_ring_buffer (RingBuffer 4 3 2 [2; 3; 0; 1]) 2).2 = [3].
Proof.
  pose proof (read_ring_buffer_spec (RingBuffer 4 3 2 [2; 3; 0; 1]) 2) as H. simpl in H.
  destruct H as (_ & _ & _ & H & _); [unfold wf; simpl; lia|]. exact H.
Defined.

(** Under the invariant every position the two routines compute fits
    [int], the used and free counts are in range and add up to the capacity, and
    the two pieces of a wrapped copy stay inside the array without overlapping. *)
Theorem ring_buffer_bounds rbuf len :
  wf rbuf -> 0 < len < size rbuf ->
  is_int (tail rbuf - head rbuf + size rbuf) /\ is_int (head rbuf + len) /\ is_int (tail rbuf + len) /\
  0 <= ring_buffer_used rbuf < size rbuf /\ 0 <= ring_buffer_free rbuf < size rbuf /\
  ring_buffer_used rbuf + ring_buffer_free rbuf = size rbuf - 1 /\
  (forall pos, pos = head rbuf \/ pos = tail rbuf -> size rbuf < pos + len ->
     let right := size rbuf - pos in let left := len - right in
     0 < right /\ pos + right = size rbuf /\ 0 < left < pos).
Proof.
  intros Hwf Hl. pose proof (used_range _ Hwf). destruct Hwf as (Hs & Hh & Ht & _).
  unfold ring_buffer_free, is_int. repeat split; try lia;
    match goal with H : _ \/ _ |- _ => destruct H; subst end; lia.
Qed.

Lemma ring_buffer_bounds_witness :
  ring_buffer_used (RingBuffer 4 3 2 [2; 3; 0; 1]) + ring_buffer_free (RingBuffer 4 3 2 [2; 3; 0; 1]) = 3.
Proof.
  apply (ring_buffer_bounds (RingBuffer 4 3 2 [2; 3; 0; 1]) 1); [unfold wf|]; simpl; lia.
Defined.

End Ring.
