(* ===== verification/RingConc.v ===== *)
(** * The receive buffer between two threads (include/ring_buffer.h)

    The buffer is meant for one thread that reads and one that writes, without a
    lock.  Here [read_ring_buffer] and [write_ring_buffer] run in two threads at
    the grain of single accesses: every evaluation of [ring_buffer_used] loads the
    other side's position once, [memcpy] moves one byte at a time, and the store to
    [head] or [tail] is a step of its own.  Loads and stores of an aligned [int]
    are taken as atomic and seen by the other thread in order.

    The file shows that the stores to [head] and [tail] are the points at which a
    read and a write happen: in that order the calls are those of a first-in
    first-out queue, so no byte is lost, repeated or changed.  It also shows what
    the macro [min] does here: it evaluates [ring_buffer_used] twice, and a write
    in between makes the reader copy more bytes than it was asked for. *)

From S2P Require Import Prelude RingBuffer.

Module Spsc.

(** ** The code *)

(** Where the reader is: before the test of [min], before its second
    evaluation, copying (the bytes copied so far) or about to store [head].  [sz]:
    the size asked for. *)
Inductive rpc := RIdle | RTest (sz : Z) | RPick (sz : Z) | RCopy (sz len : Z) (data : list Z).

(** Where the writer is: before the assertion, or copying (with the number of
    bytes copied) and then about to store [tail]; or the process has aborted. *)
Inductive wpc := WIdle | WAssert (src : list Z) (sz : Z) | WCopy (src : list Z) (sz i : Z) | WAborted.
#[export] Instance wpc_eq_dec : EqDecision wpc.
Proof. solve_decision. Defined.

(** What a step shows: nothing, or the point at which a call takes effect. *)
Inductive event :=
  | ETau
  | ERead (sz len : Z) (data : list Z)
  | EWrite (data : list Z)
  | EAbort (data : list Z).

(** The cell of byte [i] of a copy of [len] bytes at position [pos]: the two
    branches of both routines. *)
Definition copy_index (rbuf : Ring.ring_buffer) (pos len i : Z) : Z :=
  if Ring.size rbuf <? pos + len then
    let right := Ring.size rbuf - pos in
    if i <? right then pos + i else i - right
  else pos + i.

Definition set_buf (b : list Z) (rbuf : Ring.ring_buffer) : Ring.ring_buffer :=
  Ring.RingBuffer (Ring.size rbuf) (Ring.head rbuf) (Ring.tail rbuf) b.
Definition move_head (len : Z) (rbuf : Ring.ring_buffer) : Ring.ring_buffer :=
  Ring.RingBuffer (Ring.size rbuf) (Z.rem (Ring.head rbuf + len) (Ring.size rbuf)) (Ring.tail rbuf) (Ring.buf rbuf).
Definition move_tail (len : Z) (rbuf : Ring.ring_buffer) : Ring.ring_buffer :=
  Ring.RingBuffer (Ring.size rbuf) (Ring.head rbuf) (Z.rem (Ring.tail rbuf + len) (Ring.size rbuf)) (Ring.buf rbuf).

(** After [len] is known. *)
Definition read_len (sz len : Z) : rpc * event :=
  if 0 <? len then (RCopy sz len [], ETau) else (RIdle, ERead sz len []).

(** One step of each thread inside its routine; [None]: it is not in there, or
    the copy leaves the array or the source. *)
Definition exec_read (p : rpc) (rbuf : Ring.ring_buffer) : option (rpc * event * Ring.ring_buffer) :=
  match p with
  | RIdle => None
  | RTest sz =>
      Some (if Ring.ring_buffer_used rbuf <? sz then (RPick sz, ETau, rbuf) else (read_len sz sz, rbuf))
  | RPick sz => Some (read_len sz (Ring.ring_buffer_used rbuf), rbuf)
  | RCopy sz len data =>
      let i := Z.of_nat (length data) in
      if i <? len then
        x ← Ring.buf rbuf !! Z.to_nat (copy_index rbuf (Ring.head rbuf) len i);
        Some (RCopy sz len (data ++ [x]), ETau, rbuf)
      else Some (RIdle, ERead sz len data, move_head len rbuf)
  end.

Definition exec_write (p : wpc) (rbuf : Ring.ring_buffer) : option (wpc * event * Ring.ring_buffer) :=
  match p with
  | WIdle | WAborted => None
  | WAssert src sz =>
      if (0 <? sz) && (sz <=? Ring.ring_buffer_free rbuf) then Some (WCopy src sz 0, ETau, rbuf)
      else Some (WAborted, EAbort (take (Z.to_nat sz) src), rbuf)
  | WCopy src sz i =>
      if i <? sz then
        let k := Z.to_nat (copy_index rbuf (Ring.tail rbuf) sz i) in
        x ← src !! Z.to_nat i; _ ← Ring.buf rbuf !! k;
        Some (WCopy src sz (i + 1), ETau, set_buf (<[k := x]> (Ring.buf rbuf)) rbuf)
      else Some (WIdle, EWrite (take (Z.to_nat sz) src), move_tail sz rbuf)
  end.

(** ** The two threads *)

Record sys := Sys { rbuf : Ring.ring_buffer; reader : rpc; writer : wpc }.

(** Calls may come at any time; the caller of [write_ring_buffer] has at least
    [sz] bytes.  A failed assertion ends the process. *)
Inductive step : sys -> event -> sys -> Prop :=
  | step_call_read rb sz w : w ≠ WAborted -> step (Sys rb RIdle w) ETau (Sys rb (RTest sz) w)
  | step_call_write rb src sz r :
      sz <= Z.of_nat (length src) -> step (Sys rb r WIdle) ETau (Sys rb r (WAssert src sz))
  | step_read rb p w p' e rb' :
      w ≠ WAborted -> exec_read p rb = Some (p', e, rb') -> step (Sys rb p w) e (Sys rb' p' w)
  | step_write rb r p p' e rb' :
      exec_write p rb = Some (p', e, rb') -> step (Sys rb r p) e (Sys rb' r p').

Inductive steps : sys -> list event -> sys -> Prop :=
  | steps_refl s : steps s [] s
  | steps_snoc s es s' e s'' : steps s es s' -> step s' e s'' -> steps s (es ++ [e]) s''.

Definition start (cap : Z) : sys := Sys (Ring.alloc_ring_buffer cap) RIdle WIdle.

(** ** The specification: a queue and the points of effect *)

Definition spec_step (cap : Z) (q : list Z) (e : event) : option (list Z) :=
  match e with
  | ETau => Some q
  | ERead _ len data =>
      if decide (len <= Z.of_nat (length q) /\ (Ring.queue_read q len).1 = data)
      then Some (Ring.queue_read q len).2 else None
  | EWrite data => Ring.queue_write cap q data
  | EAbort data => match Ring.queue_write cap q data with Some _ => None | None => Some q end
  end.
Fixpoint spec_run (cap : Z) (q : list Z) (es : list event) : option (list Z) :=
  match es with [] => Some q | e :: es => q' ← spec_step cap q e; spec_run cap q' es end.

(** The bytes written and the bytes read. *)
Definition written (es : list event) : list Z :=
  concat ((fun e => match e with EWrite data => data | _ => [] end) <$> es).
Definition delivered (es : list event) : list Z :=
  concat ((fun e => match e with ERead _ _ data => data | _ => [] end) <$> es).

(** ** What each side owns *)

(** The reader owns the [len] oldest bytes, of which it holds the first ones. *)
Definition reader_ok (rb : Ring.ring_buffer) (p : rpc) : Prop :=
  match p with
  | RCopy _ len data =>
      0 < len <= Ring.ring_buffer_used rb /\ Z.of_nat (length data) <= len /\
      data = take (length data) (Ring.contents rb)
  | _ => True
  end.

(** The writer owns [sz] free cells, of which the first [i] are filled. *)
Definition writer_ok (rb : Ring.ring_buffer) (p : wpc) : Prop :=
  match p with
  | WAssert src sz => sz <= Z.of_nat (length src)
  | WCopy src sz i =>
      0 < sz <= Ring.ring_buffer_free rb /\ sz <= Z.of_nat (length src) /\ 0 <= i <= sz /\
      (forall k, 0 <= k < i ->
        Ring.cell (Ring.buf rb) (Ring.size rb) (Ring.tail rb + k) = src !!! Z.to_nat k)
  | _ => True
  end.

Definition sys_ok (cap : Z) (s : sys) : Prop :=
  Ring.wf (rbuf s) /\ Ring.size (rbuf s) = cap + 1 /\
  reader_ok (rbuf s) (reader s) /\ writer_ok (rbuf s) (writer s).

Lemma copy_index_mod rb pos len i :
  0 < Ring.size rb -> 0 <= pos < Ring.size rb -> 0 <= i < len -> len <= Ring.size rb ->
  copy_index rb pos len i = (pos + i) mod Ring.size rb.
Proof. intros. unfold copy_index. rewrite Ring.mod_wrap by lia. zcases; lia. Qed.

Lemma copy_index_range rb pos len i :
  0 < Ring.size rb -> 0 <= pos < Ring.size rb -> 0 <= i < len -> len <= Ring.size rb ->
  0 <= copy_index rb pos len i < Ring.size rb.
Proof. intros. rewrite copy_index_mod by done. apply Z.mod_pos_bound. lia. Qed.

(** A byte the reader copies. *)
Lemma read_cell rb len i :
  Ring.wf rb -> 0 <= i < len -> len <= Ring.ring_buffer_used rb ->
  Ring.buf rb !! Z.to_nat (copy_index rb (Ring.head rb) len i) =
  Some (Ring.contents rb !!! Z.to_nat i).
Proof.
  intros Hwf Hi Hl. pose proof (Ring.used_range _ Hwf) as Hu.
  pose proof (Ring.length_contents _ Hwf) as Hc. destruct Hwf as (Hs & Hh & Ht & Hb).
  pose proof (copy_index_range rb (Ring.head rb) len i).
  rewrite list_lookup_lookup_total_lt by lia. f_equal.
  rewrite copy_index_mod by lia. symmetry. apply list_lookup_total_correct.
  unfold Ring.contents. rewrite list_lookup_fmap, lookup_seqZ_lt by lia. simpl.
  unfold Ring.cell. do 4 f_equal. lia.
Qed.

(** A byte the writer copies goes to a free cell: the queue is as it was. *)
Lemma set_buf_wf rb b : Ring.wf rb -> length b = length (Ring.buf rb) -> Ring.wf (set_buf b rb).
Proof. intros Hwf E. unfold Ring.wf in *. simpl. rewrite E. lia. Qed.

Lemma cell_insert rb k x j :
  Ring.wf rb -> 0 <= k < Ring.size rb ->
  Ring.cell (<[Z.to_nat k := x]> (Ring.buf rb)) (Ring.size rb) j =
  if j mod Ring.size rb =? k then x else Ring.cell (Ring.buf rb) (Ring.size rb) j.
Proof.
  intros (Hs & _ & _ & Hb) Hk. unfold Ring.cell.
  pose proof (Z.mod_pos_bound j (Ring.size rb) ltac:(lia)). zcases.
  - subst. apply list_lookup_total_insert_eq. lia.
  - apply list_lookup_total_insert_ne. lia.
Qed.

Lemma write_byte_contents rb i x :
  Ring.wf rb -> 0 <= i < Ring.ring_buffer_free rb ->
  Ring.contents (set_buf (<[Z.to_nat ((Ring.tail rb + i) mod Ring.size rb) := x]> (Ring.buf rb)) rb) =
  Ring.contents rb.
Proof.
  intros Hwf Hi. unfold Ring.ring_buffer_free in Hi. unfold Ring.contents at 1.
  apply list_fmap_ext. intros n j [-> Hj]%lookup_seqZ. simpl.
  replace (Ring.ring_buffer_used _) with (Ring.ring_buffer_used rb) in Hj by done.
  pose proof (Ring.used_cases _ Hwf) as Hu.
  assert (0 < Ring.size rb) by (destruct Hwf; lia).
  rewrite cell_insert by (try apply Z.mod_pos_bound; done).
  destruct (Z.eqb_spec ((Ring.head rb + (0 + Z.of_nat n)) mod Ring.size rb)
                       ((Ring.tail rb + i) mod Ring.size rb)) as [E|]; [|done].
  exfalso. destruct Hwf as (Hs & Hh & Ht & _).
  rewrite !Ring.mod_wrap in E by (revert Hu; zcases; lia). revert Hu E. zcases; lia.
Qed.

(** The stores to [head] and [tail]. *)
Lemma move_head_spec rb len :
  Ring.wf rb -> 0 < len <= Ring.ring_buffer_used rb ->
  Ring.wf (move_head len rb) /\ Ring.contents (move_head len rb) = drop (Z.to_nat len) (Ring.contents rb).
Proof.
  intros Hwf Hl. pose proof (Ring.read_shape rb len Hwf) as Hs.
  pose proof (Ring.read_contents rb len Hwf) as Hc.
  assert (E : (Ring.read_ring_buffer rb len).2 = move_head len rb).
  { unfold Ring.read_ring_buffer, Ring.min.
    replace (if _ <? len then _ else len) with len by (zcases; lia).
    replace (0 <? len) with true by (symmetry; lia). done. }
  destruct (Ring.read_ring_buffer rb len) as [[l d] rb']. simpl in E. subst rb'.
  split; [apply Hs|apply Hc].
Qed.

Lemma move_tail_spec rb src sz :
  Ring.wf rb -> writer_ok rb (WCopy src sz sz) ->
  Ring.wf (move_tail sz rb) /\
  Ring.contents (move_tail sz rb) = Ring.contents rb ++ take (Z.to_nat sz) src.
Proof.
  intros Hwf (Hsz & Hsrc & _ & Hcells). pose proof (Ring.used_range _ Hwf) as Hu.
  assert (Et : Ring.tail (move_tail sz rb) = (Ring.tail rb + sz) mod Ring.size rb).
  { destruct Hwf as (Hs & Hh & Ht & _). apply Z.rem_mod_nonneg; lia. }
  assert (Hwf' : Ring.wf (move_tail sz rb)).
  { unfold Ring.wf in *. rewrite Et. simpl.
    pose proof (Z.mod_pos_bound (Ring.tail rb + sz) (Ring.size rb)). lia. }
  split; [done|]. eapply Ring.append_contents; try done.
  intros k Hk. simpl. zcases; [apply Hcells; lia|done].
Qed.

(** ** Steps *)

(** Each side keeps what it owns when the other moves on. *)
Lemma writer_ok_head rb len p :
  Ring.wf rb -> 0 < len <= Ring.ring_buffer_used rb -> writer_ok rb p -> writer_ok (move_head len rb) p.
Proof.
  intros Hwf Hl Hp. destruct (move_head_spec rb len Hwf Hl) as [Hwf' Hc].
  destruct p as [|src sz|src sz i|]; try done. destruct Hp as (Hsz & Hrest).
  split; [|exact Hrest]. revert Hsz. unfold Ring.ring_buffer_free.
  rewrite <- (Ring.length_contents _ Hwf'), Hc, length_drop.
  pose proof (Ring.length_contents _ Hwf). change (Ring.size (move_head len rb)) with (Ring.size rb). lia.
Qed.

Lemma reader_ok_grows rb rb' data p :
  Ring.wf rb -> Ring.wf rb' -> Ring.contents rb' = Ring.contents rb ++ data ->
  reader_ok rb p -> reader_ok rb' p.
Proof.
  intros Hwf Hwf' Hc Hp. destruct p as [|sz|sz|sz len d]; try done. destruct Hp as (Hl & Hd & E).
  pose proof (Ring.length_contents _ Hwf). pose proof (Ring.length_contents _ Hwf') as Hl'.
  rewrite Hc, length_app in Hl'. split; [lia|]. split; [done|].
  rewrite Hc, take_app_le by lia. done.
Qed.

Lemma read_len_ok rb cap sz len :
  Ring.wf rb -> len <= Ring.ring_buffer_used rb ->
  reader_ok rb (read_len sz len).1 /\
  spec_step cap (Ring.contents rb) (read_len sz len).2 = Some (Ring.contents rb).
Proof.
  intros Hwf Hl. pose proof (Ring.length_contents _ Hwf). unfold read_len.
  destruct (Z.ltb_spec 0 len); simpl; [repeat split; (done || lia)|].
  replace (Z.to_nat len) with 0%nat by lia. rewrite decide_True; [done|]. split; [lia|done].
Qed.

(** Inside a routine a thread can always go on, and what it does is a step of the
    specification. *)
Lemma exec_read_ok cap rb p w :
  sys_ok cap (Sys rb p w) -> p ≠ RIdle ->
  exists p' e rb', exec_read p rb = Some (p', e, rb') /\ sys_ok cap (Sys rb' p' w) /\
    spec_step cap (Ring.contents rb) e = Some (Ring.contents rb').
Proof.
  intros (Hwf & Hs & Hr & Hw) Hp. simpl in *. pose proof (Ring.length_contents _ Hwf) as Hlc.
  destruct p as [|sz|sz|sz len data]; [done| | |]; simpl.
  - destruct (Z.ltb_spec (Ring.ring_buffer_used rb) sz).
    + by exists (RPick sz), ETau, rb.
    + destruct (read_len_ok rb cap sz sz Hwf) as [Ho Hsp]; [lia|].
      destruct (read_len sz sz) as [p' e]. by exists p', e, rb.
  - destruct (read_len_ok rb cap sz (Ring.ring_buffer_used rb) Hwf) as [Ho Hsp]; [lia|].
    destruct (read_len sz (Ring.ring_buffer_used rb)) as [p' e]. by exists p', e, rb.
  - destruct Hr as (Hl & Hd & E). destruct (Z.ltb_spec (Z.of_nat (length data)) len).
    + rewrite read_cell by (done || lia). simpl. rewrite Nat2Z.id.
      eexists _, ETau, rb. split; [done|]. split; [|done]. split; [done|]. split; [done|].
      split; [|done]. simpl. rewrite length_app. simpl. split; [done|]. split; [lia|].
      rewrite Nat.add_1_r. erewrite take_S_r by (apply list_lookup_lookup_total_lt; lia).
      congruence.
    + destruct (move_head_spec rb len Hwf Hl) as [Hwf' Hc].
      exists RIdle, (ERead sz len data), (move_head len rb). split; [done|].
      split; [repeat (split; [done|]); by apply writer_ok_head|].
      simpl. replace (Z.to_nat len) with (length data) by lia. rewrite decide_True.
      * rewrite Hc. do 2 f_equal. lia.
      * split; [lia|done].
Qed.

Lemma write_byte_ok cap rb r src sz i :
  sys_ok cap (Sys rb r (WCopy src sz i)) -> i < sz ->
  exists rb', exec_write (WCopy src sz i) rb = Some (WCopy src sz (i + 1), ETau, rb') /\
    sys_ok cap (Sys rb' r (WCopy src sz (i + 1))) /\ Ring.contents rb' = Ring.contents rb.
Proof.
  intros (Hwf & Hs & Hr & Hsz & Hsrc & Hi & Hcells) Hlt. simpl in *.
  pose proof (Ring.used_range _ Hwf) as Hu.
  assert (Hw : 0 < Ring.size rb /\ 0 <= Ring.tail rb < Ring.size rb /\
               Z.of_nat (length (Ring.buf rb)) = Ring.size rb) by (unfold Ring.wf in Hwf; lia).
  assert (Hf := Hsz). unfold Ring.ring_buffer_free in Hf.
  pose proof (copy_index_range rb (Ring.tail rb) sz i) as Hk.
  destruct (Z.ltb_spec i sz); [|lia].
  rewrite (list_lookup_lookup_total_lt src) by lia. simpl.
  rewrite (list_lookup_lookup_total_lt (Ring.buf rb)) by lia. simpl.
  rewrite copy_index_mod in * by lia.
  set (k := (Ring.tail rb + i) mod Ring.size rb) in *. set (x := src !!! Z.to_nat i).
  assert (Hc : Ring.contents (set_buf (<[Z.to_nat k := x]> (Ring.buf rb)) rb) = Ring.contents rb)
    by (apply write_byte_contents; [done|lia]).
  eexists. split; [done|]. split; [|done].
  assert (Hwf' : Ring.wf (set_buf (<[Z.to_nat k := x]> (Ring.buf rb)) rb))
    by (apply set_buf_wf; [done|apply length_insert]).
  split; [done|]. split; [done|]. split.
  - eapply (reader_ok_grows rb _ []); rewrite ?app_nil_r; done.
  - simpl. split; [done|]. split; [done|]. split; [lia|]. intros j Hj.
    rewrite cell_insert by (done || lia). unfold k, x.
    destruct (Z.eqb_spec ((Ring.tail rb + j) mod Ring.size rb)
                         ((Ring.tail rb + i) mod Ring.size rb)) as [E|Hne].
    + do 2 f_equal. rewrite !Ring.mod_wrap in E by lia. revert E. zcases; lia.
    + apply Hcells. destruct (decide (j = i)); [by subst|lia].
Qed.

Lemma exec_write_ok cap rb r p :
  sys_ok cap (Sys rb r p) -> p ≠ WIdle -> p ≠ WAborted ->
  exists p' e rb', exec_write p rb = Some (p', e, rb') /\ sys_ok cap (Sys rb' r p') /\
    spec_step cap (Ring.contents rb) e = Some (Ring.contents rb').
Proof.
  intros (Hwf & Hs & Hr & Hw) Hp Hp'. simpl in *. pose proof (Ring.length_contents _ Hwf) as Hlc.
  destruct p as [|src sz|src sz i|]; try done; simpl in *.
  - unfold Ring.ring_buffer_free.
    destruct ((0 <? sz) && (sz <=? Ring.size rb - Ring.ring_buffer_used rb - 1)) eqn:E.
    + exists (WCopy src sz 0), ETau, rb. repeat (split; [done|]).
      split; [|done]. zprop. repeat (split; [done|]). simpl. unfold Ring.ring_buffer_free.
      repeat (split; [lia|]). intros k Hk. lia.
    + eexists WAborted, _, rb. split; [done|]. split; [done|]. simpl. unfold Ring.queue_write.
      rewrite length_take, Hlc.
      replace ((0 <? Z.of_nat (Z.to_nat sz `min` length src)) && _) with false; [done|].
      symmetry. apply andb_false_iff. apply andb_false_iff in E.
      revert E. rewrite !Z.ltb_ge, !Z.leb_gt. lia.
  - destruct (decide (i < sz)) as [Hlt|Hge].
    + destruct (write_byte_ok cap rb r src sz i) as (rb' & E & Hok & Hc); [done|done|].
      simpl in E. rewrite E. exists (WCopy src sz (i + 1)), ETau, rb'. by rewrite Hc.
    + destruct Hw as (Hsz & Hsrc & Hi & Hcells). pose proof (Ring.used_range _ Hwf) as Hu.
      replace (i <? sz) with false by (symmetry; lia). unfold Ring.ring_buffer_free in Hsz.
      assert (i = sz) as -> by lia.
      destruct (move_tail_spec rb src sz Hwf) as [Hwf' Hc]; [done|].
      exists WIdle, (EWrite (take (Z.to_nat sz) src)), (move_tail sz rb). split; [done|].
      split; [repeat (split; [done|]); split; [exact (reader_ok_grows rb _ _ r Hwf Hwf' Hc Hr)|done]|].
      simpl. unfold Ring.queue_write. rewrite Hc, Hlc.
      assert (Z.of_nat (length (take (Z.to_nat sz) src)) = sz) as -> by (rewrite length_take; clear - Hsz Hsrc; lia).
      replace (0 <? sz) with true by (symmetry; lia).
      by replace (_ <=? cap) with true by (symmetry; lia).
Qed.

Lemma step_ok cap s e s' :
  sys_ok cap s -> step s e s' ->
  sys_ok cap s' /\ spec_step cap (Ring.contents (rbuf s)) e = Some (Ring.contents (rbuf s')).
Proof.
  intros Hok Hstep. inversion Hstep as [rb sz w Hw|rb src sz r Hsrc|rb p w p' e' rb' Hw Hx|rb r p p' e' rb' Hx]; subst.
  - split; [|done]. destruct Hok as (A & B & _ & C). exact (conj A (conj B (conj I C))).
  - split; [|done]. destruct Hok as (A & B & C & _). exact (conj A (conj B (conj C Hsrc))).
  - destruct (exec_read_ok cap rb p w Hok) as (? & ? & ? & Hx' & ? & ?); [by intros ->|].
    rewrite Hx in Hx'. by simplify_eq.
  - destruct (exec_write_ok cap rb r p Hok) as (? & ? & ? & Hx' & ? & ?); [by intros ->..|].
    rewrite Hx in Hx'. by simplify_eq.
Qed.

Lemma start_ok cap : 0 <= cap < 2 ^ 30 - 1 -> sys_ok cap (start cap).
Proof. intros Hc. split; [by apply Ring.alloc_wf|]. by repeat split. Qed.

Lemma spec_run_app cap q es es' :
  spec_run cap q (es ++ es') = q' ← spec_run cap q es; spec_run cap q' es'.
Proof.
  revert q. induction es as [|e es IH]; intros q; simpl; [done|].
  destruct (spec_step cap q e); simpl; [apply IH|done].
Qed.

(** The specification delivers what was written, in order. *)
Lemma spec_run_stream cap q es q' :
  spec_run cap q es = Some q' -> q ++ written es = delivered es ++ q'.
Proof.
  revert q. induction es as [|e es IH]; intros q; simpl; [intros [= ->]; apply app_nil_r|].
  destruct (spec_step cap q e) as [q1|] eqn:E; [|done]. intros Hr. apply IH in Hr.
  unfold written, delivered in *. simpl. destruct e as [|sz len data|data|data]; simpl in *.
  - by simplify_eq.
  - case_decide as Hd; [|done]. destruct Hd as [_ Hd]. simplify_eq.
    rewrite <- (take_drop (Z.to_nat len) q) at 1. rewrite <- !app_assoc. f_equal. exact Hr.
  - unfold Ring.queue_write in E. destruct (_ && _); [|done]. simplify_eq.
    rewrite app_assoc. exact Hr.
  - destruct (Ring.queue_write cap q data); [done|]. by simplify_eq.
Qed.

Lemma steps_ok cap s es s' :
  sys_ok cap s -> steps s es s' ->
  sys_ok cap s' /\ spec_run cap (Ring.contents (rbuf s)) es = Some (Ring.contents (rbuf s')).
Proof.
  intros Hok Hs. induction Hs as [s|s es s1 e s2 Hs IH Hstep]; [done|].
  destruct (IH Hok) as [Hok1 E1]. destruct (step_ok _ _ _ _ Hok1 Hstep) as [Hok2 E2].
  split; [done|]. rewrite spec_run_app, E1. simpl. by rewrite E2.
Qed.

Lemma start_used cap : 0 <= cap -> Ring.ring_buffer_used (rbuf (start cap)) = 0.
Proof. intros Hc. unfold Ring.ring_buffer_used. simpl. apply Z.rem_same. lia. Qed.

Lemma start_contents cap : 0 <= cap -> Ring.contents (rbuf (start cap)) = [].
Proof.
  intros Hc. unfold Ring.contents. by rewrite start_used.
Qed.

(** ** A run can be computed *)

(** Which thread goes on, or which routine is called. *)
Inductive move := CallRead (sz : Z) | CallWrite (src : list Z) (sz : Z) | Reader | Writer.

Definition exec (m : move) (s : sys) : option (event * sys) :=
  match m, s with
  | CallRead sz, Sys rb RIdle w => if decide (w = WAborted) then None else Some (ETau, Sys rb (RTest sz) w)
  | CallWrite src sz, Sys rb r WIdle =>
      if sz <=? Z.of_nat (length src) then Some (ETau, Sys rb r (WAssert src sz)) else None
  | Reader, Sys rb p w =>
      if decide (w = WAborted) then None
      else '(p', e, rb') ← exec_read p rb; Some (e, Sys rb' p' w)
  | Writer, Sys rb r p => '(p', e, rb') ← exec_write p rb; Some (e, Sys rb' r p')
  | _, _ => None
  end.

Fixpoint exec_all (ms : list move) (s : sys) : option (list event * sys) :=
  match ms with
  | [] => Some ([], s)
  | m :: ms => '(e, s') ← exec m s; '(es, s'') ← exec_all ms s'; Some (e :: es, s'')
  end.

Lemma exec_is_step m s e s' : exec m s = Some (e, s') -> step s e s'.
Proof.
  destruct s as [rb r w]. destruct m as [sz|src sz| |]; simpl.
  - destruct r; try done. case_decide; [done|]. intros [= <- <-]. by constructor.
  - destruct w; try done. destruct (Z.leb_spec sz (Z.of_nat (length src))); [|done].
    intros [= <- <-]. by constructor.
  - case_decide; [done|]. destruct (exec_read r rb) as [[[? ?] ?]|] eqn:E; [|done].
    intros [= <- <-]. by econstructor.
  - destruct (exec_write w rb) as [[[? ?] ?]|] eqn:E; [|done]. intros [= <- <-]. by econstructor.
Qed.

Lemma exec_all_steps ms s s' es0 s0 es :
  steps s0 es0 s -> exec_all ms s = Some (es, s') -> steps s0 (es0 ++ es) s'.
Proof.
  revert s es0 es. induction ms as [|m ms IH]; intros s es0 es Hs; simpl.
  - intros [= <- <-]. by rewrite app_nil_r.
  - destruct (exec m s) as [[e s1]|] eqn:E; [|done]. simpl.
    destruct (exec_all ms s1) as [[es' s2]|] eqn:E'; [|done]. intros [= <- <-].
    rewrite (cons_middle e es0 es'), app_assoc. eapply IH; [|done].
    eapply steps_snoc; [done|]. by apply exec_is_step in E.
Qed.

Lemma exec_all_app ms1 ms2 s es1 s1 :
  exec_all ms1 s = Some (es1, s1) ->
  exec_all (ms1 ++ ms2) s = '(es2, s2) ← exec_all ms2 s1; Some (es1 ++ es2, s2).
Proof.
  revert s es1. induction ms1 as [|m ms1 IH]; intros s es1; simpl.
  - intros [= <- <-]. by destruct (exec_all ms2 s) as [[? ?]|].
  - destruct (exec m s) as [[e s']|]; [|done]. simpl.
    destruct (exec_all ms1 s') as [[es s'']|] eqn:E; [|done]. simpl. intros [= <- <-].
    rewrite (IH _ _ E). by destruct (exec_all ms2 s'') as [[? ?]|].
Qed.

(** ** A side that runs alone *)

Lemma reader_copies cap rb sz len data w n :
  sys_ok cap (Sys rb (RCopy sz len data) w) -> w ≠ WAborted ->
  n = (Z.to_nat len - length data)%nat ->
  exec_all (replicate n Reader ++ [Reader]) (Sys rb (RCopy sz len data) w) =
  Some (replicate n ETau ++ [ERead sz len (take (Z.to_nat len) (Ring.contents rb))],
        Sys (move_head len rb) RIdle w).
Proof.
  intros Hok Hw. revert data Hok. induction n as [|n IH]; intros data Hok Hn.
  - destruct Hok as (Hwf & Hs & (Hl & Hd & E) & _). simpl in *.
    rewrite decide_False by done. replace (_ <? len) with false by (symmetry; lia). simpl.
    rewrite E. do 5 f_equal. f_equal. lia.
  - assert (Hok' := Hok). destruct Hok as (Hwf & Hs & (Hl & Hd & E) & _). simpl in Hs, Hl, Hd, E, Hwf.
    simpl. rewrite decide_False by done.
    destruct (exec_read_ok cap rb _ w Hok') as (p' & e & rb' & Hx & Hok2 & _); [done|].
    simpl in Hx. revert Hx. replace (_ <? len) with true by (symmetry; lia).
    rewrite read_cell by (done || lia). simpl. intros [= <- <- <-].
    rewrite (IH _ Hok2); [done|]. rewrite length_app. simpl. lia.
Qed.

(** From the test of [min] on, undisturbed: the sequential routine. *)
Lemma reader_alone cap rb sz w :
  sys_ok cap (Sys rb (RTest sz) w) -> w ≠ WAborted ->
  let '(len, data, rb') := Ring.read_ring_buffer rb sz in
  exists n, exec_all (replicate n Reader) (Sys rb (RTest sz) w) =
    Some (replicate (n - 1) ETau ++ [ERead sz len data], Sys rb' RIdle w).
Proof.
  intros (Hwf & Hs & _ & Hwr) Hw. simpl in Hwf, Hs, Hwr.
  pose proof (Ring.length_contents _ Hwf) as Hlc. pose proof (Ring.used_range _ Hwf) as Hu.
  pose proof (Ring.read_contents rb sz Hwf) as Hc.
  destruct (Ring.read_ring_buffer rb sz) as [[len data] rb'] eqn:E. destruct Hc as [Hd _].
  set (u := Ring.ring_buffer_used rb) in *. set (pick := u <? sz).
  assert (Hpre : exec_all (replicate (if pick then 2 else 1) Reader) (Sys rb (RTest sz) w) =
            Some ((if pick then [ETau] else []) ++ [(read_len sz len).2], Sys rb (read_len sz len).1 w)).
  { assert (Ring.min u sz = len) as <-.
    { revert E. unfold Ring.read_ring_buffer. fold u. case_match; congruence. }
    unfold Ring.min, pick. destruct (u <? sz) eqn:Eu; unfold u in Eu; simpl;
      rewrite !decide_False, Eu by done; simpl; rewrite ?decide_False by done; simpl.
    - fold u. by destruct (read_len sz u).
    - by destruct (read_len sz sz). }
  revert E. unfold Ring.read_ring_buffer. fold u.
  assert (Hm : Ring.min u sz = Z.min u sz) by (unfold Ring.min; zcases; lia). rewrite Hm.
  unfold read_len in Hpre.
  destruct (Z.ltb_spec 0 (Z.min u sz)) as [Hl|Hl]; intros E; injection E as El Ed Er.
  - replace (0 <? len) with true in Hpre by (symmetry; lia). simpl in Hpre.
    exists ((if pick then 2 else 1) + (Z.to_nat len + 1))%nat.
    rewrite replicate_add, (exec_all_app _ _ _ _ _ Hpre), replicate_add. simpl.
    rewrite (reader_copies cap rb sz len [] w); [| |done|simpl; lia].
    2: { repeat (split; [done|]). split; [|done]. simpl. fold u. split; [lia|]. split; [lia|done]. }
    simpl.
    subst rb'. rewrite El. unfold move_head. do 2 f_equal.
    rewrite Hd. replace (take (Z.to_nat len) (Ring.contents rb)) with (take (Z.to_nat sz) (Ring.contents rb)).
    + rewrite app_assoc. f_equal. rewrite <- app_assoc.
      replace (_ + _ - 1)%nat with ((if pick then 1 else 0) + (1 + Z.to_nat len))%nat by (destruct pick; lia).
      rewrite !replicate_add. by destruct pick.
    + destruct (decide (sz <= u)); [do 2 f_equal; lia|]. rewrite !take_ge by lia. done.
  - replace (0 <? len) with false in Hpre by (symmetry; lia).
    exists (if pick then 2%nat else 1%nat). rewrite Hpre, <- Er, <- Ed. by destruct pick.
Qed.

Lemma cells_eq b b' sz pos :
  0 < sz -> Z.of_nat (length b) = sz -> Z.of_nat (length b') = sz ->
  (forall k, 0 <= k < sz -> Ring.cell b sz (pos + k) = Ring.cell b' sz (pos + k)) -> b = b'.
Proof.
  intros Hs Hb Hb' H. apply list_eq. intros j.
  destruct (decide (Z.of_nat j < sz)); [|rewrite !lookup_ge_None_2 by lia; done].
  rewrite !list_lookup_lookup_total_lt by lia. f_equal.
  pose proof (Z.mod_pos_bound (Z.of_nat j - pos) sz Hs) as Hk. specialize (H _ Hk).
  unfold Ring.cell in H. rewrite Zplus_mod_idemp_r in H.
  replace (pos + (Z.of_nat j - pos)) with (Z.of_nat j) in H by lia.
  rewrite Z.mod_small, Nat2Z.id in H by lia. exact H.
Qed.

(** The rest of the buffer stays as it was. *)
Lemma write_byte_frame cap rb r src sz i rb' :
  sys_ok cap (Sys rb r (WCopy src sz i)) -> i < sz ->
  exec_write (WCopy src sz i) rb = Some (WCopy src sz (i + 1), ETau, rb') ->
  Ring.size rb' = Ring.size rb /\ Ring.tail rb' = Ring.tail rb /\
  Ring.head rb' = Ring.head rb /\ length (Ring.buf rb') = length (Ring.buf rb) /\
  (forall k, i + 1 <= k < Ring.size rb ->
    Ring.cell (Ring.buf rb') (Ring.size rb) (Ring.tail rb + k) =
    Ring.cell (Ring.buf rb) (Ring.size rb) (Ring.tail rb + k)).
Proof.
  intros (Hwf & Hs & _ & (Hsz & Hsrc & Hi & Hcells)) Hlt Hx. simpl in *.
  pose proof (Ring.used_range _ Hwf) as Hu. unfold Ring.ring_buffer_free in Hsz.
  revert Hx. replace (i <? sz) with true by (symmetry; lia).
  rewrite copy_index_mod by (unfold Ring.wf in Hwf; lia).
  rewrite (list_lookup_lookup_total_lt src) by lia. simpl.
  pose proof (Z.mod_pos_bound (Ring.tail rb + i) (Ring.size rb)) as Hk.
  rewrite (list_lookup_lookup_total_lt (Ring.buf rb)) by (unfold Ring.wf in Hwf; lia).
  intros [= <-]. simpl. rewrite length_insert. repeat (split; [done|]). intros k Hk'.
  rewrite cell_insert by (done || (apply Hk; lia)).
  destruct (Z.eqb_spec ((Ring.tail rb + k) mod Ring.size rb)
                       ((Ring.tail rb + i) mod Ring.size rb)) as [E|]; [|done].
  unfold Ring.wf in Hwf. rewrite !Ring.mod_wrap in E by lia. revert E. zcases; lia.
Qed.

Lemma writer_copies cap rb r src sz i n b0 :
  sys_ok cap (Sys rb r (WCopy src sz i)) -> n = Z.to_nat (sz - i) ->
  (forall k, i <= k < Ring.size rb ->
    Ring.cell (Ring.buf rb) (Ring.size rb) (Ring.tail rb + k) =
    Ring.cell b0 (Ring.size rb) (Ring.tail rb + k)) ->
  exists b, exec_all (replicate n Writer ++ [Writer]) (Sys rb r (WCopy src sz i)) =
    Some (replicate n ETau ++ [EWrite (take (Z.to_nat sz) src)],
          Sys (move_tail sz (set_buf b rb)) r WIdle) /\
    length b = length (Ring.buf rb) /\
    (forall k, 0 <= k < Ring.size rb ->
      Ring.cell b (Ring.size rb) (Ring.tail rb + k) =
      if k <? sz then src !!! Z.to_nat k else Ring.cell b0 (Ring.size rb) (Ring.tail rb + k)).
Proof.
  intros Hok. revert rb i Hok. induction n as [|n IH]; intros rb i Hok Hn Hrest.
  - destruct Hok as (Hwf & Hs & _ & (Hsz & Hsrc & Hi & Hcells)). simpl in *.
    exists (Ring.buf rb). replace (i <? sz) with false by (symmetry; lia).
    split; [by destruct rb|]. split; [done|]. intros k Hk.
    zcases; [apply Hcells; lia|apply Hrest; lia].
  - destruct (write_byte_ok cap rb r src sz i Hok) as (rb' & Hx & Hok' & _); [lia|].
    destruct (write_byte_frame cap rb r src sz i rb' Hok ltac:(lia) Hx) as (Es & Et & Eh & Eb & Hr).
    destruct (IH rb' (i + 1) Hok' ltac:(lia)) as (b & Hx' & Lb & Hb).
    { intros k Hk. rewrite Es, Et in *. rewrite Hr by lia. apply Hrest. lia. }
    exists b. rewrite Es, Et in Hb. split; [|split; [congruence|done]].
    change (exec_all (replicate (S n) Writer ++ [Writer]) ?s) with
      ('(e, s') ← exec Writer s; '(es, s'') ← exec_all (replicate n Writer ++ [Writer]) s'; Some (e :: es, s'')).
    unfold exec. rewrite Hx. simpl. rewrite Hx'. simpl. unfold move_tail, set_buf. simpl.
    by rewrite Es, Et, Eh.
Qed.

(** From the assertion on, undisturbed: the sequential routine, or the abort. *)
Lemma writer_alone cap rb r src sz :
  sys_ok cap (Sys rb r (WAssert src sz)) ->
  match Ring.write_ring_buffer rb src sz with
  | Some rb' => exists n, exec_all (replicate n Writer) (Sys rb r (WAssert src sz)) =
      Some (replicate (n - 1) ETau ++ [EWrite (take (Z.to_nat sz) src)], Sys rb' r WIdle)
  | None => exec_all [Writer] (Sys rb r (WAssert src sz)) =
      Some ([EAbort (take (Z.to_nat sz) src)], Sys rb r WAborted)
  end.
Proof.
  intros Hok. destruct (exec_write_ok _ _ _ _ Hok) as (p' & e & rb1 & Hx & Hok' & _); [done..|].
  destruct Hok as (Hwf & Hs & _ & Hsrc). simpl in *.
  destruct (Ring.write_ring_buffer rb src sz) as [rb'|] eqn:E.
  - destruct (Ring.write_shape _ _ _ _ Hwf E) as (Hsz & Es & Eh & Et & Eb).
    replace ((0 <? sz) && _) with true in * by (symmetry; lia). simplify_eq.
    destruct (writer_copies cap rb1 r src sz 0 (Z.to_nat sz) (Ring.buf rb1) Hok')
      as (b & Hx' & Lb & Hb); [f_equal; lia|done|].
    exists (1 + (Z.to_nat sz + 1))%nat. rewrite replicate_add.
    replace (1 + _ - 1)%nat with (1 + Z.to_nat sz)%nat by lia. rewrite !replicate_add. simpl.
    replace ((0 <? sz) && _) with true in * by (symmetry; lia). simpl. rewrite Hx'. simpl.
    do 3 f_equal. destruct rb' as [s' h' t' b']. simpl in *. subst s' h' t'.
    unfold Ring.wf in Hwf. unfold move_tail, set_buf. simpl. f_equal; [apply Z.rem_mod_nonneg; lia|].
    apply (cells_eq b b' (Ring.size rb1) (Ring.tail rb1)); [lia..|]. intros k Hk.
    rewrite Hb by done. symmetry.
    apply (Ring.write_cells rb1 src sz _ ltac:(unfold Ring.wf; lia) ltac:(done) E); done.
  - apply Ring.write_None in E; [|done].
    replace ((0 <? sz) && _) with false; [done|].
    symmetry. apply andb_false_iff. rewrite Z.ltb_ge, Z.leb_gt. lia.
Qed.

(** ** Theorems *)

(** C4: with one reader and one writer that interleave at the grain of single
    loads, byte copies and stores, every run of [read_ring_buffer] and
    [write_ring_buffer] calls on a buffer of capacity [cap] is a run of a bounded
    queue in the order of the stores to [head] and [tail]; the bytes delivered
    followed by the bytes in the buffer are the bytes written; the assertion fails
    only on a write that would not fit a queue holding what the buffer then holds;
    and a thread inside a routine can always take its next step (no copy leaves the
    array or the source). *)
Theorem spsc_refines_queue cap es s :
  0 <= cap < 2 ^ 30 - 1 -> steps (start cap) es s ->
  spec_run cap [] es = Some (Ring.contents (rbuf s)) /\
  written es = delivered es ++ Ring.contents (rbuf s) /\
  Ring.wf (rbuf s) /\
  (reader s ≠ RIdle -> is_Some (exec_read (reader s) (rbuf s))) /\
  (writer s ≠ WIdle -> writer s ≠ WAborted -> is_Some (exec_write (writer s) (rbuf s))).
Proof.
  intros Hcap Hs. destruct (steps_ok cap _ _ _ (start_ok cap Hcap) Hs) as [Hok Hr].
  rewrite start_contents in Hr by lia. split; [done|].
  split; [by apply spec_run_stream in Hr|]. split; [by destruct Hok|].
  destruct s as [rb r w]. cbn [reader writer rbuf]. split.
  - intros Hi. by destruct (exec_read_ok cap rb r w Hok Hi) as (? & ? & ? & -> & _).
  - intros Hi Ha. by destruct (exec_write_ok cap rb r w Hok Hi Ha) as (? & ? & ? & -> & _).
Qed.

(** Capacity 3: the second write wraps round while the first byte is read. *)
Lemma spsc_refines_queue_witness :
  exists es s, steps (start 3) es s /\ written es = [1; 2; 3; 4] /\ delivered es = [1; 2] /\
    written es = delivered es ++ Ring.contents (rbuf s).
Proof.
  destruct (exec_all [CallWrite [1; 2] 2; Writer; Writer; Writer; Writer; CallRead 2; Reader;
    CallWrite [3; 4; 5] 2; Reader; Reader; Reader; Writer; Writer; Writer; Writer] (start 3))
    as [[es s]|] eqn:E; [|discriminate E].
  exists es, s. apply (exec_all_steps _ _ _ [] _ _ (steps_refl _)) in E as Hs.
  split; [exact Hs|].
  pose proof (spsc_refines_queue 3 es s ltac:(lia) Hs) as (_ & Hw & _).
  vm_compute in E. injection E as <- <-. split; [reflexivity|]. split; [reflexivity|exact Hw].
Defined.

(** A routine that the other thread does not disturb is the sequential one:
    from the test of [min] on, [read_ring_buffer] ends with the length, the bytes
    and the buffer of its sequential definition; from its assertion on,
    [write_ring_buffer] ends with the buffer of its sequential definition, or
    aborts where that one does. *)
Theorem undisturbed_is_sequential cap rb sz src r w :
  sys_ok cap (Sys rb RIdle w) -> sys_ok cap (Sys rb r WIdle) -> w ≠ WAborted ->
  sz <= Z.of_nat (length src) ->
  (let '(len, data, rb') := Ring.read_ring_buffer rb sz in
   exists n, exec_all (replicate n Reader) (Sys rb (RTest sz) w) =
     Some (replicate (n - 1) ETau ++ [ERead sz len data], Sys rb' RIdle w)) /\
  match Ring.write_ring_buffer rb src sz with
  | Some rb' => exists n, exec_all (replicate n Writer) (Sys rb r (WAssert src sz)) =
      Some (replicate (n - 1) ETau ++ [EWrite (take (Z.to_nat sz) src)], Sys rb' r WIdle)
  | None => exec_all [Writer] (Sys rb r (WAssert src sz)) =
      Some ([EAbort (take (Z.to_nat sz) src)], Sys rb r WAborted)
  end.
Proof.
  intros (Hwf & Hs & _ & Hw) (_ & _ & Hr & _) Ha Hsrc. split.
  - apply (reader_alone cap); [|done]. exact (conj Hwf (conj Hs (conj I Hw))).
  - apply (writer_alone cap). exact (conj Hwf (conj Hs (conj Hr Hsrc))).
Qed.

Lemma undisturbed_is_sequential_witness :
  Ring.read_ring_buffer (Ring.RingBuffer 4 3 2 [2; 3; 0; 1]) 2 =
    (2, [1; 2], Ring.RingBuffer 4 1 2 [2; 3; 0; 1]) /\
  exists n, exec_all (replicate n Reader) (Sys (Ring.RingBuffer 4 3 2 [2; 3; 0; 1]) (RTest 2) WIdle) =
    Some (replicate (n - 1) ETau ++ [ERead 2 2 [1; 2]], Sys (Ring.RingBuffer 4 1 2 [2; 3; 0; 1]) RIdle WIdle).
Proof.
  split; [reflexivity|].
  assert (Hwf : Ring.wf (Ring.RingBuffer 4 3 2 [2; 3; 0; 1])) by (unfold Ring.wf; simpl; lia).
  apply (undisturbed_is_sequential 3 (Ring.RingBuffer 4 3 2 [2; 3; 0; 1]) 2 [7; 8] RIdle WIdle);
    [exact (conj Hwf (conj eq_refl (conj I I)))..|discriminate|simpl; lia].
Defined.

(** [min] evaluates [ring_buffer_used] a second time to get its result.  When a
    write of [data] comes between the two evaluations of a read of [sz] bytes from an
    empty buffer, with [sz] less than the bytes written, the reader copies all of
    them into the caller's [sz] bytes. *)
Theorem read_overruns_caller cap sz data :
  0 < sz < Z.of_nat (length data) -> Z.of_nat (length data) <= cap < 2 ^ 30 - 1 ->
  exists es s, steps (start cap) es s /\ ERead sz (Z.of_nat (length data)) data ∈ es.
Proof.
  intros Hsz Hcap. set (n := Z.of_nat (length data)) in *.
  assert (Hok : sys_ok cap (Sys (rbuf (start cap)) (RPick sz) (WAssert data n))).
  { destruct (start_ok cap ltac:(lia)) as (A & B & _). split; [exact A|]. split; [exact B|]. split; [exact I|]. unfold n. simpl. lia. }
  assert (Hs0 : steps (start cap) [ETau; ETau; ETau] (Sys (rbuf (start cap)) (RPick sz) (WAssert data n))).
  { apply (exec_all_steps [CallRead sz; Reader; CallWrite data n] (start cap) _ [] _ _ (steps_refl _)).
    simpl. change (Ring.alloc_ring_buffer cap) with (rbuf (start cap)).
    rewrite start_used by lia. rewrite (proj2 (Z.ltb_lt _ _)) by lia. simpl.
    by rewrite (proj2 (Z.leb_le _ _)) by reflexivity. }
  pose proof (writer_alone _ _ _ _ _ Hok) as Hw.
  destruct (Ring.write_ring_buffer (rbuf (start cap)) data n) as [rb|] eqn:E.
  2: { apply Ring.write_None in E; [|apply Hok]. destruct E. unfold Ring.ring_buffer_free.
       rewrite start_used by lia. simpl. lia. }
  destruct Hw as [k Hw]. pose proof (exec_all_steps _ _ _ _ _ _ Hs0 Hw) as Hs1.
  destruct (steps_ok _ _ _ _ (start_ok cap ltac:(lia)) Hs1) as [Hok1 _].
  assert (Hc : Ring.contents rb = data).
  { rewrite (Ring.write_contents _ _ _ _ (proj1 Hok) (Z.le_refl _) E).
    cbn [rbuf]. rewrite start_contents by lia.
    unfold n. rewrite Nat2Z.id. apply firstn_all. }
  assert (Hu : Ring.ring_buffer_used rb = n)
    by (pose proof (Ring.length_contents _ (proj1 Hok1)) as Hu; cbn [rbuf] in Hu; rewrite <- Hu; by rewrite Hc).
  assert (Hp : exec Reader (Sys rb (RPick sz) WIdle) = Some (ETau, Sys rb (RCopy sz n []) WIdle)).
  { simpl. rewrite Hu. unfold read_len. by replace (0 <? n) with true by (symmetry; lia). }
  apply exec_is_step in Hp. pose proof (steps_snoc _ _ _ _ _ Hs1 Hp) as Hs2.
  destruct (steps_ok _ _ _ _ (start_ok cap ltac:(lia)) Hs2) as [Hok2 _].
  pose proof (reader_copies _ _ _ _ _ _ _ Hok2 ltac:(done) eq_refl) as Hr.
  eexists _, _. split; [exact (exec_all_steps _ _ _ _ _ _ Hs2 Hr)|].
  rewrite Hc. replace (take (Z.to_nat n) data) with data by (unfold n; by rewrite Nat2Z.id, firstn_all).
  rewrite !elem_of_app, !list_elem_of_singleton. auto.
Qed.

Lemma read_overruns_caller_witness :
  exists es s, steps (start 7) es s /\ ERead 2 4 [1; 2; 3; 4] ∈ es.
Proof. apply (read_overruns_caller 7 2 [1; 2; 3; 4]); simpl; lia. Defined.

End Spsc.
