(* ===== verification/Blocks.v ===== *)
(** * The memory blocks of a socket (tcp_sock.c, ring_buffer.h, synch_wait.h)

    A socket is six blocks of the heap: the structure, its receive buffer and its
    four wait structures.  Memory.v keeps them as one object that
    [alloc_tcp_sock] makes and [free_tcp_sock] ends.  Here the six allocations and
    the six [free] calls are made one by one, and are shown to implement that
    view: for every sequence of allocations and releases the heap holds exactly the
    blocks of the live sockets, nothing leaks, and a block is freed twice exactly
    when a socket is released twice.  Any of the allocations may fail, which the code
    does not test: the first access through the null pointer is a fault. *)

From S2P Require Import Prelude.

Module Blocks.

(** ** The heap *)

(** The blocks in use, and the number of the next call of [malloc], which is also
    that of the block it returns: one that never was in use. *)
Record heap := Heap { live : gset positive; brk : positive }.

(** Which calls of [malloc] succeed. *)
Section Malloc.
Context (malloc_ok : positive -> bool).

(** [None]: a null pointer. *)
Definition malloc (h : heap) : option (positive * heap) :=
  if malloc_ok (brk h) then Some (brk h, Heap ({[brk h]} ∪ live h) (Pos.succ (brk h))) else None.

(** [None]: the block is not in use, a double free. *)
Definition free (p : positive) (h : heap) : option heap :=
  if decide (p ∈ live h) then Some (Heap (live h ∖ {[p]}) (brk h)) else None.

(** ** The code *)

(** Each allocation is followed by a store through the pointer ([memset],
    [pthread_mutex_init]), so that a null pointer is a fault at once: [None]. *)
Definition alloc_wait_struct (h : heap) : option (positive * heap) := malloc h.
Definition free_wait_struct (wait : positive) (h : heap) : option heap := free wait h.
Definition alloc_ring_buffer (h : heap) : option (positive * heap) := malloc h.
Definition free_ring_buffer (rbuf : positive) (h : heap) : option heap := free rbuf h.

(** The pointers a socket owns, and its own block. *)
Record tcp_sock := TcpSock {
  self : positive; rcv_buf : positive;
  wait_connect : positive; wait_accept : positive; wait_recv : positive; wait_send : positive
}.

Definition alloc_tcp_sock (h : heap) : option (tcp_sock * heap) :=
  '(tsk, h) ← malloc h;
  '(rbuf, h) ← alloc_ring_buffer h;
  '(wc, h) ← alloc_wait_struct h;
  '(wa, h) ← alloc_wait_struct h;
  '(wr, h) ← alloc_wait_struct h;
  '(ws, h) ← alloc_wait_struct h;
  Some (TcpSock tsk rbuf wc wa wr ws, h).

(** [free_tcp_sock] when the count has reached zero: the pointers are read from
    the structure, which must still be in use. *)
Definition release (tsk : tcp_sock) (h : heap) : option heap :=
  if decide (self tsk ∈ live h) then
    h ← free_wait_struct (wait_connect tsk) h;
    h ← free_wait_struct (wait_accept tsk) h;
    h ← free_wait_struct (wait_recv tsk) h;
    h ← free_wait_struct (wait_send tsk) h;
    h ← free_ring_buffer (rcv_buf tsk) h;
    free (self tsk) h
  else None.

(** ** Runs, in blocks and in sockets *)

(** [OpFree n]: the release of the [n]-th socket allocated. *)
Inductive op := OpAlloc | OpFree (n : nat).

Definition block_step (s : heap * list tcp_sock) (o : op) : option (heap * list tcp_sock) :=
  let '(h, socks) := s in
  match o with
  | OpAlloc => '(tsk, h) ← alloc_tcp_sock h; Some (h, socks ++ [tsk])
  | OpFree n => tsk ← socks !! n; h ← release tsk h; Some (h, socks)
  end.

(** The [k]-th socket is allocated by calls [6 * k + 1] to [6 * k + 6]. *)
Definition alloc_ok (k : nat) : bool := forallb (fun i => malloc_ok (Pos.of_succ_nat (i + 6 * k))) (seq 0 6).

(** The specification: how many sockets there have been, and which are live. *)
Definition unit_step (s : nat * gset nat) (o : op) : option (nat * gset nat) :=
  let '(k, l) := s in
  match o with
  | OpAlloc => if alloc_ok k then Some (S k, {[k]} ∪ l) else None
  | OpFree n => if decide (n ∈ l) then Some (k, l ∖ {[n]}) else None
  end.

Fixpoint run {S} (step : S -> op -> option S) (s : S) (os : list op) : option S :=
  match os with [] => Some s | o :: os => s ← step s o; run step s os end.

(** ** The relation between the two *)

Definition blocks_of (tsk : tcp_sock) : list positive :=
  [wait_connect tsk; wait_accept tsk; wait_recv tsk; wait_send tsk; rcv_buf tsk; self tsk].

(** Every socket has blocks of its own; the heap holds those of the live ones. *)
Record sim (s : heap * list tcp_sock) (a : nat * gset nat) : Prop := {
  sim_count : a.1 = length s.2;
  sim_brk : brk s.1 = Pos.of_succ_nat (6 * a.1);
  sim_live n : n ∈ a.2 -> (n < a.1)%nat;
  sim_own : NoDup (s.2 ≫= blocks_of);
  sim_below p : p ∈ s.2 ≫= blocks_of -> (p < brk s.1)%positive;
  sim_heap p : p ∈ live s.1 <-> exists n tsk, n ∈ a.2 /\ s.2 !! n = Some tsk /\ p ∈ blocks_of tsk
}.

Fixpoint free_all (ps : list positive) (h : heap) : option heap :=
  match ps with [] => Some h | p :: ps => h ← free p h; free_all ps h end.

Lemma release_free_all tsk h :
  release tsk h = if decide (self tsk ∈ live h) then free_all (blocks_of tsk) h else None.
Proof.
  unfold release, free_wait_struct, free_ring_buffer. destruct (decide _); [|done].
  simpl. do 5 (destruct (free _ _) as [?|]; simpl; [|done]). by destruct (free _ _).
Qed.

Lemma free_all_ok ps h :
  NoDup ps -> (forall p, p ∈ ps -> p ∈ live h) ->
  free_all ps h = Some (Heap (live h ∖ list_to_set ps) (brk h)).
Proof.
  revert h. induction ps as [|p ps IH]; intros h ND Hl; simpl.
  - destruct h as [l b]. simpl. do 2 f_equal. set_solver.
  - apply NoDup_cons in ND as [Hp ND]. unfold free. rewrite decide_True by set_solver. simpl.
    rewrite IH; [simpl; do 2 f_equal; set_solver|done|simpl; set_solver].
Qed.

(** Blocks of different sockets differ. *)
Lemma own_apart (socks : list tcp_sock) n m t u p :
  NoDup (socks ≫= blocks_of) -> socks !! n = Some t -> socks !! m = Some u ->
  p ∈ blocks_of t -> p ∈ blocks_of u -> n = m.
Proof.
  revert n m. induction socks as [|x socks IH]; intros n m ND Hn Hm Ht Hu; [done|].
  cbn [mbind list_bind] in ND. apply NoDup_app in ND as (_ & Hx & ND).
  assert (Hin : forall k v, socks !! k = Some v -> p ∈ blocks_of v -> p ∈ socks ≫= blocks_of)
    by (intros k v Hk Hv; apply list_elem_of_bind; exists v; split; [done|by apply list_elem_of_lookup_2 in Hk]).
  destruct n as [|n], m as [|m]; simpl in *; simplify_eq; [done|..].
  - exfalso. apply (Hx p Ht). eauto.
  - exfalso. apply (Hx p Hu). eauto.
  - f_equal. eauto.
Qed.

Lemma own_nodup (socks : list tcp_sock) n t :
  NoDup (socks ≫= blocks_of) -> socks !! n = Some t -> NoDup (blocks_of t).
Proof.
  revert n. induction socks as [|x socks IH]; intros n ND Hn; [done|].
  cbn [mbind list_bind] in ND. apply NoDup_app in ND as (Hx & _ & ND).
  destruct n as [|n]; simpl in Hn; [by simplify_eq|eauto].
Qed.

Lemma own_snoc (socks : list tcp_sock) tsk : (socks ++ [tsk]) ≫= blocks_of = (socks ≫= blocks_of) ++ blocks_of tsk.
Proof. by rewrite bind_app. Qed.

(** Six fresh blocks, or a fault. *)
Lemma alloc_spec h k :
  brk h = Pos.of_succ_nat (6 * k) ->
  match alloc_tcp_sock h with
  | Some (tsk, h') => alloc_ok k = true /\
      NoDup (blocks_of tsk) /\ (forall p, p ∈ blocks_of tsk -> (brk h <= p < brk h')%positive) /\
      brk h' = Pos.of_succ_nat (6 * S k) /\ (forall p, p ∈ live h' <-> p ∈ blocks_of tsk \/ p ∈ live h)
  | None => alloc_ok k = false
  end.
Proof.
  unfold alloc_tcp_sock, alloc_ring_buffer, alloc_wait_struct, malloc, alloc_ok, blocks_of. intros Hb.
  cbn [seq forallb]. assert (Hi : forall i, Pos.of_succ_nat (S i + 6 * k) = Pos.succ (Pos.of_succ_nat (i + 6 * k))) by done.
  rewrite !Hi, Nat.add_0_l, <- Hb.
  do 6 (destruct (malloc_ok _); [cbn [mbind option_bind brk live andb]|reflexivity]).
  split; [done|]. cbn [self rcv_buf wait_connect wait_accept wait_recv wait_send brk live]. split; [|split; [|split]].
  - clear. generalize (brk h) as b. intros b. repeat (apply NoDup_cons; split; [|]); [..|constructor];
      rewrite ?not_elem_of_cons; repeat split; try lia; apply not_elem_of_nil.
  - intros p Hq. repeat (apply elem_of_cons in Hq as [->|Hq]; [lia|]). by apply elem_of_nil in Hq.
  - rewrite Hb. change (Pos.of_succ_nat (6 + 6 * k) = Pos.of_succ_nat (6 * S k)). f_equal. lia.
  - intros p. set_solver.
Qed.

Lemma alloc_sim h socks k l :
  sim (h, socks) (k, l) ->
  match block_step (h, socks) OpAlloc, unit_step (k, l) OpAlloc with
  | Some s, Some a => sim s a
  | None, None => True
  | _, _ => False
  end.
Proof.
  intros [Hc Hbrk Hl Ho Hb Hh]. cbn [fst snd] in *. pose proof (alloc_spec h k Hbrk) as Ha.
  unfold block_step, unit_step. destruct (alloc_tcp_sock h) as [[tsk h']|]; cbn [mbind option_bind]; [|by rewrite Ha].
  destruct Ha as (-> & ND & Hf & Hbrk' & Hlive). assert (Hlt : (brk h < brk h')%positive) by lia.
  subst k. split; cbn [fst snd]; [|done|..].
  - rewrite length_app. simpl. lia.
  - intros n [->%elem_of_singleton|Hn]%elem_of_union; [lia|]. specialize (Hl n Hn). lia.
  - rewrite own_snoc. apply NoDup_app. split; [done|]. split; [|done].
    intros p Hp%Hb Hq%Hf. lia.
  - intros p. rewrite own_snoc, elem_of_app. intros [Hp%Hb|Hq%Hf]; lia.
  - intros p. rewrite Hlive, Hh. split.
    + intros [Hp|(n & t & Hn & Ht & Hp)].
      * exists (length socks), tsk. split; [set_solver|]. split; [by apply list_lookup_middle|done].
      * exists n, t. split; [set_solver|]. split; [|done]. by apply lookup_app_l_Some.
    + intros (n & t & Hn & Ht & Hp). apply lookup_app_Some in Ht as [Ht|[Hge Ht]].
      * right. exists n, t. split; [|done]. apply elem_of_union in Hn as [->%elem_of_singleton|Hn]; [|done].
        apply lookup_lt_Some in Ht. lia.
      * left. apply list_lookup_singleton_Some in Ht as [_ <-]. done.
Qed.

Lemma free_sim h socks k l n :
  sim (h, socks) (k, l) ->
  match block_step (h, socks) (OpFree n), unit_step (k, l) (OpFree n) with
  | Some s, Some a => sim s a
  | None, None => True
  | _, _ => False
  end.
Proof.
  intros [Hc Hbrk Hl Ho Hb Hh]. cbn [fst snd] in *. unfold block_step, unit_step. destruct (decide (n ∈ l)) as [Hn|Hn].
  - destruct (lookup_lt_is_Some_2 socks n) as [t Ht]; [rewrite <- Hc; auto|]. rewrite Ht. cbn [mbind option_bind].
    assert (Hin : forall p, p ∈ blocks_of t -> p ∈ live h) by (intros p Hp; apply Hh; eauto).
    rewrite release_free_all, decide_True by (apply Hin; unfold blocks_of; set_solver).
    rewrite free_all_ok by eauto using own_nodup. cbn [mbind option_bind]. split; cbn [fst snd]; [done|done| |done|done|].
    + intros m Hm. apply Hl. set_solver.
    + intros p. cbn [live]. rewrite elem_of_difference, elem_of_list_to_set, Hh. split.
      * intros [(m & u & Hm & Hu & Hp) Hnp]. exists m, u. split; [|done].
        apply elem_of_difference. split; [done|]. rewrite elem_of_singleton. intros ->. by simplify_eq.
      * intros (m & u & Hm & Hu & Hp). apply elem_of_difference in Hm as [Hm Hne]. split; [eauto|].
        intros Hp'. apply Hne, elem_of_singleton. by apply (own_apart socks m n u t p).
  - destruct (socks !! n) as [t|] eqn:Ht; cbn [mbind option_bind]; [|done].
    rewrite release_free_all, decide_False; [done|]. rewrite Hh. intros (m & u & Hm & Hu & Hp).
    apply Hn. assert (m = n) as <-; [|done].
    apply (own_apart socks m n u t (self t)); [done..|unfold blocks_of; set_solver].
Qed.

Lemma run_sim os s a :
  sim s a ->
  match run block_step s os, run unit_step a os with
  | Some s', Some a' => sim s' a'
  | None, None => True
  | _, _ => False
  end.
Proof.
  revert s a. induction os as [|o os IH]; intros [h socks] [k l] Hs; [done|]. cbn [run].
  assert (Hstep : match block_step (h, socks) o, unit_step (k, l) o with
                  | Some s, Some a => sim s a | None, None => True | _, _ => False end).
  { destruct o as [|n]; [by apply alloc_sim|by apply free_sim]. }
  destruct (block_step (h, socks) o) as [s'|], (unit_step (k, l) o) as [a'|]; cbn [mbind option_bind]; try done.
  by apply IH.
Qed.

Definition empty_heap : heap := Heap ∅ 1.

Lemma sim_empty : sim (empty_heap, []) (0%nat, ∅).
Proof.
  split; simpl; [done|done|set_solver|constructor|intros p Hp; by apply elem_of_nil in Hp|].
  intros p. split; [set_solver|]. by intros (n & t & Hn & _).
Qed.

(** C12: for every sequence of socket allocations and releases, whichever calls of
    [malloc] fail, making the six allocations and six [free] calls one by one does
    what the view of a socket as a single object says: both go through or both are an
    error (the allocation of a socket for which one of its six calls fails, the
    release of a socket that is not live, which would free its blocks again), and then the heap
    holds exactly the blocks of the live sockets, every socket having blocks of its
    own: nothing leaks, and no live block is ever freed. *)
Theorem blocks_refine_units os :
  match run block_step (empty_heap, []) os, run unit_step (0%nat, ∅) os with
  | Some (h, socks), Some (k, l) =>
      k = length socks /\ NoDup (socks ≫= blocks_of) /\
      forall p, p ∈ live h <-> exists n tsk, n ∈ l /\ socks !! n = Some tsk /\ p ∈ blocks_of tsk
  | None, None => True
  | _, _ => False
  end.
Proof.
  pose proof (run_sim os _ _ sim_empty) as Hs.
  destruct (run block_step _ os) as [[h socks]|], (run unit_step _ os) as [[k l]|]; try done.
  by destruct Hs.
Qed.

End Malloc.

(** Two sockets, the first released; releasing it again is an error, and so is a
    third socket when call 15 fails. *)
Example blocks_run :
  let step := block_step (fun p => negb (Pos.eqb p 15)) in
  (fun s => size (live s.1)) <$> run step (empty_heap, []) [OpAlloc; OpAlloc; OpFree 0] = Some 6%nat /\
  run step (empty_heap, []) [OpAlloc; OpAlloc; OpFree 0; OpFree 0] = None /\
  run step (empty_heap, []) [OpAlloc; OpAlloc; OpAlloc] = None.
Proof. repeat split; vm_compute; reflexivity. Qed.

End Blocks.
