(* ===== verification/DList.v ===== *)
(** * Intrusive doubly linked lists (include/list.h)

    Every table and queue of the stack is a circular list threaded through
    [struct list_head] members of larger objects.  The list operations are
    written against an interface, [NodeStore]: memory in which some addresses
    hold a list node that can be read and written.  [dlist s h l] says that the
    list with head [h] links the nodes [l], in this order; the operations are
    proved to act on [l] the way their names say and to leave every other node
    alone. *)

From S2P Require Import Prelude.

Record list_head (P : Type) := ListHead { next : P; prev : P }.
Arguments ListHead {P} next prev.
Arguments next {P}.
Arguments prev {P}.

(** What the list code needs of memory: [node_get] fails where no list node
    lives, and a store is seen by the next load of the same address only. *)
Class NodeStore (S P : Type) := {
  node_get : S -> P -> option (list_head P);
  node_set : S -> P -> list_head P -> S
}.

Class NodeStoreOk (S P : Type) `{NodeStore S P} := {
  node_get_set s p n : is_Some (node_get s p) -> node_get (node_set s p n) p = Some n;
  node_get_set_ne s p q n : p ≠ q -> node_get (node_set s p n) q = node_get s q
}.

Section Code.
Context {S P : Type} `{NodeStore S P} `{EqDecision P}.

(** [p->next = v] and [p->prev = v]; [None] is an access to memory that holds
    no node, a null pointer among others. *)
Definition set_next (s : S) (p v : P) : option S :=
  n ← node_get s p; Some (node_set s p (ListHead v (prev n))).
Definition set_prev (s : S) (p v : P) : option S :=
  n ← node_get s p; Some (node_set s p (ListHead (next n) v)).

Definition list_empty (s : S) (list : P) : option bool :=
  n ← node_get s list; Some (bool_decide (next n = list)).

Definition init_list_head (s : S) (list : P) : option S :=
  s ← set_prev s list list; set_next s list list.

Definition list_insert (s : S) (new prv nxt : P) : option S :=
  s ← set_prev s nxt new;
  s ← set_next s prv new;
  s ← set_next s new nxt;
  set_prev s new prv.

Definition list_add_head (s : S) (new head : P) : option S :=
  h ← node_get s head; list_insert s new head (next h).

Definition list_add_tail (s : S) (new head : P) : option S :=
  h ← node_get s head; list_insert s new (prev h) head.

Definition list_delete_entry (s : S) (entry : P) : option S :=
  e ← node_get s entry;
  s ← set_prev s (next e) (prev e);
  e ← node_get s entry;
  set_next s (prev e) (next e).

(** The loop of [list_for_each_entry], as the list of nodes it visits. *)
Fixpoint list_walk (fuel : nat) (s : S) (pos head : P) : option (list P) :=
  match fuel with
  | O => None
  | Datatypes.S fuel =>
      if decide (pos = head) then Some []
      else n ← node_get s pos; l ← list_walk fuel s (next n) head; Some (pos :: l)
  end.

Definition list_for_each_entry (fuel : nat) (s : S) (head : P) : option (list P) :=
  h ← node_get s head; list_walk fuel s (next h) head.

(** The loops with a body that changes memory; what is visited and the memory at
    the end.  [list_for_each_entry] reads the successor after the body,
    [list_for_each_entry_safe] holds it in [q] from before the body. *)
Fixpoint for_each_from (body : P -> S -> option S) (fuel : nat) (s : S) (pos head : P) :
    option (list P * S) :=
  match fuel with
  | O => None
  | Datatypes.S fuel =>
      if decide (pos = head) then Some ([], s)
      else
        s ← body pos s; n ← node_get s pos;
        '(l, s) ← for_each_from body fuel s (next n) head; Some (pos :: l, s)
  end.
Definition list_for_each_entry_do (body : P -> S -> option S) (fuel : nat) (s : S) (head : P) :=
  h ← node_get s head; for_each_from body fuel s (next h) head.

Fixpoint for_each_safe_from (body : P -> S -> option S) (fuel : nat) (s : S) (pos q head : P) :
    option (list P * S) :=
  match fuel with
  | O => None
  | Datatypes.S fuel =>
      if decide (pos = head) then Some ([], s)
      else
        s ← body pos s; n ← node_get s q;
        '(l, s) ← for_each_safe_from body fuel s q (next n) head; Some (pos :: l, s)
  end.
Definition list_for_each_entry_safe (body : P -> S -> option S) (fuel : nat) (s : S) (head : P) :=
  h ← node_get s head; n ← node_get s (next h); for_each_safe_from body fuel s (next h) (next n) head.

End Code.

(** Split a chain of stores in a hypothesis. *)
Ltac split_stores H :=
  repeat match type of H with
  | mbind _ ?x = Some _ =>
      let E := fresh "E" in destruct x eqn:E; [cbn [mbind option_bind] in H|discriminate H]
  end.

(** ** What the operations do not see

    A view of memory that single stores of list nodes do not change is not changed
    by the operations. *)

Section View.
Context {S P X : Type} `{NodeStore S P} `{EqDecision P} (view : S -> X).
Hypothesis node_set_view : forall s p n, view (node_set s p n) = view s.

Lemma set_next_view s s' p v : set_next s p v = Some s' -> view s' = view s.
Proof. unfold set_next. destruct (node_get s p); [|done]. intros [= <-]. apply node_set_view. Qed.
Lemma set_prev_view s s' p v : set_prev s p v = Some s' -> view s' = view s.
Proof. unfold set_prev. destruct (node_get s p); [|done]. intros [= <-]. apply node_set_view. Qed.

Lemma list_insert_view s s' a b c : list_insert s a b c = Some s' -> view s' = view s.
Proof.
  unfold list_insert. intros Hi. split_stores Hi.
  rewrite (set_prev_view _ _ _ _ Hi), (set_next_view _ _ _ _ E1), (set_next_view _ _ _ _ E0).
  by apply set_prev_view in E.
Qed.
Lemma list_add_head_view s s' a b : list_add_head s a b = Some s' -> view s' = view s.
Proof. unfold list_add_head. intros Hi. split_stores Hi. by apply list_insert_view in Hi. Qed.
Lemma list_add_tail_view s s' a b : list_add_tail s a b = Some s' -> view s' = view s.
Proof. unfold list_add_tail. intros Hi. split_stores Hi. by apply list_insert_view in Hi. Qed.
Lemma list_delete_entry_view s s' a : list_delete_entry s a = Some s' -> view s' = view s.
Proof.
  unfold list_delete_entry. intros Hi. split_stores Hi.
  rewrite (set_next_view _ _ _ _ Hi). by apply set_prev_view in E0.
Qed.
Lemma init_list_head_view s s' a : init_list_head s a = Some s' -> view s' = view s.
Proof.
  unfold init_list_head. intros Hi. split_stores Hi.
  rewrite (set_next_view _ _ _ _ Hi). by apply set_prev_view in E.
Qed.
End View.

(** ** The abstraction *)

Section Spec.
Context {S P : Type} `{NodeStoreOk S P} `{EqDecision P}.
Implicit Types (s : S) (p q h e new : P) (l : list P).

(** [a] points forward to [b], and [b] back to [a]. *)
Definition link s a b : Prop :=
  (exists n, node_get s a = Some n /\ next n = b) /\ (exists n, node_get s b = Some n /\ prev n = a).

(** The links of the circular list: each node with its successor. *)
Definition pairs h l : list (P * P) := zip (h :: l) (l ++ [h]).

Definition dlist s h l : Prop :=
  NoDup (h :: l) /\ forall a b, (a, b) ∈ pairs h l -> link s a b.

(** Nodes outside [l] are untouched. *)
Definition same_outside (l : list P) s s' : Prop :=
  forall q, q ∉ l -> node_get s' q = node_get s q.

(** ** Lemmas on single stores *)

Lemma set_next_spec s p v n :
  node_get s p = Some n ->
  exists s', set_next s p v = Some s' /\ node_get s' p = Some (ListHead v (prev n)) /\
             forall q, q ≠ p -> node_get s' q = node_get s q.
Proof.
  intros Hp. unfold set_next. rewrite Hp. simpl. eexists; split; [done|]. split.
  - apply node_get_set. by rewrite Hp.
  - intros q Hq. by apply node_get_set_ne.
Qed.

Lemma set_prev_spec s p v n :
  node_get s p = Some n ->
  exists s', set_prev s p v = Some s' /\ node_get s' p = Some (ListHead (next n) v) /\
             forall q, q ≠ p -> node_get s' q = node_get s q.
Proof.
  intros Hp. unfold set_prev. rewrite Hp. simpl. eexists; split; [done|]. split.
  - apply node_get_set. by rewrite Hp.
  - intros q Hq. by apply node_get_set_ne.
Qed.

(** Two stores in a row, on nodes that may coincide: what [list_insert] and
    [list_delete_entry] do to the neighbours. *)
Lemma relink s a b v w s1 s2 :
  set_prev s b v = Some s1 -> set_next s1 a w = Some s2 ->
  same_outside [a; b] s s2 /\
  forall x n, node_get s x = Some n -> exists n', node_get s2 x = Some n' /\
    next n' = (if decide (x = a) then w else next n) /\
    prev n' = (if decide (x = b) then v else prev n).
Proof.
  intros E1 E2.
  destruct (node_get s b) as [nb|] eqn:Gb; [|by unfold set_prev in E1; rewrite Gb in E1].
  destruct (set_prev_spec s b v nb Gb) as (s1' & E1' & G1 & O1). simplify_eq.
  destruct (node_get s1 a) as [na|] eqn:Ga; [|by unfold set_next in E2; rewrite Ga in E2].
  destruct (set_next_spec s1 a w na Ga) as (s2' & E2' & G2 & O2). simplify_eq.
  split; [intros q Hq; rewrite O2, O1; set_solver|].
  intros x n Hx. destruct (decide (x = a)) as [->|Hxa].
  - exists (ListHead w (prev na)). split; [done|]. split; [done|]. simpl.
    destruct (decide (a = b)) as [->|]; [by simplify_eq|].
    rewrite O1 in Ga by done. by simplify_eq.
  - rewrite O2 by done. destruct (decide (x = b)) as [->|Hxb].
    + simplify_eq. eauto.
    + rewrite O1 by done. eauto.
Qed.

Lemma relink_ok s a b v w :
  is_Some (node_get s a) -> is_Some (node_get s b) ->
  exists s1 s2, set_prev s b v = Some s1 /\ set_next s1 a w = Some s2.
Proof.
  intros [na Ga] [nb Gb]. destruct (set_prev_spec s b v nb Gb) as (s1 & E1 & G1 & O1).
  assert (exists n, node_get s1 a = Some n) as [n Ga1].
  { destruct (decide (a = b)) as [->|]; [|rewrite O1 by done]; eauto. }
  destruct (set_next_spec s1 a w n Ga1) as (s2 & E2 & _). eauto.
Qed.

(** ** The links of a list split at a position *)

(** Around any position the links are those before, the link across, and those
    after: [srcs ++ [p]] are the sources up to the position, [n :: tgts] the targets
    after it. *)
Lemma pairs_split h l1 l2 srcs p (n : P) tgts :
  h :: l1 = srcs ++ [p] -> l2 ++ [h] = n :: tgts ->
  pairs h (l1 ++ l2) = zip srcs l1 ++ (p, n) :: zip l2 tgts.
Proof.
  intros E1 E2. unfold pairs. rewrite app_comm_cons, E1, <- !app_assoc, E2. simpl.
  rewrite zip_with_app; [done|].
  apply (f_equal length) in E1. rewrite length_app in E1. simpl in E1. lia.
Qed.

Lemma split_last h l1 : exists srcs p, h :: l1 = srcs ++ [p].
Proof. destruct (exists_last (l := h :: l1)) as (srcs & p & E); [done|eauto]. Qed.
Lemma split_first h l2 : exists n tgts, l2 ++ [h] = n :: tgts.
Proof. destruct l2; simpl; eauto. Qed.

(** In a list without duplicates a node starts one link and ends one link. *)
Lemma pairs_functional h l1 l2 srcs p (n : P) tgts (a b : P) :
  NoDup (h :: l1 ++ l2) -> h :: l1 = srcs ++ [p] -> l2 ++ [h] = n :: tgts ->
  (a, b) ∈ zip srcs l1 \/ (a, b) ∈ zip l2 tgts ->
  a ≠ p /\ b ≠ n /\ a ∈ h :: l1 ++ l2 /\ b ∈ h :: l1 ++ l2.
Proof.
  intros ND E1 E2 Hab.
  assert (ND1 : NoDup (srcs ++ [p] ++ l2)) by (by rewrite app_assoc, <- E1).
  assert (ND2 : NoDup (l1 ++ [n] ++ tgts)).
  { change ([n] ++ tgts) with (n :: tgts). rewrite <- E2, app_assoc.
    apply NoDup_cons in ND as [Hh ND]. apply NoDup_app.
    split; [done|]. split; [|apply NoDup_singleton].
    intros x Hx ->%list_elem_of_singleton. done. }
  assert (Ha : a ∈ h :: l1 ++ l2 /\ a ≠ p).
  { rewrite app_comm_cons, E1, <- app_assoc. destruct Hab as [Hab|Hab];
      apply elem_of_zip_l in Hab; (split; [set_solver|]); intros ->;
      rewrite NoDup_app in ND1; destruct ND1 as (_ & D & ND1).
    - apply (D p Hab). set_solver.
    - apply NoDup_app in ND1 as (_ & D' & _). apply (D' p); set_solver. }
  assert (Hb : b ∈ l1 ++ [n] ++ tgts /\ b ≠ n).
  { destruct Hab as [Hab|Hab]; apply elem_of_zip_r in Hab; (split; [set_solver|]); intros ->;
      rewrite NoDup_app in ND2; destruct ND2 as (_ & D & ND2).
    - apply (D n Hab). set_solver.
    - apply NoDup_app in ND2 as (_ & D' & _). apply (D' n); set_solver. }
  destruct Ha as [? ?], Hb as [Hb ?]. repeat split; auto.
  change ([n] ++ tgts) with (n :: tgts) in Hb. rewrite <- E2 in Hb. set_solver.
Qed.

(** ** The operations on a list split at a position *)

Lemma pairs_elem_l h l a b : (a, b) ∈ pairs h l -> a ∈ h :: l /\ b ∈ h :: l.
Proof.
  unfold pairs. intros Hab. split; [by apply elem_of_zip_l in Hab|].
  apply elem_of_zip_r in Hab. set_solver.
Qed.

Lemma dlist_node s h l x : dlist s h l -> x ∈ h :: l -> is_Some (node_get s x).
Proof.
  intros [_ HL] Hx. assert (exists b, (x, b) ∈ pairs h l) as [b Hb].
  { unfold pairs. apply list_elem_of_lookup in Hx as [i Hi].
    destruct (lookup_lt_is_Some_2 (l ++ [h]) i) as [b Hb].
    { apply lookup_lt_Some in Hi. rewrite length_app. simpl in *. lia. }
    exists b. apply list_elem_of_lookup. exists i.
    apply lookup_zip_with_Some. eauto. }
  destruct (HL _ _ Hb) as [(n & Hn & _) _]. eauto.
Qed.

Lemma list_insert_spec s h l1 l2 srcs p (n : P) tgts new :
  dlist s h (l1 ++ l2) -> h :: l1 = srcs ++ [p] -> l2 ++ [h] = n :: tgts ->
  new ∉ h :: l1 ++ l2 -> is_Some (node_get s new) ->
  exists s', list_insert s new p n = Some s' /\ dlist s' h (l1 ++ new :: l2) /\
             same_outside [new; p; n] s s'.
Proof.
  intros [ND HL] E1 E2 Hnew Hn.
  assert (Hpn : link s p n).
  { apply HL. rewrite (pairs_split _ _ _ _ _ _ _ E1 E2). set_solver. }
  assert (Hp : p ∈ h :: l1 ++ l2) by (rewrite app_comm_cons, E1; set_solver).
  assert (Hn' : n ∈ h :: l1 ++ l2).
  { assert (n ∈ l2 ++ [h]) by (rewrite E2; set_solver). set_solver. }
  destruct Hpn as [(np & Gp & _) (nn & Gn & _)].
  destruct (relink_ok s p n new new) as (s1 & s2 & S1 & S2); [eauto..|].
  destruct (relink _ _ _ _ _ _ _ S1 S2) as [O R].
  destruct Hn as [nnew Gnew].
  assert (G2 : node_get s2 new = Some nnew) by (rewrite O by set_solver; done).
  destruct (set_next_spec s2 new n _ G2) as (s3 & S3 & G3 & O3).
  destruct (set_prev_spec s3 new p _ G3) as (s4 & S4 & G4 & O4). simpl in G4.
  assert (G : forall x, x ≠ new -> node_get s4 x = node_get s2 x)
    by (intros x Hx; rewrite O4, O3 by done; done).
  exists s4. split; [unfold list_insert; rewrite S1; simpl; rewrite S2; simpl; by rewrite S3|].
  split.
  - split.
    { rewrite <- Permutation_middle, Permutation_swap. by apply NoDup_cons. }
    assert (E2' : (new :: l2) ++ [h] = new :: n :: tgts) by (simpl; by rewrite E2).
    rewrite (pairs_split _ _ _ _ _ _ _ E1 E2'). cbn [zip_with].
    intros a b Hab. rewrite elem_of_app, !elem_of_cons in Hab.
    destruct (R _ _ Gp) as (np' & Gp' & Np & _). destruct (R _ _ Gn) as (nn' & Gn' & _ & Pn).
    rewrite decide_True in Np by done. rewrite decide_True in Pn by done.
    destruct Hab as [Hab|[[= -> ->]|[[= -> ->]|Hab]]].
    2:{ split; [exists np'; rewrite G by (by intros ->); done|]. eexists; split; [exact G4|done]. }
    2:{ split; [eexists; split; [exact G4|done]|]. exists nn'. rewrite G by (by intros ->). done. }
    all: destruct (pairs_functional h l1 l2 srcs p n tgts a b ND E1 E2) as (Ha & Hb & Ma & Mb);
      [tauto|]; destruct (HL a b) as [(na & Ga & Na) (nb & Gb & Nb)];
      [rewrite (pairs_split _ _ _ _ _ _ _ E1 E2), elem_of_app, elem_of_cons; tauto|].
    all: destruct (R _ _ Ga) as (na' & Ga' & Na' & _), (R _ _ Gb) as (nb' & Gb' & _ & Nb').
    all: rewrite decide_False in Na' by done; rewrite decide_False in Nb' by done.
    all: split; [exists na'|exists nb']; (rewrite G by (by intros ->)); by rewrite ?Na', ?Nb'.
  - intros q Hq. rewrite G, O; set_solver.
Qed.

Lemma list_delete_split s h l1 l2 e srcs p (n : P) tgts :
  dlist s h (l1 ++ e :: l2) -> h :: l1 = srcs ++ [p] -> l2 ++ [h] = n :: tgts ->
  exists s', list_delete_entry s e = Some s' /\ dlist s' h (l1 ++ l2) /\
             node_get s e = Some (ListHead n p) /\ same_outside [p; n] s s'.
Proof.
  intros [ND HL] E1 E2.
  assert (E2' : (e :: l2) ++ [h] = e :: n :: tgts) by (simpl; by rewrite E2).
  assert (ND' : NoDup (h :: l1 ++ l2) /\ e ∉ h :: l1 ++ l2).
  { rewrite <- Permutation_middle in ND. rewrite Permutation_swap in ND.
    apply NoDup_cons in ND. tauto. }
  destruct ND' as [ND' He].
  assert (Hp : p ∈ h :: l1 ++ l2) by (rewrite app_comm_cons, E1; set_solver).
  assert (Hn' : n ∈ h :: l1 ++ l2).
  { assert (n ∈ l2 ++ [h]) by (rewrite E2; set_solver). set_solver. }
  rewrite (pairs_split _ _ _ _ _ _ _ E1 E2') in HL. cbn [zip_with] in HL.
  destruct (HL p e) as [(np & Gp & _) (ne & Ge & Pe)]; [set_solver|].
  destruct (HL e n) as [(ne' & Ge' & Ne) (nn & Gn & _)]; [set_solver|]. simplify_eq.
  destruct (relink_ok s (prev ne) (next ne) (prev ne) (next ne)) as (s1 & s2 & S1 & S2); [eauto..|].
  destruct (relink _ _ _ _ _ _ _ S1 S2) as [O R].
  exists s2. split.
  { unfold list_delete_entry. rewrite Ge. simpl. rewrite S1. simpl.
    destruct (set_prev_spec s _ (prev ne) _ Gn) as (s1' & S1' & _ & O1). simplify_eq.
    rewrite O1 by set_solver. rewrite Ge. simpl. done. }
  split; [|split; [by destruct ne|done]].
  split; [done|]. rewrite (pairs_split _ _ _ _ _ _ _ E1 E2).
  intros a b Hab. rewrite elem_of_app, elem_of_cons in Hab.
  destruct (R _ _ Gp) as (np' & Gp' & Np & _). destruct (R _ _ Gn) as (nn' & Gn' & _ & Pn).
  rewrite decide_True in Np by done. rewrite decide_True in Pn by done.
  destruct Hab as [Hab|[[= -> ->]|Hab]]; [|split; eauto|].
  all: destruct (pairs_functional h l1 l2 srcs (prev ne) (next ne) tgts a b ND' E1 E2)
      as (Ha & Hb & Ma & Mb); [tauto|];
    destruct (HL a b) as [(na & Ga & Na) (nb & Gb & Nb)];
    [rewrite elem_of_app, !elem_of_cons; tauto|].
  all: destruct (R _ _ Ga) as (na' & Ga' & Na' & _), (R _ _ Gb) as (nb' & Gb' & _ & Nb').
  all: rewrite decide_False in Na' by done; rewrite decide_False in Nb' by done.
  all: split; [exists na'|exists nb']; by rewrite ?Na', ?Nb'.
Qed.

(** A list none of whose nodes were touched is unchanged. *)
Lemma dlist_ext s s' h l :
  dlist s h l -> (forall x, x ∈ h :: l -> node_get s' x = node_get s x) -> dlist s' h l.
Proof.
  intros [ND HL] O. split; [done|]. intros a b Hab.
  destruct (pairs_elem_l _ _ _ _ Hab) as [Ha Hb]. destruct (HL _ _ Hab) as [(n & Hn & En) (m & Hm & Em)].
  split; [exists n|exists m]; rewrite O by auto; done.
Qed.

Lemma dlist_frame k s s' h l :
  dlist s h l -> same_outside k s s' -> (forall x, x ∈ h :: l -> x ∉ k) -> dlist s' h l.
Proof. intros D O Hk. apply (dlist_ext s); auto. Qed.

Lemma init_list_head_spec s p :
  is_Some (node_get s p) ->
  exists s', init_list_head s p = Some s' /\ dlist s' p [] /\ same_outside [p] s s'.
Proof.
  intros [n Gp]. unfold init_list_head.
  destruct (set_prev_spec s p p n Gp) as (s1 & E1 & G1 & O1). rewrite E1. simpl.
  destruct (set_next_spec s1 p p _ G1) as (s2 & E2 & G2 & O2). simpl in G2. exists s2.
  split; [done|]. split.
  - split; [apply NoDup_singleton|]. intros a b [= -> ->]%list_elem_of_singleton.
    split; eauto.
  - intros q Hq. rewrite O2, O1; set_solver.
Qed.

Lemma walk_links s h pos l fuel :
  (forall a b, (a, b) ∈ zip (pos :: l) (l ++ [h]) -> link s a b) -> h ∉ pos :: l ->
  (length (pos :: l) < fuel)%nat -> list_walk fuel s pos h = Some (pos :: l).
Proof.
  revert pos fuel. induction l as [|x l IH]; intros pos fuel HL Hh Hf;
    destruct fuel as [|fuel]; simpl in Hf; [lia| |lia|]; cbn [list_walk];
    (rewrite decide_False by set_solver).
  - destruct (HL pos h) as [(n & -> & <-) _]; [set_solver|]. simpl.
    destruct fuel; [lia|]. simpl. by rewrite decide_True.
  - destruct (HL pos x) as [(n & -> & <-) _]; [set_solver|]. simpl.
    rewrite IH; [done| |set_solver|simpl; lia]. intros a b Hab. apply HL. simpl. set_solver.
Qed.

(** ** The operations *)

Lemma list_add_ok s h l new :
  dlist s h l -> new ∉ h :: l -> is_Some (node_get s new) ->
  (exists s', list_add_head s new h = Some s' /\ dlist s' h (new :: l) /\
              same_outside (new :: h :: l) s s') /\
  (exists s', list_add_tail s new h = Some s' /\ dlist s' h (l ++ [new]) /\
              same_outside (new :: h :: l) s s').
Proof.
  intros Hl Hnew Hn. split.
  - destruct (split_first h l) as (n & tgts & E2).
    destruct (list_insert_spec s h [] l [] h n tgts new) as (s' & E & Hl' & O); [done..|].
    assert (L : link s h n) by (apply Hl; unfold pairs; rewrite E2; set_solver).
    destruct L as [(nh & Gh & <-) _].
    exists s'. unfold list_add_head. rewrite Gh. simpl. split; [done|]. split; [done|].
    assert (next nh ∈ l ++ [h]) by (rewrite E2; set_solver).
    intros q Hq. apply O. set_solver.
  - destruct (split_last h l) as (srcs & p & E1).
    destruct (list_insert_spec s h l [] srcs p h [] new) as (s' & E & Hl' & O);
      [by rewrite app_nil_r|done|done|by rewrite app_nil_r|done|].
    assert (L : link s p h).
    { apply Hl. rewrite <- (app_nil_r l) at 1.
      rewrite (pairs_split h l [] srcs p h [] E1) by done. set_solver. }
    destruct L as [_ (nh & Gh & <-)].
    exists s'. unfold list_add_tail. rewrite Gh. simpl. split; [done|]. split; [done|].
    assert (prev nh ∈ h :: l) by (rewrite E1; set_solver).
    intros q Hq. apply O. set_solver.
Qed.

Lemma list_delete_entry_ok s h l1 l2 e :
  dlist s h (l1 ++ e :: l2) ->
  exists s', list_delete_entry s e = Some s' /\ dlist s' h (l1 ++ l2) /\
             same_outside (h :: l1 ++ l2) s s' /\
             node_get s' e = node_get s e /\ list_empty s' e = Some false.
Proof.
  intros Hl. destruct (split_last h l1) as (srcs & p & E1), (split_first h l2) as (n & tgts & E2).
  destruct (list_delete_split s h l1 l2 e srcs p n tgts Hl E1 E2) as (s' & E & Hl' & Ge & O).
  assert (Hp : p ∈ h :: l1 ++ l2) by (rewrite app_comm_cons, E1; set_solver).
  assert (Hn : n ∈ h :: l1 ++ l2).
  { assert (n ∈ l2 ++ [h]) by (rewrite E2; set_solver). set_solver. }
  destruct Hl as [ND _]. rewrite <- Permutation_middle, Permutation_swap in ND.
  apply NoDup_cons in ND as [He _].
  assert (Oe : node_get s' e = node_get s e) by (apply O; set_solver).
  exists s'. split; [done|]. split; [done|]. split; [|split; [done|]].
  - intros q Hq. apply O. set_solver.
  - unfold list_empty. rewrite Oe, Ge. simpl. rewrite bool_decide_false; set_solver.
Qed.

Lemma list_for_each_entry_ok s h l fuel :
  dlist s h l -> (length l < fuel)%nat ->
  list_for_each_entry fuel s h = Some l /\ list_empty s h = Some (bool_decide (l = [])).
Proof.
  intros [ND HL] Hf. unfold list_for_each_entry, list_empty.
  destruct l as [|x l].
  - destruct (HL h h) as [(n & -> & En) _]; [unfold pairs; set_solver|]. simpl. rewrite En.
    rewrite !bool_decide_true by done. destruct fuel; [simpl in Hf; lia|].
    simpl. by rewrite decide_True.
  - apply NoDup_cons in ND as [Hh _].
    destruct (HL h x) as [(n & -> & <-) _]; [unfold pairs; simpl; set_solver|]. simpl.
    rewrite (walk_links s h (next n) l); [|intros a b Hab; apply HL; unfold pairs; simpl; set_solver|done|done].
    rewrite !bool_decide_false; set_solver.
Qed.

(** ** Loops whose body removes nodes *)

(** The successors of the head and of a node of the list. *)
Lemma dlist_first s h l : dlist s h l -> exists n, node_get s h = Some n /\ next n = List.hd h l.
Proof.
  intros [_ HL]. destruct (HL h (List.hd h l)) as [(n & G & En) _]; [|eauto].
  unfold pairs. destruct l; simpl; set_solver.
Qed.
Lemma dlist_next s h l1 a l2 :
  dlist s h (l1 ++ a :: l2) -> exists n, node_get s a = Some n /\ next n = List.hd h l2.
Proof.
  intros [_ HL]. destruct (split_first h l2) as (b & tgts & E).
  replace (List.hd h l2) with b by (by destruct l2; injection E as -> _).
  destruct (HL a b) as [(n & G & En) _]; [|eauto].
  rewrite cons_middle, app_assoc, (pairs_split h (l1 ++ [a]) l2 (h :: l1) a b tgts) by done. set_solver.
Qed.

(** A body that may take the node it is called on out of the list. *)
Definition removes (body : P -> S -> option S) (h : P) (keep : P -> bool) : Prop :=
  forall s l1 p l2, dlist s h (l1 ++ p :: l2) ->
    exists s', body p s = Some s' /\ dlist s' h (l1 ++ (if keep p then [p] else []) ++ l2).

Lemma safe_from_ok body h keep fuel s l1 l2 q :
  removes body h keep -> dlist s h (l1 ++ l2) -> (length l2 < fuel)%nat -> q = List.hd h (tail l2) ->
  exists s', for_each_safe_from body fuel s (List.hd h l2) q h = Some (l2, s') /\
    dlist s' h (l1 ++ filter (fun p => keep p) l2).
Proof.
  intros Hb. revert s l1 l2 q. induction fuel as [|fuel IH]; intros s l1 l2 q D Hf Hq; [lia|].
  destruct l2 as [|x l2]; cbn [for_each_safe_from List.hd tail] in *.
  - rewrite decide_True by done. exists s. by rewrite filter_nil.
  - assert (Hx : x ≠ h) by (intros ->; destruct D as [ND _]; apply NoDup_cons in ND as [Hh _]; set_solver).
    rewrite decide_False by done.
    destruct (Hb s l1 x l2 D) as (s1 & -> & D1). cbn [mbind option_bind].
    assert (Hn : exists n, node_get s1 q = Some n /\ (l2 ≠ [] -> next n = List.hd h (tail l2))).
    { subst q. destruct l2 as [|y l2]; cbn [List.hd tail] in *.
      - destruct (dlist_first _ _ _ D1) as (n & G & _). by exists n.
      - rewrite app_assoc in D1. destruct (dlist_next _ _ _ _ _ D1) as (n & G & En). eauto. }
    destruct Hn as (n & -> & En). cbn [mbind option_bind]. rewrite app_assoc in D1.
    assert (Hrec : exists s', for_each_safe_from body fuel s1 q (next n) h = Some (l2, s') /\
              dlist s' h ((l1 ++ (if keep x then [x] else [])) ++ filter (fun p => keep p) l2)).
    { subst q. destruct l2 as [|y l2].
      - destruct fuel; [simpl in Hf; lia|]. simpl. rewrite decide_True by done. eauto.
      - rewrite En by done. apply IH; [done|simpl in *; lia|done]. }
    destruct Hrec as (s' & -> & D'). cbn [mbind option_bind]. exists s'. split; [done|].
    rewrite <- app_assoc in D'. rewrite filter_cons. by destruct (keep x).
Qed.

(** ** Theorems *)

(** On a list holding the nodes [l], adding a fresh node at the head
    gives the list [new :: l] and at the tail [l ++ [new]]; no node outside the
    list and [new] is written. *)
Theorem list_add_spec s h l new :
  dlist s h l -> new ∉ h :: l -> is_Some (node_get s new) ->
  (exists s', list_add_head s new h = Some s' /\ dlist s' h (new :: l) /\
              same_outside (new :: h :: l) s s') /\
  (exists s', list_add_tail s new h = Some s' /\ dlist s' h (l ++ [new]) /\
              same_outside (new :: h :: l) s s').
Proof. apply list_add_ok. Qed.

(** Deleting an entry at any position removes exactly it, writes no
    node outside the list, and leaves the entry's own pointers as they were, so
    that [list_empty] on the deleted entry still answers no. *)
Theorem list_delete_entry_spec s h l1 l2 e :
  dlist s h (l1 ++ e :: l2) ->
  exists s', list_delete_entry s e = Some s' /\ dlist s' h (l1 ++ l2) /\
             same_outside (h :: l1 ++ l2) s s' /\
             node_get s' e = node_get s e /\ list_empty s' e = Some false.
Proof. apply list_delete_entry_ok. Qed.

(** Iterating over a well-formed list terminates after visiting its
    nodes once each, in order, and [list_empty] answers whether there is one;
    [init_list_head] makes an empty list of any node. *)
Theorem list_for_each_entry_spec s h l fuel :
  dlist s h l -> (length l < fuel)%nat ->
  list_for_each_entry fuel s h = Some l /\ list_empty s h = Some (bool_decide (l = [])) /\
  (forall p, is_Some (node_get s p) ->
     exists s', init_list_head s p = Some s' /\ dlist s' p [] /\ same_outside [p] s s').
Proof.
  intros D Hf. destruct (list_for_each_entry_ok s h l fuel D Hf) as [-> ->].
  auto using init_list_head_spec.
Qed.

(** C26: [list_for_each_entry_safe] may run a body that takes the entries out of
    the list, and frees them: it visits every entry of the list at the start, once
    each and in order, never reads a node after the body has been called on it, and
    leaves the entries the body kept. *)
Theorem list_for_each_entry_safe_spec body s h l keep fuel :
  removes body h keep -> dlist s h l -> (length l < fuel)%nat ->
  exists s', list_for_each_entry_safe body fuel s h = Some (l, s') /\
    dlist s' h (filter (fun p => keep p) l).
Proof.
  intros Hb D Hf. unfold list_for_each_entry_safe.
  destruct (dlist_first _ _ _ D) as (nh & E1 & E2).
  rewrite E1. cbn [mbind option_bind]. rewrite E2.
  assert (Hq : exists n, node_get s (List.hd h l) = Some n /\ (l ≠ [] -> next n = List.hd h (tail l))).
  { destruct l as [|x l]; cbn [List.hd tail] in *.
    - destruct (dlist_first _ _ _ D) as (n & G & _). by exists n.
    - destruct (dlist_next s h [] x l D) as (n & G & En). eauto. }
  destruct Hq as (n & -> & En). cbn [mbind option_bind].
  destruct l as [|x l].
  - destruct fuel; [simpl in Hf; lia|]. simpl. rewrite decide_True by done. eauto.
  - rewrite En by done. by apply (safe_from_ok body h keep fuel s [] (x :: l)).
Qed.

End Spec.

(** ** A memory of list nodes, to run the operations on *)

#[export] Instance gmap_store : NodeStore (gmap Z (list_head Z)) Z := {
  node_get s p := s !! p;
  node_set s p n := <[p := n]> s
}.
#[export] Instance gmap_store_ok : NodeStoreOk (gmap Z (list_head Z)) Z.
Proof. split; intros; simpl; [apply lookup_insert_eq|by apply lookup_insert_ne]. Qed.

(** Deleting an entry and freeing the memory it lives in. *)
Definition delete_and_free (p : Z) (s : gmap Z (list_head Z)) : option (gmap Z (list_head Z)) :=
  s ← list_delete_entry s p; Some (delete p s).

Lemma delete_and_free_removes h : removes delete_and_free h (fun _ => false).
Proof.
  intros s l1 p l2 D. destruct (list_delete_entry_ok s h l1 l2 p D) as (s1 & E & D1 & _).
  unfold delete_and_free. rewrite E. cbn [mbind option_bind app]. eexists. split; [done|].
  apply (dlist_ext s1); [done|]. intros q Hq. simpl. apply lookup_delete_ne. intros <-.
  destruct D as [ND _]. rewrite <- Permutation_middle, Permutation_swap in ND.
  by apply NoDup_cons in ND as [? _].
Qed.

(** The loop without [_safe] does not survive that body: it reads the first
    entry after it has been freed. *)
Theorem plain_loop_reads_freed s h x l fuel :
  dlist s h (x :: l) -> (1 < fuel)%nat ->
  list_for_each_entry_do delete_and_free fuel s h = None.
Proof.
  intros D Hf. unfold list_for_each_entry_do. destruct (dlist_first _ _ _ D) as (nh & E1 & E2).
  rewrite E1. cbn [mbind option_bind]. rewrite E2. cbn [List.hd]. destruct fuel as [|fuel]; [lia|]. cbn [for_each_from].
  rewrite decide_False by (intros ->; destruct D as [ND _]; apply NoDup_cons in ND as [Hh _]; set_solver).
  destruct (list_delete_entry_ok s h [] l x D) as (s1 & E & _).
  assert (Hb : delete_and_free x s = Some (delete x s1)) by (unfold delete_and_free; by rewrite E).
  rewrite Hb. cbn [mbind option_bind]. simpl. by rewrite lookup_delete_eq.
Qed.

(** A head at 0 with nodes 16 and 32, and a free node at 48. *)
Definition demo : gmap Z (list_head Z) :=
  {[ 0 := ListHead 16 32; 16 := ListHead 32 0; 32 := ListHead 0 16; 48 := ListHead 48 48 ]}.

Lemma demo_dlist : dlist demo 0 [16; 32].
Proof.
  split; [apply (bool_decide_unpack _); reflexivity|]. intros a b Hab.
  repeat (apply elem_of_cons in Hab as [[= -> ->]|Hab];
    [split; eexists; split; reflexivity|]). by apply elem_of_nil in Hab.
Qed.

Lemma list_add_spec_witness :
  exists s', list_add_tail demo 48 0 = Some s' /\ dlist s' 0 [16; 32; 48].
Proof.
  destruct (list_add_spec demo 0 [16; 32] 48 demo_dlist) as [_ (s' & E & D & _)].
  - apply (bool_decide_unpack _). reflexivity.
  - by eexists.
  - eauto.
Defined.

Lemma list_delete_entry_spec_witness :
  exists s', list_delete_entry demo 16 = Some s' /\ dlist s' 0 [32] /\ list_empty s' 16 = Some false.
Proof.
  destruct (list_delete_entry_spec demo 0 [] [32] 16 demo_dlist) as (s' & E & D & _ & _ & N). eauto.
Defined.

Lemma list_for_each_entry_spec_witness : list_for_each_entry 3 demo 0 = Some [16; 32].
Proof. apply (list_for_each_entry_spec demo 0 [16; 32] 3 demo_dlist). simpl. lia. Defined.

Lemma list_for_each_entry_safe_spec_witness :
  exists s', list_for_each_entry_safe delete_and_free 3 demo 0 = Some ([16; 32], s') /\ dlist s' 0 [].
Proof.
  destruct (list_for_each_entry_safe_spec delete_and_free demo 0 [16; 32] (fun _ => false) 3)
    as (s' & E & D); [apply delete_and_free_removes|apply demo_dlist|simpl; lia|].
  exists s'. split; [exact E|exact D].
Defined.

Lemma plain_loop_reads_freed_witness : list_for_each_entry_do delete_and_free 3 demo 0 = None.
Proof. apply (plain_loop_reads_freed demo 0 16 [32] 3 demo_dlist). lia. Defined.
