(* ===== verification/ListConc.v ===== *)
(** * A list that is walked while it is changed (include/list.h)

    The tables are walked by the thread that receives packets and changed by the
    threads of the applications, without a lock.  Here [list_insert] is its four
    stores, [list_for_each_entry] one load of a [next] member per step, and the two
    run in different threads, switched between any two steps.  (Loads and stores of
    an aligned pointer are taken as atomic and seen in order.)

    [list_insert] links the new node from its predecessor before it stores the new
    node's own pointers.  So a walk that comes by in between goes where the new node
    happened to point; every other walk sees the list before or after. *)

From S2P Require Import Prelude DList.

(** ** The code *)

Section Code.
Context {S P : Type} `{NodeStore S P} `{EqDecision P}.

(** [p->prev = v] and [p->next = v]. *)
Inductive store := StPrev (p v : P) | StNext (p v : P).

Definition exec_store (s : S) (t : store) : option S :=
  match t with StPrev p v => set_prev s p v | StNext p v => set_next s p v end.
Fixpoint exec_stores (s : S) (ts : list store) : option S :=
  match ts with [] => Some s | t :: ts => s ← exec_store s t; exec_stores s ts end.

Definition insert_stores (new prv nxt : P) : list store :=
  [StPrev nxt new; StNext prv new; StNext new nxt; StPrev new prv].

(** Where a walk is: about to load the head's [next]; at [pos], the entries of
    [seen] behind it; or at the end. *)
Inductive cursor := CStart | CAt (pos : P) (seen : list P) | CDone (seen : list P).

(** One step of it; [None]: [pos] is not a node. *)
Definition walk_step (s : S) (head : P) (c : cursor) : option cursor :=
  match c with
  | CStart => h ← node_get s head; Some (CAt (next h) [])
  | CAt pos seen =>
      if decide (pos = head) then Some (CDone seen)
      else n ← node_get s pos; Some (CAt (next n) (seen ++ [pos]))
  | CDone seen => Some (CDone seen)
  end.

(** Memory, the walk, and the stores still to come. *)
Record race := Race { mem : S; walk : cursor; todo : list store }.

Inductive side := Walker | Inserter.
#[global] Instance side_eq_dec : EqDecision side.
Proof. solve_decision. Defined.

Definition race_step (head : P) (r : race) (x : side) : option race :=
  match x with
  | Walker => c ← walk_step (mem r) head (walk r); Some (Race (mem r) c (todo r))
  | Inserter =>
      match todo r with
      | [] => Some r
      | t :: ts => s ← exec_store (mem r) t; Some (Race s (walk r) ts)
      end
  end.
Fixpoint race_run (head : P) (r : race) (xs : list side) : option race :=
  match xs with [] => Some r | x :: xs => r ← race_step head r x; race_run head r xs end.

End Code.

Arguments store : clear implicits.
Arguments cursor : clear implicits.
Arguments race : clear implicits.

(** ** Lemmas *)

Section Lemmas.
Context {S P : Type} `{NodeStoreOk S P} `{EqDecision P}.
Implicit Types (s : S) (p q h new : P) (l : list P).

Lemma exec_stores_insert s new prv nxt :
  exec_stores s (insert_stores new prv nxt) = list_insert s new prv nxt.
Proof.
  unfold list_insert, insert_stores. cbn [exec_stores exec_store].
  destruct (set_prev s nxt new) as [s1|]; [|done]. cbn [mbind option_bind].
  destruct (set_next s1 prv new) as [s2|]; [|done]. cbn [mbind option_bind].
  destruct (set_next s2 new nxt) as [s3|]; [|done]. cbn [mbind option_bind].
  by destruct (set_prev s3 new prv).
Qed.

Lemma exec_stores_app s ts us :
  exec_stores s (ts ++ us) = s ← exec_stores s ts; exec_stores s us.
Proof.
  revert s. induction ts as [|t ts IH]; intros s; [done|]. cbn [exec_stores app].
  destruct (exec_store s t); [apply IH|done].
Qed.

Lemma race_run_app h (r : race S P) xs ys :
  race_run h r (xs ++ ys) = r ← race_run h r xs; race_run h r ys.
Proof.
  revert r. induction xs as [|x xs IH]; intros r; [done|]. cbn [race_run app].
  destruct (race_step h r x); [apply IH|done].
Qed.

(** [a->next = b]. *)
Definition fwd s a b : Prop := exists n, node_get s a = Some n /\ next n = b.

Lemma fwd_store s t s' a b :
  exec_store s t = Some s' -> fwd s a b ->
  fwd s' a (match t with StNext p v => if decide (a = p) then v else b | StPrev _ _ => b end).
Proof.
  intros E (n & Ga & <-). destruct t as [p v|p v]; simpl in E.
  - destruct (node_get s p) as [m|] eqn:Gp; [|by unfold set_prev in E; rewrite Gp in E].
    destruct (set_prev_spec s p v m Gp) as (s1 & E1 & G1 & O). simplify_eq.
    destruct (decide (a = p)) as [->|Ha]; [simplify_eq; by eexists|]. exists n. by rewrite O.
  - destruct (node_get s p) as [m|] eqn:Gp; [|by unfold set_next in E; rewrite Gp in E].
    destruct (set_next_spec s p v m Gp) as (s1 & E1 & G1 & O). simplify_eq.
    case_decide as Ha; [subst; by eexists|]. exists n. by rewrite O.
Qed.

Lemma none_store s t s' x : exec_store s t = Some s' -> node_get s x = None -> node_get s' x = None.
Proof.
  intros E Hx. destruct t as [p v|p v]; simpl in E; unfold set_prev, set_next in E;
    (destruct (node_get s p) as [m|] eqn:Gp; [|done]); simpl in E; injection E as <-;
    rewrite node_get_set_ne; (done || by intros ->; congruence).
Qed.

End Lemmas.

(** ** One insertion and one walk *)

Section Walk.
Context {S P : Type} `{NodeStoreOk S P} `{EqDecision P}.
Context (s : S) (h : P) (l1 l2 : list P) (new : P) (nn : list_head P).

(** [new] goes between [l1] and [l2]. *)
Definition prv : P := List.last l1 h.
Definition nxt : P := List.hd h l2.

Hypothesis Hlist : dlist s h (l1 ++ l2).
Hypothesis Hfresh : new ∉ h :: l1 ++ l2.
Hypothesis Hnew : node_get s new = Some nn.
(** Where [new] points before: to its successor-to-be, or to no node. *)
Hypothesis Hstale : next nn = nxt \/ node_get s (next nn) = None.

Definition stores : list (store P) := insert_stores new prv nxt.

Lemma prv_split : exists srcs, h :: l1 = srcs ++ [prv].
Proof.
  unfold prv. destruct (list_eq_dec (A := P) l1 []) as [->|Hn]; [by exists []|].
  exists (h :: removelast l1). by rewrite (app_removelast_last h Hn) at 1.
Qed.
Lemma nxt_split : exists tgts, l2 ++ [h] = nxt :: tgts.
Proof. unfold nxt. destruct l2; simpl; eauto. Qed.

Lemma prv_in : prv ∈ h :: l1.
Proof. destruct prv_split as [srcs ->]. set_solver. Qed.
Lemma nxt_in : nxt ∈ l2 ++ [h].
Proof. destruct nxt_split as [tgts ->]. set_solver. Qed.
Lemma new_ne_prv : new ≠ prv.
Proof. intros E. apply Hfresh. pose proof prv_in. set_solver. Qed.

Lemma inserts : exists s', exec_stores s stores = Some s' /\ dlist s' h (l1 ++ new :: l2).
Proof.
  destruct prv_split as [srcs E1], nxt_split as [tgts E2].
  destruct (list_insert_spec s h l1 l2 srcs prv nxt tgts new Hlist E1 E2 Hfresh (ex_intro _ _ Hnew))
    as (s' & E & D & _). exists s'. by rewrite <- exec_stores_insert in E.
Qed.

(** The links in memory [m]: [prv] points to [x] and [new] to [y]. *)
Definition linked (m : S) (x y : P) : Prop :=
  (forall a b, fwd s a b -> a ≠ prv -> a ≠ new -> fwd m a b) /\ fwd m prv x /\ fwd m new y /\
  (next nn ≠ nxt -> node_get m (next nn) = None).

Lemma linked_start : linked s nxt (next nn).
Proof.
  split; [done|]. split; [|split; [by eexists|tauto]].
  destruct prv_split as [srcs E1], nxt_split as [tgts E2]. destruct Hlist as [_ HL].
  apply HL. rewrite (pairs_split _ _ _ _ _ _ _ E1 E2). set_solver.
Qed.

Lemma linked_store m t m' x y :
  linked m x y -> exec_store m t = Some m' ->
  match t with
  | StPrev _ _ => linked m' x y
  | StNext p v => (p = prv -> linked m' v y) /\ (p = new -> linked m' x v)
  end.
Proof.
  intros (Ho & Hp & Hn & Hx) E. pose proof new_ne_prv as Hne.
  assert (Hx' : next nn ≠ nxt -> node_get m' (next nn) = None)
    by (intros Hd; eapply none_store; [exact E|auto]).
  pose proof (fun a b => fwd_store m t m' a b E) as Hf. destruct t as [p v|p v].
  - split; [intros a b Hab Ha Hb; apply Hf; auto|]. split; [by apply Hf|]. split; [by apply Hf|done].
  - apply Hf in Hp, Hn. split; intros ->.
    + split; [|by rewrite decide_True in Hp by done; rewrite decide_False in Hn by done].
      intros a b Hab Ha Hb. specialize (Hf a b (Ho a b Hab Ha Hb)). by rewrite decide_False in Hf.
    + split; [|by rewrite decide_True in Hn by done; rewrite decide_False in Hp by done].
      intros a b Hab Ha Hb. specialize (Hf a b (Ho a b Hab Ha Hb)). by rewrite decide_False in Hf.
Qed.

(** The links after the first [k] stores. *)
Lemma linked_at k m :
  (k <= 4)%nat -> exec_stores s (take k stores) = Some m ->
  linked m (if (k <? 2)%nat then nxt else new) (if (k <? 3)%nat then next nn else nxt).
Proof.
  intros Hk. pose proof linked_start as L0. unfold stores, insert_stores.
  destruct k as [|[|[|[|[|k]]]]]; [..|lia]; cbn [take exec_stores]; intros E; split_stores E; injection E as <-.
  1: exact L0.
  all: pose proof (linked_store _ _ _ _ _ L0 E0) as L1; cbn beta iota in L1.
  1: exact L1.
  all: pose proof (proj1 (linked_store _ _ _ _ _ L1 E1) eq_refl) as L2.
  1: exact L2.
  all: pose proof (proj2 (linked_store _ _ _ _ _ L2 E2) eq_refl) as L3.
  1: exact L3.
  exact (linked_store _ _ _ _ _ L3 E3).
Qed.

(** The links of the list itself. *)
Lemma fwd_det (m : S) a b b' : fwd m a b -> fwd m a b' -> b = b'.
Proof. intros (n & G & <-) (n' & G' & <-). congruence. Qed.

Lemma nodup_list : NoDup (new :: h :: l1 ++ l2).
Proof. apply NoDup_cons. split; [done|]. by destruct Hlist. Qed.

Lemma fwd_l1 a x r : h :: l1 = a ++ x :: r -> r ≠ [] -> fwd s x (List.hd h r) /\ x ≠ prv /\ x ≠ new.
Proof.
  intros E Hr. pose proof nodup_list as ND. destruct prv_split as [srcs Es].
  assert (Hx : x ≠ new /\ x ≠ prv).
  { rewrite app_comm_cons, E in ND. apply NoDup_cons in ND as [Hn ND]. split; [set_solver|]. intros ->.
    destruct (exists_last Hr) as (r' & z & ->).
    assert (Ez : z = prv) by (rewrite Es, app_comm_cons, app_assoc in E; by apply app_inj_tail in E as [_ <-]).
    subst z. rewrite <- app_assoc in ND. apply NoDup_app in ND as (_ & _ & ND). simpl in ND.
    apply NoDup_cons in ND as [ND _]. set_solver. }
  split; [|tauto]. pose proof Hlist as D. destruct a as [|y a]; injection E as E0 E.
  - destruct (dlist_first _ _ _ D) as (n & G & En). exists n. rewrite <- E0. split; [done|]. rewrite En, E. by destruct r.
  - rewrite E, <- app_assoc in D. destruct (dlist_next _ _ _ _ _ D) as (n & G & En).
    exists n. split; [done|]. rewrite En. by destruct r.
Qed.

Lemma fwd_l2 a x r : l2 = a ++ x :: r -> fwd s x (List.hd h r) /\ x ≠ prv /\ x ≠ new.
Proof.
  intros E. pose proof nodup_list as ND. pose proof Hlist as D. rewrite E in ND, D.
  apply NoDup_cons in ND as [Hn ND]. split; [|split].
  - rewrite app_assoc in D. exact (dlist_next _ _ _ _ _ D).
  - intros ->. rewrite app_comm_cons in ND. apply NoDup_app in ND as (_ & ND & _).
    apply (ND prv prv_in). set_solver.
  - intros ->. set_solver.
Qed.

(** ** Where the walk can be *)

Definition walks (xs : list side) : nat := length (filter (fun x => x = Walker) xs).
Lemma walks_snoc xs x : walks (xs ++ [x]) = (walks xs + match x with Walker => 1 | Inserter => 0 end)%nat.
Proof. unfold walks. rewrite filter_app, length_app. by destruct x. Qed.

Definition start : race S P := Race s CStart stores.

(** The walk loaded [new->next] between the second and the third store. *)
Definition torn (xs : list side) : Prop :=
  exists a b m, xs = a ++ Walker :: b /\ race_run h start a = Some (Race m (CAt new l1) (drop 2 stores)).

Definition at_ok (k : nat) (xs : list side) (pos : P) (seen : list P) : Prop :=
  (exists r, l1 = seen ++ pos :: r) \/ ((2 <= k)%nat /\ pos = new /\ seen = l1) \/
  (exists a r, l2 ++ [h] = a ++ pos :: r /\ (seen = l1 ++ a \/ seen = l1 ++ new :: a)) \/
  (next nn ≠ nxt /\ pos = next nn /\ seen = l1 ++ [new] /\ torn xs).

Definition cursor_ok (k : nat) (xs : list side) (c : cursor P) : Prop :=
  match c with
  | CStart => walks xs = 0%nat
  | CAt pos seen => walks xs = Datatypes.S (length seen) /\ at_ok k xs pos seen
  | CDone seen => seen = l1 ++ l2 \/ seen = l1 ++ new :: l2
  end.

Lemma torn_snoc xs x : torn xs -> torn (xs ++ [x]).
Proof.
  intros (a & b & m & -> & R). exists a, (b ++ [x]), m. split; [|done]. by rewrite <- app_assoc.
Qed.

(** The successor of a node of [h :: l1]. *)
Lemma next_l1 m x' y a x r : linked m x' y -> h :: l1 = a ++ x :: r -> fwd m x (List.hd x' r).
Proof.
  intros (Ho & Hp & _) E. destruct r as [|z r].
  - destruct prv_split as [srcs Es]. rewrite E in Es. by apply app_inj_tail in Es as [_ ->].
  - destruct (fwd_l1 a x (z :: r) E ltac:(done)) as (Hx & H1 & H2). by apply Ho.
Qed.

(** Leaving a node of [h :: l1] and a node of [l2]. *)
Lemma leave_l1 k m xs a x r b :
  linked m (if (k <? 2)%nat then nxt else new) (if (k <? 3)%nat then next nn else nxt) ->
  h :: l1 = a ++ x :: r -> fwd m x b -> at_ok k xs b (tail (a ++ [x])).
Proof.
  intros L E Hb. rewrite (fwd_det _ _ _ _ Hb (next_l1 _ _ _ _ _ _ L E)).
  assert (El : l1 = tail (a ++ [x]) ++ r) by (rewrite cons_middle, app_assoc in E; destruct a; by injection E).
  destruct r as [|y r]; [|by left; exists r]. rewrite app_nil_r in El. rewrite <- El. simpl.
  destruct (Nat.ltb_spec k 2); [|by right; left].
  right; right; left. destruct nxt_split as [tgts ->]. exists [], tgts. by rewrite app_nil_r; auto.
Qed.

Lemma leave_l2 k m xs seen a x r b :
  linked m (if (k <? 2)%nat then nxt else new) (if (k <? 3)%nat then next nn else nxt) ->
  l2 ++ [h] = a ++ x :: r -> x ≠ h -> fwd m x b ->
  seen = l1 ++ a \/ seen = l1 ++ new :: a -> at_ok k xs b (seen ++ [x]).
Proof.
  intros (Ho & _) E Hx Hb Hs. right; right; left.
  destruct r as [|z r] using rev_ind; [by apply app_inj_tail in E as [_ ->]|].
  rewrite app_comm_cons, app_assoc in E. apply app_inj_tail in E as [E <-]. clear IHr.
  destruct (fwd_l2 a x r E) as (Hf & H1 & H2). rewrite (fwd_det _ _ _ _ Hb (Ho _ _ Hf H1 H2)).
  exists (a ++ [x]), (tail (r ++ [h])). split.
  - rewrite E, <- !app_assoc. simpl. by destruct r.
  - rewrite !app_assoc. simpl. rewrite <- !app_assoc. simpl. destruct Hs as [->| ->]; [left|right]; by rewrite <- ?app_assoc.
Qed.

(** Every node has a successor. *)
Lemma has_next m x y a : linked m x y -> a ∈ h :: l1 ++ l2 -> exists b, fwd m a b.
Proof.
  intros (Ho & Hp & _) Ha. destruct (decide (a = prv)) as [->|Hne]; [eauto|].
  destruct (dlist_node _ _ _ _ Hlist Ha) as [n G]. exists (next n). apply Ho; [by exists n|done|].
  intros ->. done.
Qed.

(** At the head again the walk is over. *)
Lemma at_end k m xs x y seen :
  linked m x y -> at_ok k xs h seen -> seen = l1 ++ l2 \/ seen = l1 ++ new :: l2.
Proof.
  intros (_ & _ & _ & Hx) Hat. pose proof nodup_list as ND. apply NoDup_cons in ND as [Hn ND].
  destruct Hat as [(r & E)|[(_ & E & _)|[(a & r & E & Hs)|(Hd & E & _)]]].
  - rewrite E in ND. apply NoDup_cons in ND as [ND _]. set_solver.
  - set_solver.
  - assert (Ea : a = l2); [|by subst a].
    destruct r as [|z r _] using rev_ind; [by apply app_inj_tail in E as [<- _]|].
    rewrite app_comm_cons, app_assoc in E. apply app_inj_tail in E as [E _].
    rewrite E in ND. apply NoDup_cons in ND as [ND _]. set_solver.
  - specialize (Hx Hd). rewrite <- E in Hx. destruct Hstale as [?|Hx']; [done|].
    destruct (dlist_first _ _ _ Hlist) as (n & G & _). congruence.
Qed.

(** Anywhere else it goes on, or it is where the new node pointed before. *)
Lemma walk_on k m xs pos seen :
  (k <= 4)%nat -> linked m (if (k <? 2)%nat then nxt else new) (if (k <? 3)%nat then next nn else nxt) ->
  race_run h start xs = Some (Race m (CAt pos seen) (drop k stores)) -> pos ≠ h -> at_ok k xs pos seen ->
  match node_get m pos with
  | Some n => at_ok k (xs ++ [Walker]) (next n) (seen ++ [pos])
  | None => next nn ≠ nxt /\ torn xs
  end.
Proof.
  intros Hk L R Hpos [(r & E)|[(Hk2 & Ep & Es)|[(a & r & E & Hs)|(Hd & Ep & Es & Ht)]]].
  - destruct (has_next m _ _ pos L) as (b & n & G & Eb); [rewrite E; set_solver|]. rewrite G, Eb.
    apply (leave_l1 k m _ (h :: seen) pos r); [done|by rewrite E|by exists n].
  - subst pos seen. destruct L as (_ & _ & (n & G & En) & _). rewrite G, En.
    destruct (decide ((if (k <? 3)%nat then next nn else nxt) = nxt)) as [->|Hd].
    + right; right; left. destruct nxt_split as [tgts ->]. exists [], tgts. auto.
    + destruct (Nat.ltb_spec k 3) as [Hk3|]; [|done]. right; right; right.
      split; [done|]. split; [done|]. split; [done|]. exists xs, [], m. split; [done|].
      by replace 2%nat with k by lia.
  - destruct r as [|z r _] using rev_ind; [by apply app_inj_tail in E as [_ <-]|].
    assert (Hin : pos ∈ h :: l1 ++ l2).
    { rewrite app_comm_cons, app_assoc in E. apply app_inj_tail in E as [-> _]. set_solver. }
    destruct (has_next m _ _ pos L Hin) as (b & n & G & Eb). rewrite G, Eb.
    apply (leave_l2 k m _ seen a pos (r ++ [z])); [done..|by exists n|done].
  - destruct L as (_ & _ & _ & Hx). rewrite Ep, (Hx Hd). done.
Qed.

Lemma walk_ok k m xs c :
  (k <= 4)%nat -> exec_stores s (take k stores) = Some m ->
  race_run h start xs = Some (Race m c (drop k stores)) -> cursor_ok k xs c ->
  match walk_step m h c with
  | Some c' => cursor_ok k (xs ++ [Walker]) c'
  | None => next nn ≠ nxt /\ torn xs
  end.
Proof.
  intros Hk Em R Hc. pose proof (linked_at k m Hk Em) as L.
  destruct c as [|pos seen|seen]; cbn [walk_step cursor_ok] in *; [| |exact Hc].
  - destruct (has_next m _ _ h L) as (b & n & G & Eb); [set_solver|]. rewrite G. cbn [mbind option_bind cursor_ok].
    rewrite walks_snoc, Hc. split; [done|]. apply (leave_l1 k m _ [] h l1); [done|done|by exists n].
  - destruct Hc as [Hw Hat]. destruct (decide (pos = h)) as [->|Hpos]; [by eapply at_end|].
    pose proof (walk_on k m xs pos seen Hk L R Hpos Hat) as Hn.
    destruct (node_get m pos) as [n|]; [|exact Hn]. cbn [mbind option_bind cursor_ok].
    split; [|exact Hn]. rewrite walks_snoc, Hw, length_app. simpl. lia.
Qed.

(** The inserting thread goes from the [k]-th store to the next. *)
Lemma insert_ok k m xs c :
  (k <= 4)%nat -> exec_stores s (take k stores) = Some m -> cursor_ok k xs c ->
  exists k' m', race_step h (Race m c (drop k stores)) Inserter = Some (Race m' c (drop k' stores)) /\
    (k' <= 4)%nat /\ exec_stores s (take k' stores) = Some m' /\ cursor_ok k' (xs ++ [Inserter]) c.
Proof.
  intros Hk Em Hc.
  assert (Hmono : forall k', (k <= k')%nat -> cursor_ok k' (xs ++ [Inserter]) c).
  { intros k' Hkk. destruct c as [|pos seen|seen]; cbn [cursor_ok] in *; rewrite ?walks_snoc, ?Nat.add_0_r; [done| |done].
    destruct Hc as [Hw Hat]. split; [done|].
    destruct Hat as [?|[(?&?&?)|[?|(?&?&?&?)]]]; [by left|right; left; repeat split; (done || lia)|by right; right; left|].
    right; right; right. repeat split; try done. by apply torn_snoc. }
  destruct (decide (k = 4%nat)) as [->|Hk4].
  - exists 4%nat, m. repeat split; auto.
  - assert (Hlt : (k < length stores)%nat) by (unfold stores; simpl; lia).
    destruct (lookup_lt_is_Some_2 _ _ Hlt) as [t Ht].
    destruct inserts as (s' & Es & _). rewrite <- (take_drop_middle _ _ _ Ht), exec_stores_app, Em in Es.
    cbn [mbind option_bind exec_stores] in Es.
    destruct (exec_store m t) as [m'|] eqn:Et; [|done]. exists (Datatypes.S k), m'.
    cbn [race_step todo mem walk]. rewrite (drop_S _ _ _ Ht), Et. cbn [mbind option_bind].
    split; [done|]. split; [lia|]. split; [|auto]. rewrite (take_S_r _ _ _ Ht), exec_stores_app, Em.
    cbn [mbind option_bind exec_stores]. by rewrite Et.
Qed.

Lemma race_ok xs :
  match race_run h start xs with
  | Some (Race m c ts) => exists k, (k <= 4)%nat /\ ts = drop k stores /\
      exec_stores s (take k stores) = Some m /\ cursor_ok k xs c
  | None => next nn ≠ nxt /\ torn xs
  end.
Proof.
  induction xs as [|x xs IH] using rev_ind.
  - exists 0%nat. repeat split. lia.
  - rewrite race_run_app. destruct (race_run h start xs) as [[m c ts]|] eqn:R.
    2: { destruct IH as [? Ht]. split; [done|by apply torn_snoc]. }
    destruct IH as (k & Hk & -> & Em & Hc). cbn [mbind option_bind race_run]. destruct x.
    + pose proof (walk_ok k m xs c Hk Em R Hc) as Hw. cbn [race_step mem walk todo].
      destruct (walk_step m h c) as [c'|]; cbn [mbind option_bind]; [eauto|].
      destruct Hw as [? Ht]. split; [done|by apply torn_snoc].
    + destruct (insert_ok k m xs c Hk Em Hc) as (k' & m' & -> & Hr). cbn [mbind option_bind]. naive_solver.
Qed.

(** The walk alone, with the links of [m], up to the new node. *)
Lemma walk_prefix m ts y a r :
  linked m new y -> l1 = a ++ r ->
  race_run h (Race m CStart ts) (replicate (Datatypes.S (length a)) Walker) =
    Some (Race m (CAt (List.hd new r) a) ts).
Proof.
  intros L. revert r. induction a as [|x a IH] using rev_ind; intros r E.
  - destruct (next_l1 m new y [] h l1 L eq_refl) as (n & G & En). simpl. rewrite G. simpl. by rewrite En, E.
  - rewrite <- app_assoc in E. replace (length (a ++ [x])) with (Datatypes.S (length a)) by (rewrite length_app; simpl; lia).
    rewrite replicate_S_end, race_run_app, (IH (x :: r) E).
    assert (Hx : x ≠ h).
    { intros ->. pose proof nodup_list as ND. apply NoDup_cons in ND as [_ ND]. rewrite E in ND. apply NoDup_cons in ND as [ND _]. set_solver. }
    destruct (next_l1 m new y (h :: a) x r L ltac:(by rewrite E)) as (n & G & En).
    simpl. rewrite decide_False by done. rewrite G. simpl. by rewrite En.
Qed.

(** Two stores done. *)
Lemma two_stores : exists m, exec_stores s (take 2 stores) = Some m /\
  race_run h start [Inserter; Inserter] = Some (Race m CStart (drop 2 stores)).
Proof.
  destruct inserts as (s' & E & _). rewrite <- (take_drop 2 stores), exec_stores_app in E.
  destruct (exec_stores s (take 2 stores)) as [m|] eqn:E2; [|done]. exists m. split; [done|].
  unfold start, stores, insert_stores in *. cbn [take exec_stores] in E2. split_stores E2. injection E2 as <-.
  cbn [race_run race_step todo mem walk]. rewrite E0. cbn [mbind option_bind race_run race_step todo mem walk].
  by rewrite E1.
Qed.

End Walk.

(** ** Theorems *)

Section Theorems.
Context {S P : Type} `{NodeStoreOk S P} `{EqDecision P}.
Implicit Types (s : S) (h new : P) (l : list P).

(** C13: a walk of a list while another thread runs [list_insert], whatever the
    order of their steps.  Let the new node point, before the call, to its successor
    or to no node.  A walk that ends has seen the list without the new node or with
    it, every entry once and in order; it has ended after as many steps as the new
    list has entries and two more; and the insertion, when over, has built the new
    list.  A walk fails only in one way: it loads the new node's [next] after the
    second store and before the third, while the node does not yet point to its
    successor. *)
Theorem walk_during_insert s h l1 l2 new nn xs :
  dlist s h (l1 ++ l2) -> new ∉ h :: l1 ++ l2 -> node_get s new = Some nn ->
  next nn = List.hd h l2 \/ node_get s (next nn) = None ->
  match race_run h (start s h l1 l2 new) xs with
  | Some r =>
      (forall seen, walk r = CDone seen -> seen = l1 ++ l2 \/ seen = l1 ++ new :: l2) /\
      ((length (l1 ++ l2) + 3 <= walks xs)%nat -> exists seen, walk r = CDone seen) /\
      (todo r = [] -> dlist (mem r) h (l1 ++ new :: l2))
  | None => next nn ≠ List.hd h l2 /\ torn s h l1 l2 new xs
  end.
Proof.
  intros D Hf Hn Hst. pose proof (race_ok s h l1 l2 new nn D Hf Hn Hst xs) as Hr.
  destruct (race_run _ _ xs) as [[m c ts]|]; [|exact Hr]. destruct Hr as (k & Hk & -> & Em & Hc).
  cbn [walk todo mem]. split; [|split].
  - intros seen ->. exact Hc.
  - intros Hw. destruct c as [|pos seen|seen]; cbn [cursor_ok] in Hc; [lia| |eauto].
    exfalso. destruct Hc as [Ew Hat]. rewrite length_app in Hw.
    assert (Hle : (length seen <= length l1 + length l2 + 1)%nat); [|lia].
    destruct Hat as [(r & ->)|[(_ & _ & ->)|[(a & r & E & Hs)|(_ & _ & -> & _)]]];
      [rewrite length_app; lia|lia| |rewrite length_app; simpl; lia].
    apply (f_equal length) in E. rewrite !length_app in E. simpl in E.
    destruct Hs as [->| ->]; rewrite length_app; simpl; lia.
  - intros E. assert (Ek : take k (stores h l1 l2 new) = stores h l1 l2 new).
    { pose proof (take_drop k (stores h l1 l2 new)) as Et. by rewrite E, app_nil_r in Et. }
    rewrite Ek in Em. destruct (inserts s h l1 l2 new nn D Hf Hn) as (s' & E' & D'). congruence.
Qed.

(** A new node that points to no node, as the null pointers of a fresh object
    do, makes the order of the stores an error.  After the first two stores the walk
    can reach the new node; whenever it does, going on before the third store it
    leaves the list for an address that is no node. *)
Theorem walk_leaves_list s h l1 l2 new nn :
  dlist s h (l1 ++ l2) -> new ∉ h :: l1 ++ l2 -> node_get s new = Some nn -> node_get s (next nn) = None ->
  (exists m, race_run h (start s h l1 l2 new) ([Inserter; Inserter] ++ replicate (Datatypes.S (length l1)) Walker) =
     Some (Race m (CAt new l1) (drop 2 (stores h l1 l2 new)))) /\
  forall xs m, race_run h (start s h l1 l2 new) xs = Some (Race m (CAt new l1) (drop 2 (stores h l1 l2 new))) ->
    race_run h (start s h l1 l2 new) (xs ++ [Walker; Walker]) = None.
Proof.
  intros D Hf Hn Hx.
  assert (Hd : next nn ≠ nxt h l2).
  { intros E. rewrite E in Hx. destruct (dlist_node s h _ (nxt h l2) D) as [n G]; [|congruence].
    unfold nxt. destruct l2; simpl; set_solver. }
  split.
  - destruct (two_stores s h l1 l2 new nn D Hf Hn) as (m & Em & R). exists m. rewrite race_run_app, R.
    cbn [mbind option_bind].
    apply (walk_prefix s h l1 l2 new nn D Hf Hn (or_intror Hx) m _ (next nn) l1 []); [|by rewrite app_nil_r].
    exact (linked_at s h l1 l2 new nn D Hf Hn (or_intror Hx) 2 m ltac:(lia) Em).
  - intros xs m R. pose proof (race_ok s h l1 l2 new nn D Hf Hn (or_intror Hx) xs) as Hr. rewrite R in Hr.
    destruct Hr as (k & Hk & Ek & Em & _).
    assert (k = 2%nat) as ->.
    { apply (f_equal length) in Ek. rewrite !length_drop in Ek. unfold stores in Ek. simpl in Ek. lia. }
    pose proof (linked_at s h l1 l2 new nn D Hf Hn (or_intror Hx) 2 m Hk Em) as (_ & _ & (n & G & En) & Hno).
    cbn [Nat.ltb Nat.leb] in En. rewrite race_run_app, R. cbn [mbind option_bind race_run race_step walk_step walk mem].
    rewrite decide_False by (intros ->; apply Hf; set_solver). rewrite G.
    cbn [mbind option_bind race_run race_step walk_step walk mem]. rewrite En.
    assert (next nn ≠ h). { intros E. destruct (dlist_first _ _ _ D) as (n' & G' & _). congruence. }
    rewrite decide_False by done. by rewrite (Hno Hd).
Qed.

End Theorems.

(** The list 0 -> 16 -> 32 and a node 48 whose pointers are null (address 1 here). *)
Definition demo_null : gmap Z (list_head Z) := <[48 := ListHead 1 1]> demo.

Lemma demo_null_dlist : dlist demo_null 0 [16; 32].
Proof.
  apply (dlist_ext demo); [apply demo_dlist|]. intros q Hq. simpl. apply lookup_insert_ne.
  intros <-. revert Hq. apply (bool_decide_unpack _). reflexivity.
Qed.

(** A walk at the same time as [list_add_head]: it sees 48, or not, or leaves the
    list. *)
Lemma walk_during_insert_witness :
  race_run 0 (start demo_null 0 [] [16; 32] 48)
    [Walker; Inserter; Inserter; Inserter; Inserter; Walker; Walker; Walker] <> None /\
  torn demo_null 0 [] [16; 32] 48 [Inserter; Inserter; Walker; Walker; Inserter; Inserter; Walker].
Proof.
  split; [discriminate|].
  pose proof (walk_during_insert demo_null 0 [] [16; 32] 48 (ListHead 1 1)
    [Inserter; Inserter; Walker; Walker; Inserter; Inserter; Walker] demo_null_dlist) as Hw.
  apply Hw; [apply (bool_decide_unpack _); reflexivity|reflexivity|right; reflexivity].
Defined.

Lemma walk_leaves_list_witness :
  race_run 0 (start demo_null 0 [] [16; 32] 48) [Inserter; Inserter; Walker; Walker; Walker] = None.
Proof.
  destruct (walk_leaves_list demo_null 0 [] [16; 32] 48 (ListHead 1 1) demo_null_dlist) as [(m & R) Hw];
    [apply (bool_decide_unpack _); reflexivity|reflexivity|reflexivity|].
  exact (Hw [Inserter; Inserter; Walker] m R).
Defined.
