(* ===== verification/Threads.v ===== *)
(** * Two threads on the same lists (include/list.h)

    The operations of list.h as programs of single loads and stores, and two of
    them running in two threads with a switch between any two accesses.  (A load or
    store of an aligned pointer is atomic and seen in order.)  Run alone, the
    programs are the operations of DList.v.  Run together, two programs that do not
    write what the other accesses do what they do one after the other, whatever the
    order of their steps: [par_independent].  QueueConc.v says for which lists the
    operations of the stack are independent, and what they do where they are not. *)

From S2P Require Import Prelude DList.

(** ** Programs *)

Inductive field := FNext | FPrev.
#[global] Instance field_eq_dec : EqDecision field.
Proof. solve_decision. Defined.

Inductive prog (P A : Type) :=
  | Ret (a : A)
  | Load (f : field) (p : P) (k : P -> prog P A)
  | Store (f : field) (p v : P) (k : prog P A).
Arguments Ret {P A}.
Arguments Load {P A}.
Arguments Store {P A}.

Fixpoint prog_bind {P A B} (m : prog P A) (k : A -> prog P B) : prog P B :=
  match m with
  | Ret a => k a
  | Load f p k' => Load f p (fun v => prog_bind (k' v) k)
  | Store f p v m => Store f p v (prog_bind m k)
  end.

Section Code.
Context {P : Type} `{EqDecision P}.

(** The two loads of [entry->next->prev = entry->prev] may come in either order. *)
Definition list_insert_prog (new prv nxt : P) : prog P unit :=
  Store FPrev nxt new (Store FNext prv new (Store FNext new nxt (Store FPrev new prv (Ret tt)))).
Definition list_add_head_prog (new head : P) : prog P unit :=
  Load FNext head (fun nxt => list_insert_prog new head nxt).
Definition list_add_tail_prog (new head : P) : prog P unit :=
  Load FPrev head (fun prv => list_insert_prog new prv head).
Definition list_delete_entry_prog (entry : P) : prog P unit :=
  Load FNext entry (fun n => Load FPrev entry (fun p => Store FPrev n p (
  Load FPrev entry (fun p => Load FNext entry (fun n => Store FNext p n (Ret tt)))))).
Definition init_list_head_prog (list : P) : prog P unit :=
  Store FPrev list list (Store FNext list list (Ret tt)).
Definition list_empty_prog (list : P) : prog P bool :=
  Load FNext list (fun n => Ret (bool_decide (n = list))).

(** The list operations of [tcp_sock_accept_enqueue] (on [tsk->list] and
    [tsk->parent->accept_queue]) and of [tcp_sock_accept_dequeue] (on
    [tsk->accept_queue]; the result is the node of the socket); the change of the
    count that follows in both is added in CallConc.v. *)
Definition enqueue_prog (node queue : P) : prog P unit :=
  prog_bind (list_empty_prog node) (fun e =>
  prog_bind (if negb e then list_delete_entry_prog node else Ret tt) (fun _ =>
  list_add_tail_prog node queue)).
Definition dequeue_prog (queue : P) : prog P P :=
  Load FNext queue (fun node =>
  prog_bind (list_delete_entry_prog node) (fun _ =>
  prog_bind (init_list_head_prog node) (fun _ => Ret node))).

(** ** Running them *)

Context {S : Type} `{NodeStore S P}.

Definition get_field (f : field) (n : list_head P) : P := match f with FNext => next n | FPrev => prev n end.
Definition load_field (f : field) (s : S) (p : P) : option P := get_field f <$> node_get s p.
Definition store_field (f : field) (s : S) (p v : P) : option S :=
  match f with FNext => set_next s p v | FPrev => set_prev s p v end.

(** Alone, to the end. *)
Fixpoint exec_prog {A} (m : prog P A) (s : S) : option (A * S) :=
  match m with
  | Ret a => Some (a, s)
  | Load f p k => v ← load_field f s p; exec_prog (k v) s
  | Store f p v m => s ← store_field f s p v; exec_prog m s
  end.

(** One access; a program that has ended stays. *)
Definition step_prog {A} (m : prog P A) (s : S) : option (prog P A * S) :=
  match m with
  | Ret a => Some (Ret a, s)
  | Load f p k => v ← load_field f s p; Some (k v, s)
  | Store f p v m => s ← store_field f s p v; Some (m, s)
  end.

(** Two threads; [None]: an access through a pointer to no node. *)
Record par (A B : Type) := Par { shared : S; left : prog P A; right : prog P B }.
Inductive thread := TLeft | TRight.
#[global] Instance thread_eq_dec : EqDecision thread.
Proof. solve_decision. Defined.

Definition par_step {A B} (x : thread) (c : par A B) : option (par A B) :=
  match x with
  | TLeft => '(m, s) ← step_prog (left _ _ c) (shared _ _ c); Some (Par _ _ s m (right _ _ c))
  | TRight => '(m, s) ← step_prog (right _ _ c) (shared _ _ c); Some (Par _ _ s (left _ _ c) m)
  end.
Fixpoint par_run {A B} (xs : list thread) (c : par A B) : option (par A B) :=
  match xs with [] => Some c | x :: xs => c ← par_step x c; par_run xs c end.

End Code.

Arguments par : clear implicits.
Arguments Par {P S A B}.
Arguments shared {P S A B}.
Arguments left {P S A B}.
Arguments right {P S A B}.

(** ** The programs alone *)

Section Alone.
Context {S P : Type} `{NodeStore S P} `{EqDecision P}.
Implicit Types (s : S) (p q : P).

Lemma exec_bind {A B} (m : prog P A) (k : A -> prog P B) s :
  exec_prog (prog_bind m k) s = '(a, s) ← exec_prog m s; exec_prog (k a) s.
Proof.
  revert s. induction m as [a|f p k' IH|f p v m IH]; intros s; cbn [prog_bind exec_prog]; [done|..].
  - destruct (load_field f s p); [apply IH|done].
  - destruct (store_field f s p v); [apply IH|done].
Qed.

(** Run alone, each program is the operation of DList.v. *)
Lemma exec_insert s new prv nxt :
  exec_prog (list_insert_prog new prv nxt) s = pair tt <$> list_insert s new prv nxt.
Proof.
  unfold list_insert. cbn [exec_prog list_insert_prog store_field].
  destruct (set_prev s nxt new) as [s1|]; [cbn [mbind option_bind]|done].
  destruct (set_next s1 prv new) as [s2|]; [cbn [mbind option_bind]|done].
  destruct (set_next s2 new nxt) as [s3|]; [cbn [mbind option_bind]|done].
  by destruct (set_prev s3 new prv).
Qed.

Lemma exec_add_head s new h :
  exec_prog (list_add_head_prog new h) s = pair tt <$> list_add_head s new h.
Proof.
  unfold list_add_head, list_add_head_prog. cbn [exec_prog]. unfold load_field.
  destruct (node_get s h); [apply exec_insert|done].
Qed.
Lemma exec_add_tail s new h :
  exec_prog (list_add_tail_prog new h) s = pair tt <$> list_add_tail s new h.
Proof.
  unfold list_add_tail, list_add_tail_prog. cbn [exec_prog]. unfold load_field.
  destruct (node_get s h); [apply exec_insert|done].
Qed.

Lemma exec_delete s e :
  exec_prog (list_delete_entry_prog e) s = pair tt <$> list_delete_entry s e.
Proof.
  unfold list_delete_entry, list_delete_entry_prog. cbn [exec_prog store_field]. unfold load_field.
  destruct (node_get s e) as [n|]; [cbn [fmap option_fmap option_map mbind option_bind get_field]|done].
  destruct (set_prev s (next n) (prev n)) as [s1|]; [cbn [mbind option_bind]|done].
  destruct (node_get s1 e) as [n'|]; [cbn [fmap option_fmap option_map mbind option_bind get_field]|done].
  by destruct (set_next s1 (prev n') (next n')).
Qed.

Lemma exec_init s p : exec_prog (init_list_head_prog p) s = pair tt <$> init_list_head s p.
Proof.
  unfold init_list_head, init_list_head_prog. cbn [exec_prog store_field].
  destruct (set_prev s p p) as [s1|]; [cbn [mbind option_bind]|done]. by destruct (set_next s1 p p).
Qed.
Lemma exec_empty s p : exec_prog (list_empty_prog p) s = (fun b => (b, s)) <$> list_empty s p.
Proof.
  unfold list_empty, list_empty_prog. cbn [exec_prog]. unfold load_field. by destruct (node_get s p).
Qed.

End Alone.

(** ** Single cells *)

Section Cells.
Context {S P : Type} `{NodeStoreOk S P} `{EqDecision P}.
Implicit Types (s : S) (p q : P).

Lemma store_field_ok f s p v :
  is_Some (load_field f s p) ->
  exists s', store_field f s p v = Some s' /\ load_field f s' p = Some v /\
    forall g q, (g, q) ≠ (f, p) -> load_field g s' q = load_field g s q.
Proof.
  intros [w Hw]. unfold load_field in Hw. apply fmap_Some in Hw as (n & G & _).
  destruct f; cbn [store_field];
    [destruct (set_next_spec s p v n G) as (s' & E & G' & O)|destruct (set_prev_spec s p v n G) as (s' & E & G' & O)];
    exists s'; (split; [done|]); unfold load_field; (split; [by rewrite G'|]);
    intros g q Hne; (destruct (decide (q = p)) as [->|Hq]; [|by rewrite O]); rewrite G, G';
    destruct g; done.
Qed.

Lemma store_field_some f s p v s' : store_field f s p v = Some s' -> is_Some (load_field f s p).
Proof.
  unfold load_field. destruct f; cbn [store_field]; unfold set_next, set_prev; by destruct (node_get s p).
Qed.

(** The same memory, load by load. *)
Definition same_mem s s' : Prop := forall f p, load_field f s p = load_field f s' p.
#[global] Instance same_mem_equivalence : Equivalence same_mem.
Proof.
  split; [by intros s f p|by intros s s' E f p|]. intros s s' s'' E1 E2 f p. by rewrite E1.
Qed.

Lemma get_fields s s' p : (forall f, load_field f s p = load_field f s' p) -> node_get s p = node_get s' p.
Proof.
  intros E. pose proof (E FNext) as En. pose proof (E FPrev) as Ep. unfold load_field in *.
  destruct (node_get s p) as [[]|], (node_get s' p) as [[]|]; simpl in *; congruence.
Qed.
Lemma same_mem_get s s' p : same_mem s s' -> node_get s p = node_get s' p.
Proof. intros E. apply get_fields. intros f. apply E. Qed.

#[global] Instance dlist_same : Proper (same_mem ==> eq ==> eq ==> iff) dlist.
Proof.
  intros s s' E h _ <- l _ <-. split; intros D; (eapply dlist_ext; [exact D|]);
    intros x _; by rewrite (same_mem_get s s').
Qed.
#[global] Instance list_empty_same : Proper (same_mem ==> eq ==> eq) list_empty.
Proof. intros s s' E p _ <-. unfold list_empty. by rewrite (same_mem_get s s' p E). Qed.

(** ** What a program accesses *)

Abbreviation cell := (field * P)%type.

(** From [s] the program runs without a fault, loads cells of [rd] and stores to
    cells of [wr]. *)
Fixpoint within {A} (rd wr : list cell) (m : prog P A) (s : S) : Prop :=
  match m with
  | Ret _ => True
  | Load f p k => (f, p) ∈ rd /\ exists v, load_field f s p = Some v /\ within rd wr (k v) s
  | Store f p v m => (f, p) ∈ wr /\ exists s', store_field f s p v = Some s' /\ within rd wr m s'
  end.

(** How many accesses it makes. *)
Fixpoint prog_cost {A} (m : prog P A) (s : S) : nat :=
  match m with
  | Ret _ => 0
  | Load f p k => match load_field f s p with Some v => Datatypes.S (prog_cost (k v) s) | None => 0 end
  | Store f p v m => match store_field f s p v with Some s => Datatypes.S (prog_cost m s) | None => 0 end
  end.

Definition agree (D : cell -> Prop) s s' : Prop :=
  forall f p, D (f, p) -> load_field f s p = load_field f s' p.

Lemma agree_store (D : cell -> Prop) f p v s s' t t' :
  agree D s t -> store_field f s p v = Some s' -> store_field f t p v = Some t' -> agree D s' t'.
Proof.
  intros Ha Es Et. destruct (store_field_ok f s p v) as (? & E1 & L1 & O1); [by eapply store_field_some|].
  destruct (store_field_ok f t p v) as (? & E2 & L2 & O2); [by eapply store_field_some|]. simplify_eq.
  intros g q Hd. destruct (decide ((g, q) = (f, p))) as [[= -> ->]|Hne]; [congruence|].
  rewrite O1, O2 by done. by apply Ha.
Qed.

Lemma agree_outside f p v s s' (wr : list cell) :
  store_field f s p v = Some s' -> (f, p) ∈ wr -> agree (fun c => c ∉ wr) s' s.
Proof.
  intros E Hw. destruct (store_field_ok f s p v) as (? & E1 & L1 & O1); [by eapply store_field_some|].
  simplify_eq. intros g q Hd. apply O1. intros Eq. by rewrite Eq in Hd.
Qed.

(** One step on memory that agrees on the cells the program accesses. *)
Lemma step_agree {A} rd wr (m : prog P A) s t :
  within rd wr m s -> agree (fun c => c ∈ rd ++ wr) t s ->
  exists m' s' t', step_prog m t = Some (m', t') /\ within rd wr m' s' /\
    exec_prog m' s' = exec_prog m s /\ agree (fun c => c ∈ rd ++ wr) t' s' /\
    agree (fun c => c ∉ wr) s' s /\ agree (fun c => c ∉ wr) t' t /\
    prog_cost m' s' = pred (prog_cost m s).
Proof.
  intros Hw Ha. destruct m as [a|f p k|f p v m]; cbn [within step_prog] in *.
  - exists (Ret a), s, t. by repeat split.
  - destruct Hw as (Hr & v & Hv & Hw). exists (k v), s, t.
    rewrite Ha, Hv by (apply elem_of_app; by left). cbn [mbind option_bind exec_prog prog_cost]. rewrite Hv.
    by repeat split.
  - destruct Hw as (Hr & s' & Hs & Hw).
    destruct (store_field_ok f t p v) as (t' & Et & _).
    { rewrite Ha by (apply elem_of_app; by right). by eapply store_field_some. }
    exists m, s', t'. rewrite Et. cbn [mbind option_bind exec_prog prog_cost]. rewrite Hs.
    split; [done|]. split; [done|]. split; [done|]. split; [by eapply agree_store|].
    split; [by eapply agree_outside|]. split; [by eapply agree_outside|done].
Qed.

(** The whole run on such memory. *)
Lemma exec_agree {A} rd wr (m : prog P A) s t :
  within rd wr m s -> agree (fun c => c ∈ rd ++ wr) t s ->
  exists a s' t', exec_prog m s = Some (a, s') /\ exec_prog m t = Some (a, t') /\
    agree (fun c => c ∈ rd ++ wr) t' s' /\ agree (fun c => c ∉ wr) t' t.
Proof.
  revert s t. induction m as [a|f p k IH|f p v m IH]; intros s t Hw Ha; cbn [within exec_prog] in *.
  - exists a, s, t. by repeat split.
  - destruct Hw as (Hr & v & Hv & Hw). rewrite Ha, Hv by (apply elem_of_app; by left). by apply IH.
  - destruct Hw as (Hr & s1 & Hs & Hw).
    destruct (store_field_ok f t p v) as (t1 & Et & _).
    { rewrite Ha by (apply elem_of_app; by right). by eapply store_field_some. }
    rewrite Hs, Et. cbn [mbind option_bind].
    destruct (IH s1 t1 Hw ltac:(by eapply agree_store)) as (a & s' & t' & E1 & E2 & A1 & A2).
    exists a, s', t'. split; [done|]. split; [done|]. split; [done|].
    intros g q Hd. rewrite A2 by done. by eapply (agree_outside f p v t t1 wr).
Qed.

End Cells.

(** ** Two independent programs *)

Section Independent.
Context {S P : Type} `{NodeStoreOk S P} `{EqDecision P} {A B : Type}.
Context (m1 : prog P A) (m2 : prog P B) (s : S) (rd1 wr1 rd2 wr2 : list (field * P)).

Hypothesis Hm1 : within rd1 wr1 m1 s.
Hypothesis Hm2 : within rd2 wr2 m2 s.
(** Neither writes what the other accesses. *)
Hypothesis H12 : wr1 ## rd2 ++ wr2.
Hypothesis H21 : wr2 ## rd1 ++ wr1.

Definition count_left (xs : list thread) : nat := length (filter (fun x => x = TLeft) xs).
Definition count_right (xs : list thread) : nat := length (filter (fun x => x = TRight) xs).

(** The runs of the two programs alone, [s1] and [s2] their memories. *)
Record in_step (xs : list thread) (c : par P S A B) (s1 s2 : S) : Prop := {
  is_left : within rd1 wr1 (left c) s1;
  is_right : within rd2 wr2 (right c) s2;
  is_run1 : exec_prog (left c) s1 = exec_prog m1 s;
  is_run2 : exec_prog (right c) s2 = exec_prog m2 s;
  is_mem1 : agree (fun x => x ∈ rd1 ++ wr1) (shared c) s1;
  is_mem2 : agree (fun x => x ∈ rd2 ++ wr2) (shared c) s2;
  is_out1 : agree (fun x => x ∉ wr1) s1 s;
  is_out2 : agree (fun x => x ∉ wr2) s2 s;
  is_out : agree (fun x => (x ∉ wr1) /\ (x ∉ wr2)) (shared c) s;
  is_cost1 : prog_cost (left c) s1 = (prog_cost m1 s - count_left xs)%nat;
  is_cost2 : prog_cost (right c) s2 = (prog_cost m2 s - count_right xs)%nat
}.

Lemma count_snoc xs x :
  count_left (xs ++ [x]) = (count_left xs + match x with TLeft => 1 | TRight => 0 end)%nat /\
  count_right (xs ++ [x]) = (count_right xs + match x with TLeft => 0 | TRight => 1 end)%nat.
Proof. unfold count_left, count_right. rewrite !filter_app, !length_app. by destruct x. Qed.

Lemma count_app xs ys :
  count_left (xs ++ ys) = (count_left xs + count_left ys)%nat /\
  count_right (xs ++ ys) = (count_right xs + count_right ys)%nat.
Proof. unfold count_left, count_right. by rewrite !filter_app, !length_app. Qed.
Lemma count_replicate k :
  count_left (replicate k TLeft) = k /\ count_right (replicate k TRight) = k.
Proof. unfold count_left, count_right. induction k as [|k [IH1 IH2]]; [done|]. simpl. by rewrite IH1, IH2. Qed.

Lemma agree_trans (D : field * P -> Prop) (a b c : S) : agree D a b -> agree D b c -> agree D a c.
Proof. intros H1 H2 f p Hd. rewrite H1 by done. by apply H2. Qed.
Lemma agree_sub (D D' : field * P -> Prop) (a b : S) :
  (forall x, D' x -> D x) -> agree D a b -> agree D' a b.
Proof. intros Hd Ha f p Hx. apply Ha. by apply Hd. Qed.

Lemma in_step_left xs c s1 s2 :
  in_step xs c s1 s2 ->
  exists c' s1', par_step TLeft c = Some c' /\ in_step (xs ++ [TLeft]) c' s1' s2.
Proof.
  intros [W1 W2 R1 R2 M1 M2 O1 O2 O C1 C2].
  destruct (step_agree _ _ _ _ _ W1 M1) as (m' & s1' & t' & E & W' & R' & M' & O1' & Ot & C').
  exists (Par t' m' (right c)), s1'. split; [cbn [par_step]; by rewrite E|].
  destruct (count_snoc xs TLeft) as [Hc1 Hc2]. split; cbn [left right shared]; [done|done|congruence|done|done|..].
  - eapply agree_trans; [|exact M2]. eapply agree_sub; [|exact Ot]. intros x Hx Hw. by apply (H12 x).
  - by eapply agree_trans.
  - done.
  - eapply agree_trans; [|exact O]. eapply agree_sub; [|exact Ot]. tauto.
  - rewrite Hc1. lia.
  - rewrite Hc2. lia.
Qed.

Lemma in_step_right xs c s1 s2 :
  in_step xs c s1 s2 ->
  exists c' s2', par_step TRight c = Some c' /\ in_step (xs ++ [TRight]) c' s1 s2'.
Proof.
  intros [W1 W2 R1 R2 M1 M2 O1 O2 O C1 C2].
  destruct (step_agree _ _ _ _ _ W2 M2) as (m' & s2' & t' & E & W' & R' & M' & O2' & Ot & C').
  exists (Par t' (left c) m'), s2'. split; [cbn [par_step]; by rewrite E|].
  destruct (count_snoc xs TRight) as [Hc1 Hc2]. split; cbn [left right shared]; [done|done|done|congruence|..].
  - eapply agree_trans; [|exact M1]. eapply agree_sub; [|exact Ot]. intros x Hx Hw. by apply (H21 x).
  - done.
  - done.
  - by eapply agree_trans.
  - eapply agree_trans; [|exact O]. eapply agree_sub; [|exact Ot]. tauto.
  - rewrite Hc1. lia.
  - rewrite Hc2. lia.
Qed.

Lemma par_run_app xs ys (c : par P S A B) : par_run (xs ++ ys) c = c ← par_run xs c; par_run ys c.
Proof.
  revert c. induction xs as [|x xs IH]; intros c; [done|]. cbn [par_run app].
  destruct (par_step x c); [apply IH|done].
Qed.

Lemma par_in_step xs : exists c s1 s2, par_run xs (Par s m1 m2) = Some c /\ in_step xs c s1 s2.
Proof.
  induction xs as [|x xs (c & s1 & s2 & E & I)] using rev_ind.
  - exists (Par s m1 m2), s, s. split; [done|]. split; try done; unfold count_left, count_right; simpl; lia.
  - destruct x; [destruct (in_step_left _ _ _ _ I) as (c' & s' & E' & I')|destruct (in_step_right _ _ _ _ I) as (c' & s' & E' & I')];
      rewrite par_run_app, E; cbn [mbind option_bind par_run]; rewrite E'; eauto.
Qed.

Lemma cost_zero {C} rd wr (m : prog P C) t : within rd wr m t -> prog_cost m t = 0%nat -> exists a, m = Ret a.
Proof.
  destruct m as [a|f p k|f p v m]; cbn [within prog_cost]; [eauto|..].
  - intros (_ & v & -> & _). done.
  - intros (_ & s' & -> & _). done.
Qed.

(** No interleaving faults, and one that is long enough for both ends as the first
    program followed by the second does. *)
Lemma par_independent_run :
  exists a1 a2 s1 s12, exec_prog m1 s = Some (a1, s1) /\ exec_prog m2 s1 = Some (a2, s12) /\
  forall xs, exists c, par_run xs (Par s m1 m2) = Some c /\
    ((prog_cost m1 s <= count_left xs)%nat -> left c = Ret a1) /\
    ((prog_cost m2 s <= count_right xs)%nat -> right c = Ret a2) /\
    ((prog_cost m1 s <= count_left xs)%nat -> (prog_cost m2 s <= count_right xs)%nat -> same_mem (shared c) s12).
Proof.
  destruct (exec_agree _ _ _ s s Hm1 ltac:(done)) as (a1 & s1 & s1' & E1 & E1' & _ & O1).
  assert (s1' = s1) as -> by congruence.
  assert (A2 : agree (fun c => c ∈ rd2 ++ wr2) s1 s).
  { eapply agree_sub; [|exact O1]. intros x Hx Hw. by apply (H12 x). }
  destruct (exec_agree _ _ _ s s1 Hm2 A2) as (a2 & s2 & s12 & E2 & E2' & M12 & O12).
  exists a1, a2, s1, s12. split; [done|]. split; [done|]. intros xs.
  destruct (par_in_step xs) as (c & t1 & t2 & E & [W1 W2 R1 R2 M1 M2 T1 T2 O C1 C2]).
  exists c. split; [done|].
  assert (D1 : (prog_cost m1 s <= count_left xs)%nat -> left c = Ret a1).
  { intros Hl. destruct (cost_zero _ _ _ _ W1 ltac:(lia)) as [b Eb]. rewrite Eb in *. cbn [exec_prog] in R1.
    rewrite E1 in R1. by injection R1 as ->. }
  assert (D2 : (prog_cost m2 s <= count_right xs)%nat -> right c = Ret a2).
  { intros Hr. destruct (cost_zero _ _ _ _ W2 ltac:(lia)) as [b Eb]. rewrite Eb in *. cbn [exec_prog] in R2.
    rewrite E2 in R2. by injection R2 as ->. }
  split; [exact D1|]. split; [exact D2|]. intros Hl Hr. rewrite (D1 Hl), E1 in R1. rewrite (D2 Hr), E2 in R2.
  cbn [exec_prog] in R1, R2. injection R1 as ->. injection R2 as ->. intros f p.
  destruct (decide ((f, p) ∈ wr2)) as [Hw2|Hw2].
  - rewrite M2, M12 by (apply elem_of_app; by right). done.
  - rewrite O12 by done. destruct (decide ((f, p) ∈ wr1)) as [Hw1|Hw1].
    + rewrite M1 by (apply elem_of_app; by right). done.
    + rewrite O by done. symmetry. by apply O1.
Qed.

End Independent.

(** ** One thread at a time *)

(** One access of a thread that runs alone, then the induction hypothesis. *)
Ltac take_turn IH :=
  match goal with
  | |- mbind _ ?x = Some _ -> _ =>
      let E := fresh "E" in
      destruct x eqn:E; [|done]; cbn [mbind option_bind]; intros ?;
      cbn [replicate par_run par_step left right shared step_prog prog_bind]; rewrite E; by apply IH
  end.

Section Turns.
Context {S P : Type} `{NodeStore S P} `{EqDecision P} {A B C : Type}.

Lemma left_alone (m : prog P A) (r : prog P B) (s s' : S) a :
  exec_prog m s = Some (a, s') ->
  par_run (replicate (prog_cost m s) TLeft) (Par s m r) = Some (Par s' (Ret a) r).
Proof.
  revert s. induction m as [x|f p k IH|f p v m IH]; intros s; cbn [exec_prog prog_cost].
  1: by intros [= -> ->].
  all: take_turn IH.
Qed.

(** The first part of the second program. *)
Lemma right_alone (l : prog P A) (m : prog P C) (k : C -> prog P B) (s s' : S) a :
  exec_prog m s = Some (a, s') ->
  par_run (replicate (prog_cost m s) TRight) (Par s l (prog_bind m k)) = Some (Par s' l (k a)).
Proof.
  revert s. induction m as [x|f p k' IH|f p v m IH]; intros s; cbn [exec_prog prog_cost].
  1: by intros [= -> ->].
  all: take_turn IH.
Qed.

Lemma right_end (l : prog P A) (m : prog P B) (s s' : S) b :
  exec_prog m s = Some (b, s') ->
  par_run (replicate (prog_cost m s) TRight) (Par s l m) = Some (Par s' l (Ret b)).
Proof.
  revert s. induction m as [x|f p k IH|f p v m IH]; intros s; cbn [exec_prog prog_cost].
  1: by intros [= -> ->].
  all: take_turn IH.
Qed.

End Turns.

(** ** Theorems *)

(** Two programs of loads and stores to list nodes, each of which runs alone
    without a fault, in two threads: if neither stores to a cell that the other
    loads or stores to, then no interleaving of their steps faults, each has ended
    with its result once it has taken all its steps, whatever the other has done,
    and when both have, the memory is that of the first program followed by the
    second. *)
Theorem par_independent {S P A B} `{NodeStoreOk S P} `{EqDecision P}
    (m1 : prog P A) (m2 : prog P B) (s : S) rd1 wr1 rd2 wr2 :
  within rd1 wr1 m1 s -> within rd2 wr2 m2 s -> wr1 ## rd2 ++ wr2 -> wr2 ## rd1 ++ wr1 ->
  exists a1 a2 s1 s12, exec_prog m1 s = Some (a1, s1) /\ exec_prog m2 s1 = Some (a2, s12) /\
  forall xs, exists c, par_run xs (Par s m1 m2) = Some c /\
    ((prog_cost m1 s <= count_left xs)%nat -> left c = Ret a1) /\
    ((prog_cost m2 s <= count_right xs)%nat -> right c = Ret a2) /\
    ((prog_cost m1 s <= count_left xs)%nat -> (prog_cost m2 s <= count_right xs)%nat -> same_mem (shared c) s12).
Proof. apply par_independent_run. Qed.

(** Nodes 16 and 48 of two lists are initialised at the same time. *)
Lemma par_independent_witness : exists c,
  par_run [TLeft; TRight; TRight; TLeft] (Par demo (init_list_head_prog 16) (init_list_head_prog 48)) = Some c /\
  left c = Ret tt /\ right c = Ret tt.
Proof.
  destruct (par_independent (init_list_head_prog 16) (init_list_head_prog 48) demo
    [] [(FPrev, 16); (FNext, 16)] [] [(FPrev, 48); (FNext, 48)]) as ([] & [] & s1 & s12 & _ & _ & Hc).
  - split; [set_solver|]. eexists. split; [reflexivity|]. split; [set_solver|]. eexists. split; [reflexivity|exact I].
  - split; [set_solver|]. eexists. split; [reflexivity|]. split; [set_solver|]. eexists. split; [reflexivity|exact I].
  - set_solver.
  - set_solver.
  - destruct (Hc [TLeft; TRight; TRight; TLeft]) as (c & E & A1 & A2 & _). exists c. split; [exact E|].
    split; [apply A1|apply A2]; vm_compute; lia.
Defined.
