(* ===== verification/SynchWait.v ===== *)
(** * Wait structures (include/synch_wait.h)

    A [struct synch_wait] parks a thread until another notifies it.  Each of
    [wait_exit], [sleep_on] and [wake_up] is one critical section of the mutex,
    except that [pthread_cond_wait] splits [sleep_on] in two; the return value
    reads [dead] after the mutex is released.  The critical sections are
    functions on the three flags; the threads are a transition system whose
    steps are those sections, with the signals and the spurious wake-ups that
    POSIX allows.  include/async_wait.h holds the same code for a structure of
    another name; AsyncWait.v runs it statement by statement and proves that the
    sections may be taken as atomic. *)

From S2P Require Import Prelude.

Module Wait.

Record synch_wait := SynchWait { notified : Z; dead : Z; sleep : Z }.

(** What a critical section does to the threads blocked on [cond]. *)
Inductive notice := NoSignal | Signal | Broadcast.

Definition wait_init : synch_wait := SynchWait 0 0 0.

Definition alloc_wait_struct : synch_wait := wait_init.

Definition wait_exit (w : synch_wait) : synch_wait * notice :=
  if negb (dead w =? 0) then (w, NoSignal)
  else (SynchWait (notified w) 1 (sleep w),
        if negb (sleep w =? 0) then Broadcast else NoSignal).

(** [sleep_on] after [pthread_cond_wait] has returned. *)
Definition sleep_on_leave (w : synch_wait) : synch_wait := SynchWait 0 (dead w) 0.

(** [sleep_on] up to [pthread_cond_wait]: whether it blocks there. *)
Definition sleep_on_enter (w : synch_wait) : synch_wait * bool :=
  if negb (dead w =? 0) then (w, false)
  else
    let w := SynchWait (notified w) (dead w) 1 in
    if notified w =? 0 then (w, true) else (sleep_on_leave w, false).

Definition wake_up (w : synch_wait) : synch_wait * notice :=
  if negb (dead w =? 0) then (w, NoSignal)
  else if notified w =? 0
  then (SynchWait 1 (dead w) (sleep w), if negb (sleep w =? 0) then Signal else NoSignal)
  else (w, NoSignal).

(** [return -(wait->dead)], of [sleep_on] and of [wake_up]. *)
Definition wait_result (w : synch_wait) : Z := - dead w.

(** ** Threads *)

(** A thread inside [sleep_on]: blocked on [cond], woken and about to take the
    mutex again, or past the mutex and about to return. *)
Inductive phase := Blocked | Woken | AtReturn.
#[export] Instance phase_eq_dec : EqDecision phase.
Proof. solve_decision. Defined.

Record sys := Sys { flags : synch_wait; threads : gmap nat phase }.
Inductive event :=
  | ESleep (t : nat) | EWake | EExit | EResume (t : nat) | ESpurious (t : nat)
  | EReturn (t : nat) (r : Z).

(** [pthread_cond_signal] wakes one blocked thread if there is one,
    [pthread_cond_broadcast] all of them. *)
Inductive notifies : notice -> gmap nat phase -> gmap nat phase -> Prop :=
  | notify_none m : notifies NoSignal m m
  | notify_one m t : m !! t = Some Blocked -> notifies Signal m (<[t := Woken]> m)
  | notify_nobody m : (forall t, m !! t ≠ Some Blocked) -> notifies Signal m m
  | notify_all m :
      notifies Broadcast m ((fun p => if decide (p = Blocked) then Woken else p) <$> m).

(** [multi] says whether a thread may enter [sleep_on] while another is inside. *)
Inductive step (multi : bool) : sys -> event -> sys -> Prop :=
  | step_sleep w m t w' (b : bool) :
      m !! t = None -> multi = true \/ m = ∅ -> sleep_on_enter w = (w', b) ->
      step multi (Sys w m) (ESleep t) (Sys w' (<[t := if b then Blocked else AtReturn]> m))
  | step_wake w m w' n m' :
      wake_up w = (w', n) -> notifies n m m' -> step multi (Sys w m) EWake (Sys w' m')
  | step_exit w m w' n m' :
      wait_exit w = (w', n) -> notifies n m m' -> step multi (Sys w m) EExit (Sys w' m')
  | step_resume w m t :
      m !! t = Some Woken ->
      step multi (Sys w m) (EResume t) (Sys (sleep_on_leave w) (<[t := AtReturn]> m))
  | step_spurious w m t :
      m !! t = Some Blocked -> step multi (Sys w m) (ESpurious t) (Sys w (<[t := Woken]> m))
  | step_return w m t :
      m !! t = Some AtReturn ->
      step multi (Sys w m) (EReturn t (wait_result w)) (Sys w (delete t m)).

Inductive steps (multi : bool) : sys -> list event -> sys -> Prop :=
  | steps_nil s : steps multi s [] s
  | steps_snoc s es s' e s'' :
      steps multi s es s' -> step multi s' e s'' -> steps multi s (es ++ [e]) s''.

(** The values [sleep_on] returned, by thread. *)
Fixpoint results (es : list event) : list (nat * Z) :=
  match es with
  | [] => []
  | EReturn t r :: es => (t, r) :: results es
  | _ :: es => results es
  end.

Lemma results_app es es' : results (es ++ es') = results es ++ results es'.
Proof. induction es as [|[] es IH]; simpl; by rewrite ?IH. Qed.

Definition init_sys : sys := Sys alloc_wait_struct ∅.

(** ** The invariant *)

(** The flags are 0 or 1, and a thread is blocked only on a live structure that
    has not been notified and that knows a thread is asleep. *)
Definition wait_inv (s : sys) : Prop :=
  let w := flags s in
  (notified w = 0 \/ notified w = 1) /\ (dead w = 0 \/ dead w = 1) /\ (sleep w = 0 \/ sleep w = 1) /\
  (forall t, threads s !! t = Some Blocked -> notified w = 0 /\ dead w = 0 /\ sleep w = 1).

(** At most one thread inside [sleep_on]. *)
Definition single (s : sys) : Prop :=
  forall t u, is_Some (threads s !! t) -> is_Some (threads s !! u) -> t = u.

Lemma notifies_dom n m m' t : notifies n m m' -> is_Some (m' !! t) <-> is_Some (m !! t).
Proof.
  destruct 1 as [m|m u Hu|m Hn|m]; [done| |done|by rewrite lookup_fmap, fmap_is_Some].
  destruct (decide (t = u)) as [->|]; [rewrite lookup_insert_eq, Hu|rewrite lookup_insert_ne by done];
    done.
Qed.

Lemma step_single s e s' : single s -> step false s e s' -> single s'.
Proof.
  intros Hs Hstep. destruct Hstep as [w m t w' b Ht Hm|w m w' n m' _ Hn|w m w' n m' _ Hn|w m t Ht|w m t Ht|w m t Ht];
    intros x y; simpl in *.
  - destruct Hm as [| ->]; [done|]. rewrite !insert_empty, !lookup_singleton_is_Some. congruence.
  - rewrite !(notifies_dom _ _ _ _ Hn). apply Hs.
  - rewrite !(notifies_dom _ _ _ _ Hn). apply Hs.
  - rewrite !lookup_insert_is_Some'. intros [->|?] [->|?]; auto; apply Hs; simpl; eauto.
  - rewrite !lookup_insert_is_Some'. intros [->|?] [->|?]; auto; apply Hs; simpl; eauto.
  - rewrite !lookup_delete_is_Some. intros [_ ?] [_ ?]. by apply Hs.
Qed.

Lemma signal_unblocks m m' t :
  (forall t u, is_Some (m !! t) -> is_Some (m !! u) -> t = u) ->
  notifies Signal m m' -> m' !! t ≠ Some Blocked.
Proof.
  intros Hs Hn Ht. inversion Hn as [|m0 u Hu|m0 Hnone|]; subst; [|by apply (Hnone t)].
  destruct (decide (u = t)) as [->|Hne]; [by rewrite lookup_insert_eq in Ht|].
  rewrite lookup_insert_ne in Ht by done. apply Hne, Hs; eauto.
Qed.

Lemma broadcast_unblocks m m' t : notifies Broadcast m m' -> m' !! t ≠ Some Blocked.
Proof.
  intros Hn Ht. inversion Hn; subst. rewrite lookup_fmap in Ht.
  destruct (m !! t) as [p|]; simpl in Ht; [|done]. case_decide; congruence.
Qed.

Lemma step_inv s e s' : single s -> wait_inv s -> step false s e s' -> wait_inv s'.
Proof.
  intros Hs (Hn & Hd & Hsl & Hb) Hstep.
  destruct Hstep as [w m t w' b Ht Hm E|w m w' n m' E Hno|w m w' n m' E Hno|w m t Ht|w m t Ht|w m t Ht];
    unfold wait_inv; simpl in *.
  - destruct Hm as [| ->]; [done|]. rewrite insert_empty. unfold sleep_on_enter in E. revert E.
    destruct (Z.eqb_spec (dead w) 0); simpl; [destruct (Z.eqb_spec (notified w) 0)|]; simpl;
      intros [= <- <-]; simpl; (split; [lia|]); (split; [lia|]); (split; [lia|]);
      intros u Hu; apply lookup_singleton_Some in Hu as [_ Hu]; (done || lia).
  - unfold wake_up in E. revert E.
    destruct (Z.eqb_spec (dead w) 0); simpl;
      [destruct (Z.eqb_spec (notified w) 0); simpl; [destruct (Z.eqb_spec (sleep w) 0); simpl|]|];
      intros [= <- <-]; simpl; (split; [lia|]); (split; [lia|]); (split; [lia|]); intros u Hu.
    + inversion Hno; subst. destruct (Hb u Hu). lia.
    + exfalso. exact (signal_unblocks m m' u Hs Hno Hu).
    + inversion Hno; subst. exact (Hb u Hu).
    + inversion Hno; subst. exact (Hb u Hu).
  - unfold wait_exit in E. revert E.
    destruct (Z.eqb_spec (dead w) 0); simpl; [destruct (Z.eqb_spec (sleep w) 0); simpl|];
      intros [= <- <-]; simpl; (split; [lia|]); (split; [lia|]); (split; [lia|]); intros u Hu.
    + inversion Hno; subst. destruct (Hb u Hu). lia.
    + exfalso. exact (broadcast_unblocks m m' u Hno Hu).
    + inversion Hno; subst. exact (Hb u Hu).
  - split; [lia|]. split; [lia|]. split; [lia|]. intros u Hu.
    destruct (decide (t = u)) as [->|]; [by rewrite lookup_insert_eq in Hu|].
    rewrite lookup_insert_ne in Hu by done. destruct (Hs t u); simpl; eauto. congruence.
  - do 3 (split; [lia|]). intros u Hu.
    destruct (decide (t = u)) as [->|]; [by rewrite lookup_insert_eq in Hu|].
    rewrite lookup_insert_ne in Hu by done. exact (Hb u Hu).
  - do 3 (split; [lia|]). intros u Hu. apply lookup_delete_Some in Hu as [_ Hu]. exact (Hb u Hu).
Qed.

Lemma steps_inv es s : steps false init_sys es s -> single s /\ wait_inv s.
Proof.
  intros H. remember init_sys as s0 eqn:E. induction H as [s|s es s' e s'' _ IH Hstep]; subst.
  - split.
    + intros t u [p Hp]. simpl in Hp. by rewrite lookup_empty in Hp.
    + unfold wait_inv. simpl. do 3 (split; [lia|]). intros t Ht. by rewrite lookup_empty in Ht.
  - destruct (IH eq_refl) as [Hs Hi]. eauto using step_single, step_inv.
Qed.

(** ** Theorems *)

(** C8: when one thread at a time sleeps on a structure, in every state
    reachable by any interleaving of sleeps, notifications, exits, spurious
    wake-ups and returns, a thread that is still blocked has missed nothing: no
    notification is pending, the structure is not dead, and its [sleep] flag
    tells the next notifier to signal. *)
Theorem no_lost_wakeup es s t :
  steps false init_sys es s -> threads s !! t = Some Blocked ->
  notified (flags s) = 0 /\ dead (flags s) = 0 /\ sleep (flags s) = 1.
Proof. intros H Ht. destruct (steps_inv es s H) as (_ & _ & _ & _ & Hb). by apply (Hb t). Qed.

Definition sleeping : sys := Sys (SynchWait 0 0 1) {[ 0%nat := Blocked ]}.
Lemma reach_sleeping multi : steps multi init_sys [ESleep 0] sleeping.
Proof.
  apply (steps_snoc _ init_sys [] init_sys); [constructor|].
  apply (step_sleep multi wait_init ∅ 0 _ true); [done|by right|done].
Qed.

Lemma no_lost_wakeup_witness :
  notified (flags sleeping) = 0 /\ dead (flags sleeping) = 0 /\ sleep (flags sleeping) = 1.
Proof.
  apply (no_lost_wakeup [ESleep 0] sleeping 0); [apply reach_sleeping|apply lookup_singleton_eq].
Defined.

(** From any such state, a notification or an exit leaves no thread
    blocked: a [wake_up] on a live structure either wakes the sleeper or stays
    pending for the next [sleep_on], and a [wait_exit] wakes the sleeper. *)
Theorem notification_unblocks es s s' e :
  steps false init_sys es s -> e = EWake \/ e = EExit -> step false s e s' ->
  (forall t, threads s' !! t ≠ Some Blocked) /\
  (dead (flags s) = 0 -> e = EWake -> notified (flags s') = 1).
Proof.
  intros H He Hstep. pose proof (steps_inv es s H) as [Hs Hi].
  pose proof (step_inv _ _ _ Hs Hi Hstep) as (_ & _ & _ & Hb).
  destruct He as [-> | ->]; inversion Hstep as [|w m w' n m' E Hn|w m w' n m' E Hn| | |]; subst; simpl in *.
  - unfold wake_up in E. destruct Hi as (Hi1 & _ & _ & Hold). simpl in *.
    destruct (Z.eqb_spec (dead w) 0) as [Ed|Ed]; simpl in E.
    + assert (Hn1 : notified w' = 1).
      { destruct (Z.eqb_spec (notified w) 0); simplify_eq; simpl; lia. }
      split; [|done]. intros t Ht. destruct (Hb t Ht). lia.
    + simplify_eq. inversion Hn; subst. split; [|done]. intros t Ht. destruct (Hold t Ht). lia.
  - unfold wait_exit in E. destruct Hi as (_ & _ & _ & Hold). simpl in *.
    assert (Hd : dead w' ≠ 0) by (destruct (Z.eqb_spec (dead w) 0); simplify_eq; simpl in *; simplify_eq; done).
    split; [|done]. intros t Ht. destruct (Hb t Ht) as (_ & ? & _). done.
Qed.

Lemma notification_unblocks_witness :
  exists s', step false sleeping EWake s' /\
    bool_decide (threads s' !! 0%nat = Some Blocked) = false /\ notified (flags s') = 1.
Proof.
  set (s' := Sys (SynchWait 1 0 1) (<[0%nat := Woken]> {[ 0%nat := Blocked ]})).
  assert (Hw : step false sleeping EWake s').
  { apply (step_wake false _ _ _ Signal); [done|]. constructor. apply lookup_singleton_eq. }
  exists s'. split; [exact Hw|].
  destruct (notification_unblocks [ESleep 0] sleeping s' EWake (reach_sleeping false) (or_introl eq_refl) Hw) as [Hb Hn].
  split; [apply bool_decide_eq_false_2, Hb|by apply Hn].
Defined.

(** With two threads asleep the guarantee fails: after one
    notification and the first thread's return the [sleep] flag is 0 while the
    second thread is still blocked, and neither a later [wake_up] nor
    [wait_exit], which is documented to notify all others, signals it. *)
Theorem two_sleepers_stranded :
  exists es s, steps true init_sys es s /\ threads s !! 1%nat = Some Blocked /\
    (wake_up (flags s)).2 = NoSignal /\ (wait_exit (flags s)).2 = NoSignal.
Proof.
  exists ([ESleep 0] ++ [ESleep 1] ++ [EWake] ++ [EResume 0]), (Sys (SynchWait 0 0 0)
    (<[0%nat := AtReturn]> (<[0%nat := Woken]> (<[1%nat := Blocked]> {[0%nat := Blocked]})))).
  split; [|split; [reflexivity|split; reflexivity]]. rewrite !app_assoc.
  eapply steps_snoc; [eapply steps_snoc; [eapply steps_snoc; [apply reach_sleeping|]|]|].
  - apply (step_sleep true _ _ 1 (SynchWait 0 0 1) true); [done|by left|done].
  - apply (step_wake true _ _ (SynchWait 1 0 1) Signal); [done|]. by apply (notify_one _ 0).
  - by apply (step_resume true (SynchWait 1 0 1)).
Qed.

(** [sleep_on] does not retest its condition after
    [pthread_cond_wait], so it can return 0, as if notified, although no
    [wake_up] ever happened. *)
Theorem spurious_return :
  exists es s, steps false init_sys es s /\ EReturn 0 0 ∈ es /\ EWake ∉ es.
Proof.
  exists ([ESleep 0] ++ [ESpurious 0] ++ [EResume 0] ++ [EReturn 0 0]). eexists.
  split; [|split; set_solver]. rewrite !app_assoc.
  eapply steps_snoc; [eapply steps_snoc; [eapply steps_snoc; [apply reach_sleeping|]|]|].
  - by apply step_spurious.
  - by apply step_resume.
  - by apply (step_return false (SynchWait 0 0 0)).
Qed.

End Wait.
