(* ===== verification/AsyncWait.v ===== *)
(** * Wait structures, statement by statement (include/async_wait.h)

    include/async_wait.h holds the code of include/synch_wait.h for a structure
    of another name.  Here its functions are modelled at the grain at which
    threads can be switched: one step per statement, with the mutex and the
    condition variable as POSIX describes them.  The file shows that the mutex
    works (one thread at a time between lock and unlock), that every run of the
    statements is a run of the atomic sections of SynchWait.v with the same
    results, which carries the guarantees proved there over to the statements,
    and that the functions neither deadlock nor run for ever. *)

From S2P Require Import Prelude SynchWait.

Module Async.

#[local] Existing Instance Wait.phase_eq_dec.

(** ** The structure *)

(** [lock]: the thread that holds the mutex. *)
Record async_wait := AsyncWait { lock : option nat; notified : Z; dead : Z; sleep : Z }.

Definition set_lock (l : option nat) (w : async_wait) : async_wait :=
  AsyncWait l (notified w) (dead w) (sleep w).
Definition set_notified (v : Z) (w : async_wait) : async_wait := AsyncWait (lock w) v (dead w) (sleep w).
Definition set_dead (v : Z) (w : async_wait) : async_wait := AsyncWait (lock w) (notified w) v (sleep w).
Definition set_sleep (v : Z) (w : async_wait) : async_wait := AsyncWait (lock w) (notified w) (dead w) v.

Definition wait_init : async_wait := AsyncWait None 0 0 0.
Definition alloc_wait_struct : async_wait := wait_init.

(** [pthread_mutex_lock]: [None] while the mutex is taken. *)
Definition mutex_lock (t : nat) (w : async_wait) : option async_wait :=
  match lock w with None => Some (set_lock (Some t) w) | Some _ => None end.
Definition mutex_unlock (w : async_wait) : async_wait := set_lock None w.

(** ** The functions *)

(** The statement a thread is about to execute. *)
Inductive sleep_pc :=
  | SLock | STestDead | SSetSleep | STestNotified | SCondWait | SBlocked | SRelock
  | SClearNotified | SClearSleep | SUnlock | SReturn.
Inductive wake_pc :=
  | WLock | WTestDead | WTestNotified | WSetNotified | WTestSleep | WSignal | WUnlock | WReturn.
Inductive exit_pc := XLock | XTestDead | XSetDead | XTestSleep | XBroadcast | XUnlock.
Inductive pc := InSleep (p : sleep_pc) | InWake (p : wake_pc) | InExit (p : exit_pc).
#[export] Instance sleep_pc_eq_dec : EqDecision sleep_pc.
Proof. solve_decision. Defined.
#[export] Instance wake_pc_eq_dec : EqDecision wake_pc.
Proof. solve_decision. Defined.
#[export] Instance exit_pc_eq_dec : EqDecision exit_pc.
Proof. solve_decision. Defined.
#[export] Instance pc_eq_dec : EqDecision pc.
Proof. solve_decision. Defined.

(** Where a thread goes on; [Return None] is the end of a void function. *)
Inductive next := Goto (p : pc) | Return (r : option Z).

(** What a statement does to the structure, whether it notifies the threads
    blocked on the condition variable, and what comes next. *)
Definition result : Type := async_wait * Wait.notice * next.
Definition quiet (w : async_wait) (p : pc) : option result := Some (w, Wait.NoSignal, Goto p).

(** [pthread_cond_wait] releases the mutex and blocks in one step; a thread
    notified there has to take the mutex again ([SRelock]). *)
Definition sleep_on (t : nat) (p : sleep_pc) (w : async_wait) : option result :=
  match p with
  | SLock => w ← mutex_lock t w; quiet w (InSleep STestDead)
  | STestDead => quiet w (InSleep (if negb (dead w =? 0) then SUnlock else SSetSleep))
  | SSetSleep => quiet (set_sleep 1 w) (InSleep STestNotified)
  | STestNotified => quiet w (InSleep (if notified w =? 0 then SCondWait else SClearNotified))
  | SCondWait => quiet (mutex_unlock w) (InSleep SBlocked)
  | SBlocked => None
  | SRelock => w ← mutex_lock t w; quiet w (InSleep SClearNotified)
  | SClearNotified => quiet (set_notified 0 w) (InSleep SClearSleep)
  | SClearSleep => quiet (set_sleep 0 w) (InSleep SUnlock)
  | SUnlock => quiet (mutex_unlock w) (InSleep SReturn)
  | SReturn => Some (w, Wait.NoSignal, Return (Some (- dead w)))
  end.

Definition wake_up (t : nat) (p : wake_pc) (w : async_wait) : option result :=
  match p with
  | WLock => w ← mutex_lock t w; quiet w (InWake WTestDead)
  | WTestDead => quiet w (InWake (if negb (dead w =? 0) then WUnlock else WTestNotified))
  | WTestNotified => quiet w (InWake (if notified w =? 0 then WSetNotified else WUnlock))
  | WSetNotified => quiet (set_notified 1 w) (InWake WTestSleep)
  | WTestSleep => quiet w (InWake (if negb (sleep w =? 0) then WSignal else WUnlock))
  | WSignal => Some (w, Wait.Signal, Goto (InWake WUnlock))
  | WUnlock => quiet (mutex_unlock w) (InWake WReturn)
  | WReturn => Some (w, Wait.NoSignal, Return (Some (- dead w)))
  end.

Definition wait_exit (t : nat) (p : exit_pc) (w : async_wait) : option result :=
  match p with
  | XLock => w ← mutex_lock t w; quiet w (InExit XTestDead)
  | XTestDead => quiet w (InExit (if negb (dead w =? 0) then XUnlock else XSetDead))
  | XSetDead => quiet (set_dead 1 w) (InExit XTestSleep)
  | XTestSleep => quiet w (InExit (if negb (sleep w =? 0) then XBroadcast else XUnlock))
  | XBroadcast => Some (w, Wait.Broadcast, Goto (InExit XUnlock))
  | XUnlock => Some (mutex_unlock w, Wait.NoSignal, Return None)
  end.

Definition exec (t : nat) (p : pc) (w : async_wait) : option result :=
  match p with
  | InSleep p => sleep_on t p w
  | InWake p => wake_up t p w
  | InExit p => wait_exit t p w
  end.

(** ** Threads *)

Record sys := Sys { wait : async_wait; threads : gmap nat pc }.
Inductive event := ECall (t : nat) (p : pc) | ERun (t : nat) | ESpurious (t : nat) | EReturn (t : nat) (p : pc) (r : option Z).

Definition entry (p : pc) : bool := bool_decide (p ∈ [InSleep SLock; InWake WLock; InExit XLock]).

(** The effect of a notice on the blocked threads. *)
Definition unblock (p : pc) : pc := if decide (p = InSleep SBlocked) then InSleep SRelock else p.
Inductive notifies : Wait.notice -> gmap nat pc -> gmap nat pc -> Prop :=
  | notify_none m : notifies Wait.NoSignal m m
  | notify_one m u : m !! u = Some (InSleep SBlocked) -> notifies Wait.Signal m (<[u := InSleep SRelock]> m)
  | notify_nobody m : (forall u, m !! u ≠ Some (InSleep SBlocked)) -> notifies Wait.Signal m m
  | notify_all m : notifies Wait.Broadcast m (unblock <$> m).

Definition no_sleeper (m : gmap nat pc) : Prop := forall u p, m !! u ≠ Some (InSleep p).

(** [multi]: whether a thread may enter [sleep_on] while another is inside. *)
Inductive step (multi : bool) : sys -> event -> sys -> Prop :=
  | step_call w m t p :
      m !! t = None -> entry p = true -> (p = InSleep SLock -> multi = true \/ no_sleeper m) ->
      step multi (Sys w m) (ECall t p) (Sys w (<[t := p]> m))
  | step_run w m t p w' n p' m' :
      m !! t = Some p -> exec t p w = Some (w', n, Goto p') -> notifies n m m' ->
      step multi (Sys w m) (ERun t) (Sys w' (<[t := p']> m'))
  | step_return w m t p w' n r :
      m !! t = Some p -> exec t p w = Some (w', n, Return r) ->
      step multi (Sys w m) (EReturn t p r) (Sys w' (delete t m))
  | step_spurious w m t :
      m !! t = Some (InSleep SBlocked) ->
      step multi (Sys w m) (ESpurious t) (Sys w (<[t := InSleep SRelock]> m)).

Inductive steps (multi : bool) : sys -> list event -> sys -> Prop :=
  | steps_nil s : steps multi s [] s
  | steps_snoc s es s' e s'' :
      steps multi s es s' -> step multi s' e s'' -> steps multi s (es ++ [e]) s''.

Definition init_sys : sys := Sys alloc_wait_struct ∅.

(** ** Mutual exclusion *)

(** Between [pthread_mutex_lock] and [pthread_mutex_unlock]. *)
Definition inside (p : pc) : bool :=
  match p with
  | InSleep (SLock | SBlocked | SRelock | SReturn) => false
  | InWake (WLock | WReturn) | InExit XLock => false
  | _ => true
  end.

Definition exclusive (s : sys) : Prop :=
  forall t, lock (wait s) = Some t <-> exists p, threads s !! t = Some p /\ inside p = true.

Definition next_inside (x : next) : bool := match x with Goto p => inside p | Return _ => false end.

(** Only the thread that holds the mutex runs the statements it protects. *)
Lemma exec_lock t p w w' n x :
  exec t p w = Some (w', n, x) -> (inside p = true -> lock w = Some t) ->
  lock w' = (if next_inside x then Some t else if inside p then None else lock w) /\
  (inside p = false -> next_inside x = true -> lock w = None).
Proof.
  intros E Hp. destruct p as [p|p|p], p; simpl in *; unfold quiet, mutex_lock in E; simplify_option_eq;
    repeat case_match; simplify_eq; simpl in *; (split; [by auto|done]).
Qed.

Lemma notifies_lookup n m m' u :
  notifies n m m' ->
  m' !! u = m !! u \/ m !! u = Some (InSleep SBlocked) /\ m' !! u = Some (InSleep SRelock).
Proof.
  destruct 1 as [m|m v Hv|m _|m]; [by left| |by left|].
  - destruct (decide (u = v)) as [->|]; [right; by rewrite lookup_insert_eq|left; by rewrite lookup_insert_ne].
  - rewrite lookup_fmap. destruct (m !! u) as [p|]; [|by left]. simpl. unfold unblock.
    case_decide; [right; by simplify_eq|by left].
Qed.

Definition occupied (m : gmap nat pc) (u : nat) : Prop := exists p, m !! u = Some p /\ inside p = true.

Lemma notifies_occupied n m m' u : notifies n m m' -> occupied m' u <-> occupied m u.
Proof.
  intros Hn. unfold occupied. destruct (notifies_lookup n m m' u Hn) as [->|[-> ->]]; [done|].
  split; intros (p & E & Hp); simplify_eq; done.
Qed.

Lemma occupied_insert m t p u : occupied (<[t := p]> m) u <-> (u = t /\ inside p = true) \/ (u ≠ t /\ occupied m u).
Proof.
  unfold occupied. destruct (decide (u = t)) as [->|Hne].
  - rewrite lookup_insert_eq. naive_solver.
  - rewrite lookup_insert_ne by done. naive_solver.
Qed.

Lemma occupied_delete m t u : occupied (delete t m) u <-> u ≠ t /\ occupied m u.
Proof. unfold occupied. setoid_rewrite lookup_delete_Some. naive_solver. Qed.

Lemma step_exclusive multi s e s' : exclusive s -> step multi s e s' -> exclusive s'.
Proof.
  intros Hx Hstep. destruct Hstep as [w m t p Ht He _|w m t p w' n p' m' Ht E Hn|w m t p w' n r Ht E|w m t Ht];
    intros u; specialize (Hx u) as Hu; simpl in *; fold (occupied m u) in Hu.
  - fold (occupied (<[t := p]> m) u). rewrite occupied_insert, Hu.
    assert (inside p = false) as ->.
    { apply bool_decide_eq_true in He. set_unfold in He. naive_solver. }
    split; [intros Ho; right; split; [|done]|naive_solver]. intros ->. destruct Ho as (q & Hq & _). congruence.
  - fold (occupied (<[t := p']> m') u). rewrite occupied_insert, (notifies_occupied _ _ _ _ Hn), <- Hu.
    destruct (exec_lock t p w w' n (Goto p') E) as [-> Hfree]; [intros Hp; apply Hx; simpl; eauto|]. simpl in *.
    assert (Ht' : lock w = Some t <-> inside p = true)
      by (rewrite (Hx t); simpl; split; [intros (? & ? & ?); congruence|eauto]).
    destruct (inside p'), (inside p); naive_solver congruence.
  - fold (occupied (delete t m) u). rewrite occupied_delete, <- Hu.
    destruct (exec_lock t p w w' n (Return r) E) as [-> _]; [intros Hp; apply Hx; simpl; eauto|]. simpl.
    assert (Ht' : lock w = Some t <-> inside p = true)
      by (rewrite (Hx t); simpl; split; [intros (? & ? & ?); congruence|eauto]).
    destruct (inside p); naive_solver congruence.
  - fold (occupied (<[t := InSleep SRelock]> m) u). rewrite occupied_insert, Hu. simpl.
    split; [intros Ho; right; split; [|done]|naive_solver]. intros ->. destruct Ho as (q & Hq & Hi). by simplify_eq.
Qed.

Lemma steps_exclusive multi es s : steps multi init_sys es s -> exclusive s.
Proof.
  intros H. remember init_sys as s0 eqn:E0. induction H as [|s es s' e s'' _ IH Hstep]; subst.
  - intros t. simpl. split; [done|]. intros (p & Hp & _). by rewrite lookup_empty in Hp.
  - eauto using step_exclusive.
Qed.

(** ** Simulation by the atomic sections *)

Definition flags_of (w : async_wait) : Wait.synch_wait := Wait.SynchWait (notified w) (dead w) (sleep w).

(** A thread is in [wait_exit] between storing [dead], which a thread that
    returns may read at once, and the broadcast it owes the blocked threads. *)
Definition pending (s : sys) : bool :=
  match lock (wait s) with
  | Some t =>
      match threads s !! t with
      | Some (InExit (XTestSleep | XBroadcast)) => negb (sleep (wait s) =? 0)
      | _ => false
      end
  | None => false
  end.

(** What SynchWait.v knows of a thread at a statement.  A section counts as
    executed from the statement on that stores [dead], signals, releases the
    mutex, or stores the last flag; until then a thread in [sleep_on] is unknown
    or, after it was woken, still [Woken].  [late]: a broadcast is pending. *)
Definition rel_pc (late : bool) (p : pc) (x : option Wait.phase) : Prop :=
  match p with
  | InSleep SBlocked => x = Some (if late then Wait.Woken else Wait.Blocked)
  | InSleep SRelock => x = Some Wait.Woken
  | InSleep (SClearNotified | SClearSleep) => x = None \/ x = Some Wait.Woken
  | InSleep (SUnlock | SReturn) => x = Some Wait.AtReturn
  | _ => x = None
  end.
Definition rel_thread (late : bool) (o : option pc) (x : option Wait.phase) : Prop :=
  match o with Some p => rel_pc late p x | None => x = None end.

(** The flags [a] of SynchWait.v and the members [c] of the structure while the
    holder of the mutex is at a statement. *)
Definition rel_flags (p : pc) (x : option Wait.phase) (a c : Wait.synch_wait) : Prop :=
  let n := Wait.notified a in let d := Wait.dead a in let s := Wait.sleep a in
  match p with
  | InSleep SSetSleep | InWake WTestNotified | InExit XSetDead => c = a /\ d = 0
  | InSleep STestNotified => c = Wait.SynchWait n d 1 /\ d = 0
  | InSleep SCondWait => c = Wait.SynchWait n d 1 /\ d = 0 /\ n = 0
  | InSleep SClearNotified => x = None /\ c = Wait.SynchWait n d 1 /\ d = 0 /\ n ≠ 0 \/ x = Some Wait.Woken /\ c = a
  | InSleep SClearSleep =>
      x = None /\ c = Wait.SynchWait 0 d 1 /\ d = 0 /\ n ≠ 0 \/ x = Some Wait.Woken /\ c = Wait.SynchWait 0 d s
  | InWake WSetNotified => c = a /\ d = 0 /\ n = 0
  | InWake WTestSleep => c = Wait.SynchWait 1 d s /\ d = 0 /\ n = 0
  | InWake WSignal => c = Wait.SynchWait 1 d s /\ d = 0 /\ n = 0 /\ s ≠ 0
  | InExit XBroadcast => c = a /\ s ≠ 0
  | _ => c = a
  end.

Definition solo (m : gmap nat pc) : Prop :=
  forall t u p q, m !! t = Some (InSleep p) -> m !! u = Some (InSleep q) -> t = u.

Record rel (multi : bool) (c : sys) (a : Wait.sys) : Prop := Rel {
  rel_excl : exclusive c;
  rel_threads u : rel_thread (pending c) (threads c !! u) (Wait.threads a !! u);
  rel_free : lock (wait c) = None -> flags_of (wait c) = Wait.flags a;
  rel_held t p : lock (wait c) = Some t -> threads c !! t = Some p ->
    rel_flags p (Wait.threads a !! t) (Wait.flags a) (flags_of (wait c));
  rel_solo : multi = false -> solo (threads c)
}.

(** Zero or one step of SynchWait.v. *)
Definition sim_step (multi : bool) (a : Wait.sys) (es : list Wait.event) (a' : Wait.sys) : Prop :=
  es = [] /\ a' = a \/ exists e, es = [e] /\ Wait.step multi a e a'.

(** The flags of the mutex holder tell those of every thread. *)
Lemma rel_at multi c a t p :
  rel multi c a -> threads c !! t = Some p -> inside p = true ->
  rel_flags p (Wait.threads a !! t) (Wait.flags a) (flags_of (wait c)).
Proof.
  intros R Ht Hp. apply (rel_held _ _ _ R); [|done]. apply (rel_excl _ _ _ R). eauto.
Qed.

(** At most one thread in [sleep_on]. *)
Lemma solo_insert m t p :
  solo m -> (forall q u q', p = InSleep q -> m !! u = Some (InSleep q') -> u = t) -> solo (<[t := p]> m).
Proof.
  intros Hs Hp x y q q' Hx Hy. apply lookup_insert_Some in Hx, Hy.
  destruct Hx as [[<- ->]|[_ Hx]], Hy as [[<- Hy]|[_ Hy]]; [done|symmetry| |by eapply Hs]; by eapply Hp.
Qed.

Lemma solo_notifies n m m' : notifies n m m' -> solo m -> solo m'.
Proof.
  intros Hn Hs x y p q Hx Hy.
  destruct (notifies_lookup n m m' x Hn) as [Ex|[Ex _]], (notifies_lookup n m m' y Hn) as [Ey|[Ey _]];
    rewrite ?Ex in Hx; rewrite ?Ey in Hy; by eapply Hs.
Qed.

Lemma step_solo multi s e s' :
  (multi = false -> solo (threads s)) -> step multi s e s' -> multi = false -> solo (threads s').
Proof.
  intros Hs Hstep Hm. specialize (Hs Hm).
  destruct Hstep as [w m t p Ht He Hc|w m t p w' n p' m' Ht E Hn|w m t p w' n r Ht E|w m t Ht]; simpl in *.
  - apply solo_insert; [done|]. intros q u q' -> Hu. apply bool_decide_eq_true in He.
    assert (InSleep q = InSleep SLock) as Eq by (set_unfold in He; naive_solver).
    destruct (Hc Eq) as [|Hno]; [congruence|]. by destruct (Hno u q').
  - apply solo_insert; [by eapply solo_notifies|]. intros q u q' -> Hu.
    assert (exists q0, p = InSleep q0) as [q0 ->].
    { destruct p as [q0|q0|q0]; [eauto|..]; destruct q0; simpl in E; unfold quiet, mutex_lock in E; simplify_option_eq;
        repeat case_match; simplify_eq. }
    destruct (notifies_lookup n m m' u Hn) as [Eu|[Eu _]]; [rewrite Eu in Hu|]; by eapply Hs.
  - intros x y p' q Hx%lookup_delete_Some Hy%lookup_delete_Some. by eapply Hs; [apply Hx|apply Hy].
  - apply solo_insert; [done|]. intros q u q' _ Hu. by eapply Hs.
Qed.

(** A thread that SynchWait.v does not know yet may enter there. *)
Lemma rel_alone multi c a t p :
  rel multi c a -> threads c !! t = Some (InSleep p) -> Wait.threads a !! t = None ->
  multi = true \/ Wait.threads a = ∅.
Proof.
  intros R Ht Ha. destruct multi; [by left|right]. apply map_empty. intros u.
  destruct (decide (u = t)) as [->|Hne]; [done|].
  pose proof (rel_threads _ _ _ R u) as Hu. destruct (threads c !! u) as [q|] eqn:E; simpl in Hu; [|done].
  destruct q as [q|q|q]; [|by destruct q..]. destruct Hne. by eapply (rel_solo _ _ _ R).
Qed.

Lemma rel_insert late (m : gmap nat pc) (am' : gmap nat Wait.phase) t p :
  (forall u, u ≠ t -> rel_thread late (m !! u) (am' !! u)) -> rel_pc late p (am' !! t) ->
  forall u, rel_thread late (<[t := p]> m !! u) (am' !! u).
Proof.
  intros Hm Hp u. destruct (decide (u = t)) as [->|]; [by rewrite lookup_insert_eq|].
  rewrite lookup_insert_ne by done. auto.
Qed.

(** What is to be shown of a statement that leads to [p']. *)
Definition simulated (multi late : bool) (a : Wait.sys) (t : nat) (w' : async_wait) (p' : pc) (m' : gmap nat pc) : Prop :=
  exists es a', sim_step multi a es a' /\ Wait.results es = [] /\
    (forall u, u ≠ t -> rel_thread late (m' !! u) (Wait.threads a' !! u)) /\ rel_pc late p' (Wait.threads a' !! t) /\
    (if inside p' then rel_flags p' (Wait.threads a' !! t) (Wait.flags a') (flags_of w')
     else flags_of w' = Wait.flags a').

(** A pending broadcast, seen from the thread that runs and from afterwards. *)
Definition owes (p : pc) (w : async_wait) : bool :=
  match p with InExit (XTestSleep | XBroadcast) => negb (sleep w =? 0) | _ => false end.

Lemma pending_inside s t p :
  exclusive s -> threads s !! t = Some p -> inside p = true -> pending s = owes p (wait s).
Proof.
  intros Hx Ht Hp. unfold pending. rewrite (proj2 (Hx t)) by eauto. by rewrite Ht.
Qed.

Lemma rel_unblock o x : rel_thread true o x -> rel_thread false (unblock <$> o) x.
Proof.
  destruct o as [q|]; simpl; [|done]. unfold unblock. case_decide; [by subst|]. by destruct q as [q|q|q], q.
Qed.

Lemma rel_broadcast o x :
  rel_thread false o x -> rel_thread true o ((fun p => if decide (p = Wait.Blocked) then Wait.Woken else p) <$> x).
Proof.
  destruct o as [q|]; simpl; [|by intros ->]. intros Hq.
  destruct q as [q|q|q], q; simpl in *; (by rewrite Hq) || (destruct Hq as [-> | ->]; simpl; auto).
Qed.

Section Statement.
Context (multi : bool) (w : async_wait) (m : gmap nat pc) (a : Wait.sys) (t : nat) (p : pc).
Hypothesis R : rel multi (Sys w m) a.
Hypothesis Ht : m !! t = Some p.

(** SynchWait.v stays where it is. *)
Lemma sim_stutter late w' p' :
  pending (Sys w m) = late -> rel_pc late p' (Wait.threads a !! t) ->
  (if inside p' then rel_flags p' (Wait.threads a !! t) (Wait.flags a) (flags_of w') else flags_of w' = Wait.flags a) ->
  simulated multi late a t w' p' m.
Proof.
  intros <- Hp Hf. exists [], a. split; [by left|]. split; [done|]. split; [|done].
  intros u _. apply (rel_threads _ _ _ R).
Qed.

Hypothesis Hq : pending (Sys w m) = false.

Lemma rel_quiet u : rel_thread false (m !! u) (Wait.threads a !! u).
Proof. rewrite <- Hq. apply (rel_threads _ _ _ R). Qed.

(** The section of [sleep_on] is executed up to its end or up to where it blocks. *)
Lemma sim_enter w' (b : bool) p' :
  (exists q, p = InSleep q) -> Wait.threads a !! t = None -> Wait.sleep_on_enter (Wait.flags a) = (flags_of w', b) ->
  p' = InSleep (if b then SBlocked else SUnlock) -> simulated multi false a t w' p' m.
Proof.
  intros [q ->] Ha E ->. pose proof rel_quiet as Hr. destruct a as [fa am]. simpl in *.
  eexists [_], _. split; [right; eexists; split; [done|]|].
  { eapply Wait.step_sleep; [exact Ha|by apply (rel_alone _ _ _ _ _ R Ht)|exact E]. }
  split; [done|]. simpl. rewrite lookup_insert_eq. split; [|by destruct b, w'].
  intros u Hu. by rewrite lookup_insert_ne by done.
Qed.

(** The rest of [sleep_on] after it was woken. *)
Lemma sim_resume w' :
  Wait.threads a !! t = Some Wait.Woken -> flags_of w' = Wait.sleep_on_leave (Wait.flags a) ->
  simulated multi false a t w' (InSleep SUnlock) m.
Proof.
  intros Ha E. pose proof rel_quiet as Hr. destruct a as [fa am]. simpl in *. eexists [_], _.
  split; [right; eexists; split; [done|by apply Wait.step_resume]|]. split; [done|]. simpl. rewrite lookup_insert_eq.
  split; [|by destruct fa]. intros u Hu. by rewrite lookup_insert_ne by done.
Qed.

(** A signal reaches the same thread in both models. *)
Lemma sim_signal n m' :
  n ≠ Wait.Broadcast -> notifies n m m' -> exists am', Wait.notifies n (Wait.threads a) am' /\
    forall u, rel_thread false (m' !! u) (am' !! u).
Proof.
  intros Hb Hn. pose proof rel_quiet as Hr. clear R Ht Hq. simpl in Hr.
  inversion Hn as [m0|m0 u Hu|m0 Hno|m0]; subst; [| | |done].
  - by exists (Wait.threads a); split; [constructor|].
  - exists (<[u := Wait.Woken]> (Wait.threads a)). split.
    + constructor. specialize (Hr u). by rewrite Hu in Hr.
    + intros v. destruct (decide (v = u)) as [->|]; [by rewrite !lookup_insert_eq|by rewrite !lookup_insert_ne].
  - exists (Wait.threads a). split; [|done]. constructor. intros u Hu. specialize (Hr u). rewrite Hu in Hr.
    destruct (m' !! u) as [q|] eqn:E; simpl in Hr; [|done]. apply (Hno u). rewrite E. f_equal.
    destruct q as [q|q|q], q; naive_solver.
Qed.

(** The section of a notifier is executed. *)
Lemma sim_notice late w' n m' am' p' e :
  e = Wait.EWake /\ Wait.wake_up (Wait.flags a) = (flags_of w', n) \/
  e = Wait.EExit /\ Wait.wait_exit (Wait.flags a) = (flags_of w', n) ->
  Wait.notifies n (Wait.threads a) am' -> (forall u, rel_thread late (m' !! u) (am' !! u)) ->
  Wait.threads a !! t = None -> p' ∈ [InWake WUnlock; InExit XUnlock; InExit XTestSleep] ->
  simulated multi late a t w' p' m'.
Proof.
  clear R Ht Hq. intros He Ha Hr E Hp'. assert (Hnone : am' !! t = None).
  { apply eq_None_not_Some. intros Hs. apply (Wait.notifies_dom _ _ _ _ Ha) in Hs. rewrite E in Hs. by destruct Hs. }
  exists [e], (Wait.Sys (flags_of w') am'). split.
  { right. exists e. split; [done|]. destruct a as [fa am]. destruct He as [(-> & E')|(-> & E')];
      [by eapply Wait.step_wake|by eapply Wait.step_exit]. }
  split; [by destruct He as [(-> & _)|(-> & _)]|]. simpl. split; [intros u _; apply Hr|]. rewrite Hnone.
  set_unfold in Hp'. by destruct Hp' as [->|[->|[->|[]]]].
Qed.
End Statement.

(** Taking the mutex: the flags are those of SynchWait.v. *)
Lemma lock_taken multi w m a t w' :
  rel multi (Sys w m) a -> mutex_lock t w = Some w' -> pending (Sys w m) = false /\ flags_of w' = Wait.flags a.
Proof.
  intros R. unfold mutex_lock, pending. simpl. destruct (lock w) eqn:E; [done|]. intros [= <-].
  split; [done|]. by apply (rel_free _ _ _ R).
Qed.

(** Start of a proof about one statement: the two models side by side. *)
Ltac statement R t Ht Hp Hf Hq :=
  pose proof (rel_threads _ _ _ R t) as Hp; pose proof (rel_at _ _ _ _ _ R Ht) as Hf;
  pose proof (pending_inside _ _ _ (rel_excl _ _ _ R) Ht) as Hq;
  simpl in Hp, Hq; rewrite Ht in Hp; simpl in Hp.

(** The outcome of one statement, read off its definition. *)
Ltac outcome E :=
  simpl in E; unfold quiet in E;
  try (match type of E with context [mutex_lock ?t ?w] => destruct (mutex_lock t w) eqn:?; [|discriminate E] end);
  simpl in E; try discriminate E; injection E as <- <- <-.

(** A section computed on the flags of a live structure. *)
Ltac sections a Hf :=
  unfold Wait.wake_up, Wait.wait_exit, Wait.sleep_on_enter, Wait.sleep_on_leave, flags_of in *; simpl in *;
  destruct (Wait.flags a); simpl in *; injection Hf as ? ? ?; subst; zcases; simpl in *; congruence.

Lemma sim_sleep multi w m a t p w' n p' m' :
  rel multi (Sys w m) a -> m !! t = Some (InSleep p) -> sleep_on t p w = Some (w', n, Goto p') -> notifies n m m' ->
  simulated multi false a t w' p' m'.
Proof.
  intros R Ht E Hn. statement R t Ht Hp Hf Hq.
  destruct p; outcome E; inversion Hn; subst m' m0; clear Hn; try specialize (Hf eq_refl); try specialize (Hq eq_refl);
    simpl in Hf, Hq.
  - destruct (lock_taken _ _ _ _ _ _ R Heqo) as [Hq' Hf']. by apply (sim_stutter multi _ m _ _ R).
  - destruct (Z.eqb_spec (dead w) 0) as [Ed|Ed].
    + apply (sim_stutter multi _ m _ _ R); [done..|]. simpl. split; [done|]. by rewrite <- Hf.
    + apply (sim_enter multi _ m a t _ R Ht Hq _ false); [eauto|done| |done]. sections a Hf.
  - destruct Hf as [Hf Hd]. apply (sim_stutter multi _ m _ _ R); [done..|]. simpl. split; [|done]. by rewrite <- Hf.
  - destruct Hf as [Hf Hd]. injection Hf as Hn' Hd' Hs'. destruct (Z.eqb_spec (notified w) 0) as [En|En];
      (apply (sim_stutter multi _ m _ _ R); [done|simpl; by auto|]); simpl; unfold flags_of;
      rewrite Hs', Hn', Hd'; rewrite Hn' in En; auto.
  - destruct Hf as (Hf & Hd & Hn'). apply (sim_enter multi _ m a t _ R Ht Hq _ true); [eauto|done| |done]. sections a Hf.
  - destruct (lock_taken _ _ _ _ _ _ R Heqo) as [Hq' Hf'].
    apply (sim_stutter multi _ m _ _ R); [done|by right|]. simpl. by right.
  - apply (sim_stutter multi _ m _ _ R); [done..|]. simpl. unfold flags_of in *. simpl.
    destruct Hf as [(Hx & Hf & Hd & Hn')|[Hx Hf]]; [left|right]; (split; [done|]).
    + injection Hf as _ -> ->. done.
    + rewrite <- Hf. done.
  - destruct Hf as [(Hx & Hf & Hd & Hn')|[Hx Hf]].
    + apply (sim_enter multi _ m a t _ R Ht Hq _ false); [eauto|done| |done]. sections a Hf.
    + apply (sim_resume multi _ m a t R Hq); [done|]. sections a Hf.
  - by apply (sim_stutter multi _ m _ _ R).
Qed.

Lemma sim_wake multi w m a t p w' n p' m' :
  rel multi (Sys w m) a -> m !! t = Some (InWake p) -> wake_up t p w = Some (w', n, Goto p') -> notifies n m m' ->
  simulated multi false a t w' p' m'.
Proof.
  intros R Ht E Hn. statement R t Ht Hp Hf Hq.
  destruct p; outcome E; try specialize (Hf eq_refl); try specialize (Hq eq_refl); simpl in Hf, Hq;
    try (inversion Hn; [subst m' m0; clear Hn]).
  - destruct (lock_taken _ _ _ _ _ _ R Heqo) as [Hq' Hf']. by apply (sim_stutter multi _ m _ _ R).
  - destruct (Z.eqb_spec (dead w) 0) as [Ed|Ed].
    + apply (sim_stutter multi _ m _ _ R); [done..|]. simpl. split; [done|]. by rewrite <- Hf.
    + eapply (sim_notice multi a t false); [left; split; [done|]|constructor|by apply (rel_quiet _ _ _ _ R)|done|set_solver].
      sections a Hf.
  - destruct Hf as [Hf Hd]. destruct (Z.eqb_spec (notified w) 0) as [En|En].
    + apply (sim_stutter multi _ m _ _ R); [done..|]. simpl. split; [done|]. by rewrite <- Hf in *.
    + eapply (sim_notice multi a t false); [left; split; [done|]|constructor|by apply (rel_quiet _ _ _ _ R)|done|set_solver].
      sections a Hf.
  - destruct Hf as (Hf & Hd & Hn'). apply (sim_stutter multi _ m _ _ R); [done..|]. simpl. by rewrite <- Hf in *.
  - destruct Hf as (Hf & Hd & Hn'). destruct (Z.eqb_spec (sleep w) 0) as [Es|Es].
    + eapply (sim_notice multi a t false); [left; split; [done|]|constructor|by apply (rel_quiet _ _ _ _ R)|done|set_solver].
      sections a Hf.
    + apply (sim_stutter multi _ m _ _ R); [done..|]. simpl. rewrite Hf. injection Hf as _ _ Hs. by rewrite <- Hs.
  - destruct Hf as (Hf & Hd & Hn' & Hs). destruct (sim_signal _ _ _ _ R Hq Wait.Signal m') as (am' & Ha & Hr); [done..|].
    eapply (sim_notice multi a t false); [left; split; [done|]|exact Ha|exact Hr|done|set_solver]. sections a Hf.
  - by apply (sim_stutter multi _ m _ _ R).
Qed.

Lemma sim_exit multi w m a t p w' n p' m' :
  rel multi (Sys w m) a -> m !! t = Some (InExit p) -> wait_exit t p w = Some (w', n, Goto p') -> notifies n m m' ->
  simulated multi (owes p' w') a t w' p' m'.
Proof.
  intros R Ht E Hn. statement R t Ht Hp Hf Hq.
  destruct p; outcome E; try specialize (Hf eq_refl); try specialize (Hq eq_refl); simpl in Hf, Hq;
    inversion Hn; subst; clear Hn.
  - destruct (lock_taken _ _ _ _ _ _ R Heqo) as [Hq' Hf']. by apply (sim_stutter multi _ m' _ _ R).
  - destruct (Z.eqb_spec (dead w) 0) as [Ed|Ed].
    + apply (sim_stutter multi _ _ _ _ R); [done..|]. simpl. split; [done|]. by rewrite <- Hf.
    + eapply (sim_notice multi a t false); [right; split; [done|]|constructor|by apply (rel_quiet _ _ _ _ R)|done|set_solver].
      sections a Hf.
  - destruct Hf as (Hf & Hd). simpl. pose proof (rel_quiet _ _ _ _ R Hq) as Hr.
    destruct (Z.eqb_spec (sleep w) 0) as [Es|Es]; simpl.
    + eapply (sim_notice multi a t false); [right; split; [done|]|constructor|exact Hr|done|set_solver]. sections a Hf.
    + eapply (sim_notice multi a t true); [right; split; [done|]|constructor| |done|set_solver]; [sections a Hf|].
      intros u. rewrite lookup_fmap. apply rel_broadcast, Hr.
  - destruct (Z.eqb_spec (sleep w) 0) as [Es|Es]; simpl in *; rewrite ?(proj2 (Z.eqb_neq _ _) Es); simpl;
      apply (sim_stutter multi _ _ _ _ R); try done. simpl. split; [done|]. by rewrite <- Hf.
  - destruct Hf as [Hf Hs]. assert (Hl : pending (Sys w m) = true).
    { rewrite Hq. change (sleep w) with (Wait.sleep (flags_of w)). rewrite Hf. by rewrite (proj2 (Z.eqb_neq _ _) Hs). }
    exists [], a. split; [by left|]. split; [done|]. split; [|done]. intros u _. rewrite lookup_fmap.
    apply rel_unblock. rewrite <- Hl. apply (rel_threads _ _ _ R u).
Qed.

(** The values [sleep_on] returned, by thread. *)
Fixpoint sleep_results (es : list event) : list (nat * Z) :=
  match es with
  | [] => []
  | EReturn t (InSleep _) (Some r) :: es => (t, r) :: sleep_results es
  | _ :: es => sleep_results es
  end.

Lemma sleep_results_app es es' : sleep_results (es ++ es') = sleep_results es ++ sleep_results es'.
Proof. induction es as [|[| | |t [] []] es IH]; simpl; by rewrite ?IH. Qed.

Lemma exec_return t p w w' n r :
  exec t p w = Some (w', n, Return r) ->
  n = Wait.NoSignal /\ (p = InSleep SReturn /\ w' = w /\ r = Some (- dead w) \/ p = InWake WReturn /\ w' = w \/
  p = InExit XUnlock /\ w' = mutex_unlock w).
Proof.
  intros E. destruct p as [p|p|p], p; simpl in E; unfold quiet, mutex_lock in E; repeat case_match; simplify_eq; eauto 6.
Qed.

Lemma exec_goto t p w w' n p' : exec t p w = Some (w', n, Goto p') -> inside p = true \/ inside p' = true.
Proof.
  intros E. destruct p as [p|p|p], p; simpl in E; unfold quiet, mutex_lock in E; repeat case_match; simplify_option_eq; auto.
Qed.

(** [dead] is the same in both models at every moment, also while another thread
    is between its lock and its unlock. *)
Lemma rel_dead multi w m a : rel multi (Sys w m) a -> dead w = Wait.dead (Wait.flags a).
Proof.
  intros R. change (dead w) with (Wait.dead (flags_of w)). destruct (lock w) as [t|] eqn:El.
  - destruct (proj1 (rel_excl _ _ _ R t) El) as (p & Hp & _). simpl in Hp.
    pose proof (rel_held _ _ _ R t p El Hp) as Hf. simpl in Hf. unfold rel_flags in Hf.
    destruct p as [p|p|p], p; repeat match goal with H : _ /\ _ |- _ => destruct H | H : _ \/ _ |- _ => destruct H end;
      match goal with H : flags_of w = _ |- _ => by rewrite H end.
  - exact (f_equal Wait.dead (rel_free _ _ _ R El)).
Qed.

(** Threads outside the sections come and go without touching the rest. *)
Lemma pending_other w m m' t :
  (forall u p, u ≠ t -> lock w = Some u -> m !! u = Some p -> m' !! u = Some p) ->
  exclusive (Sys w m) -> lock w ≠ Some t -> pending (Sys w m') = pending (Sys w m).
Proof.
  intros Hm Hx Ht. unfold pending. simpl. destruct (lock w) as [u|] eqn:El; [|done].
  destruct (proj1 (Hx u) El) as (p & Hp & _). simpl in Hp. rewrite Hp. by rewrite (Hm u p) by congruence.
Qed.

Lemma rel_outside multi w m a am' t (m' : gmap nat pc) :
  rel multi (Sys w m) a -> exclusive (Sys w m') -> (multi = false -> solo m') -> lock w ≠ Some t ->
  (forall u, u ≠ t -> m' !! u = m !! u /\ am' !! u = Wait.threads a !! u) ->
  rel_thread (pending (Sys w m)) (m' !! t) (am' !! t) -> rel multi (Sys w m') (Wait.Sys (Wait.flags a) am').
Proof.
  intros R Hx Hs Hl Hm Ht. assert (Hp : pending (Sys w m') = pending (Sys w m)).
  { apply (pending_other w m m' t); [|apply (rel_excl _ _ _ R)|done]. intros u p Hu _. by rewrite (proj1 (Hm u Hu)). }
  split; simpl; [done| |by apply (rel_free _ _ _ R)| |done].
  - intros u. rewrite Hp. destruct (decide (u = t)) as [->|Hu]; [done|]. destruct (Hm u Hu) as [-> ->].
    apply (rel_threads _ _ _ R).
  - intros u p Hu Hq. destruct (decide (u = t)) as [->|Hne]; [done|]. destruct (Hm u Hne) as [E1 ->].
    apply (rel_held _ _ _ R); [done|]. simpl. congruence.
Qed.

Lemma not_holder multi w m a t :
  rel multi (Sys w m) a -> (forall p, m !! t = Some p -> inside p = false) -> lock w ≠ Some t.
Proof.
  intros R Hp El. destruct (proj1 (rel_excl _ _ _ R t) El) as (p & Hq & Hi). simpl in Hq.
  by rewrite (Hp p Hq) in Hi.
Qed.

(** A statement that does not end the function. *)
Lemma sim_run multi w m a t p w' n p' m' :
  rel multi (Sys w m) a -> exclusive (Sys w' (<[t := p']> m')) -> (multi = false -> solo (<[t := p']> m')) ->
  m !! t = Some p -> exec t p w = Some (w', n, Goto p') -> notifies n m m' ->
  exists es a', sim_step multi a es a' /\ Wait.results es = [] /\ rel multi (Sys w' (<[t := p']> m')) a'.
Proof.
  intros R Hx Hs Ht E Hn.
  assert (simulated multi (owes p' w') a t w' p' m') as (es & a' & Hsim & Hres & Hth & Hp & Hf).
  { destruct p as [p|p|p]; [| |by eapply sim_exit];
      (assert (owes p' w' = false) as -> by (destruct p; outcome E; repeat case_match; done));
      [by eapply sim_sleep|by eapply sim_wake]. }
  exists es, a'. split; [done|]. split; [done|].
  destruct (exec_lock t p w w' n (Goto p') E) as [Hlock _]; [intros Hi; apply (rel_excl _ _ _ R); simpl; eauto|].
  assert (El : lock w' = if inside p' then Some t else None).
  { rewrite Hlock. simpl. destruct (inside p') eqn:Ep', (inside p) eqn:Ep; try done.
    by destruct (exec_goto _ _ _ _ _ _ E); congruence. }
  assert (Hpend : pending (Sys w' (<[t := p']> m')) = owes p' w').
  { unfold pending. simpl. rewrite El. destruct (inside p') eqn:Ei; [by rewrite lookup_insert_eq|].
    by destruct p' as [q|q|q], q. }
  split; simpl in *; [done|rewrite Hpend; by apply rel_insert| | |done]; rewrite El; destruct (inside p'); try done.
  intros u q [= <-]. rewrite lookup_insert_eq. by intros [= <-].
Qed.

Lemma sim_sleep_returns multi w m a t :
  rel multi (Sys w m) a -> exclusive (Sys w (delete t m)) -> (multi = false -> solo (delete t m)) ->
  m !! t = Some (InSleep SReturn) ->
  exists es a', sim_step multi a es a' /\ Wait.results es = [(t, - dead w)] /\ rel multi (Sys w (delete t m)) a'.
Proof.
  intros R Hx Hs Ht. pose proof (rel_threads _ _ _ R t) as Hr. simpl in Hr. rewrite Ht in Hr. simpl in Hr.
  pose proof (rel_dead _ _ _ _ R) as Hd. destruct a as [fa am]. simpl in *.
  exists [Wait.EReturn t (Wait.wait_result fa)], (Wait.Sys fa (delete t am)).
  split; [right; eexists; split; [done|by apply Wait.step_return]|]. split; [by simpl; rewrite Hd|].
  apply (rel_outside multi w m (Wait.Sys fa am) (delete t am) t); [done..|by apply (not_holder _ _ _ _ _ R); naive_solver| |].
  - intros u Hu. by rewrite !lookup_delete_ne.
  - by rewrite !lookup_delete_eq.
Qed.

(** The end of [wait_exit] releases the mutex and returns. *)
Lemma sim_exit_returns multi w m a t :
  rel multi (Sys w m) a -> exclusive (Sys (mutex_unlock w) (delete t m)) -> (multi = false -> solo (delete t m)) ->
  m !! t = Some (InExit XUnlock) -> rel multi (Sys (mutex_unlock w) (delete t m)) a.
Proof.
  intros R Hx Hs Ht. pose proof (rel_at _ _ _ _ _ R Ht eq_refl) as Hf. simpl in Hf.
  pose proof (pending_inside _ _ _ (rel_excl _ _ _ R) Ht eq_refl) as Hq. simpl in Hq.
  split; [done| |done|done|done]. intros u. change (pending _) with false. simpl.
  pose proof (rel_quiet _ _ _ _ R Hq) as Hr. destruct (decide (u = t)) as [->|Hu].
  - rewrite lookup_delete_eq. specialize (Hr t). by rewrite Ht in Hr.
  - rewrite lookup_delete_ne by done. apply Hr.
Qed.

Lemma sim_spurious multi w m a t :
  rel multi (Sys w m) a -> exclusive (Sys w (<[t := InSleep SRelock]> m)) ->
  (multi = false -> solo (<[t := InSleep SRelock]> m)) -> m !! t = Some (InSleep SBlocked) ->
  exists es a', sim_step multi a es a' /\ Wait.results es = [] /\ rel multi (Sys w (<[t := InSleep SRelock]> m)) a'.
Proof.
  intros R Hx Hs Ht. pose proof (rel_threads _ _ _ R t) as Hr. simpl in Hr. rewrite Ht in Hr. simpl in Hr.
  assert (Hl : lock w ≠ Some t) by (apply (not_holder _ _ _ _ _ R); naive_solver). destruct a as [fa am]. simpl in *.
  destruct (pending (Sys w m)).
  - exists [], (Wait.Sys fa am). split; [by left|]. split; [done|].
    apply (rel_outside multi w m (Wait.Sys fa am) am t); [done..| |by rewrite lookup_insert_eq].
    intros u Hu. by rewrite lookup_insert_ne.
  - exists [Wait.ESpurious t], (Wait.Sys fa (<[t := Wait.Woken]> am)).
    split; [right; eexists; split; [done|by apply Wait.step_spurious]|]. split; [done|].
    apply (rel_outside multi w m (Wait.Sys fa am) _ t); [done..| |by rewrite !lookup_insert_eq].
    intros u Hu. by rewrite !lookup_insert_ne.
Qed.

(** Every statement is simulated by at most one section. *)
Lemma simulation multi c a e c' :
  rel multi c a -> step multi c e c' ->
  exists es a', sim_step multi a es a' /\ Wait.results es = sleep_results [e] /\ rel multi c' a'.
Proof.
  intros R Hstep. pose proof (step_exclusive _ _ _ _ (rel_excl _ _ _ R) Hstep) as Hx.
  pose proof (step_solo _ _ _ _ (rel_solo _ _ _ R) Hstep) as Hs.
  destruct Hstep as [w m t p Ht He Hc|w m t p w' n p' m' Ht E Hn|w m t p w' n r Ht E|w m t Ht].
  - exists [], a. split; [by left|]. split; [done|]. destruct a as [fa am].
    apply (rel_outside multi w m (Wait.Sys fa am) am t); [done..|by apply (not_holder _ _ _ _ _ R); congruence| |].
    + intros u Hu. by rewrite lookup_insert_ne.
    + pose proof (rel_threads _ _ _ R t) as Hr. simpl in Hr. rewrite Ht in Hr. simpl in Hr.
      rewrite lookup_insert_eq, Hr. apply bool_decide_eq_true in He. set_unfold in He. naive_solver.
  - by eapply sim_run.
  - destruct (exec_return _ _ _ _ _ _ E) as (-> & [(-> & -> & ->)|[(-> & ->)|(-> & ->)]]).
    + by apply sim_sleep_returns.
    + exists [], a. split; [by left|]. split; [done|]. destruct a as [fa am].
      apply (rel_outside multi w m (Wait.Sys fa am) am t); [done..|by apply (not_holder _ _ _ _ _ R); naive_solver| |].
      * intros u Hu. by rewrite lookup_delete_ne.
      * pose proof (rel_threads _ _ _ R t) as Hr. simpl in Hr. rewrite Ht in Hr. by rewrite lookup_delete_eq.
    + exists [], a. split; [by left|]. split; [done|]. by apply sim_exit_returns.
  - by apply sim_spurious.
Qed.

Lemma rel_init multi : rel multi init_sys Wait.init_sys.
Proof.
  split; simpl.
  - intros t. simpl. split; [done|]. intros (p & Hp & _). by rewrite lookup_empty in Hp.
  - intros u. by rewrite !lookup_empty.
  - done.
  - done.
  - intros _ t u p q Ht. by rewrite lookup_empty in Ht.
Qed.

Lemma steps_simulated multi es s :
  steps multi init_sys es s ->
  exists es' a, Wait.steps multi Wait.init_sys es' a /\ Wait.results es' = sleep_results es /\ rel multi s a.
Proof.
  intros H. remember init_sys as s0 eqn:E0. induction H as [|s es s' e s'' _ IH Hstep]; subst.
  - exists [], Wait.init_sys. split; [constructor|]. split; [done|apply rel_init].
  - destruct (IH eq_refl) as (es' & a & Hs & Hres & R). destruct (simulation _ _ _ _ _ R Hstep) as (es1 & a' & Hsim & Hr & R').
    exists (es' ++ es1), a'. rewrite Wait.results_app, sleep_results_app, Hres, Hr. split; [|done].
    destruct Hsim as [[-> ->]|(e' & -> & Hst)]; [by rewrite app_nil_r|by eapply Wait.steps_snoc].
Qed.

(** ** Termination *)

(** An upper bound of the statements a thread still has to execute, a wait for a
    notification counted as one. *)
Definition cost (p : pc) : nat :=
  match p with
  | InSleep SLock => 11 | InSleep STestDead => 10 | InSleep SSetSleep => 9 | InSleep STestNotified => 8
  | InSleep SCondWait => 7 | InSleep SBlocked => 6 | InSleep SRelock => 5 | InSleep SClearNotified => 4
  | InSleep SClearSleep => 3 | InSleep SUnlock => 2 | InSleep SReturn => 1
  | InWake WLock => 8 | InWake WTestDead => 7 | InWake WTestNotified => 6 | InWake WSetNotified => 5
  | InWake WTestSleep => 4 | InWake WSignal => 3 | InWake WUnlock => 2 | InWake WReturn => 1
  | InExit XLock => 6 | InExit XTestDead => 5 | InExit XSetDead => 4 | InExit XTestSleep => 3
  | InExit XBroadcast => 2 | InExit XUnlock => 1
  end.
Definition work (m : gmap nat pc) : nat := map_fold (fun _ p n => (cost p + n)%nat) 0%nat m.

Lemma work_fresh m t p : m !! t = None -> work (<[t := p]> m) = (cost p + work m)%nat.
Proof. intros Ht. unfold work. rewrite map_fold_insert_L; [done|lia|done]. Qed.

Lemma work_delete m t p : m !! t = Some p -> work m = (cost p + work (delete t m))%nat.
Proof.
  intros Ht. rewrite <- (insert_delete_id m t p Ht) at 1. apply work_fresh, lookup_delete_eq.
Qed.

Lemma work_insert m t p : work (<[t := p]> m) = (cost p + work (delete t m))%nat.
Proof. rewrite <- insert_delete_eq. apply work_fresh, lookup_delete_eq. Qed.

Lemma work_unblock m : (work (unblock <$> m) <= work m)%nat.
Proof.
  induction m as [|t p m Ht IH] using map_ind; [done|]. rewrite fmap_insert, !work_fresh; [|done|by rewrite lookup_fmap, Ht].
  assert (cost (unblock p) <= cost p)%nat by (unfold unblock; case_decide; subst; simpl; lia). lia.
Qed.

(** Notices leave the notifier where it is and shorten the work of the others. *)
Lemma notifies_work n m m' t p :
  notifies n m m' -> m !! t = Some p -> p ≠ InSleep SBlocked -> (work (delete t m') <= work (delete t m))%nat.
Proof.
  intros Hn Ht Hp. inversion Hn as [m0|m0 u Hu|m0 _|m0]; subst; [done| |done|].
  - assert (u ≠ t) by congruence. rewrite delete_insert_ne, work_insert by done.
    rewrite (work_delete (delete t m) u (InSleep SBlocked)) by (by rewrite lookup_delete_ne). simpl. lia.
  - rewrite <- fmap_delete. apply work_unblock.
Qed.

Definition calls (e : event) : bool := match e with ECall _ _ => true | _ => false end.

Lemma exec_cost t p w w' n p' : exec t p w = Some (w', n, Goto p') -> (cost p' < cost p)%nat /\ p ≠ InSleep SBlocked.
Proof.
  intros E. destruct p as [p|p|p], p; outcome E; (split; [|done]); repeat case_match; simpl; lia.
Qed.

(** Every step of a function that has been called makes it shorter. *)
Lemma step_work multi s e s' : step multi s e s' -> calls e = false -> (work (threads s') < work (threads s))%nat.
Proof.
  intros Hstep He. destruct Hstep as [|w m t p w' n p' m' Ht E Hn|w m t p w' n r Ht E|w m t Ht]; simpl in *; [done|..].
  - destruct (exec_cost _ _ _ _ _ _ E) as [Hc Hp]. rewrite work_insert, (work_delete m t p Ht).
    pose proof (notifies_work n m m' t p Hn Ht Hp). lia.
  - rewrite (work_delete m t p Ht). destruct (exec_return _ _ _ _ _ _ E) as (_ & [(-> & _)|[(-> & _)|(-> & _)]]); simpl; lia.
  - rewrite work_insert, (work_delete m t _ Ht). simpl. lia.
Qed.

(** Notices can always be delivered. *)
Lemma notifies_total n m : exists m', notifies n m m'.
Proof.
  destruct n; [eexists; constructor| |eexists; constructor].
  destruct (decide (map_Forall (fun (_ : nat) p => p ≠ InSleep SBlocked) m)) as [Hno|(u & p & Hu & Hp)%map_not_Forall].
  - exists m. constructor. intros u Hu. by apply (Hno u (InSleep SBlocked)).
  - apply dec_stable in Hp as ->. eexists. by apply (notify_one _ u).
  - apply _.
Qed.

Lemma exec_step multi w m t p x :
  m !! t = Some p -> exec t p w = Some x -> exists e s', step multi (Sys w m) e s' /\ calls e = false.
Proof.
  intros Ht E. destruct x as [[w' n] [p'|r]].
  - destruct (notifies_total n m) as [m' Hn]. exists (ERun t), (Sys w' (<[t := p']> m')). split; [by eapply step_run|done].
  - exists (EReturn t p r), (Sys w' (delete t m)). split; [by eapply step_return|done].
Qed.

(** The holder of the mutex can always go on, and if the mutex is free, every
    thread that is not blocked can. *)
Lemma progress multi s :
  exclusive s -> (exists e s', step multi s e s' /\ calls e = false) \/
  forall t p, threads s !! t = Some p -> p = InSleep SBlocked.
Proof.
  intros Hx. destruct s as [w m]. simpl. destruct (lock w) as [t|] eqn:El.
  - left. destruct (proj1 (Hx t) El) as (p & Hp & Hi). simpl in Hp.
    assert (exists x, exec t p w = Some x) as [x E] by (destruct p as [p|p|p], p; try discriminate Hi; by eexists).
    by eapply exec_step.
  - destruct (decide (map_Forall (fun (_ : nat) p => p = InSleep SBlocked) m)) as [Hno|(u & p & Hu & Hp)%map_not_Forall];
      [by right|left|apply _].
    assert (exists x, exec u p w = Some x) as [x E]
      by (destruct p as [p|p|p], p; try (by destruct Hp); simpl; unfold mutex_lock; rewrite ?El; by eexists).
    by eapply exec_step.
Qed.

Lemma steps_cons multi s e s' es s'' : step multi s e s' -> steps multi s' es s'' -> steps multi s (e :: es) s''.
Proof.
  intros Hst H. induction H as [s'|s' es s1 e1 s2 _ IH Hs].
  - apply (steps_snoc multi s [] s); [constructor|done].
  - rewrite app_comm_cons. eapply steps_snoc; [by apply IH|done].
Qed.

Lemma run_to_rest multi s :
  exclusive s -> exists es s', steps multi s es s' /\ Forall (fun e => calls e = false) es /\
    forall t p, threads s' !! t = Some p -> p = InSleep SBlocked.
Proof.
  remember (work (threads s)) as k eqn:Ek. revert s Ek. induction (lt_wf k) as [k _ IH]. intros s -> Hx.
  destruct (progress multi s Hx) as [(e & s1 & Hst & He)|Hb].
  - destruct (IH _ (step_work _ _ _ _ Hst He) s1 eq_refl) as (es & s' & Hs & Hes & Hb); [by eapply step_exclusive|].
    exists (e :: es), s'. split; [by eapply steps_cons|]. split; [by constructor|done].
  - exists [], s. split; [constructor|]. by split.
Qed.

(** ** Schedules *)

(** A schedule as data: a thread calls a function, or executes its next statement
    (one that does not signal). *)
Inductive task := TCall (t : nat) (p : pc) | TRun (t : nat).

Definition do_task (s : sys) (k : task) : option (event * sys) :=
  match k with
  | TCall t p =>
      if bool_decide (threads s !! t = None) && entry p && (bool_decide (p ≠ InSleep SLock) || bool_decide (threads s = ∅))
      then Some (ECall t p, Sys (wait s) (<[t := p]> (threads s))) else None
  | TRun t =>
      p ← threads s !! t;
      match exec t p (wait s) with
      | Some (w, Wait.NoSignal, Goto p') => Some (ERun t, Sys w (<[t := p']> (threads s)))
      | Some (w, Wait.NoSignal, Return r) => Some (EReturn t p r, Sys w (delete t (threads s)))
      | _ => None
      end
  end.

Fixpoint run (s : sys) (ks : list task) : option (list event * sys) :=
  match ks with
  | [] => Some ([], s)
  | k :: ks => '(e, s) ← do_task s k; '(es, s) ← run s ks; Some (e :: es, s)
  end.

Lemma do_task_step multi s k e s' : do_task s k = Some (e, s') -> step multi s e s'.
Proof.
  destruct s as [w m], k as [t p|t]; simpl.
  - destruct (bool_decide_reflect (m !! t = None)) as [Ht|]; [|done]. destruct (entry p) eqn:He; [|done]. simpl.
    case_match eqn:Hb; [|done]. intros [= <- <-]. apply step_call; [done..|]. intros ->. right.
    apply orb_prop in Hb as [Hb%bool_decide_eq_true|Hb%bool_decide_eq_true]; [done|]. subst m.
    intros u q. by rewrite lookup_empty.
  - destruct (m !! t) as [p|] eqn:Ht; [|done]. simpl. destruct (exec t p w) as [[[w' []] [p'|r]]|] eqn:E; try done;
      intros [= <- <-]; [eapply step_run; [done..|constructor]|by eapply step_return].
Qed.

Lemma run_steps multi s ks es s' : run s ks = Some (es, s') -> steps multi s es s'.
Proof.
  revert s es s'. induction ks as [|k ks IH]; intros s es s'; simpl; [intros [= <- <-]; constructor|].
  destruct (do_task s k) as [[e s1]|] eqn:Ek; [|done]. simpl. destruct (run s1 ks) as [[es1 s2]|] eqn:Er; [|done].
  intros [= <- <-]. eapply steps_cons; [by eapply do_task_step|by apply IH].
Qed.

(** ** Theorems *)

(** At most one thread is between [pthread_mutex_lock] and
    [pthread_mutex_unlock] of a structure, and it is the one that holds the
    mutex, in every state reachable by any interleaving of the statements of
    [sleep_on], [wake_up] and [wait_exit] in any number of threads. *)
Theorem mutual_exclusion multi es s t u p q :
  steps multi init_sys es s -> threads s !! t = Some p -> threads s !! u = Some q ->
  inside p = true -> inside q = true -> t = u /\ lock (wait s) = Some t.
Proof.
  intros H Ht Hu Hp Hq. pose proof (steps_exclusive _ _ _ H) as Hx.
  assert (Et : lock (wait s) = Some t) by (apply Hx; eauto).
  assert (Eu : lock (wait s) = Some u) by (apply Hx; eauto). split; [congruence|done].
Qed.

(** C10: the functions executed statement by statement, with switches
    anywhere, do what their critical sections do when each is executed at once:
    for every run there is a run of the sections in which [sleep_on] returns the
    same values to the same threads in the same order, the members agree
    whenever the mutex is free, and the same threads are blocked then. *)
Theorem statements_refine_sections multi es s :
  steps multi init_sys es s ->
  exists es' a, Wait.steps multi Wait.init_sys es' a /\ Wait.results es' = sleep_results es /\
    (lock (wait s) = None ->
       flags_of (wait s) = Wait.flags a /\
       forall t, threads s !! t = Some (InSleep SBlocked) <-> Wait.threads a !! t = Some Wait.Blocked).
Proof.
  intros H. destruct (steps_simulated _ _ _ H) as (es' & a & Hs & Hres & R). exists es', a.
  split; [done|]. split; [done|]. intros Hl. split; [by apply (rel_free _ _ _ R)|]. intros t.
  pose proof (rel_threads _ _ _ R t) as Hr. unfold pending in Hr. rewrite Hl in Hr.
  destruct (threads s !! t) as [p|]; simpl in Hr; [|by rewrite Hr].
  destruct p as [p|p|p], p; simpl in Hr; naive_solver.
Qed.

(** No wake-up is lost between two statements: with one sleeper at a
    time, in every reachable state in which no thread holds the mutex, a blocked
    thread has no notification pending, and its [sleep] flag is set for the next
    notifier to see. *)
Theorem no_wakeup_lost_between_statements es s t :
  steps false init_sys es s -> lock (wait s) = None -> threads s !! t = Some (InSleep SBlocked) ->
  notified (wait s) = 0 /\ dead (wait s) = 0 /\ sleep (wait s) = 1.
Proof.
  intros H Hl Ht. destruct (steps_simulated _ _ _ H) as (es' & a & Hs & _ & R).
  destruct (Wait.steps_inv es' a Hs) as (_ & _ & _ & _ & Hb).
  pose proof (rel_threads _ _ _ R t) as Hr. unfold pending in Hr. rewrite Hl, Ht in Hr. simpl in Hr.
  pose proof (rel_free _ _ _ R Hl) as Hf. specialize (Hb t Hr). rewrite <- Hf in Hb. exact Hb.
Qed.

(** C32: the functions neither deadlock nor loop: from any reachable state,
    any run without new calls has at most [work] statements (11 for each thread
    in [sleep_on], 8 in [wake_up], 6 in [wait_exit]), and some such run ends with
    every remaining thread blocked in [pthread_cond_wait]. *)
Theorem calls_end multi es s :
  steps multi init_sys es s ->
  (forall es' s', steps multi s es' s' -> Forall (fun e => calls e = false) es' -> (length es' <= work (threads s))%nat) /\
  (exists es' s', steps multi s es' s' /\ Forall (fun e => calls e = false) es' /\
    forall t p, threads s' !! t = Some p -> p = InSleep SBlocked).
Proof.
  intros H. split; [|apply run_to_rest; by eapply steps_exclusive].
  intros es' s' Hs Hes. enough (length es' + work (threads s') <= work (threads s))%nat by lia. clear H.
  induction Hs as [s|s es1 s1 e s2 _ IH Hst]; [simpl; lia|].
  apply Forall_app in Hes as [Hes He]. apply Forall_cons in He as [He _].
  pose proof (step_work _ _ _ _ Hst He). specialize (IH Hes). rewrite length_app. simpl. lia.
Qed.

(** Thread 0 asleep, statement by statement. *)
Definition fall_asleep : list task := TCall 0 (InSleep SLock) :: replicate 5 (TRun 0).
Definition asleep : list event * sys := default ([], init_sys) (run init_sys fall_asleep).
Lemma reach_asleep : steps false init_sys asleep.1 asleep.2.
Proof. apply (run_steps false init_sys fall_asleep). vm_compute. reflexivity. Qed.

(** Thread 0 inside its section. *)
Definition enter : list task := [TCall 0 (InSleep SLock); TRun 0].
Definition entered : list event * sys := default ([], init_sys) (run init_sys enter).

Lemma mutual_exclusion_witness : lock (wait entered.2) = Some 0%nat.
Proof.
  apply (mutual_exclusion false entered.1 entered.2 0 0 (InSleep STestDead) (InSleep STestDead));
    [apply (run_steps false init_sys enter); vm_compute; reflexivity|vm_compute; reflexivity..].
Defined.

Lemma statements_refine_sections_witness :
  exists es' a, Wait.steps false Wait.init_sys es' a /\ Wait.threads a !! 0%nat = Some Wait.Blocked.
Proof.
  destruct (statements_refine_sections false asleep.1 asleep.2 reach_asleep) as (es' & a & Hs & _ & Hf).
  exists es', a. split; [exact Hs|]. apply Hf; vm_compute; reflexivity.
Defined.

Lemma no_wakeup_lost_between_statements_witness : sleep (wait asleep.2) = 1.
Proof.
  apply (no_wakeup_lost_between_statements asleep.1 asleep.2 0 reach_asleep); vm_compute; reflexivity.
Defined.

Lemma calls_end_witness : exists es' s', steps false asleep.2 es' s' /\ (length es' <= 6)%nat.
Proof.
  destruct (calls_end false asleep.1 asleep.2 reach_asleep) as [Hlen (es' & s' & Hs & Hes & _)].
  exists es', s'. split; [exact Hs|]. exact (Hlen es' s' Hs Hes).
Defined.

(** The value returned reads [dead] after the mutex was released: [wake_up] can
    record its notification and still return -1, as if the structure had been
    dead, when a [wait_exit] runs in between. *)
Theorem wake_up_result_race :
  exists es s, steps false init_sys es s /\ EReturn 1 (InWake WReturn) (Some (-1)) ∈ es /\ notified (wait s) = 1.
Proof.
  set (ks := TCall 1 (InWake WLock) :: replicate 6 (TRun 1) ++ TCall 2 (InExit XLock) :: replicate 5 (TRun 2) ++ [TRun 1]).
  destruct (run init_sys ks) as [[es s]|] eqn:E; [|by vm_compute in E]. exists es, s.
  split; [by apply (run_steps false init_sys ks)|]. vm_compute in E. injection E as <- <-. split; [set_solver|done].
Qed.

End Async.
