(* ===== verification/Layout.v ===== *)
(** * Structure layouts (include/tcp_sock.h, tcp_timer.h, list.h, base.h)

    [list_entry], [timewait_to_tcp_sock] and [retranstimer_to_tcp_sock] turn a
    pointer to a member into a pointer to the structure by subtracting an offset.
    Three places of the source subtract the wrong one, so what they read depends
    on where the members lie.  This file computes the layouts by the System V
    x86-64 rules (the code is built as 64-bit against libipstack.a): members in
    order, each at the next multiple of its alignment, the size rounded up to
    the largest alignment. *)

From S2P Require Import Prelude.
From stdpp Require Import strings.
#[local] Open Scope Z_scope.

(** A member: its name, size and alignment. *)
Record member := Member { mname : string; msize : Z; malign : Z }.

Definition align_up (x a : Z) : Z := (x + a - 1) / a * a.

Fixpoint place (ms : list member) (at_ : Z) : list (string * (Z * Z)) :=
  match ms with
  | [] => []
  | m :: ms =>
      let o := align_up at_ (malign m) in
      (mname m, (o, msize m)) :: place ms (o + msize m)
  end.

Fixpoint end_of (ms : list member) (at_ : Z) : Z :=
  match ms with
  | [] => at_
  | m :: ms => end_of ms (align_up at_ (malign m) + msize m)
  end.

Definition struct_align (ms : list member) : Z := foldr (fun m a => Z.max (malign m) a) 1 ms.
Definition sizeof (ms : list member) : Z := align_up (end_of ms 0) (struct_align ms).

(** The offset of a member; [-1] for a name the structure does not have. *)
Definition offsetof (ms : list member) (name : string) : Z :=
  match filter (fun e => e.1 = name) (place ms 0) with
  | (_, (o, _)) :: _ => o
  | [] => -1
  end.

(** The member, if any, that holds the byte at offset [o], with the position of
    the byte inside it. *)
Definition member_at (ms : list member) (o : Z) : option (string * Z) :=
  match filter (fun e => e.2.1 <= o < e.2.1 + e.2.2) (place ms 0) with
  | (n, (b, _)) :: _ => Some (n, o - b)
  | [] => None
  end.

Definition m_int (n : string) : member := Member n 4 4.
Definition m_u32 (n : string) : member := Member n 4 4.
Definition m_u16 (n : string) : member := Member n 2 2.
Definition m_ptr (n : string) : member := Member n 8 8.
Definition m_chars (n : string) (k : Z) : member := Member n k 1.

(** [struct list_head { struct list_head *next, *prev; }] *)
Definition list_head_layout : list member := [m_ptr "next"; m_ptr "prev"].
Definition m_list (n : string) : member := Member n (sizeof list_head_layout) 8.

(** [struct sock_addr], packed: no padding and alignment 1. *)
Definition sock_addr_layout : list member := [Member "ip" 4 1; Member "port" 2 1].
Definition m_addr (n : string) : member := Member n (sizeof sock_addr_layout) 1.

Definition tcp_timer_layout : list member :=
  [m_int "type"; m_int "timeout"; m_list "list"; m_int "enable"].
Definition m_timer (n : string) : member := Member n (sizeof tcp_timer_layout) 8.

Definition tcp_sock_layout : list member :=
  [m_addr "local"; m_addr "peer"; m_ptr "parent"; m_int "ref_cnt";
   m_list "hash_list"; m_list "bind_hash_list"; m_list "listen_queue"; m_list "accept_queue";
   m_int "accept_backlog"; m_int "backlog"; m_list "list";
   m_timer "timewait"; m_timer "retrans_timer";
   m_ptr "wait_connect"; m_ptr "wait_accept"; m_ptr "wait_recv"; m_ptr "wait_send";
   m_ptr "rcv_buf"; m_list "send_buf"; m_list "rcv_ofo_buf";
   m_int "state"; m_u32 "iss"; m_u32 "snd_una"; m_u32 "snd_nxt"; m_u32 "rcv_nxt";
   m_u32 "recovery_point"; m_u32 "snd_wnd"; m_u16 "adv_wnd"; m_u16 "rcv_wnd";
   m_u32 "cwnd"; m_u32 "ssthresh"].

Definition iface_info_layout : list member :=
  [m_list "list"; m_int "fd"; m_int "index"; m_chars "mac" 6; m_u32 "ip"; m_u32 "mask";
   m_chars "name" 16; m_chars "ip_str" 16].

Definition ustack_layout : list member := [m_list "iface_list"; m_int "nifs"; m_ptr "fds"].

(** Offsets of the members of [struct tcp_sock] that the code takes the address
    of, and of [sk_sport] ([local.port]). *)
Definition off_sport : Z := offsetof tcp_sock_layout "local" + offsetof sock_addr_layout "port".
Definition off_hash_list : Z := offsetof tcp_sock_layout "hash_list".
Definition off_bind_hash_list : Z := offsetof tcp_sock_layout "bind_hash_list".
Definition off_listen_queue : Z := offsetof tcp_sock_layout "listen_queue".
Definition off_accept_queue : Z := offsetof tcp_sock_layout "accept_queue".
Definition off_list : Z := offsetof tcp_sock_layout "list".
Definition off_timewait : Z := offsetof tcp_sock_layout "timewait".
Definition off_retrans_timer : Z := offsetof tcp_sock_layout "retrans_timer".
Definition off_parent : Z := offsetof tcp_sock_layout "parent".
Definition off_send_buf : Z := offsetof tcp_sock_layout "send_buf".
Definition off_rcv_ofo_buf : Z := offsetof tcp_sock_layout "rcv_ofo_buf".
Definition off_timer_list : Z := offsetof tcp_timer_layout "list".

(** [(char * )ptr - offsetof(type, member)], for a pointer at offset [o] of an
    object. *)
Definition list_entry_offset (o : Z) (ms : list member) (name : string) : Z :=
  o - offsetof ms name.

(** ** Theorems *)

(** [tcp_port_in_use] walks the bind table, whose nodes are
    [bind_hash_list] members, with the member name [hash_list]: the [sk_sport] it
    then reads is not a port but the fifth and sixth byte of the socket's
    [parent] pointer. *)
Theorem port_in_use_reads_parent :
  let tsk := list_entry_offset off_bind_hash_list tcp_sock_layout "hash_list" in
  tsk = 16 /\
  member_at tcp_sock_layout (tsk + off_sport) = Some ("parent"%string, 4) /\
  member_at tcp_sock_layout (tsk + off_sport + 1) = Some ("parent"%string, 5).
Proof. repeat split; reflexivity. Qed.

(** The stray semicolon after the [list_for_each_entry] of
    [tcp_sock_connect] leaves [iface] at the list head, that is at [instance];
    the [iface->ip] read next lies past the end of that allocation. *)
Theorem connect_reads_past_instance :
  let iface := list_entry_offset (offsetof ustack_layout "iface_list") iface_info_layout "list" in
  iface = 0 /\ sizeof ustack_layout <= iface + offsetof iface_info_layout "ip" /\
  member_at ustack_layout (iface + offsetof iface_info_layout "ip") = None.
Proof. split; [reflexivity|]. split; [vm_compute; discriminate|reflexivity]. Qed.

(** [timewait_to_tcp_sock] applied to a [retrans_timer] yields a
    pointer 32 bytes inside the socket, through which [state] is the congestion
    window and [ref_cnt] the low half of [bind_hash_list.prev]. *)
Theorem retrans_timer_confusion :
  let tsk := list_entry_offset off_retrans_timer tcp_sock_layout "timewait" in
  tsk = 32 /\
  member_at tcp_sock_layout (tsk + offsetof tcp_sock_layout "state") = Some ("cwnd"%string, 0) /\
  member_at tcp_sock_layout (tsk + offsetof tcp_sock_layout "ref_cnt")
    = Some ("bind_hash_list"%string, offsetof list_head_layout "prev").
Proof. repeat split; reflexivity. Qed.
