(* ===== verification/Segment.v ===== *)
(** * Packets on the wire (include/tcp.h, include/ip.h, tcp.c, tcp_out.c)

    The headers as the code sees them in memory (multi-byte members hold
    network-order values), their byte images, the three checksums, the control
    block a received packet is summarised in, and the header a sent packet gets.
    [ip_init_hdr] belongs to the IP layer that is linked in as a library: it is a
    parameter here, with the members of the header it fills in as hypotheses. *)

From S2P Require Import Prelude Checksum.
From stdpp Require Import strings.
#[local] Open Scope Z_scope.

(** ** Constants *)

Definition TCP_FIN : Z := 0x01.
Definition TCP_SYN : Z := 0x02.
Definition TCP_RST : Z := 0x04.
Definition TCP_PSH : Z := 0x08.
Definition TCP_ACK : Z := 0x10.
Definition TCP_URG : Z := 0x20.
Definition TCP_HDR_OFFSET : Z := 5.
Definition TCP_BASE_HDR_SIZE : Z := 20.
Definition IP_BASE_HDR_SIZE : Z := 20.
Definition ETHER_HDR_SIZE : Z := 14.
Definition TCP_DEFAULT_WINDOW : Z := 65535.
Definition IPPROTO_ICMP : Z := 1.
Definition IPPROTO_TCP : Z := 6.

(** [enum tcp_state] *)
Inductive tcp_state :=
  | TCP_CLOSED | TCP_LISTEN | TCP_SYN_RECV | TCP_SYN_SENT | TCP_ESTABLISHED | TCP_CLOSE_WAIT
  | TCP_LAST_ACK | TCP_FIN_WAIT_1 | TCP_FIN_WAIT_2 | TCP_CLOSING | TCP_TIME_WAIT.
#[export] Instance tcp_state_eq_dec : EqDecision tcp_state.
Proof. solve_decision. Defined.

(** ** Sequence numbers *)

(** [((int32_t)(a)-(int32_t)(b)) <= 0]; the subtraction wraps, as gcc compiles it
    without optimisation (where it overflows, ISO C leaves it undefined). *)
Definition less_or_equal_32b (a b : Z) : bool := s32 (s32 a - s32 b) <=? 0.
Definition less_than_32b (a b : Z) : bool := s32 (s32 a - s32 b) <? 0.
Definition greater_or_equal_32b (a b : Z) : bool := 0 <=? s32 (s32 a - s32 b).
Definition greater_than_32b (a b : Z) : bool := 0 <? s32 (s32 a - s32 b).

(** ** Headers *)

Record iphdr := IpHdr {
  ihl : Z; version : Z; tos : Z; tot_len : Z; ip_id : Z; frag_off : Z; ttl : Z; protocol : Z;
  ip_check : Z; ip_saddr : Z; ip_daddr : Z
}.

Record tcphdr := TcpHdr {
  th_sport : Z; th_dport : Z; th_seq : Z; th_ack : Z; th_x2 : Z; th_off : Z; th_flags : Z;
  th_rwnd : Z; th_check : Z; th_urp : Z
}.

Definition IP_HDR_SIZE (hdr : iphdr) : Z := ihl hdr * 4.
Definition TCP_HDR_SIZE (tcp : tcphdr) : Z := th_off tcp * 4.

(** Memory images: the low four bits of a shared byte come first. *)
Definition iphdr_bytes (ip : iphdr) : list Z :=
  [ihl ip + 16 * version ip; tos ip] ++ le_store 2 (tot_len ip) ++ le_store 2 (ip_id ip) ++
  le_store 2 (frag_off ip) ++ [ttl ip; protocol ip] ++ le_store 2 (ip_check ip) ++
  le_store 4 (ip_saddr ip) ++ le_store 4 (ip_daddr ip).

Definition tcphdr_bytes (t : tcphdr) : list Z :=
  le_store 2 (th_sport t) ++ le_store 2 (th_dport t) ++ le_store 4 (th_seq t) ++
  le_store 4 (th_ack t) ++ [th_x2 t + 16 * th_off t; th_flags t] ++ le_store 2 (th_rwnd t) ++
  le_store 2 (th_check t) ++ le_store 2 (th_urp t).

(** An [n]-byte member at offset [o] of a memory image. *)
Definition load (n : nat) (bs : list Z) (o : nat) : Z := le_load (take n (drop o bs)).

(** Reading the headers back out of a buffer; [None] when it is too short. *)
Definition iphdr_of_bytes (bs : list Z) : option iphdr :=
  if (length bs <? 20)%nat then None
  else Some (IpHdr (load 1 bs 0 mod 16) (load 1 bs 0 / 16) (load 1 bs 1) (load 2 bs 2) (load 2 bs 4)
                   (load 2 bs 6) (load 1 bs 8) (load 1 bs 9) (load 2 bs 10) (load 4 bs 12)
                   (load 4 bs 16)).

Definition tcphdr_of_bytes (bs : list Z) : option tcphdr :=
  if (length bs <? 20)%nat then None
  else Some (TcpHdr (load 2 bs 0) (load 2 bs 2) (load 4 bs 4) (load 4 bs 8) (load 1 bs 12 mod 16)
                    (load 1 bs 12 / 16) (load 1 bs 13) (load 2 bs 14) (load 2 bs 16) (load 2 bs 18)).

Definition set_ip_check (ip : iphdr) (c : Z) : iphdr :=
  IpHdr (ihl ip) (version ip) (tos ip) (tot_len ip) (ip_id ip) (frag_off ip) (ttl ip) (protocol ip)
        c (ip_saddr ip) (ip_daddr ip).
Definition set_th_check (t : tcphdr) (c : Z) : tcphdr :=
  TcpHdr (th_sport t) (th_dport t) (th_seq t) (th_ack t) (th_x2 t) (th_off t) (th_flags t)
         (th_rwnd t) c (th_urp t).

(** ** Checksums *)

(** [n] bytes from the start of a buffer; [None] when the read runs past it. *)
Definition read_bytes (mem : list Z) (n : Z) : option (list Z) :=
  if n <=? Z.of_nat (length mem) then Some (take (Z.to_nat n) mem) else None.

(** [opts]: the bytes that follow the 20-byte header. *)
Definition ip_checksum (hdr : iphdr) (opts : list Z) : option Z :=
  bs ← read_bytes (iphdr_bytes (set_ip_check hdr 0) ++ opts) (ihl hdr * 4);
  Some (checksum bs 0).

(** The segment length the checksum covers, from the IP header. *)
Definition tcp_len (ip : iphdr) : Z := u16 (ntohs (tot_len ip) - IP_HDR_SIZE ip).

Definition pseudo_sum (ip : iphdr) : Z :=
  u32 (u32 (u32 (ip_saddr ip + ip_daddr ip) + htons (protocol ip)) + htons (tcp_len ip)).

(** [rest]: the bytes in memory after the 20-byte TCP header. *)
Definition tcp_checksum (ip : iphdr) (tcp : tcphdr) (rest : list Z) : option Z :=
  bs ← read_bytes (tcphdr_bytes (set_th_check tcp 0) ++ rest) (tcp_len ip);
  Some (checksum bs (pseudo_sum ip)).

(** ** The control block of a received packet *)

(** The members [ip] and [tcp] are declared but never set; [payload] is the
    offset of the data from the start of the TCP header. *)
Record tcp_cb := TcpCb {
  saddr : Z; daddr : Z; sport : Z; dport : Z; seq : Z; seq_end : Z; ack : Z; rwnd : Z; flags : Z;
  payload : Z; pl_len : Z
}.

Definition tcp_cb_init (ip : iphdr) (tcp : tcphdr) : tcp_cb :=
  let len := ntohs (tot_len ip) - IP_HDR_SIZE ip - TCP_HDR_SIZE tcp in
  {| saddr := ntohl (ip_saddr ip);
     daddr := ntohl (ip_daddr ip);
     sport := ntohs (th_sport tcp);
     dport := ntohs (th_dport tcp);
     seq := ntohl (th_seq tcp);
     seq_end := u32 (ntohl (th_seq tcp) + len +
                     (if negb (Z.land (th_flags tcp) (Z.lor TCP_SYN TCP_FIN) =? 0) then 1 else 0));
     ack := ntohl (th_ack tcp);
     payload := th_off tcp * 4;
     pl_len := len;
     rwnd := ntohs (th_rwnd tcp);
     flags := th_flags tcp |}.

(** [memset] of the 20 bytes and the assignments that follow it. *)
Definition tcp_init_hdr (sport dport seq ack flags rwnd : Z) : tcphdr :=
  {| th_sport := htons sport; th_dport := htons dport; th_seq := htonl seq; th_ack := htonl ack;
     th_x2 := 0; th_off := TCP_HDR_OFFSET; th_flags := flags; th_rwnd := htons rwnd;
     th_check := 0; th_urp := 0 |}.

(** ** The IP layer *)

(** [ip_init_hdr] fills in the header of a packet to be sent; the seed stands
    for what it takes from elsewhere: the identification is random, and the
    memory it fills in is not initialised. *)
Class IpLayer := {
  ip_init_hdr (seed : nat) (saddr daddr len proto : Z) : iphdr
}.

(** ** Flag names *)

(** The bytes of a C string literal, without the terminator. *)
Definition chars (s : string) : list Z := (fun a => Z.of_nat (Ascii.nat_of_ascii a)) <$> String.list_ascii_of_string s.

(** [strcpy(buf + start, str)]: [None] if it would write past the array. *)
Definition strcpy (buf : list Z) (start : Z) (str : string) : option (list Z) :=
  let src := chars str ++ [0] in
  if start + Z.of_nat (length src) <=? Z.of_nat (length buf)
  then Some (list_inserts (Z.to_nat start) src buf) else None.

Definition copy_flag_str (flags flag : Z) (buf : list Z) (start : Z) (str : string) (len : Z) :
    option (list Z * Z) :=
  if negb (Z.land flags flag =? 0) then buf ← strcpy buf start str; Some (buf, len)
  else Some (buf, 0).

Definition flag_names : list (Z * string) :=
  [(TCP_FIN, "FIN"%string); (TCP_SYN, "SYN"%string); (TCP_RST, "RST"%string);
   (TCP_PSH, "PSH"%string); (TCP_ACK, "ACK"%string); (TCP_URG, "URG"%string)].

Definition tcp_copy_flags_to_str (flags : Z) : option (list Z) :=
  let len := 0 in
  let buf := replicate 32 0 in
  '(buf, n) ← copy_flag_str flags TCP_FIN buf len "FIN|" 4; let len := len + n in
  '(buf, n) ← copy_flag_str flags TCP_SYN buf len "SYN|" 4; let len := len + n in
  '(buf, n) ← copy_flag_str flags TCP_RST buf len "RST|" 4; let len := len + n in
  '(buf, n) ← copy_flag_str flags TCP_PSH buf len "PSH|" 4; let len := len + n in
  '(buf, n) ← copy_flag_str flags TCP_ACK buf len "ACK|" 4; let len := len + n in
  '(buf, n) ← copy_flag_str flags TCP_URG buf len "URG|" 4; let len := len + n in
  if negb (len =? 0) then Some (<[Z.to_nat (len - 1) := 0]> buf) else Some buf.

Definition tcp_state_str : list string :=
  ["CLOSED"; "LISTEN"; "SYN_RECV"; "SYN_SENT"; "ESTABLISHED"; "CLOSE_WAIT"; "LAST_ACK";
   "FIN_WAIT-1"; "FIN_WAIT-2"; "CLOSING"; "TIME_WAIT"]%string.

(** [rand()] is the argument; nothing calls it ([iss] stays 0). *)
Definition tcp_new_iss (rand : Z) : Z := u32 rand.

(** ** Lemmas *)

(** Simplify the byte image of a header and the members read from it. *)
Lemma le_load2 x : le_load [u8 x; u8 (x / 2 ^ 8)] = u16 x.
Proof. apply (le_load_store 2). Qed.
Lemma le_load4 x :
  le_load [u8 x; u8 (x / 2 ^ 8); u8 (x / 2 ^ 8 / 2 ^ 8); u8 (x / 2 ^ 8 / 2 ^ 8 / 2 ^ 8)] = u32 x.
Proof. apply (le_load_store 4). Qed.
Lemma le_load1 x : le_load [x] = x.
Proof. simpl. lia. Qed.

Ltac load_simpl :=
  unfold load; cbn [le_store app take drop];
  rewrite ?le_load2, ?le_load4, ?le_load1.

(** The ranges of the members. *)
Definition iphdr_ok (ip : iphdr) : Prop :=
  0 <= ihl ip < 16 /\ 0 <= version ip < 16 /\ is_u8 (tos ip) /\ is_u16 (tot_len ip) /\
  is_u16 (ip_id ip) /\ is_u16 (frag_off ip) /\ is_u8 (ttl ip) /\ is_u8 (protocol ip) /\
  is_u16 (ip_check ip) /\ is_u32 (ip_saddr ip) /\ is_u32 (ip_daddr ip).

Definition tcphdr_ok (t : tcphdr) : Prop :=
  is_u16 (th_sport t) /\ is_u16 (th_dport t) /\ is_u32 (th_seq t) /\ is_u32 (th_ack t) /\
  0 <= th_x2 t < 16 /\ 0 <= th_off t < 16 /\ is_u8 (th_flags t) /\ is_u16 (th_rwnd t) /\
  is_u16 (th_check t) /\ is_u16 (th_urp t).

(** The header [ip_init_hdr] leaves: members of their C types, no options, the
    length, protocol and addresses it was given, in network order. *)
Class IpLayerOk `{IpLayer} := {
  ip_init_ok seed s d l p : iphdr_ok (ip_init_hdr seed s d l p);
  ip_init_ihl seed s d l p : ihl (ip_init_hdr seed s d l p) = 5;
  ip_init_tot_len seed s d l p : tot_len (ip_init_hdr seed s d l p) = htons l;
  ip_init_protocol seed s d l p : protocol (ip_init_hdr seed s d l p) = u8 p;
  ip_init_saddr seed s d l p : ip_saddr (ip_init_hdr seed s d l p) = htonl s;
  ip_init_daddr seed s d l p : ip_daddr (ip_init_hdr seed s d l p) = htonl d
}.

Lemma length_iphdr_bytes ip : length (iphdr_bytes ip) = 20%nat.
Proof. done. Qed.
Lemma length_tcphdr_bytes t : length (tcphdr_bytes t) = 20%nat.
Proof. done. Qed.

Lemma nibbles a b : 0 <= a < 16 -> (a + 16 * b) mod 16 = a /\ (a + 16 * b) / 16 = b.
Proof.
  intros Ha. rewrite (Z.mul_comm 16), Z_mod_plus_full, Z_div_plus_full by lia.
  rewrite Z.mod_small, Z.div_small by lia. lia.
Qed.

Lemma iphdr_roundtrip ip rest :
  iphdr_ok ip -> iphdr_of_bytes (iphdr_bytes ip ++ rest) = Some ip.
Proof.
  intros (H1 & H2 & H3 & H4 & H5 & H6 & H7 & H8 & H9 & H10 & H11).
  unfold iphdr_of_bytes. rewrite length_app, length_iphdr_bytes.
  destruct (Nat.ltb_spec (20 + length rest) 20); [lia|]. unfold iphdr_bytes. load_simpl.
  destruct (nibbles (ihl ip) (version ip) H1) as [-> ->].
  rewrite !u16_id, !u32_id by done. by destruct ip.
Qed.

Lemma tcphdr_roundtrip t rest :
  tcphdr_ok t -> tcphdr_of_bytes (tcphdr_bytes t ++ rest) = Some t.
Proof.
  intros (H1 & H2 & H3 & H4 & H5 & H6 & H7 & H8 & H9 & H10).
  unfold tcphdr_of_bytes. rewrite length_app, length_tcphdr_bytes.
  destruct (Nat.ltb_spec (20 + length rest) 20); [lia|]. unfold tcphdr_bytes. load_simpl.
  destruct (nibbles (th_x2 t) (th_off t) H5) as [-> ->].
  rewrite !u16_id, !u32_id by done. by destruct t.
Qed.

Lemma tcphdr_bytes_ok t : tcphdr_ok t -> bytes_ok (tcphdr_bytes t).
Proof.
  intros (H1 & H2 & H3 & H4 & H5 & H6 & H7 & H8 & H9 & H10). unfold tcphdr_bytes.
  rewrite !Forall_app. repeat split; auto with cint.
  constructor; [unfold is_u8; lia|]. by constructor.
Qed.

Lemma tcp_init_hdr_ok sp dp sq ak fl rw :
  is_u8 fl -> tcphdr_ok (tcp_init_hdr sp dp sq ak fl rw).
Proof.
  intros Hf. unfold tcphdr_ok, tcp_init_hdr, TCP_HDR_OFFSET, is_u16; simpl.
  repeat split; try (apply htons_range || apply htonl_range || apply Hf); lia.
Qed.

Lemma set_ip_check_ok ip c : iphdr_ok ip -> is_u16 c -> iphdr_ok (set_ip_check ip c).
Proof. unfold iphdr_ok. simpl. tauto. Qed.
Lemma set_th_check_ok t c : tcphdr_ok t -> is_u16 c -> tcphdr_ok (set_th_check t c).
Proof.
  intros (H1 & H2 & H3 & H4 & H5 & H6 & H7 & H8 & _ & H10) Hc.
  unfold tcphdr_ok, set_th_check; simpl. tauto.
Qed.

Lemma checksum_u16 bs s : is_u16 (checksum bs s).
Proof. apply u16_range. Qed.
Lemma ip_checksum_u16 ip opts c : ip_checksum ip opts = Some c -> is_u16 c.
Proof. unfold ip_checksum. destruct (read_bytes _ _); [|done]. intros [= <-]. apply checksum_u16. Qed.

(** ** Sequence number order *)

Lemma s32_mod z : s32 z mod 2 ^ 32 = z mod 2 ^ 32.
Proof. unfold s32. rewrite Zminus_mod_idemp_l. f_equal. lia. Qed.

Lemma s32_diff a b : s32 (s32 a - s32 b) = s32 (a - b).
Proof.
  unfold s32 at 1 4. f_equal. rewrite (Zplus_mod (s32 a - s32 b)), (Zplus_mod (a - b)).
  f_equal. f_equal. rewrite Zminus_mod, !s32_mod, <- Zminus_mod. done.
Qed.

Lemma s32_id z : - 2 ^ 31 <= z < 2 ^ 31 -> s32 z = z.
Proof. intros H. unfold s32. rewrite Z.mod_small; lia. Qed.

Lemma s32_u32 a b : s32 (u32 a - u32 b) = s32 (a - b).
Proof.
  unfold s32, u32. f_equal. rewrite (Zplus_mod (a mod 2 ^ 32 - _)), (Zplus_mod (a - b)).
  rewrite <- Zminus_mod. done.
Qed.

Lemma less_32b_offset x i j :
  - 2 ^ 31 < i - j < 2 ^ 31 ->
  less_than_32b (u32 (x + i)) (u32 (x + j)) = (i <? j) /\
  less_or_equal_32b (u32 (x + i)) (u32 (x + j)) = (i <=? j).
Proof.
  intros H. unfold less_than_32b, less_or_equal_32b. rewrite s32_diff, s32_u32.
  replace (x + i - (x + j)) with (i - j) by lia. rewrite s32_id by lia. zcases; lia.
Qed.

(** ** Theorems *)

(** The four comparison macros order sequence numbers by their offset from
    any base, wrap-around included, as long as the offsets are less than
    [2 ^ 31] apart. *)
Theorem seq_order x i j :
  - 2 ^ 31 < i - j < 2 ^ 31 ->
  let a := u32 (x + i) in let b := u32 (x + j) in
  less_than_32b a b = (i <? j) /\ less_or_equal_32b a b = (i <=? j) /\
  greater_than_32b a b = (j <? i) /\ greater_or_equal_32b a b = (j <=? i).
Proof.
  intros H a b. unfold a, b. destruct (less_32b_offset x i j H) as [-> ->]. do 2 (split; [done|]).
  unfold greater_than_32b, greater_or_equal_32b. rewrite s32_diff, s32_u32.
  replace (x + i - (x + j)) with (i - j) by lia. rewrite s32_id by lia. zcases; lia.
Qed.

(** The numbers 0xffffffff and 4, six apart across the wrap. *)
Lemma seq_order_witness :
  less_than_32b 0xffffffff 4 = true /\ greater_than_32b 4 0xffffffff = true.
Proof.
  split.
  - apply (seq_order 0xfffffffe 1 6). lia.
  - apply (seq_order 0xfffffffe 6 1). lia.
Defined.

(** The subtraction inside the macros leaves the range of [int32_t],
    which ISO C makes undefined, for neighbouring sequence numbers too. *)
Theorem seq_compare_overflows :
  ~ is_int (s32 0x7fffffff - s32 0x80000000) /\ less_than_32b 0x7fffffff 0x80000000 = true.
Proof. split; [intros [_ H]; vm_compute in H; discriminate|reflexivity]. Qed.

(** Both headers survive the trip through memory: reading back the
    byte image of a header whose members are in range gives the header. *)
Theorem header_roundtrip ip t rest :
  iphdr_ok ip -> tcphdr_ok t ->
  iphdr_of_bytes (iphdr_bytes ip ++ rest) = Some ip /\
  tcphdr_of_bytes (tcphdr_bytes t ++ rest) = Some t.
Proof. intros Hi Ht. split; [by apply iphdr_roundtrip|by apply tcphdr_roundtrip]. Qed.

Definition demo_ip : iphdr :=
  IpHdr 5 4 0 (htons 40) 7 (htons 0x4000) 64 IPPROTO_TCP 0 (htonl 0x0a000001) (htonl 0x0a000002).
Definition demo_tcp : tcphdr := tcp_init_hdr 12345 10001 7 0 TCP_SYN 65535.
Lemma demo_ip_ok : iphdr_ok demo_ip.
Proof. unfold iphdr_ok, is_u8, is_u16, is_u32; simpl. repeat split; vm_compute; congruence. Qed.
Lemma demo_tcp_ok : tcphdr_ok demo_tcp.
Proof. apply tcp_init_hdr_ok. unfold is_u8, TCP_SYN. lia. Qed.

Lemma header_roundtrip_witness : tcphdr_of_bytes (tcphdr_bytes demo_tcp ++ [1; 2]) = Some demo_tcp.
Proof. apply (header_roundtrip demo_ip demo_tcp [1; 2] demo_ip_ok demo_tcp_ok). Defined.

(** ** The TCP checksum and its pseudo-header *)

(** RFC 793: addresses, a zero byte, the protocol and the segment length, as they
    lie on the wire. *)
Definition pseudo_header (ip : iphdr) : list Z :=
  le_store 4 (ip_saddr ip) ++ le_store 4 (ip_daddr ip) ++ [0; protocol ip] ++
  rev (le_store 2 (tcp_len ip)).

(** What [pseudo_sum] would be with an accumulator that never overflows. *)
Definition pseudo_total (ip : iphdr) : Z :=
  ip_saddr ip + ip_daddr ip + htons (protocol ip) + htons (tcp_len ip).

Lemma words16_store4 x :
  is_u32 x -> exists lo hi, zsum (words16 (le_store 4 x)) = lo + hi /\ x = lo + 2 ^ 16 * hi /\
                            0 <= lo /\ 0 <= hi.
Proof.
  intros Hx. exists (x mod 2 ^ 16), (x / 2 ^ 16).
  pose proof (Z.mod_pos_bound x (2 ^ 16)). pose proof (Z.div_pos x (2 ^ 16)).
  pose proof (Z.div_mod x (2 ^ 16)). unfold is_u32 in Hx.
  split; [|lia]. change (words16 (le_store 4 x)) with
    [le_load (le_store 2 x); le_load (le_store 2 (x / 2 ^ 8 / 2 ^ 8))].
  rewrite !le_load_store. change (2 ^ (8 * Z.of_nat 2)) with (2 ^ 16).
  rewrite Z.div_div by lia. change (2 ^ 8 * 2 ^ 8) with (2 ^ 16). unfold zsum; simpl foldr.
  rewrite (Z.mod_small (x / 2 ^ 16)); [lia|].
  pose proof (Z.div_lt_upper_bound x (2 ^ 16) (2 ^ 16)). lia.
Qed.

Lemma htons_u8 p : is_u8 p -> htons p = 2 ^ 8 * p.
Proof.
  intros Hp. unfold htons. cbn [le_store rev app le_load]. rewrite (u8_id p) by done.
  unfold is_u8 in Hp. rewrite Z.div_small, (u8_id 0) by (unfold is_u8; lia). lia.
Qed.

Lemma zsum_pseudo ip :
  is_u32 (ip_saddr ip) -> is_u32 (ip_daddr ip) -> is_u8 (protocol ip) ->
  let z := zsum (words16 (pseudo_header ip)) in
  0 <= z /\ (z = 0 <-> pseudo_total ip = 0) /\ (exists k, pseudo_total ip = z + 65535 * k) /\
  0 <= pseudo_total ip.
Proof.
  intros Hs Hd Hp z. unfold z, pseudo_header, pseudo_total. do 3 rewrite words16_app by reflexivity.
  rewrite !zsum_app. destruct (words16_store4 _ Hs) as (l1 & h1 & -> & -> & ? & ?).
  destruct (words16_store4 _ Hd) as (l2 & h2 & -> & -> & ? & ?).
  replace (zsum (words16 [0; protocol ip])) with (htons (protocol ip)).
  2:{ rewrite htons_u8 by done. unfold zsum; simpl. lia. }
  replace (zsum (words16 (rev (le_store 2 (tcp_len ip))))) with (htons (tcp_len ip)).
  2:{ unfold htons. unfold zsum; simpl. lia. }
  pose proof (htons_range (protocol ip)). pose proof (htons_range (tcp_len ip)).
  unfold is_u16 in *. split; [lia|]. split; [lia|]. split; [|lia]. exists (h1 + h2). lia.
Qed.

(** The segment [tcp_checksum] reads, with the checksum member cleared. *)
Definition checked_bytes (ip : iphdr) (t : tcphdr) (rest : list Z) : option (list Z) :=
  read_bytes (tcphdr_bytes (set_th_check t 0) ++ rest) (tcp_len ip).

Lemma checked_bytes_ok ip t rest bs :
  tcphdr_ok t -> bytes_ok rest -> checked_bytes ip t rest = Some bs ->
  bytes_ok bs /\ Z.of_nat (length bs) = tcp_len ip.
Proof.
  intros Ht Hr. unfold checked_bytes, read_bytes.
  pose proof (u16_range (ntohs (tot_len ip) - IP_HDR_SIZE ip)) as Hl. fold (tcp_len ip) in Hl.
  unfold is_u16 in Hl. set (mem := tcphdr_bytes _ ++ rest).
  destruct (Z.leb_spec (tcp_len ip) (Z.of_nat (length mem))) as [Hle|]; [|done].
  intros E. apply (inj Some) in E. subst bs. split.
  - apply Forall_take, Forall_app. split; [|done].
    apply tcphdr_bytes_ok, set_th_check_ok; [done|unfold is_u16; lia].
  - rewrite length_take. lia.
Qed.

Lemma pseudo_header_ok ip : is_u8 (protocol ip) -> bytes_ok (pseudo_header ip).
Proof.
  intros Hp. unfold pseudo_header. rewrite !Forall_app. repeat split; auto using Forall_rev with cint.
  constructor; [unfold is_u8; lia|]. by constructor.
Qed.

(** The accumulator, and how often it overflows. *)
Lemma pseudo_sum_mod ip : is_u32 (pseudo_sum ip) /\ pseudo_sum ip = pseudo_total ip mod 2 ^ 32.
Proof.
  split; [apply u32_range|]. unfold pseudo_sum, pseudo_total, u32.
  rewrite Zplus_mod_idemp_l, <- !Z.add_assoc, Zplus_mod_idemp_l. by rewrite !Z.add_assoc.
Qed.

Lemma total_bound ip t rest bs :
  is_u32 (ip_saddr ip) -> is_u32 (ip_daddr ip) -> is_u8 (protocol ip) -> tcphdr_ok t -> bytes_ok rest ->
  checked_bytes ip t rest = Some bs -> 0 <= pseudo_total ip + zsum (words16 bs) < 3 * 2 ^ 32.
Proof.
  intros Hs Hd Hp Ht Hr Hbs. destruct (checked_bytes_ok _ _ _ _ Ht Hr Hbs) as [Bbs Hl].
  pose proof (u16_range (ntohs (tot_len ip) - IP_HDR_SIZE ip)) as Hl'. fold (tcp_len ip) in Hl'.
  pose proof (htons_range (protocol ip)). pose proof (htons_range (tcp_len ip)). unfold is_u16, is_u32 in *.
  pose proof (words16_bound bs Bbs). unfold pseudo_total. lia.
Qed.

(** C38: whatever bytes a segment holds, [tcp_checksum] is the RFC 1071 checksum of
    pseudo-header and segment if and only if the addresses, protocol, length and
    words of the segment add up to less than [2 ^ 32] (the accumulator is a [u32]
    that does not keep its carry) and the odd byte of a segment of odd length,
    added after the carries were folded, does not carry out of 16 bits; a segment of
    even length has no such byte and the second condition holds. *)
Theorem tcp_checksum_rfc ip t rest bs :
  is_u32 (ip_saddr ip) -> is_u32 (ip_daddr ip) -> is_u8 (protocol ip) -> tcphdr_ok t ->
  bytes_ok rest -> checked_bytes ip t rest = Some bs ->
  tcp_checksum ip t rest = Some (rfc1071 (pseudo_header ip ++ bs)) <->
  pseudo_total ip + zsum (words16 bs) < 2 ^ 32 /\
  (Nat.even (length bs) = false ->
   onec_sum (words16 (pseudo_header ip ++ bs)) + nth (length bs - 1) bs 0 < 2 ^ 16).
Proof.
  intros Hs Hd Hp Ht Hr Hbs. set (total := pseudo_total ip + zsum (words16 bs)).
  destruct (checked_bytes_ok _ _ _ _ Ht Hr Hbs) as [Bbs _].
  pose proof (total_bound ip t rest bs Hs Hd Hp Ht Hr Hbs) as Hb. fold total in Hb.
  pose proof (zsum_nonneg _ (words16_u16 _ Bbs)) as Hz. pose proof (odd_byte_range bs Bbs) as Ho.
  destruct (zsum_pseudo ip Hs Hd Hp) as (Z0 & Z1 & (k & Zk) & Z2).
  assert (Bph : bytes_ok (pseudo_header ip ++ bs)) by (apply Forall_app; split; [by apply pseudo_header_ok|done]).
  assert (Eo : odd_byte (pseudo_header ip ++ bs) = odd_byte bs) by (by apply odd_byte_app).
  assert (Ew : zsum (words16 (pseudo_header ip ++ bs)) = zsum (words16 (pseudo_header ip)) + zsum (words16 bs))
    by (rewrite words16_app, zsum_app; done).
  assert (Ec : onec_sum (words16 (pseudo_header ip ++ bs)) = canon total).
  { rewrite onec_sum_canon, Ew by (by apply words16_u16). apply canon_eq; [lia..|]. exists (- k). unfold total. lia. }
  assert (Er : rfc1071 (pseudo_header ip ++ bs) = 65535 - canon (total + odd_byte bs)).
  { rewrite rfc1071_value, Eo by done. f_equal. rewrite <- (canon_add_l total), <- Ec by (unfold is_u8 in Ho; lia).
    rewrite onec_sum_canon by (by apply words16_u16). symmetry. apply canon_add_l; unfold is_u8 in Ho; lia. }
  destruct (pseudo_sum_mod ip) as [Hps Eps].
  unfold tcp_checksum. unfold checked_bytes in Hbs. rewrite Hbs. cbn [mbind option_bind].
  rewrite checksum_value, Er, Eps, Zplus_mod_idemp_l by done. fold total.
  pose proof (Z.div_mod total (2 ^ 32)) as Hdm. pose proof (Z.mod_pos_bound total (2 ^ 32)) as Hm.
  assert (Hk : 0 <= total / 2 ^ 32 <= 2) by (split; [apply Z.div_pos; lia|]; pose proof (Z.div_lt_upper_bound total (2 ^ 32) 3); lia).
  pose proof (canon_lost total (total / 2 ^ 32) (odd_byte bs) Hk ltac:(lia) Ho) as Hl.
  replace (total - 2 ^ 32 * (total / 2 ^ 32)) with (total mod 2 ^ 32) in Hl by lia.
  assert (Hodd : canon total + odd_byte bs < 2 ^ 16 <->
    (Nat.even (length bs) = false -> canon total + nth (length bs - 1) bs 0 < 2 ^ 16)).
  { unfold odd_byte. pose proof (canon_range total). destruct (Nat.even (length bs)); [|tauto]. split; [done|lia]. }
  rewrite Ec, <- Hodd. split.
  - intros [= E]. assert (total / 2 ^ 32 = 0 /\ canon total + odd_byte bs < 2 ^ 16) as [? ?] by (apply Hl; lia). split; lia.
  - intros [? ?]. f_equal. f_equal. apply Hl. split; [apply Z.div_small; lia|done].
Qed.

(** 10.0.0.1 to 10.0.0.2 is checked right, 10.0.0.200 to 10.0.0.201 is not. *)
Definition demo_ip2 : iphdr :=
  IpHdr 5 4 0 (htons 40) 7 (htons 0x4000) 64 IPPROTO_TCP 0 (htonl 0x0a0000c8) (htonl 0x0a0000c9).
Lemma tcp_checksum_rfc_witness :
  tcp_checksum demo_ip demo_tcp [] =
    Some (rfc1071 (pseudo_header demo_ip ++ tcphdr_bytes (set_th_check demo_tcp 0))) /\
  tcp_checksum demo_ip2 demo_tcp [] ≠
    Some (rfc1071 (pseudo_header demo_ip2 ++ tcphdr_bytes (set_th_check demo_tcp 0))).
Proof.
  split.
  - apply (tcp_checksum_rfc demo_ip demo_tcp []);
      [apply htonl_range|apply htonl_range|vm_compute; split; congruence|apply demo_tcp_ok|constructor|reflexivity|].
    split; [vm_compute; reflexivity|intros E; vm_compute in E; discriminate E].
  - intros E. apply (tcp_checksum_rfc demo_ip2 demo_tcp []) in E;
      [|apply htonl_range|apply htonl_range|vm_compute; split; congruence|apply demo_tcp_ok|constructor|reflexivity].
    destruct E as [E _]. vm_compute in E. discriminate E.
Defined.

(** ** Control blocks *)

(** The control block of a packet whose headers were filled in by
    [ip_init_hdr] and [tcp_init_hdr] holds the addresses, ports, numbers, flags
    and window they were given, the payload starts right after the base header,
    and [seq_end] counts the payload and one more for SYN or FIN. *)
Theorem cb_of_sent_packet `{IpLayerOk} seed s d len sp dp sq ak fl rw :
  is_u32 s -> is_u32 d -> is_u16 sp -> is_u16 dp -> is_u32 sq -> is_u32 ak -> is_u16 rw ->
  40 <= len < 2 ^ 16 ->
  let ip := ip_init_hdr seed s d len IPPROTO_TCP in
  let cb := tcp_cb_init ip (tcp_init_hdr sp dp sq ak fl rw) in
  saddr cb = s /\ daddr cb = d /\ sport cb = sp /\ dport cb = dp /\ seq cb = sq /\ ack cb = ak /\
  flags cb = fl /\ rwnd cb = rw /\ payload cb = TCP_BASE_HDR_SIZE /\
  pl_len cb = len - IP_BASE_HDR_SIZE - TCP_BASE_HDR_SIZE /\
  seq_end cb = u32 (sq + pl_len cb + (if Z.land fl (Z.lor TCP_SYN TCP_FIN) =? 0 then 0 else 1)).
Proof.
  intros Hs Hd Hsp Hdp Hsq Hak Hrw Hlen ip cb. unfold cb, tcp_cb_init, IP_HDR_SIZE, TCP_HDR_SIZE; simpl.
  unfold ip. rewrite ip_init_ihl, ip_init_saddr, ip_init_daddr, ip_init_tot_len.
  rewrite !ntohs_htons, !ntohl_htonl, !u32_id, !u16_id by (done || (unfold is_u16; lia)).
  unfold TCP_HDR_OFFSET, IP_BASE_HDR_SIZE, TCP_BASE_HDR_SIZE.
  repeat (split; [done|]). destruct (Z.land fl _ =? 0); done.
Qed.

(** An IP layer that satisfies the hypotheses. *)
#[local] Instance demo_layer : IpLayer := {
  ip_init_hdr seed s d l p :=
    IpHdr 5 4 0 (htons l) (u16 (Z.of_nat seed)) (htons 0x4000) 64 (u8 p) 0 (htonl s) (htonl d)
}.
#[local] Instance demo_layer_ok : IpLayerOk.
Proof.
  split; [|done..]. intros seed s d l p. unfold iphdr_ok, is_u8. simpl.
  repeat split; first [lia|apply htons_range|apply u16_range|apply htonl_range|apply u8_range].
Qed.

Lemma cb_of_sent_packet_witness :
  seq_end (tcp_cb_init (ip_init_hdr 0 1 2 40 IPPROTO_TCP) (tcp_init_hdr 3 4 0xffffffff 0 TCP_SYN 9)) = 0.
Proof.
  destruct (cb_of_sent_packet 0 1 2 40 3 4 0xffffffff 0 TCP_SYN 9) as (_ & _ & _ & _ & _ & _ & _ & _ & _ & E1 & E2);
    unfold is_u16, is_u32; try lia. rewrite E2, E1. reflexivity.
Defined.

(** ** Flag names *)

(** The names of the flags that are set, separated by bars. *)
Fixpoint join (l : list string) : string :=
  match l with
  | [] => ""
  | [s] => s
  | s :: l => s +:+ "|" +:+ join l
  end.
Definition flags_spec (flags : Z) : string :=
  join (snd <$> filter (fun '(f, _) => Z.land flags f ≠ 0) flag_names).

(** The C string at the start of a buffer: the characters before the first NUL. *)
Fixpoint c_string (buf : list Z) : list Z :=
  match buf with
  | [] => []
  | b :: buf => if b =? 0 then [] else b :: c_string buf
  end.

(** For every value of the flags byte, [tcp_copy_flags_to_str] stays
    inside its 32-byte array and leaves in it the names of the flags that are
    set, in order and separated by bars, NUL-terminated. *)
Theorem tcp_copy_flags_spec flags :
  is_u8 flags ->
  exists buf, tcp_copy_flags_to_str flags = Some buf /\ length buf = 32%nat /\
              c_string buf = chars (flags_spec flags).
Proof.
  intros Hf.
  set (ok := fun f => match tcp_copy_flags_to_str f with
    | Some buf => bool_decide (length buf = 32%nat /\ c_string buf = chars (flags_spec f))
    | None => false end).
  assert (Hall : forallb ok (seqZ 0 256) = true) by (vm_compute; reflexivity).
  rewrite forallb_forall in Hall. specialize (Hall flags). unfold ok in Hall.
  destruct (tcp_copy_flags_to_str flags) as [buf|].
  - exists buf. split; [done|]. apply (bool_decide_eq_true_1 _), Hall.
    apply list_elem_of_In, elem_of_seqZ. unfold is_u8 in Hf. lia.
  - discriminate Hall. apply list_elem_of_In, elem_of_seqZ. unfold is_u8 in Hf. lia.
Qed.

Lemma tcp_copy_flags_spec_witness :
  exists buf, tcp_copy_flags_to_str (Z.lor TCP_SYN TCP_ACK) = Some buf /\
              length buf = 32%nat /\ c_string buf = chars "SYN|ACK".
Proof. apply (tcp_copy_flags_spec (Z.lor TCP_SYN TCP_ACK)). split; vm_compute; congruence. Defined.
