(* ===== verification/Frames.v ===== *)
(** * Ethernet and ARP frames, and where the headers lie (include/ether.h, arp.h, arpcache.h, rtable.h, ip.h, tcp.h)

    The data that the stack shares with the IP, ARP and routing library: the
    Ethernet and ARP headers with their images in memory, the functions that find
    the headers in a frame, and the layouts of the structures of the ARP cache and
    of the routing table.  (The operations on them are in the library.) *)

From S2P Require Import Prelude Layout Segment.
From stdpp Require Import strings.
#[local] Open Scope Z_scope.

(** ** Headers *)

Definition ETH_ALEN : Z := 6.
Definition ETH_FRAME_LEN : Z := 1514.
Definition ETH_P_ALL : Z := 0x0003.
Definition ARPHRD_ETHER : Z := 1.
Definition ARPOP_REQUEST : Z := 1.
Definition ARPOP_REPLY : Z := 2.
Definition IPPROTO_UDP : Z := 17.
Definition IPPROTO_OSPFv2 : Z := 89.
Definition DEFAULT_TTL : Z := 64.
Definition IP_DF : Z := 0x4000.

(** Addresses as [ETH_ALEN] bytes; [ether_type] and the 16- and 32-bit members of
    [ether_arp] as loaded, that is in network order. *)
Record ether_header := EtherHeader { ether_dhost : list Z; ether_shost : list Z; ether_type : Z }.

Record ether_arp := EtherArp {
  arp_hrd : Z; arp_pro : Z; arp_hln : Z; arp_pln : Z; arp_op : Z;
  arp_sha : list Z; arp_spa : Z; arp_tha : list Z; arp_tpa : Z
}.

Definition ether_header_bytes (eh : ether_header) : list Z :=
  ether_dhost eh ++ ether_shost eh ++ le_store 2 (ether_type eh).

Definition ether_arp_bytes (a : ether_arp) : list Z :=
  le_store 2 (arp_hrd a) ++ le_store 2 (arp_pro a) ++ [arp_hln a; arp_pln a] ++ le_store 2 (arp_op a) ++
  arp_sha a ++ le_store 4 (arp_spa a) ++ arp_tha a ++ le_store 4 (arp_tpa a).

(** The members at the start of a buffer; [None] when it is too short. *)
Definition ether_header_of_bytes (bs : list Z) : option ether_header :=
  if (length bs <? 14)%nat then None
  else Some (EtherHeader (take 6 bs) (take 6 (drop 6 bs)) (load 2 bs 12)).

Definition ether_arp_of_bytes (bs : list Z) : option ether_arp :=
  if (length bs <? 28)%nat then None
  else Some (EtherArp (load 2 bs 0) (load 2 bs 2) (load 1 bs 4) (load 1 bs 5) (load 2 bs 6)
                      (take 6 (drop 8 bs)) (load 4 bs 14) (take 6 (drop 18 bs)) (load 4 bs 24)).

(** The structures of ether.h and arp.h; the second is packed, so its members have
    no alignment. *)
Definition ether_header_layout : list member :=
  [m_chars "ether_dhost" 6; m_chars "ether_shost" 6; m_u16 "ether_type"].
Definition ether_arp_layout : list member :=
  [Member "arp_hrd" 2 1; Member "arp_pro" 2 1; Member "arp_hln" 1 1; Member "arp_pln" 1 1; Member "arp_op" 2 1;
   Member "arp_sha" 6 1; Member "arp_spa" 4 1; Member "arp_tha" 6 1; Member "arp_tpa" 4 1].

(** ** Finding the headers in a frame

    A pointer into the frame is the memory from there on. *)

Definition packet_to_ip_hdr (packet : list Z) : list Z := drop (Z.to_nat ETHER_HDR_SIZE) packet.
Definition packet_to_ether_arp (packet : list Z) : list Z := drop (Z.to_nat ETHER_HDR_SIZE) packet.

(** [IP_DATA(hdr)] is [(char * )hdr + IP_HDR_SIZE(hdr)]; it loads [hdr->ihl]. *)
Definition IP_DATA (hdr : list Z) : option (list Z) :=
  ip ← iphdr_of_bytes hdr; Some (drop (Z.to_nat (IP_HDR_SIZE ip)) hdr).
Definition packet_to_tcp_hdr (packet : list Z) : option (list Z) :=
  let ip := packet_to_ip_hdr packet in
  hdr ← iphdr_of_bytes ip; Some (drop (Z.to_nat (IP_HDR_SIZE hdr)) ip).

(** ** The structures of the ARP cache and of the routing table

    [time_t] and [pthread_t] are 8 bytes, [pthread_mutex_t] is 40 (glibc, x86-64). *)

Definition MAX_ARP_SIZE : Z := 32.
Definition ARP_ENTRY_TIMEOUT : Z := 15.
Definition ARP_REQUEST_MAX_RETRIES : Z := 5.

Definition m_time (n : string) : member := Member n 8 8.

Definition cached_pkt_layout : list member := [m_list "list"; m_ptr "packet"; m_int "len"].
Definition arp_req_layout : list member :=
  [m_list "list"; m_ptr "iface"; m_u32 "ip4"; m_time "sent"; m_int "retries"; m_list "cached_packets"].
Definition arp_cache_entry_layout : list member :=
  [m_u32 "ip4"; m_chars "mac" ETH_ALEN; m_time "added"; m_int "valid"].
Definition arpcache_layout : list member :=
  [Member "entries" (MAX_ARP_SIZE * sizeof arp_cache_entry_layout) 8; m_list "req_list";
   Member "lock" 40 8; Member "thread" 8 8].
Definition rt_entry_layout : list member :=
  [m_list "list"; m_u32 "dest"; m_u32 "mask"; m_u32 "gw"; m_int "flags"; m_chars "if_name" 16; m_ptr "iface"].

(** ** Theorems *)

Definition mac_ok (mac : list Z) : Prop := length mac = 6%nat.
Definition ether_header_ok (eh : ether_header) : Prop :=
  mac_ok (ether_dhost eh) /\ mac_ok (ether_shost eh) /\ is_u16 (ether_type eh).
Definition ether_arp_ok (a : ether_arp) : Prop :=
  is_u16 (arp_hrd a) /\ is_u16 (arp_pro a) /\ is_u8 (arp_hln a) /\ is_u8 (arp_pln a) /\ is_u16 (arp_op a) /\
  mac_ok (arp_sha a) /\ is_u32 (arp_spa a) /\ mac_ok (arp_tha a) /\ is_u32 (arp_tpa a).

(** A list of six bytes, taken apart. *)
Lemma mac_split mac : mac_ok mac -> exists a b c d e f, mac = [a; b; c; d; e; f].
Proof.
  unfold mac_ok. intros H. do 6 (destruct mac as [|? mac]; [discriminate|]).
  destruct mac; [by eauto 10|discriminate].
Qed.

Lemma ether_header_roundtrip eh rest :
  ether_header_ok eh -> length (ether_header_bytes eh) = 14%nat /\
  ether_header_of_bytes (ether_header_bytes eh ++ rest) = Some eh.
Proof.
  intros (Hd & Hs & Ht). destruct eh as [dh sh ty]. simpl in *.
  destruct (mac_split _ Hd) as (? & ? & ? & ? & ? & ? & ->).
  destruct (mac_split _ Hs) as (? & ? & ? & ? & ? & ? & ->). split; [done|].
  unfold ether_header_of_bytes, ether_header_bytes. simpl. load_simpl. by rewrite u16_id.
Qed.

Lemma ether_arp_roundtrip a rest :
  ether_arp_ok a -> length (ether_arp_bytes a) = 28%nat /\
  ether_arp_of_bytes (ether_arp_bytes a ++ rest) = Some a.
Proof.
  intros (H1 & H2 & H3 & H4 & H5 & Hs & H6 & Ht & H7). destruct a as [hrd pro hln pln op sha spa tha tpa]. simpl in *.
  destruct (mac_split _ Hs) as (? & ? & ? & ? & ? & ? & ->).
  destruct (mac_split _ Ht) as (? & ? & ? & ? & ? & ? & ->). split; [done|].
  unfold ether_arp_of_bytes, ether_arp_bytes. simpl. load_simpl. by rewrite !u16_id, !u32_id.
Qed.

(** C37: in a frame made of an Ethernet header, an IP header with any options, and a
    TCP segment, the inline functions find every header where it was put:
    [packet_to_ip_hdr] and [packet_to_tcp_hdr] (through [ihl], so options are
    skipped) give back the members of the two headers and the data behind them, and
    the Ethernet header is read back member by member; so is an ARP message behind
    an Ethernet header, with [packet_to_ether_arp]. *)
Theorem headers_found eh ip opts t data :
  ether_header_ok eh -> iphdr_ok ip -> tcphdr_ok t -> Z.of_nat (20 + length opts) = IP_HDR_SIZE ip ->
  let frame := ether_header_bytes eh ++ iphdr_bytes ip ++ opts ++ tcphdr_bytes t ++ data in
  ether_header_of_bytes frame = Some eh /\
  iphdr_of_bytes (packet_to_ip_hdr frame) = Some ip /\
  IP_DATA (packet_to_ip_hdr frame) = Some (tcphdr_bytes t ++ data) /\
  packet_to_tcp_hdr frame = Some (tcphdr_bytes t ++ data) /\
  tcphdr_of_bytes (tcphdr_bytes t ++ data) = Some t /\
  forall a rest, ether_arp_ok a ->
    ether_arp_of_bytes (packet_to_ether_arp (ether_header_bytes eh ++ ether_arp_bytes a ++ rest)) = Some a.
Proof.
  intros Heh Hip Ht Hl frame.
  destruct (ether_header_roundtrip eh (iphdr_bytes ip ++ opts ++ tcphdr_bytes t ++ data) Heh) as [L E].
  assert (Hdrop : forall bs, packet_to_ip_hdr (ether_header_bytes eh ++ bs) = bs).
  { intros bs. unfold packet_to_ip_hdr. change (Z.to_nat ETHER_HDR_SIZE) with 14%nat. rewrite <- L. apply drop_app_length. }
  assert (Hd : drop (Z.to_nat (IP_HDR_SIZE ip)) (iphdr_bytes ip ++ opts ++ tcphdr_bytes t ++ data) = tcphdr_bytes t ++ data).
  { rewrite app_assoc. apply drop_app_length'. rewrite length_app, length_iphdr_bytes. lia. }
  split; [exact E|]. unfold frame, IP_DATA, packet_to_tcp_hdr. rewrite !Hdrop, iphdr_roundtrip by done.
  cbn [mbind option_bind]. rewrite Hd. split; [done|]. split; [done|]. split; [done|].
  split; [by apply tcphdr_roundtrip|]. intros a rest Ha.
  change packet_to_ether_arp with packet_to_ip_hdr. rewrite Hdrop. by apply ether_arp_roundtrip.
Qed.

Lemma headers_found_witness :
  exists frame, packet_to_tcp_hdr frame = Some (tcphdr_bytes demo_tcp ++ [1; 2; 3]).
Proof.
  destruct (headers_found (EtherHeader [1; 2; 3; 4; 5; 6] [7; 8; 9; 10; 11; 12] 8) demo_ip [] demo_tcp [1; 2; 3])
    as (_ & _ & _ & R & _).
  - split; [reflexivity|]. split; [reflexivity|]. unfold is_u16. simpl. lia.
  - apply demo_ip_ok.
  - apply demo_tcp_ok.
  - reflexivity.
  - eexists. exact R.
Defined.

(** The layouts agree with the images.  [ether_type] lies where [handle_packet]
    loads it, the Ethernet header is the 14 bytes of [ETHER_HDR_SIZE], an ARP
    message is 28 bytes with the sender's protocol address at offset 14, which it
    only is because the structure is packed; a whole ARP frame fits an Ethernet
    frame; every structure that is linked into a list begins with its list node, so
    that [list_entry] does not move the pointer. *)
Theorem frame_layouts :
  offsetof ether_header_layout "ether_type" = 12 /\ sizeof ether_header_layout = ETHER_HDR_SIZE /\
  offsetof ether_arp_layout "arp_spa" = 14 /\ sizeof ether_arp_layout = 28 /\
  offsetof ((fun m => Member (mname m) (msize m) (if msize m =? 6 then 1 else msize m)) <$> ether_arp_layout) "arp_spa" = 16 /\
  ETHER_HDR_SIZE + sizeof ether_arp_layout <= ETH_FRAME_LEN /\
  Forall (fun ms => list_entry_offset 0 ms "list" = 0)
    [cached_pkt_layout; arp_req_layout; rt_entry_layout; iface_info_layout] /\
  sizeof arp_cache_entry_layout = 32 /\ offsetof arpcache_layout "req_list" = 1024 /\ sizeof rt_entry_layout = 56.
Proof.
  repeat split; try reflexivity; [vm_compute; discriminate|].
  repeat constructor.
Qed.
