(* ===== verification/Memory.v ===== *)
(** * The state of the stack (include/tcp_sock.h, tcp_timer.h, tcp_hash.h)

    The heap of sockets with the list nodes embedded in them, the three socket
    tables, the timer list and the packets handed to the IP layer; pointers as a
    block and an offset; and the monad in which the C functions are written.  A
    load or store through a pointer that is null, freed or not the address of an
    object of the right type ends the run with [Fault BadAccess]; a function that
    blocks in [sleep_on] yields [Asleep] with what is left to do.

    Objects that are reached through one pointer only (the receive buffer and the
    four wait structures of a socket, allocated and freed with it) are kept by
    value in the record of their owner. *)

From S2P Require Import Prelude DList RingBuffer SynchWait Layout Segment.

(** ** Pointers *)

(** [BTable] is the static [tcp_sock_table], [BTimers] the static [timer_list]. *)
Inductive block := BSock (n : positive) | BTable | BTimers.
Inductive ptr := NULL | Ptr (b : block) (off : Z).
#[export] Instance block_eq_dec : EqDecision block.
Proof. solve_decision. Defined.
#[export] Instance ptr_eq_dec : EqDecision ptr.
Proof. solve_decision. Defined.

Definition ptr_add (p : ptr) (d : Z) : ptr :=
  match p with NULL => NULL | Ptr b o => Ptr b (o + d) end.

(** ** Objects *)

Record tcp_timer := TcpTimer { type : Z; timeout : Z; tlist : list_head ptr; enable : Z }.

(** The unsigned members hold values of their width in every reachable state
    ([members_ok] in System.v); the [int] members [ref_cnt], [backlog] and [accept_backlog] are not cut off, an
    overflow being undefined in C. *)
Record tcp_sock := TcpSock {
  sk_sip : Z; sk_sport : Z; sk_dip : Z; sk_dport : Z;
  parent : ptr;
  ref_cnt : Z;
  hash_list : list_head ptr; bind_hash_list : list_head ptr;
  listen_queue : list_head ptr; accept_queue : list_head ptr;
  accept_backlog : Z; backlog : Z;
  list_ : list_head ptr;
  timewait : tcp_timer; retrans_timer : tcp_timer;
  wait_connect : Wait.synch_wait; wait_accept : Wait.synch_wait;
  wait_recv : Wait.synch_wait; wait_send : Wait.synch_wait;
  rcv_buf : Ring.ring_buffer;
  send_buf : list_head ptr; rcv_ofo_buf : list_head ptr;
  state : tcp_state;
  iss : Z; snd_una : Z; snd_nxt : Z; rcv_nxt : Z; recovery_point : Z;
  snd_wnd : Z; adv_wnd : Z; rcv_wnd : Z; cwnd : Z; ssthresh : Z
}.

Definition sock_eta (s : tcp_sock) : tcp_sock :=
  TcpSock (sk_sip s) (sk_sport s) (sk_dip s) (sk_dport s) (parent s) (ref_cnt s) (hash_list s)
    (bind_hash_list s) (listen_queue s) (accept_queue s) (accept_backlog s) (backlog s) (list_ s)
    (timewait s) (retrans_timer s) (wait_connect s) (wait_accept s) (wait_recv s) (wait_send s)
    (rcv_buf s) (send_buf s) (rcv_ofo_buf s) (state s) (iss s) (snd_una s) (snd_nxt s) (rcv_nxt s)
    (recovery_point s) (snd_wnd s) (adv_wnd s) (rcv_wnd s) (cwnd s) (ssthresh s).

(** The function that replaces one member of a socket. *)
Ltac sock_setter proj :=
  lazymatch type of proj with
  | tcp_sock -> ?E =>
    exact (fun (v : E) (s : tcp_sock) => ltac:(
      let b := eval unfold sock_eta in (sock_eta s) in
      lazymatch b with context C [proj s] => let b' := context C [v] in exact b' end))
  end.

Definition set_sip := ltac:(sock_setter sk_sip).
Definition set_sport := ltac:(sock_setter sk_sport).
Definition set_dip := ltac:(sock_setter sk_dip).
Definition set_dport := ltac:(sock_setter sk_dport).
Definition set_parent := ltac:(sock_setter parent).
Definition set_ref_cnt := ltac:(sock_setter ref_cnt).
Definition set_hash_list := ltac:(sock_setter hash_list).
Definition set_bind_hash_list := ltac:(sock_setter bind_hash_list).
Definition set_listen_queue := ltac:(sock_setter listen_queue).
Definition set_accept_queue := ltac:(sock_setter accept_queue).
Definition set_accept_backlog := ltac:(sock_setter accept_backlog).
Definition set_backlog := ltac:(sock_setter backlog).
Definition set_list := ltac:(sock_setter list_).
Definition set_timewait := ltac:(sock_setter timewait).
Definition set_retrans_timer := ltac:(sock_setter retrans_timer).
Definition set_wait_connect := ltac:(sock_setter wait_connect).
Definition set_wait_accept := ltac:(sock_setter wait_accept).
Definition set_wait_recv := ltac:(sock_setter wait_recv).
Definition set_wait_send := ltac:(sock_setter wait_send).
Definition set_rcv_buf := ltac:(sock_setter rcv_buf).
Definition set_send_buf := ltac:(sock_setter send_buf).
Definition set_rcv_ofo_buf := ltac:(sock_setter rcv_ofo_buf).
Definition set_state := ltac:(sock_setter state).
Definition set_snd_nxt := ltac:(sock_setter snd_nxt).
Definition set_rcv_nxt := ltac:(sock_setter rcv_nxt).
Definition set_snd_wnd := ltac:(sock_setter snd_wnd).
Definition set_rcv_wnd := ltac:(sock_setter rcv_wnd).

(** The socket after [memset(tsk, 0, sizeof(struct tcp_sock))]. *)
Definition zero_node : list_head ptr := ListHead NULL NULL.
Definition zero_timer : tcp_timer := TcpTimer 0 0 zero_node 0.

(** A packet given to [ip_send_packet]: its length and what lies behind the
    Ethernet header, which the IP layer fills in. *)
Record packet := Packet { pk_len : Z; pk_ip : iphdr; pk_tcp : tcphdr; pk_data : list Z }.

Record stack := Stack {
  socks : gmap positive tcp_sock;
  next_blk : positive;
  table : gmap Z (list_head ptr);
  timer_list : list_head ptr;
  sent : list packet;
  nmalloc : nat
}.

Definition set_socks (m : gmap positive tcp_sock) (st : stack) : stack :=
  Stack m (next_blk st) (table st) (timer_list st) (sent st) (nmalloc st).
Definition set_table (m : gmap Z (list_head ptr)) (st : stack) : stack :=
  Stack (socks st) (next_blk st) m (timer_list st) (sent st) (nmalloc st).
Definition set_timers (n : list_head ptr) (st : stack) : stack :=
  Stack (socks st) (next_blk st) (table st) n (sent st) (nmalloc st).
Definition push_sent (p : packet) (st : stack) : stack :=
  Stack (socks st) (next_blk st) (table st) (timer_list st) (sent st ++ [p]) (nmalloc st).
Definition tick_malloc (st : stack) : stack :=
  Stack (socks st) (next_blk st) (table st) (timer_list st) (sent st) (S (nmalloc st)).

(** ** List nodes in memory *)

Definition set_tlist (n : list_head ptr) (t : tcp_timer) : tcp_timer :=
  TcpTimer (type t) (timeout t) n (enable t).

(** The list node at an offset of a socket, with the way to replace it. *)
Definition sock_node (o : Z) : option ((tcp_sock -> list_head ptr) * (list_head ptr -> tcp_sock -> tcp_sock)) :=
  if o =? off_hash_list then Some (hash_list, set_hash_list)
  else if o =? off_bind_hash_list then Some (bind_hash_list, set_bind_hash_list)
  else if o =? off_listen_queue then Some (listen_queue, set_listen_queue)
  else if o =? off_accept_queue then Some (accept_queue, set_accept_queue)
  else if o =? off_list then Some (list_, set_list)
  else if o =? off_timewait + off_timer_list
  then Some (fun s => tlist (timewait s), fun n s => set_timewait (set_tlist n (timewait s)) s)
  else if o =? off_retrans_timer + off_timer_list
  then Some (fun s => tlist (retrans_timer s), fun n s => set_retrans_timer (set_tlist n (retrans_timer s)) s)
  else if o =? off_send_buf then Some (send_buf, set_send_buf)
  else if o =? off_rcv_ofo_buf then Some (rcv_ofo_buf, set_rcv_ofo_buf)
  else None.

Arguments sock_node : simpl never.

#[export] Instance stack_nodes : NodeStore stack ptr := {
  node_get st p :=
    match p with
    | NULL => None
    | Ptr BTable o => table st !! o
    | Ptr BTimers o => if o =? 0 then Some (timer_list st) else None
    | Ptr (BSock n) o => s ← socks st !! n; '(get, _) ← sock_node o; Some (get s)
    end;
  node_set st p nd :=
    match p with
    | NULL => st
    | Ptr BTable o => set_table (<[o := nd]> (table st)) st
    | Ptr BTimers o => if o =? 0 then set_timers nd st else st
    | Ptr (BSock n) o =>
        match socks st !! n, sock_node o with
        | Some s, Some (_, set) => set_socks (<[n := set nd s]> (socks st)) st
        | _, _ => st
        end
    end
}.

(** Offsets of two different nodes select two different members. *)
Lemma sock_node_set o get set s nd : sock_node o = Some (get, set) -> get (set nd s) = nd.
Proof. unfold sock_node. repeat (case_match; [intros [= <- <-]; done|]). done. Qed.

Lemma sock_node_set_ne o o' get set get' set' s nd :
  o ≠ o' -> sock_node o = Some (get, set) -> sock_node o' = Some (get', set') ->
  get' (set nd s) = get' s.
Proof.
  intros Hne. unfold sock_node.
  repeat match goal with
    | |- context [if o =? ?k then _ else _] =>
        destruct (Z.eqb_spec o k); [intros [= <- <-]|]
    end; try done;
  repeat match goal with
    | |- context [if o' =? ?k then _ else _] =>
        destruct (Z.eqb_spec o' k); [intros [= <- <-]; (congruence || done)|]
    end; done.
Qed.

#[export] Instance stack_nodes_ok : NodeStoreOk stack ptr.
Proof.
  split.
  - intros st p nd [nd' Hp]. destruct p as [|b o]; [done|]. destruct b as [n| |]; simpl in *.
    + destruct (socks st !! n) as [s|]; [|done]. simpl in *.
      destruct (sock_node o) as [[get set]|] eqn:E; [|done]. simpl.
      rewrite lookup_insert_eq. simpl. by rewrite (sock_node_set _ _ _ _ _ E).
    + apply lookup_insert_eq.
    + by destruct (o =? 0).
  - intros st p q nd Hne. destruct p as [|b o]; [done|].
    destruct q as [|b' o']; [done|]. destruct b as [n| |], b' as [n'| |]; simpl;
      try (by repeat case_match).
    + destruct (socks st !! n) as [s|] eqn:Hs; [|done].
      destruct (sock_node o) as [[get set]|] eqn:E; [|done]. simpl.
      destruct (decide (n = n')) as [<-|]; [|by rewrite lookup_insert_ne].
      rewrite lookup_insert_eq, Hs. simpl.
      destruct (sock_node o') as [[get' set']|] eqn:E'; [|done]. simpl. f_equal.
      apply (sock_node_set_ne o o' get set get' set'); congruence.
    + apply lookup_insert_ne. congruence.
    + destruct (Z.eqb_spec o 0), (Z.eqb_spec o' 0); (done || congruence).
Qed.

(** ** Running C functions *)

(** [BadAccess]: a load, store or [free] through an invalid pointer; [Endless]:
    a loop that does not end on the heap it was started on. *)
Inductive fault := BadAccess | Endless.

(** The wait structures of a socket. *)
Inductive chan := WConnect | WAccept | WRecv | WSend.

Inductive outcome (A : Type) :=
  | Done (a : A) (st : stack)
  | Fault (f : fault)
  | Exit (code : Z)
  | Asleep (st : stack) (tsk : ptr) (c : chan) (k : stack -> outcome A).
Arguments Done {A}.
Arguments Fault {A}.
Arguments Exit {A}.
Arguments Asleep {A}.

Fixpoint outcome_bind {A B} (o : outcome A) (f : A -> stack -> outcome B) : outcome B :=
  match o with
  | Done a st => f a st
  | Fault e => Fault e
  | Exit c => Exit c
  | Asleep st tsk c k => Asleep st tsk c (fun st => outcome_bind (k st) f)
  end.

Definition M (A : Type) : Type := stack -> outcome A.
Definition ret {A} (a : A) : M A := fun st => Done a st.
Definition bind {A B} (m : M A) (k : A -> M B) : M B := fun st => outcome_bind (m st) k.

Notation "'do' x <- m ; k" := (bind m (fun x => k))
  (at level 10, x pattern, m at level 100, k at level 200) : c_scope.
Notation "m ;; k" := (bind m (fun _ => k))
  (at level 100, k at level 200, right associativity) : c_scope.
#[global] Open Scope c_scope.

Definition fail {A} (f : fault) : M A := fun _ => Fault f.
Definition c_exit {A} (code : Z) : M A := fun _ => Exit code.
Definition get_stack : M stack := fun st => Done st st.
Definition update (f : stack -> stack) : M unit := fun st => Done tt (f st).

(** An operation of list.h on the stack's nodes. *)
Definition list_op (f : stack -> option stack) : M unit := fun st =>
  match f st with Some st => Done tt st | None => Fault BadAccess end.
Definition list_test (f : stack -> option bool) : M bool := fun st =>
  match f st with Some b => Done b st | None => Fault BadAccess end.

(** [*tsk], for a pointer to a whole socket. *)
Definition sock_of (st : stack) (tsk : ptr) : option (positive * tcp_sock) :=
  match tsk with
  | Ptr (BSock n) o => if o =? 0 then s ← socks st !! n; Some (n, s) else None
  | _ => None
  end.
Definition sock (tsk : ptr) : M tcp_sock := fun st =>
  match sock_of st tsk with Some (_, s) => Done s st | None => Fault BadAccess end.
(** [tsk->member = ...] *)
Definition modify (tsk : ptr) (f : tcp_sock -> tcp_sock) : M unit := fun st =>
  match sock_of st tsk with
  | Some (n, s) => Done tt (set_socks (<[n := f s]> (socks st)) st)
  | None => Fault BadAccess
  end.
(** [free(tsk)] *)
Definition free (tsk : ptr) : M unit := fun st =>
  match sock_of st tsk with
  | Some (n, _) => Done tt (set_socks (delete n (socks st)) st)
  | None => Fault BadAccess
  end.

(** ** What the program takes from outside *)

(** [malloc_ok k]: whether the [k]-th allocation succeeds.  [block_addr n]: the
    address of socket [n]; [table_addr] and [timers_addr]: those of the two static
    objects.  [past_instance]: the four bytes that follow the
    [ustack_t] object, which [tcp_sock_connect] reads. *)
Class Env := {
  malloc_ok : nat -> bool;
  block_addr : positive -> Z;
  table_addr : Z;
  timers_addr : Z;
  past_instance : Z
}.

Section Calls.
Context `{Env}.

(** [malloc]: whether it returned memory. *)
Definition malloc : M bool := fun st => Done (malloc_ok (nmalloc st)) (tick_malloc st).
(** [malloc] whose result is used without being tested. *)
Definition malloc_unchecked : M unit := do ok <- malloc; if ok then ret tt else fail BadAccess.

(** The address a pointer holds, as stored in memory. *)
Definition ptr_addr (p : ptr) : Z :=
  match p with
  | NULL => 0
  | Ptr (BSock n) o => block_addr n + o
  | Ptr BTable o => table_addr + o
  | Ptr BTimers o => timers_addr + o
  end.

(** A [u16] load at an offset of a socket: the source port, or two bytes of the
    [parent] pointer. *)
Definition sock_u16 (s : tcp_sock) (o : Z) : option Z :=
  if o =? off_sport then Some (sk_sport s)
  else if (off_parent <=? o) && (o + 2 <=? off_parent + 8)
  then Some (u16 (ptr_addr (parent s) / 2 ^ (8 * (o - off_parent))))
  else None.

Definition load_u16 (p : ptr) : M Z := fun st =>
  match p with
  | Ptr (BSock n) o =>
      match s ← socks st !! n; sock_u16 s o with Some v => Done v st | None => Fault BadAccess end
  | _ => Fault BadAccess
  end.
End Calls.

(** ** Wait structures of a socket *)

Definition get_wait (c : chan) (s : tcp_sock) : Wait.synch_wait :=
  match c with
  | WConnect => wait_connect s | WAccept => wait_accept s
  | WRecv => wait_recv s | WSend => wait_send s
  end.
Definition set_wait (c : chan) (w : Wait.synch_wait) (s : tcp_sock) : tcp_sock :=
  match c with
  | WConnect => set_wait_connect w s | WAccept => set_wait_accept w s
  | WRecv => set_wait_recv w s | WSend => set_wait_send w s
  end.

(** [sleep_on(tsk->wait_...)] once its thread runs again: it clears the flags. *)
Definition sleep_on_resume (tsk : ptr) (c : chan) : M Z :=
  do s <- sock tsk;
  let w := Wait.sleep_on_leave (get_wait c s) in
  modify tsk (set_wait c w);; ret (Wait.wait_result w).

(** [sleep_on(tsk->wait_...)]: blocks unless already notified or dead. *)
Definition sleep_on (tsk : ptr) (c : chan) : M Z :=
  do s <- sock tsk;
  let '(w, blocks) := Wait.sleep_on_enter (get_wait c s) in
  modify tsk (set_wait c w);;
  if (blocks : bool) then (fun st => Asleep st tsk c (sleep_on_resume tsk c))
  else ret (Wait.wait_result w).

(** [wake_up(tsk->wait_...)] *)
Definition wake_up (tsk : ptr) (c : chan) : M Z :=
  do s <- sock tsk;
  let '(w, _) := Wait.wake_up (get_wait c s) in
  modify tsk (set_wait c w);; ret (Wait.wait_result w).

(** ** Loops over lists *)

(** [list_for_each_entry(pos, head, member) if (test(pos)) return pos;]: the
    member's offset is [moff].  A run of [fuel] steps without reaching the head
    is reported as [Endless]. *)
Fixpoint find_entry_from (fuel : nat) (pos head : ptr) (moff : Z) (test : ptr -> M bool) : M (option ptr) :=
  match fuel with
  | O => fail Endless
  | S fuel =>
      if decide (pos = head) then ret None
      else
        let entry := ptr_add pos (- moff) in
        do b <- test entry;
        if b then ret (Some entry)
        else (fun st => match node_get st pos with
              | Some n => find_entry_from fuel (next n) head moff test st
              | None => Fault BadAccess end)
  end.

(** Every node of a list belongs to a socket of its own, so one step per socket
    and one for the head are enough. *)
Definition loop_fuel (st : stack) : nat := S (size (socks st)).

Definition find_entry (head : ptr) (moff : Z) (test : ptr -> M bool) : M (option ptr) := fun st =>
  match node_get st head with
  | Some n => find_entry_from (loop_fuel st) (next n) head moff test st
  | None => Fault BadAccess
  end.

(** ** Lemmas *)

(** The nodes at offset [moff] of the sockets [l]. *)
Definition nodes (moff : Z) (l : list positive) : list ptr := (fun n => Ptr (BSock n) moff) <$> l.

Lemma nodes_elem moff l n : Ptr (BSock n) moff ∈ nodes moff l <-> n ∈ l.
Proof. unfold nodes. rewrite list_elem_of_fmap. naive_solver. Qed.

Lemma nodes_NoDup moff l : NoDup (nodes moff l) <-> NoDup l.
Proof. unfold nodes. apply NoDup_fmap. intros x y. by intros [= ->]. Qed.

Lemma dlist_socks st h moff l :
  dlist st h (nodes moff l) -> NoDup l /\ forall n, n ∈ l -> is_Some (socks st !! n).
Proof.
  intros D. split.
  - destruct D as [ND _]. apply NoDup_cons in ND as [_ ND]. by apply nodes_NoDup in ND.
  - intros n Hn. destruct (dlist_node st h _ (Ptr (BSock n) moff) D) as [nd Hnd].
    + apply elem_of_cons. right. by apply nodes_elem.
    + simpl in Hnd. destruct (socks st !! n); [done|]. done.
Qed.

Lemma dlist_length st h moff l : dlist st h (nodes moff l) -> (length l <= size (socks st))%nat.
Proof.
  intros D. destruct (dlist_socks _ _ _ _ D) as [ND Hs].
  assert (E : (list_to_set l : gset positive) ⊆ dom (socks st)).
  { intros n Hn. apply elem_of_dom, Hs. by apply elem_of_list_to_set in Hn. }
  apply subseteq_size in E. rewrite size_list_to_set in E by done. by rewrite size_dom in E.
Qed.

(** The first socket of a list that passes a test, as a pointer. *)
Definition first_sock (f : positive -> bool) (l : list positive) : option positive :=
  match filter (fun n => f n = true) l with n :: _ => Some n | [] => None end.

Lemma first_sock_Some f l n : first_sock f l = Some n -> n ∈ l /\ f n = true.
Proof.
  unfold first_sock. intros H.
  assert (E : n ∈ filter (fun n => f n = true) l) by (destruct (filter _ l); simplify_eq; set_solver).
  apply list_elem_of_filter in E. tauto.
Qed.
Lemma first_sock_None f l : first_sock f l = None <-> forall n, n ∈ l -> f n = false.
Proof.
  unfold first_sock. split.
  - destruct (filter _ l) eqn:E; [|done]. intros _ n Hn.
    destruct (f n) eqn:Ef; [|done].
    assert (n ∈ filter (fun n => f n = true) l) by (by apply list_elem_of_filter).
    rewrite E in *. set_solver.
  - intros Hf. destruct (filter _ l) as [|n l'] eqn:E; [done|].
    assert (Hn : n ∈ filter (fun n => f n = true) l) by (rewrite E; set_solver).
    apply list_elem_of_filter in Hn as [Ht Hn]. rewrite Hf in Ht; done.
Qed.

Lemma find_entry_from_spec st h moff moff' test f pos l fuel :
  (forall n, n ∈ l -> test (Ptr (BSock n) (moff' - moff)) st = Done (f n) st) ->
  list_walk fuel st pos h = Some (nodes moff' l) ->
  find_entry_from fuel pos h moff test st =
  Done ((fun n => Ptr (BSock n) (moff' - moff)) <$> first_sock f l) st.
Proof.
  revert pos l. induction fuel as [|fuel IH]; intros pos l Ht Hw; [done|].
  cbn [list_walk find_entry_from] in *. destruct (decide (pos = h)) as [->|Hpos].
  - injection Hw as Hw. destruct l; [done|discriminate].
  - destruct (node_get st pos) as [nd|] eqn:Hnd; [|done]. simpl in Hw.
    destruct (list_walk fuel st (next nd) h) as [l'|] eqn:Hl'; [|done]. injection Hw as Hw.
    destruct l as [|n l]; [done|]. simpl in Hw. injection Hw as -> ->. simpl ptr_add.
    unfold bind. replace (moff' + - moff) with (moff' - moff) by lia.
    rewrite Ht by set_solver. simpl. unfold first_sock. rewrite filter_cons.
    destruct (f n) eqn:Ef; simpl; [done|].
    destruct (decide (false = true)); [done|].
    simpl in Hnd. rewrite Hnd. rewrite (IH _ l); [done| |done]. intros m Hm. apply Ht. set_solver.
Qed.

(** A search loop over a well-formed list ends, and finds the first match. *)
Lemma find_entry_spec st h moff moff' test f l :
  dlist st h (nodes moff' l) ->
  (forall n, n ∈ l -> test (Ptr (BSock n) (moff' - moff)) st = Done (f n) st) ->
  find_entry h moff test st = Done ((fun n => Ptr (BSock n) (moff' - moff)) <$> first_sock f l) st.
Proof.
  intros D Ht. unfold find_entry. pose proof (dlist_length _ _ _ _ D) as Hl.
  destruct (list_for_each_entry_ok st h (nodes moff' l) (loop_fuel st) D) as [Hw _].
  { unfold nodes, loop_fuel. rewrite length_fmap. lia. }
  unfold list_for_each_entry in Hw. destruct (node_get st h) as [nd|]; [|done]. simpl in Hw.
  by apply find_entry_from_spec.
Qed.
