(* ===== verification/Outcome.v ===== *)
(** * When two C functions do the same

    Two runs are equivalent when they end alike, or fall asleep at the same place
    in the same state and, woken in any state, go on equivalently.  (Equality is
    too fine: what is left to do of a sleeping thread is a function.)  The monad
    [M] satisfies its laws up to this equivalence, and its operations respect it. *)

From S2P Require Import Prelude Memory.

Inductive outcome_eq {A} : outcome A -> outcome A -> Prop :=
  | eq_done a st : outcome_eq (Done a st) (Done a st)
  | eq_fault f : outcome_eq (Fault f) (Fault f)
  | eq_exit c : outcome_eq (Exit c) (Exit c)
  | eq_asleep st tsk c k k' :
      (forall st', outcome_eq (k st') (k' st')) -> outcome_eq (Asleep st tsk c k) (Asleep st tsk c k').

#[export] Instance outcome_eq_equivalence {A} : Equivalence (@outcome_eq A).
Proof.
  split.
  - intros o. induction o; by constructor.
  - intros o o' H. induction H; by constructor.
  - intros o o' o'' H. revert o''. induction H as [| | |st tsk c k k' _ IH]; intros o''; inversion 1; subst; constructor; auto.
Qed.

Definition meq {A} (m m' : M A) : Prop := forall st, outcome_eq (m st) (m' st).
Infix "≃" := meq (at level 70) : c_scope.

#[export] Instance meq_equivalence {A} : Equivalence (@meq A).
Proof.
  split; intros m; [by intros st|by intros m' Hm st|]. intros m' m'' H1 H2 st. by transitivity (m' st).
Qed.

Lemma outcome_bind_proper {A B} (o o' : outcome A) (k k' : A -> M B) :
  outcome_eq o o' -> (forall a, k a ≃ k' a) -> outcome_eq (outcome_bind o k) (outcome_bind o' k').
Proof. intros Ho Hk. induction Ho; simpl; [apply Hk|constructor..]; auto. Qed.

Lemma bind_cong {A B} (m m' : M A) (k k' : A -> M B) : m ≃ m' -> (forall a, k a ≃ k' a) -> bind m k ≃ bind m' k'.
Proof. intros Hm Hk st. by apply outcome_bind_proper. Qed.

#[export] Instance bind_proper {A B} : Proper (meq ==> pointwise_relation A meq ==> meq) (@bind A B).
Proof. intros m m' Hm k k' Hk. by apply bind_cong. Qed.

Lemma outcome_bind_assoc {A B C} (o : outcome A) (f : A -> M B) (g : B -> M C) :
  outcome_eq (outcome_bind (outcome_bind o f) g) (outcome_bind o (fun a => bind (f a) g)).
Proof. induction o; simpl; [done|constructor..]; auto. Qed.

Lemma bind_assoc {A B C} (m : M A) (f : A -> M B) (g : B -> M C) :
  bind (bind m f) g ≃ bind m (fun a => bind (f a) g).
Proof. intros st. apply outcome_bind_assoc. Qed.

Lemma ret_bind {A B} (a : A) (k : A -> M B) : bind (ret a) k ≃ k a.
Proof. by intros st. Qed.

(** A run that ends is the same in both. *)
Lemma meq_done {A} (m m' : M A) st a st' : m ≃ m' -> m st = Done a st' -> m' st = Done a st'.
Proof. intros Hm E. specialize (Hm st). rewrite E in Hm. by inversion Hm. Qed.
Lemma meq_fault {A} (m m' : M A) st f : m ≃ m' -> m st = Fault f -> m' st = Fault f.
Proof. intros Hm E. specialize (Hm st). rewrite E in Hm. by inversion Hm. Qed.
