(* ===== verification/Ifaces.v ===== *)
(** * The interfaces of the host (main.c, include/base.h)

    The start-up code of main.c: it asks the kernel for the interfaces, links one
    [iface_info_t] per usable interface into the list of [instance], opens each
    with a raw socket and fills in its addresses and the array [poll] works on.
    What the kernel answers is a parameter, the class [Kernel]; every system call
    may answer differently.  The list of interfaces is a second instance of the
    lists of DList.v. *)

From S2P Require Import Prelude DList Layout Memory.
#[local] Close Scope c_scope.

(** ** The kernel *)

Definition AF_PACKET : Z := 17.
Definition SIOCGIFADDR : Z := 0x8915.
Definition SIOCGIFNETMASK : Z := 0x891b.
Definition SIOCGIFHWADDR : Z := 0x8927.
Definition SIOCGIFINDEX : Z := 0x8933.
Definition POLLIN : Z := 1.

(** Sizes of [ifr_name] and of the union behind it in [struct ifreq]. *)
Definition IFNAMSIZ : Z := 16.
Definition IFR_UNION : Z := 24.

(** An element of the list of [getifaddrs]: its name, and the family of its
    address if it has one. *)
Record ifaddr := IfAddr { ifa_name : list Z; ifa_family : option Z }.

(** [k_socket c], [k_bind c fd index] and [k_ioctl c fd request name union] are the
    answers to the [c]-th system call, [None] being a failed [ioctl];
    [k_garbage]: what an uninitialised [struct ifreq] holds. *)
Class Kernel := {
  k_ifaddrs : list ifaddr;
  k_socket : nat -> Z;
  k_bind : nat -> Z -> Z -> Z;
  k_ioctl : nat -> Z -> Z -> list Z -> list Z -> option (list Z);
  k_garbage : list Z
}.

(** What Linux documents: interface names fit into [ifr_name], a system call on a
    bad descriptor fails, [ioctl] keeps the size of the structure. *)
Class KernelOk `{Kernel} := {
  ifaddrs_short a : a ∈ k_ifaddrs -> (length (ifa_name a) < 16)%nat;
  ioctl_bad_fd c fd r name u : fd < 0 -> k_ioctl c fd r name u = None;
  ioctl_size c fd r name u u' : k_ioctl c fd r name u = Some u' -> length u = 24%nat -> length u' = 24%nat;
  garbage_size : length k_garbage = 24%nat
}.

(** ** State *)

(** The null pointer, the address of [instance->iface_list], or that of an
    interface, whose first member is its list node. *)
Inductive iptr := INull | IHead | INode (n : positive).
#[export] Instance iptr_eq_dec : EqDecision iptr.
Proof. solve_decision. Defined.

(** Strings are kept without the 0 that ends them. *)
Record iface_info := Iface {
  if_list : list_head iptr;
  if_fd : Z; if_index : Z; if_mac : list Z; if_ip : Z; if_mask : Z;
  if_name : list Z; if_ip_str : list Z
}.

Record pollfd := Pollfd { pfd_fd : Z; pfd_events : Z }.

(** [ustack_t] with the interfaces it links; the numbers of system calls and of
    allocations so far. *)
Record ustack := Ustack {
  iface_list : list_head iptr; nifs : Z; fds : list pollfd;
  ifaces : gmap positive iface_info; next_if : positive;
  calls : nat; allocs : nat
}.

Definition set_ifaces (m : gmap positive iface_info) (u : ustack) : ustack :=
  Ustack (iface_list u) (nifs u) (fds u) m (next_if u) (calls u) (allocs u).
Definition set_iface_list (h : list_head iptr) (u : ustack) : ustack :=
  Ustack h (nifs u) (fds u) (ifaces u) (next_if u) (calls u) (allocs u).
Definition set_nifs (n : Z) (u : ustack) : ustack :=
  Ustack (iface_list u) n (fds u) (ifaces u) (next_if u) (calls u) (allocs u).
Definition set_fds (l : list pollfd) (u : ustack) : ustack :=
  Ustack (iface_list u) (nifs u) l (ifaces u) (next_if u) (calls u) (allocs u).
Definition tick_call (u : ustack) : ustack :=
  Ustack (iface_list u) (nifs u) (fds u) (ifaces u) (next_if u) (S (calls u)) (allocs u).

Definition with_list (nd : list_head iptr) (i : iface_info) : iface_info :=
  Iface nd (if_fd i) (if_index i) (if_mac i) (if_ip i) (if_mask i) (if_name i) (if_ip_str i).

#[export] Instance iface_nodes : NodeStore ustack iptr := {
  node_get u p :=
    match p with INull => None | IHead => Some (iface_list u) | INode n => if_list <$> ifaces u !! n end;
  node_set u p nd :=
    match p with
    | INull => u
    | IHead => set_iface_list nd u
    | INode n =>
        match ifaces u !! n with Some i => set_ifaces (<[n := with_list nd i]> (ifaces u)) u | None => u end
    end
}.

#[export] Instance iface_nodes_ok : NodeStoreOk ustack iptr.
Proof.
  split.
  - intros u [| |n] nd [x Hx]; [done..|]. simpl in *. destruct (ifaces u !! n); [|done]. simpl. by rewrite lookup_insert_eq.
  - intros u p q nd Hne. destruct p as [| |n], q as [| |n']; try done; simpl; destruct (ifaces u !! n) as [i|] eqn:E; try done.
    simpl. by rewrite lookup_insert_ne by congruence.
Qed.

(** ** Running the start-up code *)

(** [UFault]: an access to memory that is not there. *)
Inductive ures (A : Type) := UOk (a : A) (u : ustack) | UFault | UExit (code : Z).
Arguments UOk {A}.
Arguments UFault {A}.
Arguments UExit {A}.

Definition U (A : Type) : Type := ustack -> ures A.
#[export] Instance U_ret : MRet U := fun A a u => UOk a u.
#[export] Instance U_bind : MBind U := fun A B k m u =>
  match m u with UOk a u => k a u | UFault => UFault | UExit c => UExit c end.

Definition u_fault {A} : U A := fun _ => UFault.
Definition u_exit {A} (code : Z) : U A := fun _ => UExit code.
Definition u_get : U ustack := fun u => UOk u u.
Definition u_update (f : ustack -> ustack) : U unit := fun u => UOk tt (f u).
Definition u_list (f : ustack -> option ustack) : U unit := fun u =>
  match f u with Some u => UOk tt u | None => UFault end.

(** [iface->...] and [iface->... = ...] *)
Definition u_iface (n : positive) : U iface_info := fun u =>
  match ifaces u !! n with Some i => UOk i u | None => UFault end.
Definition u_modify (n : positive) (f : iface_info -> iface_info) : U unit := fun u =>
  match ifaces u !! n with Some i => UOk tt (set_ifaces (<[n := f i]> (ifaces u)) u) | None => UFault end.

(** [list_for_each_entry(iface, &instance->iface_list, list) acc = body(acc, iface)] *)
Fixpoint for_each_from {A} (fuel : nat) (body : A -> positive -> U A) (acc : A) (pos : iptr) : U A :=
  match fuel, pos with
  | O, _ | _, INull => u_fault
  | S _, IHead => mret acc
  | S fuel, INode n => acc ← body acc n; i ← u_iface n; for_each_from fuel body acc (next (if_list i))
  end.
(** One step per interface and one for the head are enough. *)
Definition for_each_iface {A} (body : A -> positive -> U A) (acc : A) : U A := fun u =>
  for_each_from (S (size (ifaces u))) body acc (next (iface_list u)) u.

(** ** C library *)

Fixpoint strstr (s needle : list Z) : option (list Z) :=
  if bool_decide (needle `prefix_of` s) then Some s
  else match s with [] => None | _ :: s => strstr s needle end.

(** [strcpy(dst, s)] into an array of [size] bytes. *)
Definition strcpy (size : Z) (s : list Z) : U (list Z) :=
  if Z.of_nat (length s) <? size then mret s else u_fault.

(** The decimal digits of a byte. *)
Definition dec (b : Z) : list Z :=
  (if 100 <=? b then [48 + b / 100] else []) ++ (if 10 <=? b then [48 + b / 10 mod 10] else []) ++ [48 + b mod 10].

(** [inet_ntoa] of an address given by its bytes in memory. *)
Definition inet_ntoa (addr : list Z) : list Z :=
  match addr with
  | [a; b; c; d] => dec a ++ [46] ++ dec b ++ [46] ++ dec c ++ [46] ++ dec d
  | _ => []
  end.

(** ** Code *)

Section Code.
Context `{Env} `{Kernel}.

Definition sys_socket : U Z := fun u => UOk (k_socket (calls u)) (tick_call u).
Definition sys_bind (fd index : Z) : U Z := fun u => UOk (k_bind (calls u) fd index) (tick_call u).
Definition sys_ioctl (fd request : Z) (name union : list Z) : U (option (list Z)) := fun u =>
  UOk (k_ioctl (calls u) fd request name union) (tick_call u).

(** Members of the union of [struct ifreq]: [ifr_ifindex], the first bytes of
    [ifr_hwaddr.sa_data], [sin_addr] of [ifr_addr] read as [struct sockaddr_in]. *)
Definition ifr_ifindex (union : list Z) : Z := s32 (le_load (take 4 union)).
Definition ifr_hwaddr (union : list Z) : list Z := take 6 (drop 2 union).
Definition ifr_sin_addr (union : list Z) : list Z := take 4 (drop 4 union).

Definition open_device (dname : list Z) : U Z :=
  sd ← sys_socket;
  if sd <? 0 then mret (-1)
  else
    name ← strcpy IFNAMSIZ dname;
    r ← sys_ioctl sd SIOCGIFINDEX name (replicate (Z.to_nat IFR_UNION) 0);
    match r with
    | None => mret (-1)
    | Some ifr =>
        b ← sys_bind sd (ifr_ifindex ifr);
        if b <? 0 then mret (-1)
        else
          r ← sys_ioctl sd SIOCGIFHWADDR name ifr;
          match r with None => mret (-1) | Some _ => mret sd end
    end.

(** The members [read_iface_info] sets. *)
Definition with_fd (v : Z) (i : iface_info) : iface_info :=
  Iface (if_list i) v (if_index i) (if_mac i) (if_ip i) (if_mask i) (if_name i) (if_ip_str i).
Definition with_index (v : Z) (i : iface_info) : iface_info :=
  Iface (if_list i) (if_fd i) v (if_mac i) (if_ip i) (if_mask i) (if_name i) (if_ip_str i).
Definition with_mac (v : list Z) (i : iface_info) : iface_info :=
  Iface (if_list i) (if_fd i) (if_index i) v (if_ip i) (if_mask i) (if_name i) (if_ip_str i).
Definition with_ip (v : Z) (i : iface_info) : iface_info :=
  Iface (if_list i) (if_fd i) (if_index i) (if_mac i) v (if_mask i) (if_name i) (if_ip_str i).
Definition with_mask (v : Z) (i : iface_info) : iface_info :=
  Iface (if_list i) (if_fd i) (if_index i) (if_mac i) (if_ip i) v (if_name i) (if_ip_str i).
Definition with_name (v : list Z) (i : iface_info) : iface_info :=
  Iface (if_list i) (if_fd i) (if_index i) (if_mac i) (if_ip i) (if_mask i) v (if_ip_str i).
Definition with_ip_str (v : list Z) (i : iface_info) : iface_info :=
  Iface (if_list i) (if_fd i) (if_index i) (if_mac i) (if_ip i) (if_mask i) (if_name i) v.

(** A failed [ioctl] whose result is not looked at leaves [ifr] as it was. *)
Definition read_iface_info (iface : positive) : U Z :=
  i ← u_iface iface;
  fd ← open_device (if_name i);
  u_modify iface (with_fd fd);;
  s ← sys_socket;
  i ← u_iface iface;
  name ← strcpy IFNAMSIZ (if_name i);
  r ← sys_ioctl s SIOCGIFINDEX name k_garbage;
  let ifr := default k_garbage r in
  u_modify iface (with_index (ifr_ifindex ifr));;
  r ← sys_ioctl s SIOCGIFHWADDR name ifr;
  let ifr := default ifr r in
  u_modify iface (with_mac (ifr_hwaddr ifr));;
  r ← sys_ioctl fd SIOCGIFADDR name ifr;
  match r with
  | None => u_exit 1
  | Some ifr =>
      let ip := ifr_sin_addr ifr in
      u_modify iface (with_ip (ntohl (le_load ip)));;
      ip_str ← strcpy 16 (inet_ntoa ip);
      u_modify iface (with_ip_str ip_str);;
      r ← sys_ioctl fd SIOCGIFNETMASK name ifr;
      match r with
      | None => u_exit 1
      | Some ifr =>
          u_modify iface (with_mask (ntohl (le_load (ifr_sin_addr ifr))));;
          mret fd
      end
  end.

(** [malloc] and [bzero] of an [iface_info_t]. *)
Definition zero_iface : iface_info := Iface (ListHead INull INull) 0 0 (replicate 6 0) 0 0 [] [].
Definition new_iface : U positive := fun u =>
  if malloc_ok (allocs u) then
    UOk (next_if u) (Ustack (iface_list u) (nifs u) (fds u) (<[next_if u := zero_iface]> (ifaces u))
                            (Pos.succ (next_if u)) (calls u) (S (allocs u)))
  else UFault.

(** "-eth" *)
Definition eth_suffix : list Z := [45; 101; 116; 104].
Definition usable (addr : ifaddr) : bool :=
  bool_decide (ifa_family addr = Some AF_PACKET) && bool_decide (is_Some (strstr (ifa_name addr) eth_suffix)).

(** The body of the loop over the addresses. *)
Definition add_iface (addr : ifaddr) : U unit :=
  if usable addr then
    iface ← new_iface;
    u_list (fun u => init_list_head u (INode iface));;
    name ← strcpy IFNAMSIZ (ifa_name addr);
    u_modify iface (with_name name);;
    u_list (fun u => list_add_tail u (INode iface) IHead);;
    u_update (fun u => set_nifs (nifs u + 1) u)
  else mret tt.

Fixpoint add_ifaces (addrs : list ifaddr) : U unit :=
  match addrs with [] => mret tt | a :: addrs => add_iface a;; add_ifaces addrs end.

(** [sprintf(dev_names + strlen(dev_names), " %s", iface->name)] *)
Definition DEV_NAMES : Z := 1024.
Definition append_name (dev_names : list Z) (iface : positive) : U (list Z) :=
  i ← u_iface iface; strcpy DEV_NAMES (dev_names ++ 32 :: if_name i).

(** The names logged are the result. *)
Definition find_available_ifaces : U (list Z) :=
  u_list (fun u => init_list_head u IHead);;
  add_ifaces k_ifaddrs;;
  u ← u_get;
  if nifs u =? 0 then u_exit 1 else for_each_iface append_name [].

(** [instance->fds[i].fd = fd; instance->fds[i].events |= POLLIN; i += 1] *)
Definition set_pollfd (i : nat) (fd : Z) : U unit := fun u =>
  match fds u !! i with
  | Some p => UOk tt (set_fds (<[i := Pollfd fd (Z.lor (pfd_events p) POLLIN)]> (fds u)) u)
  | None => UFault
  end.

(** [malloc] and [bzero] of [nifs] elements. *)
Definition alloc_fds : U unit := fun u =>
  if malloc_ok (allocs u) then
    UOk tt (Ustack (iface_list u) (nifs u) (replicate (Z.to_nat (nifs u)) (Pollfd 0 0)) (ifaces u) (next_if u)
                   (calls u) (S (allocs u)))
  else UFault.

Definition init_all_ifaces : U unit :=
  find_available_ifaces;;
  alloc_fds;;
  for_each_iface (fun i iface => fd ← read_iface_info iface; set_pollfd i fd;; mret (S i)) 0%nat;;
  mret tt.

(** [fd_to_iface]: the inner [None] is [NULL]. *)
Fixpoint fd_to_iface_from (fuel : nat) (u : ustack) (pos : iptr) (fd : Z) : option (option iface_info) :=
  match fuel, pos with
  | O, _ | _, INull => None
  | S _, IHead => Some None
  | S fuel, INode n =>
      i ← ifaces u !! n;
      if if_fd i =? fd then Some (Some i) else fd_to_iface_from fuel u (next (if_list i)) fd
  end.
Definition fd_to_iface (u : ustack) (fd : Z) : option (option iface_info) :=
  fd_to_iface_from (S (size (ifaces u))) u (next (iface_list u)) fd.

End Code.

(** ** Lemmas *)

Lemma u_bind_ok {A B} (m : U A) (k : A -> U B) u a u' : m u = UOk a u' -> (m ≫= k) u = k a u'.
Proof. intros E. unfold mbind, U_bind. by rewrite E. Qed.

Lemma u_bind_exit {A B} (m : U A) (k : A -> U B) u c : m u = UExit c -> (m ≫= k) u = UExit c.
Proof. intros E. unfold mbind, U_bind. by rewrite E. Qed.

Lemma strcpy_ok size s u : Z.of_nat (length s) < size -> strcpy size s u = UOk s u.
Proof. intros Hs. unfold strcpy. by destruct (Z.ltb_spec (Z.of_nat (length s)) size); [|lia]. Qed.

(** [strstr] finds every occurrence. *)
Lemma strstr_spec s needle : is_Some (strstr s needle) <-> exists a b, s = a ++ needle ++ b.
Proof.
  induction s as [|x s IH]; cbn [strstr]; case_bool_decide as Hp.
  - split; [|done]. intros _. destruct Hp as [b Hb]. by exists [], b.
  - split; [by intros [? ?]|]. intros (a & b & E). destruct Hp. destruct a; [|done]. by exists b.
  - split; [|done]. intros _. destruct Hp as [b Hb]. by exists [], b.
  - rewrite IH. split; [intros (a & b & ->); by exists (x :: a), b|]. intros (a & b & E). destruct a as [|y a].
    + destruct Hp. by exists b.
    + injection E as -> ->. by exists a, b.
Qed.

Lemma length_dec b : (1 <= length (dec b) <= 3)%nat.
Proof. unfold dec. rewrite !length_app. zcases; simpl; lia. Qed.

(** A dotted address fits into [ip_str]. *)
Lemma length_inet_ntoa addr : (length (inet_ntoa addr) <= 15)%nat.
Proof.
  unfold inet_ntoa. destruct addr as [|a [|b [|c [|d [|]]]]]; simpl; try lia.
  pose proof (length_dec a). pose proof (length_dec b). pose proof (length_dec c). pose proof (length_dec d).
  rewrite !length_app. simpl. rewrite !length_app. simpl. rewrite !length_app. simpl. lia.
Qed.

(** *** Loops over the interfaces *)

(** The loop as a fold over the interfaces. *)
Fixpoint fold_ifaces {A} (body : A -> positive -> U A) (acc : A) (l : list positive) : U A :=
  match l with [] => mret acc | n :: l => acc ← body acc n; fold_ifaces body acc l end.

Definition same_links (u u' : ustack) : Prop := forall p : iptr, node_get u' p = node_get u p.

Lemma list_walk_same fuel u u' (pos h : iptr) : same_links u u' -> list_walk fuel u' pos h = list_walk fuel u pos h.
Proof.
  intros Hs. revert pos. induction fuel as [|fuel IH]; intros pos; [done|]. cbn [list_walk].
  case_decide; [done|]. rewrite Hs. destruct (node_get u pos) as [nd|]; [|done]. simpl. by rewrite IH.
Qed.

Lemma for_each_from_fold {A} (body : A -> positive -> U A) fuel acc pos l u :
  (forall acc n u acc' u', body acc n u = UOk acc' u' -> same_links u u') ->
  list_walk fuel u pos IHead = Some (INode <$> l) -> for_each_from fuel body acc pos u = fold_ifaces body acc l u.
Proof.
  intros Hb. revert acc pos l u. induction fuel as [|fuel IH]; intros acc pos l u Hw; [done|].
  cbn [list_walk] in Hw. case_decide as Hp.
  - subst pos. injection Hw as Hw. by destruct l.
  - destruct pos as [| |n]; [done..|]. destruct (node_get u (INode n)) as [nd|] eqn:En; [|done]. simpl in Hw.
    destruct (list_walk fuel u (next nd) IHead) as [l'|] eqn:Ew; [|done]. injection Hw as Hw.
    destruct l as [|n' l]; [done|]. simpl in Hw. injection Hw as <- ->. cbn [for_each_from fold_ifaces].
    unfold mbind, U_bind. destruct (body acc n u) as [acc' u'| |] eqn:Eb; [|done..].
    pose proof (Hb _ _ _ _ _ Eb) as Hs. pose proof (Hs (INode n)) as Hn. rewrite En in Hn. simpl in Hn.
    unfold u_iface. destruct (ifaces u' !! n) as [i|] eqn:Ei; [|done]. injection Hn as Hn.
    apply IH. rewrite Hn, (list_walk_same fuel u u'); done.
Qed.

(** Interfaces are allocated one after the other. *)
Definition fresh (u : ustack) : Prop := forall n, is_Some (ifaces u !! n) -> (n < next_if u)%positive.

(** The interfaces [l] are linked in this order, with these names. *)
Record listed (u : ustack) (l : list positive) (names : list (list Z)) : Prop := Listed {
  listed_list : dlist u IHead (INode <$> l);
  listed_names : Forall2 (fun n name => exists i, ifaces u !! n = Some i /\ if_name i = name) l names;
  listed_nifs : nifs u = Z.of_nat (length l);
  listed_fresh : fresh u
}.

Lemma listed_NoDup u l names : listed u l names -> NoDup l.
Proof.
  intros [D _ _ _]. destruct D as [ND _]. apply NoDup_cons in ND as [_ ND]. by apply NoDup_fmap_1 in ND.
Qed.

Lemma listed_length u l names : listed u l names -> (length l <= size (ifaces u))%nat.
Proof.
  intros L. pose proof (listed_NoDup _ _ _ L) as ND.
  assert (E : (list_to_set l : gset positive) ⊆ dom (ifaces u)).
  { intros n Hn%elem_of_list_to_set. apply elem_of_dom.
    apply list_elem_of_lookup in Hn as [k Hk].
    destruct (Forall2_lookup_l _ _ _ _ _ (listed_names _ _ _ L) Hk) as (name & _ & i & Hi & _). by exists i. }
  apply subseteq_size in E. rewrite size_list_to_set in E by done. by rewrite size_dom in E.
Qed.

Lemma for_each_fold {A} (body : A -> positive -> U A) acc l names u :
  (forall acc n u acc' u', body acc n u = UOk acc' u' -> same_links u u') ->
  listed u l names -> for_each_iface body acc u = fold_ifaces body acc l u.
Proof.
  intros Hb L. unfold for_each_iface. apply for_each_from_fold; [done|].
  destruct (list_for_each_entry_ok u IHead (INode <$> l) (S (size (ifaces u))) (listed_list _ _ _ L)) as [Hw _]; [|exact Hw].
  rewrite length_fmap. pose proof (listed_length _ _ _ L). lia.
Qed.

(** *** Everything but the links *)

Definition bare : iface_info -> iface_info := with_list (ListHead INull INull).
Definition idata (u : ustack) := (bare <$> ifaces u, nifs u, next_if u, calls u, allocs u).

Lemma node_set_idata (u : ustack) (p : iptr) nd : idata (node_set u p nd) = idata u.
Proof.
  destruct p as [| |n]; [done..|]. simpl. destruct (ifaces u !! n) as [i|] eqn:E; [|done]. unfold idata. simpl.
  rewrite fmap_insert. do 4 f_equal. apply insert_id. by rewrite lookup_fmap, E.
Qed.

Lemma idata_iface u u' n i :
  idata u' = idata u -> ifaces u !! n = Some i -> exists i', ifaces u' !! n = Some i' /\ bare i' = bare i.
Proof.
  intros Ed Hi. injection Ed as Em _ _ _ _. apply (f_equal (lookup n)) in Em. rewrite !lookup_fmap, Hi in Em.
  destruct (ifaces u' !! n) as [i'|]; [|done]. apply (inj Some) in Em. by exists i'.
Qed.

Lemma bare_name i i' : bare i' = bare i -> if_name i' = if_name i.
Proof. by intros [=]. Qed.

Lemma fresh_same u u' : fresh u -> ifaces u' = ifaces u -> next_if u' = next_if u -> fresh u'.
Proof. intros Hf Ei En n Hn. rewrite En. apply Hf. by rewrite <- Ei. Qed.

Lemma fresh_insert u n i : fresh u -> is_Some (ifaces u !! n) -> fresh (set_ifaces (<[n := i]> (ifaces u)) u).
Proof. intros Hf Hs m. simpl. rewrite lookup_insert_is_Some'. intros [<-|Hm]; by apply Hf. Qed.

Lemma idata_fresh u u' : idata u' = idata u -> fresh u -> fresh u'.
Proof.
  intros Ed Hf n Hn. injection Ed as Em _ En _ _. rewrite En. apply Hf.
  apply (fmap_is_Some bare). rewrite <- lookup_fmap, <- Em, lookup_fmap. by apply fmap_is_Some.
Qed.

Section Theorems.
Context `{Env} `{KernelOk}.

Lemma fresh_node u l names : listed u l names -> INode (next_if u) ∉ IHead :: (INode <$> l).
Proof.
  intros L Hin. apply elem_of_cons in Hin as [?|Hin]; [done|]. apply list_elem_of_fmap in Hin as (n & [= <-] & Hn).
  apply list_elem_of_lookup in Hn as [k Hk].
  destruct (Forall2_lookup_l _ _ _ _ _ (listed_names _ _ _ L) Hk) as (name & _ & i & Hi & _).
  apply (Pos.lt_irrefl (next_if u)), (listed_fresh _ _ _ L). by exists i.
Qed.

Lemma add_iface_ok u l names a :
  listed u l names -> usable a = true -> (length (ifa_name a) < 16)%nat -> malloc_ok (allocs u) = true ->
  exists u', add_iface a u = UOk tt u' /\ listed u' (l ++ [next_if u]) (names ++ [ifa_name a]) /\
    allocs u' = S (allocs u) /\ calls u' = calls u.
Proof.
  intros L Ha Hlen Hm. pose proof (fresh_node _ _ _ L) as Hn. set (n := next_if u) in *. unfold add_iface. rewrite Ha.
  set (u1 := Ustack (iface_list u) (nifs u) (fds u) (<[n := zero_iface]> (ifaces u)) (Pos.succ n) (calls u) (S (allocs u))).
  rewrite (u_bind_ok _ _ u n u1) by (unfold new_iface; by rewrite Hm).
  assert (D1 : dlist u1 IHead (INode <$> l)).
  { apply (dlist_ext u); [apply (listed_list _ _ _ L)|]. intros [| |m] Hx; [done..|]. simpl.
    rewrite lookup_insert_ne; [done|]. intros <-. done. }
  destruct (init_list_head_spec u1 (INode n)) as (u2 & E2 & _ & O2); [simpl; by rewrite lookup_insert_eq|].
  rewrite (u_bind_ok _ _ u1 tt u2) by (unfold u_list; by rewrite E2).
  rewrite (u_bind_ok _ _ u2 (ifa_name a) u2) by (apply strcpy_ok; unfold IFNAMSIZ; lia).
  assert (Ed2 : idata u2 = idata u1) by (revert E2; apply init_list_head_view, node_set_idata).
  destruct (idata_iface u1 u2 n zero_iface Ed2) as (i2 & Hi2 & Eb2); [apply lookup_insert_eq|].
  set (u3 := set_ifaces (<[n := with_name (ifa_name a) i2]> (ifaces u2)) u2).
  rewrite (u_bind_ok _ _ u2 tt u3) by (unfold u_modify; by rewrite Hi2).
  assert (S3 : forall p : iptr, node_get u3 p = node_get u2 p).
  { intros [| |m]; [done..|]. simpl. destruct (decide (n = m)) as [<-|]; [by rewrite lookup_insert_eq, Hi2|].
    by rewrite lookup_insert_ne. }
  destruct (list_add_ok u3 IHead (INode <$> l) (INode n)) as [_ (u4 & E4 & D4 & O4)].
  { apply (dlist_ext u1); [done|]. intros x Hx. rewrite S3. apply O2. set_solver. }
  { done. }
  { rewrite S3. simpl. rewrite Hi2. by eexists. }
  rewrite (u_bind_ok _ _ u3 tt u4) by (unfold u_list; by rewrite E4).
  assert (Ed4 : idata u4 = idata u3) by (revert E4; apply list_add_tail_view, node_set_idata).
  exists (set_nifs (nifs u4 + 1) u4). split; [done|].
  assert (Ed : (nifs u4, next_if u4, calls u4, allocs u4) = (nifs u, Pos.succ n, calls u, S (allocs u))).
  { injection Ed4 as _ -> -> -> ->. injection Ed2 as _ En2 Ex2 Ec2 Ea2. simpl. congruence. }
  injection Ed as En Ex Ec Ea. split; [|done]. split.
  - apply (dlist_ext u4); [|by intros []]. by rewrite fmap_app.
  - apply Forall2_app; simpl.
    + eapply Forall2_impl; [apply (listed_names _ _ _ L)|]. intros m name (i & Hi & <-).
      assert (m ≠ n) by (intros ->; apply (Pos.lt_irrefl n), (listed_fresh _ _ _ L); by exists i).
      destruct (idata_iface u1 u2 m i Ed2) as (j2 & Hj2 & Ej2); [by simpl; rewrite lookup_insert_ne|].
      destruct (idata_iface u3 u4 m j2 Ed4) as (j4 & Hj4 & Ej4); [by simpl; rewrite lookup_insert_ne|].
      exists j4. split; [done|]. by rewrite (bare_name _ _ Ej4), (bare_name _ _ Ej2).
    + constructor; [|done]. destruct (idata_iface u3 u4 n (with_name (ifa_name a) i2) Ed4) as (j4 & Hj4 & Ej4);
        [by simpl; rewrite lookup_insert_eq|]. exists j4. split; [done|]. by rewrite (bare_name _ _ Ej4).
  - simpl. rewrite En, (listed_nifs _ _ _ L), length_app. simpl. lia.
  - apply (fresh_same u4); [|done..]. apply (idata_fresh u3); [done|]. apply (fresh_insert u2); [|by rewrite Hi2].
    apply (idata_fresh u1); [done|]. intros m [i Hi]. simpl in *. apply lookup_insert_Some in Hi as [[<- _]|[_ Hi]]; [lia|].
    assert (m < n)%positive by (apply (listed_fresh _ _ _ L); by exists i). lia.
Qed.

(** The names of the usable interfaces, in the order of the kernel. *)
Definition usable_names (addrs : list ifaddr) : list (list Z) := ifa_name <$> filter (fun a => usable a = true) addrs.

Lemma add_ifaces_ok addrs u l names :
  listed u l names -> (forall a, a ∈ addrs -> (length (ifa_name a) < 16)%nat) -> (forall k, malloc_ok k = true) ->
  exists u' l', add_ifaces addrs u = UOk tt u' /\ listed u' (l ++ l') (names ++ usable_names addrs) /\ calls u' = calls u.
Proof.
  revert u l names. induction addrs as [|a addrs IH]; intros u l names L Hlen Hm.
  - exists u, []. by rewrite !app_nil_r.
  - cbn [add_ifaces]. unfold usable_names. rewrite filter_cons. destruct (usable a) eqn:Ha.
    + destruct (add_iface_ok u l names a L Ha) as (u1 & E1 & L1 & _ & Hc1); [apply Hlen; set_solver|done|].
      rewrite (u_bind_ok _ _ _ _ _ E1).
      destruct (IH u1 _ _ L1) as (u' & l' & E & L' & Hc); [set_solver|done|]. exists u', (next_if u :: l'). split; [done|].
      rewrite <- !app_assoc in L'. split; [done|congruence].
    + rewrite (u_bind_ok _ _ u tt u) by (unfold add_iface; by rewrite Ha). apply IH; [done|set_solver|done].
Qed.

(** What [dev_names] would hold. *)
Definition dev_names (names : list (list Z)) : list Z := concat (cons 32 <$> names).

Lemma fold_append_name u l names acc :
  Forall2 (fun n name => exists i, ifaces u !! n = Some i /\ if_name i = name) l names ->
  Z.of_nat (length acc) < DEV_NAMES ->
  fold_ifaces append_name acc l u =
  if Z.of_nat (length (acc ++ dev_names names)) <? DEV_NAMES then UOk (acc ++ dev_names names) u else UFault.
Proof.
  intros Hl. revert acc. induction Hl as [|n name l names (i & Hi & <-) _ IH]; intros acc Ha.
  - change (dev_names []) with (@nil Z). rewrite app_nil_r. by destruct (Z.ltb_spec (Z.of_nat (length acc)) DEV_NAMES); [|lia].
  - cbn [fold_ifaces]. change (dev_names (if_name i :: names)) with ((32 :: if_name i) ++ dev_names names). rewrite app_assoc.
    destruct (Z.ltb_spec (Z.of_nat (length (acc ++ 32 :: if_name i))) DEV_NAMES) as [Hs|Hs].
    + rewrite (u_bind_ok _ _ u (acc ++ 32 :: if_name i) u); [by apply IH|].
      unfold append_name. rewrite (u_bind_ok _ _ u i u) by (unfold u_iface; by rewrite Hi). by apply strcpy_ok.
    + assert (append_name acc n u = UFault) as E.
      { unfold append_name. rewrite (u_bind_ok _ _ u i u) by (unfold u_iface; by rewrite Hi).
        unfold strcpy. by destruct (Z.ltb_spec (Z.of_nat (length (acc ++ 32 :: if_name i))) DEV_NAMES); [lia|]. }
      unfold mbind, U_bind. rewrite E.
      destruct (Z.ltb_spec (Z.of_nat (length ((acc ++ 32 :: if_name i) ++ dev_names names))) DEV_NAMES) as [Hc|]; [|done].
      rewrite length_app in Hc. lia.
Qed.

Lemma append_name_links acc n u acc' u' : append_name acc n u = UOk acc' u' -> same_links u u'.
Proof.
  unfold append_name, mbind, U_bind, u_iface, strcpy. destruct (ifaces u !! n); [|done].
  case_match; [|done]. by intros [= _ <-].
Qed.

(** The instance as [init_ustack] leaves it before the search. *)
Definition blank (u : ustack) : Prop := ifaces u = ∅ /\ nifs u = 0.

Lemma find_ifaces_run u :
  blank u -> (forall k, malloc_ok k = true) ->
  let names := usable_names k_ifaddrs in
  exists u' l, listed u' l names /\ calls u' = calls u /\ find_available_ifaces u =
    if nifs u' =? 0 then UExit 1 else if Z.of_nat (length (dev_names names)) <? DEV_NAMES then UOk (dev_names names) u' else UFault.
Proof.
  intros [Hi Hn] Hm names. unfold find_available_ifaces.
  destruct (init_list_head_spec u IHead) as (u1 & E1 & D1 & O1); [by eexists|].
  rewrite (u_bind_ok _ _ u tt u1) by (unfold u_list; by rewrite E1).
  assert (Ed : idata u1 = idata u) by (revert E1; apply init_list_head_view, node_set_idata).
  assert (L1 : listed u1 [] []).
  { split; [done|constructor|injection Ed as _ -> _; by rewrite Hn|]. apply (idata_fresh u); [done|].
    intros n. rewrite Hi, lookup_empty. by intros []. }
  destruct (add_ifaces_ok k_ifaddrs u1 [] [] L1) as (u' & l & E & L & Hc); [apply ifaddrs_short|done|]. simpl in L.
  exists u', l. split; [done|]. split; [by injection Ed as _ _ _ <- _|]. rewrite (u_bind_ok _ _ _ _ _ E), (u_bind_ok _ _ u' u' u') by done. case_match; [done|].
  rewrite (for_each_fold append_name [] l names u' append_name_links L).
  by rewrite (fold_append_name u' l names []) by (apply L || done).
Qed.

(** C33: the start-up code links exactly the interfaces of the kernel that have a
    link-layer address and "-eth" in their names, in the kernel's order and with
    their names, and counts them; without any it exits with 1; and the list of
    names it logs overflows its 1024 bytes as soon as the names and a blank before
    each do not fit with the final 0, which 64 names of 15 letters do not. *)
Theorem find_available_ifaces_spec u :
  blank u -> (forall k, malloc_ok k = true) ->
  let names := usable_names k_ifaddrs in
  (names = [] -> find_available_ifaces u = UExit 1) /\
  (names ≠ [] -> Z.of_nat (length (dev_names names)) < DEV_NAMES ->
     exists u' l, find_available_ifaces u = UOk (dev_names names) u' /\ listed u' l names) /\
  (DEV_NAMES <= Z.of_nat (length (dev_names names)) -> find_available_ifaces u = UFault).
Proof.
  intros Hb Hm names. destruct (find_ifaces_run u Hb Hm) as (u' & l & L & _ & ->). fold names in L |- *.
  pose proof (Forall2_length _ _ _ (listed_names _ _ _ L)) as Hl. rewrite (listed_nifs _ _ _ L), Hl.
  split; [by intros ->|]. split.
  - intros Hne Hlen. exists u', l. destruct names; [done|]. simpl length at 1. split; [|done].
    destruct (Z.eqb_spec (Z.of_nat (S (length names))) 0); [lia|].
    by destruct (Z.ltb_spec (Z.of_nat (length (dev_names (l0 :: names)))) DEV_NAMES); [|lia].
  - intros Hlen. destruct names; [by compute in Hlen|]. simpl length at 1.
    destruct (Z.eqb_spec (Z.of_nat (S (length names))) 0); [lia|].
    by destruct (Z.ltb_spec (Z.of_nat (length (dev_names (l0 :: names)))) DEV_NAMES); [lia|].
Qed.

(** *** One device *)

(** What the kernel answers about a device: the descriptor bound to it, its index
    and hardware address, and its address and mask as bytes in network order. *)
Record device := Device { dv_fd : Z; dv_index : Z; dv_mac : list Z; dv_ip : list Z; dv_mask : list Z }.

(** The answers to the calls from the [c]-th on.  Four have to succeed for the
    descriptor; the answers of the next three are used whether they succeed or
    not (a failed [ioctl] leaves what was there, at first [k_garbage]); the last
    two have to succeed. *)
Definition device_fd (c : nat) (name : list Z) : option Z :=
  let fd := k_socket c in
  if fd <? 0 then None
  else
    ifr ← k_ioctl (1 + c) fd SIOCGIFINDEX name (replicate (Z.to_nat IFR_UNION) 0);
    if k_bind (2 + c) fd (ifr_ifindex ifr) <? 0 then None
    else _ ← k_ioctl (3 + c) fd SIOCGIFHWADDR name ifr; Some fd.
Definition device_at (c : nat) (name : list Z) : option device :=
  fd ← device_fd c name;
  let s := k_socket (4 + c) in
  let by_index := default k_garbage (k_ioctl (5 + c) s SIOCGIFINDEX name k_garbage) in
  let by_hwaddr := default by_index (k_ioctl (6 + c) s SIOCGIFHWADDR name by_index) in
  by_addr ← k_ioctl (7 + c) fd SIOCGIFADDR name by_hwaddr;
  by_mask ← k_ioctl (8 + c) fd SIOCGIFNETMASK name by_addr;
  Some (Device fd (ifr_ifindex by_index) (ifr_hwaddr by_hwaddr) (ifr_sin_addr by_addr) (ifr_sin_addr by_mask)).

(** The devices one after the other, nine calls for each; [None] when one of them
    cannot be opened or described. *)
Fixpoint devices (c : nat) (names : list (list Z)) : option (list device) :=
  match names with
  | [] => Some []
  | name :: names => d ← device_at c name; ds ← devices (9 + c) names; Some (d :: ds)
  end.

(** The interface that describes a device. *)
Definition described (d : device) (i : iface_info) : iface_info :=
  Iface (if_list i) (dv_fd d) (dv_index d) (dv_mac d) (ntohl (le_load (dv_ip d))) (ntohl (le_load (dv_mask d)))
        (if_name i) (inet_ntoa (dv_ip d)).

Lemma device_fd_range c name fd : device_fd c name = Some fd -> 0 <= fd.
Proof.
  unfold device_fd. destruct (Z.ltb_spec (k_socket c) 0) as [|Hs]; [done|].
  destruct (k_ioctl (1 + c) _ _ _ _); [|done]. cbn [mbind option_bind]. case_match; [done|].
  destruct (k_ioctl (3 + c) _ _ _ _); [|done]. by intros [= <-].
Qed.

Lemma devices_fds c names ds : devices c names = Some ds -> Forall (fun d => 0 <= dv_fd d) ds.
Proof.
  revert c ds. induction names as [|name names IH]; intros c ds; cbn [devices]; [by intros [= <-]|].
  destruct (device_at c name) as [d|] eqn:E; [|done]. cbn [mbind option_bind].
  destruct (devices (9 + c) names) as [ds'|] eqn:E'; [|done]. intros [= <-]. constructor; [|by eapply IH].
  revert E. unfold device_at. destruct (device_fd c name) as [fd|] eqn:Ef; [|done]. cbn [mbind option_bind].
  destruct (k_ioctl (7 + c) _ _ _ _) as [r|]; [|done]. cbn [mbind option_bind].
  destruct (k_ioctl (8 + c) _ _ _ _); [|done]. intros [= <-]. by apply device_fd_range in Ef.
Qed.

Section Device.
Context (n : positive) (u : ustack).

(** [u] with another interface [n], [k] system calls later. *)
Definition after_calls (i : iface_info) (k : nat) : ustack :=
  Ustack (iface_list u) (nifs u) (fds u) (<[n := i]> (ifaces u)) (next_if u) (k + calls u) (allocs u).

Lemma after_calls_0 i : ifaces u !! n = Some i -> after_calls i 0 = u.
Proof. intros Hi. unfold after_calls. rewrite insert_id by done. by destruct u. Qed.

Lemma iface_after {B} (f : iface_info -> U B) i k : (u_iface n ≫= f) (after_calls i k) = f i (after_calls i k).
Proof. apply u_bind_ok. unfold u_iface. simpl. by rewrite lookup_insert_eq. Qed.
Lemma modify_after {B} f (g : unit -> U B) i k : (u_modify n f ≫= g) (after_calls i k) = g tt (after_calls (f i) k).
Proof.
  apply u_bind_ok. unfold u_modify. simpl. rewrite lookup_insert_eq. unfold set_ifaces, after_calls. simpl.
  by rewrite insert_insert_eq.
Qed.
Lemma socket_after {B} (f : Z -> U B) i k :
  (sys_socket ≫= f) (after_calls i k) = f (k_socket (k + calls u)) (after_calls i (S k)).
Proof. by apply u_bind_ok. Qed.
Lemma bind_after {B} fd ix (f : Z -> U B) i k :
  (sys_bind fd ix ≫= f) (after_calls i k) = f (k_bind (k + calls u) fd ix) (after_calls i (S k)).
Proof. by apply u_bind_ok. Qed.
Lemma ioctl_after {B} fd r name un (f : option (list Z) -> U B) i k :
  (sys_ioctl fd r name un ≫= f) (after_calls i k) = f (k_ioctl (k + calls u) fd r name un) (after_calls i (S k)).
Proof. by apply u_bind_ok. Qed.
Lemma strcpy_after {B} size s (f : list Z -> U B) i k :
  Z.of_nat (length s) < size -> (strcpy size s ≫= f) (after_calls i k) = f s (after_calls i k).
Proof. intros Hs. by apply u_bind_ok, strcpy_ok. Qed.

Lemma open_device_after name i :
  (length name < 16)%nat ->
  match device_fd (calls u) name with
  | Some fd => open_device name (after_calls i 0) = UOk fd (after_calls i 4)
  | None => exists k, open_device name (after_calls i 0) = UOk (-1) (after_calls i k)
  end.
Proof.
  intros Hl. unfold open_device, device_fd. rewrite socket_after. simpl (0 + calls u)%nat.
  destruct (k_socket (calls u) <? 0); [by eexists|]. rewrite strcpy_after by (unfold IFNAMSIZ; lia).
  rewrite ioctl_after. destruct (k_ioctl (1 + calls u) _ _ _ _) as [ifr|]; [|by eexists]. cbn [mbind option_bind].
  rewrite bind_after. destruct (k_bind (2 + calls u) _ _ <? 0); [by eexists|]. rewrite ioctl_after.
  destruct (k_ioctl (3 + calls u) _ _ _ _); [done|by eexists].
Qed.
End Device.

(** [read_iface_info] puts what the kernel answers into the interface, or ends the
    program; when [open_device] has failed, that is at [SIOCGIFADDR]. *)
Lemma read_iface_info_run n i u :
  ifaces u !! n = Some i -> (length (if_name i) < 16)%nat ->
  read_iface_info n u =
  match device_at (calls u) (if_name i) with
  | Some d => UOk (dv_fd d) (after_calls n u (described d i) 9)
  | None => UExit 1
  end.
Proof.
  intros Hi Hl. rewrite <- (after_calls_0 n u i Hi) at 1. unfold read_iface_info. rewrite iface_after.
  pose proof (open_device_after n u (if_name i) i Hl) as Ho. unfold device_at.
  assert (Hname : Z.of_nat (length (if_name i)) < IFNAMSIZ) by (unfold IFNAMSIZ; lia).
  destruct (device_fd (calls u) (if_name i)) as [fd|]; cbn [mbind option_bind].
  - rewrite (u_bind_ok _ _ _ _ _ Ho), modify_after, socket_after, iface_after, strcpy_after by done.
    rewrite ioctl_after, modify_after, ioctl_after, modify_after, ioctl_after. cbn [if_name with_fd].
    set (r5 := k_ioctl (5 + calls u) _ _ _ _). set (r6 := k_ioctl (6 + calls u) _ _ _ _).
    destruct (k_ioctl (7 + calls u) fd SIOCGIFADDR (if_name i) (default _ r6)) as [r7|]; [|done].
    cbn [mbind option_bind]. rewrite modify_after.
    rewrite strcpy_after by (pose proof (length_inet_ntoa (ifr_sin_addr r7)); lia).
    rewrite modify_after, ioctl_after. destruct (k_ioctl (8 + calls u) _ _ _ _) as [r8|]; [|done].
    cbn [mbind option_bind]. by rewrite modify_after.
  - destruct Ho as [k Ho]. rewrite (u_bind_ok _ _ _ _ _ Ho), modify_after, socket_after, iface_after, strcpy_after by done.
    rewrite ioctl_after, modify_after, ioctl_after, modify_after, ioctl_after. by rewrite ioctl_bad_fd.
Qed.

(** *** The loop over the interfaces *)

(** One interface has changed, and not in its links or its name. *)
Definition rest (u : ustack) := (iface_list u, nifs u, fds u, next_if u, allocs u).
Definition touched (n : positive) (i0 : iface_info) (u0 : ustack) (i : iface_info) (u : ustack) : Prop :=
  ifaces u = <[n := i]> (ifaces u0) /\ rest u = rest u0 /\ if_list i = if_list i0 /\ if_name i = if_name i0.

Lemma touched_links n i0 u i u' : ifaces u !! n = Some i0 -> touched n i0 u i u' -> same_links u u'.
Proof.
  intros Hi (Ei & Er & El & _) [| |m]; simpl.
  - done.
  - by injection Er as ->.
  - rewrite Ei. destruct (decide (m = n)) as [->|]; [rewrite lookup_insert_eq, Hi; simpl; by rewrite El|by rewrite lookup_insert_ne].
Qed.

Lemma touched_listed n i0 u i u' l names :
  ifaces u !! n = Some i0 -> touched n i0 u i u' -> listed u l names -> listed u' l names.
Proof.
  intros Hi T L. pose proof (touched_links _ _ _ _ _ Hi T) as Hs. destruct T as (Ei & Er & _ & En). injection Er as _ En' _ Ex _. split.
  - apply (dlist_ext u); [apply L|]. intros x _. apply Hs.
  - eapply Forall2_impl; [apply (listed_names _ _ _ L)|]. intros m name (j & Hj & <-). rewrite Ei.
    destruct (decide (m = n)) as [->|]; [rewrite lookup_insert_eq; exists i; split; congruence|].
    rewrite lookup_insert_ne by done. by exists j.
  - rewrite En'. apply L.
  - intros m Hm. rewrite Ex. apply (listed_fresh _ _ _ L). rewrite Ei in Hm. apply lookup_insert_is_Some' in Hm as [<-|Hm]; [|done].
    by exists i0.
Qed.

Definition open_iface (k : nat) (iface : positive) : U nat :=
  fd ← read_iface_info iface; set_pollfd k fd;; mret (S k).

(** Interface [n] describes the device, and the element of [fds] for it. *)
Definition is_device (u : ustack) (n : positive) (d : device) : Prop :=
  exists i, ifaces u !! n = Some (described d i).
Definition polls (d : device) : pollfd := Pollfd (dv_fd d) POLLIN.

Lemma open_iface_run all pre n l names ps u i d :
  all = pre ++ n :: l -> listed u all names -> ifaces u !! n = Some i -> (length (if_name i) < 16)%nat ->
  fds u = (polls <$> ps) ++ replicate (S (length l)) (Pollfd 0 0) -> Forall2 (is_device u) pre ps ->
  device_at (calls u) (if_name i) = Some d ->
  exists u', open_iface (length pre) n u = UOk (S (length pre)) u' /\ listed u' all names /\
    fds u' = (polls <$> (ps ++ [d])) ++ replicate (length l) (Pollfd 0 0) /\
    Forall2 (is_device u') (pre ++ [n]) (ps ++ [d]) /\ calls u' = (9 + calls u)%nat.
Proof.
  intros Eall L Hi Hl Hf Hp Ed. set (u1 := after_calls n u (described d i) 9).
  set (u2 := set_fds (<[length pre := polls d]> (fds u)) u1). exists u2.
  pose proof (Forall2_length _ _ _ Hp) as Hlen.
  assert (Hk : fds u !! length pre = Some (Pollfd 0 0)).
  { rewrite Hf, Hlen, lookup_app_r by (rewrite length_fmap; lia). by rewrite length_fmap, Nat.sub_diag. }
  split; [|split; [|split; [|split; [|done]]]].
  - unfold open_iface. rewrite (u_bind_ok _ _ u (dv_fd d) u1) by (by rewrite (read_iface_info_run n i u Hi Hl), Ed).
    by rewrite (u_bind_ok _ _ u1 tt u2) by (unfold set_pollfd; change (fds u1) with (fds u); by rewrite Hk).
  - assert (L1 : listed u1 all names) by (apply (touched_listed n i u (described d i)); done).
    destruct L1 as [D N C F]. split; [by apply (dlist_ext u1); [|intros []]|done|done|done].
  - simpl. rewrite Hf, fmap_app, <- app_assoc, insert_app_r_alt by (rewrite length_fmap; lia).
    by rewrite length_fmap, Hlen, Nat.sub_diag.
  - pose proof (listed_NoDup _ _ _ L) as ND. rewrite Eall in ND. apply NoDup_app in ND as (_ & Hpre & _).
    apply Forall2_app; [|constructor; [|done]; exists i; simpl; by rewrite lookup_insert_eq].
    apply Forall2_same_length_lookup in Hp as [_ Hp]. apply Forall2_same_length_lookup. split; [done|].
    intros k m e Hm He. destruct (Hp k m e Hm He) as (j & Hj). exists j. simpl.
    by rewrite lookup_insert_ne by (intros <-; apply list_elem_of_lookup_2 in Hm; apply (Hpre n Hm); set_solver).
Qed.

Lemma open_ifaces_run all pre l names npre nl ps u :
  all = pre ++ l -> names = npre ++ nl -> length npre = length pre -> listed u all names ->
  Forall (fun name => (length name < 16)%nat) names ->
  fds u = (polls <$> ps) ++ replicate (length l) (Pollfd 0 0) -> Forall2 (is_device u) pre ps ->
  match devices (calls u) nl with
  | Some ds => exists k u', fold_ifaces open_iface (length pre) l u = UOk k u' /\ listed u' all names /\
      fds u' = polls <$> (ps ++ ds) /\ Forall2 (is_device u') all (ps ++ ds)
  | None => fold_ifaces open_iface (length pre) l u = UExit 1
  end.
Proof.
  revert pre npre nl ps u. induction l as [|n l IH]; intros pre npre nl ps u Eall Enames Hnp L Hshort Hf Hp.
  - pose proof (Forall2_length _ _ _ (listed_names _ _ _ L)) as Hlen. subst names all.
    rewrite !length_app in Hlen. simpl in Hlen. destruct nl; [|simpl in Hlen; lia]. simpl. exists (length pre), u.
    rewrite !app_nil_r in *. done.
  - pose proof (listed_names _ _ _ L) as HN. subst names. pose proof HN as HN'. rewrite Eall in HN'.
    destruct nl as [|name nl]; [apply Forall2_length in HN'; rewrite !length_app in HN'; simpl in HN'; lia|].
    apply Forall2_app_inv in HN' as [_ HN']; [|done]. apply Forall2_cons in HN' as [(i & Hi & <-) _].
    assert (Hl : (length (if_name i) < 16)%nat) by (apply Forall_app in Hshort as [_ Hs]; by inversion Hs).
    cbn [devices fold_ifaces]. destruct (device_at (calls u) (if_name i)) as [d|] eqn:Ed; cbn [mbind option_bind].
    + destruct (open_iface_run all pre n l _ ps u i d Eall L Hi Hl Hf Hp Ed) as (u' & E & L' & Hf' & Hp' & Hc).
      rewrite (u_bind_ok _ _ _ _ _ E). rewrite <- Hc.
      specialize (IH (pre ++ [n]) (npre ++ [if_name i]) nl (ps ++ [d]) u').
      rewrite <- !app_assoc, !length_app in IH. simpl in IH. rewrite !Nat.add_1_r in IH.
      specialize (IH Eall eq_refl ltac:(lia) L' Hshort Hf' Hp').
      destruct (devices (calls u') nl) as [ds|]; cbn [mbind option_bind]; [|exact IH].
      destruct IH as (k & u2 & IH). rewrite <- app_assoc in IH. by exists k, u2.
    + apply u_bind_exit. unfold open_iface. apply u_bind_exit. by rewrite (read_iface_info_run n i u Hi Hl), Ed.
Qed.

(** *** Code that does not touch the links *)

Definition keeps_links {A} (m : U A) : Prop := forall u a u', m u = UOk a u' -> same_links u u'.

Lemma links_bind {A B} (m : U A) (k : A -> U B) : keeps_links m -> (forall a, keeps_links (k a)) -> keeps_links (m ≫= k).
Proof.
  intros Hm Hk u b u'. unfold mbind, U_bind. destruct (m u) as [a u1| |] eqn:E; [|done..]. intros E' p.
  by rewrite (Hk _ _ _ _ E' p), (Hm _ _ _ E p).
Qed.
Lemma links_ret {A} (a : A) : keeps_links (mret a).
Proof. by intros u b u' [= _ <-]. Qed.
Lemma links_exit {A} c : keeps_links (@u_exit A c).
Proof. done. Qed.
Lemma links_iface n : keeps_links (u_iface n).
Proof. intros u b u'. unfold u_iface. destruct (ifaces u !! n); [|done]. by intros [= _ <-]. Qed.
Lemma links_strcpy size s : keeps_links (strcpy size s).
Proof. intros u b u'. unfold strcpy. case_match; [|done]. by intros [= _ <-]. Qed.
Lemma links_modify n f : (forall i, if_list (f i) = if_list i) -> keeps_links (u_modify n f).
Proof.
  intros Hf u b u'. unfold u_modify. destruct (ifaces u !! n) as [i|] eqn:E; [|done]. intros [= _ <-] [| |m]; [done..|]. simpl.
  destruct (decide (n = m)) as [<-|]; [rewrite lookup_insert_eq, E; simpl; by rewrite Hf|by rewrite lookup_insert_ne].
Qed.
Lemma links_socket : keeps_links sys_socket.
Proof. intros u b u' [= _ <-]. by intros []. Qed.
Lemma links_bind_call fd i : keeps_links (sys_bind fd i).
Proof. intros u b u' [= _ <-]. by intros []. Qed.
Lemma links_ioctl fd r name un : keeps_links (sys_ioctl fd r name un).
Proof. intros u b u' [= _ <-]. by intros []. Qed.
Lemma links_set_pollfd k fd : keeps_links (set_pollfd k fd).
Proof. intros u b u'. unfold set_pollfd. destruct (fds u !! k); [|done]. intros [= _ <-]. by intros []. Qed.

Create HintDb links.
Hint Resolve links_ret links_exit links_iface links_strcpy links_socket links_bind_call links_ioctl links_set_pollfd : links.

Ltac links :=
  repeat first
    [ apply links_bind; [|intros ?] | solve [auto with links] | apply links_modify; done | case_match ].

Lemma links_open_iface k n : keeps_links (open_iface k n).
Proof. unfold open_iface, read_iface_info, open_device. links. Qed.

Lemma usable_names_short : Forall (fun name => (length name < 16)%nat) (usable_names k_ifaddrs).
Proof.
  apply Forall_fmap, Forall_forall. intros a Ha. apply list_elem_of_filter in Ha as [_ Ha]. by apply ifaddrs_short.
Qed.

(** An interface that was opened: its descriptor, and its address as a number and
    as text. *)
Definition opened (i : iface_info) : Prop :=
  0 <= if_fd i /\ exists addr, if_ip i = ntohl (le_load addr) /\ if_ip_str i = inet_ntoa addr.

(** The interface [n] of [u] is polled as [p]. *)
Definition polled (u : ustack) (n : positive) (p : pollfd) : Prop :=
  exists i, ifaces u !! n = Some i /\ p = Pollfd (if_fd i) POLLIN /\ opened i.

Lemma devices_polled u l ds :
  Forall2 (is_device u) l ds -> Forall (fun d => 0 <= dv_fd d) ds -> Forall2 (polled u) l (polls <$> ds).
Proof.
  intros H2 Hf. induction H2 as [|n d l ds (i & Hi) _ IH]; [constructor|]. apply Forall_cons in Hf as [Hd Hf].
  constructor; [|by apply IH]. exists (described d i). split; [done|]. split; [done|]. split; [done|]. by exists (dv_ip d).
Qed.

(** The interfaces [l] of [u] are the devices [ds], opened and polled in this
    order. *)
Definition all_open (u : ustack) (l : list positive) (names : list (list Z)) (ds : list device) : Prop :=
  listed u l names /\ Forall2 (is_device u) l ds /\ fds u = polls <$> ds /\ Forall2 (polled u) l (fds u).

Lemma init_all_ifaces_run u :
  blank u -> (forall k, malloc_ok k = true) ->
  let names := usable_names k_ifaddrs in
  (names = [] -> init_all_ifaces u = UExit 1) /\
  (DEV_NAMES <= Z.of_nat (length (dev_names names)) -> init_all_ifaces u = UFault) /\
  (names ≠ [] -> Z.of_nat (length (dev_names names)) < DEV_NAMES ->
   match devices (calls u) names with
   | Some ds => exists u' l, init_all_ifaces u = UOk tt u' /\ all_open u' l names ds
   | None => init_all_ifaces u = UExit 1
   end).
Proof.
  intros Hb Hm names. destruct (find_ifaces_run u Hb Hm) as (u1 & l & L & Hc & E1). fold names in L, E1.
  pose proof (Forall2_length _ _ _ (listed_names _ _ _ L)) as Hl. rewrite (listed_nifs _ _ _ L), Hl in E1.
  unfold init_all_ifaces. split; [|split].
  - intros Hn. apply u_bind_exit. by rewrite E1, Hn.
  - intros Hlen. unfold mbind, U_bind. rewrite E1. destruct (Z.eqb_spec (Z.of_nat (length names)) 0).
    + destruct names; [by compute in Hlen|done].
    + by destruct (Z.ltb_spec (Z.of_nat (length (dev_names names))) DEV_NAMES); [lia|].
  - intros Hne Hlen. destruct (Z.eqb_spec (Z.of_nat (length names)) 0); [by destruct names|].
    destruct (Z.ltb_spec (Z.of_nat (length (dev_names names))) DEV_NAMES); [|lia].
    rewrite (u_bind_ok _ _ _ _ _ E1). fold open_iface.
    set (u2 := Ustack (iface_list u1) (nifs u1) (replicate (length l) (Pollfd 0 0)) (ifaces u1) (next_if u1) (calls u1) (S (allocs u1))).
    rewrite (u_bind_ok _ _ u1 tt u2) by (unfold alloc_fds, u2; by rewrite Hm, <- (Nat2Z.id (length l)), <- (listed_nifs _ _ _ L)).
    assert (L2 : listed u2 l names) by (destruct L as [D N C F]; split; [by apply (dlist_ext u1); [|intros []]|done..]).
    pose proof (open_ifaces_run l [] l names [] names [] u2 eq_refl eq_refl eq_refl L2 usable_names_short eq_refl
                  (proj2 (Forall2_nil _) I)) as Hr.
    pose proof (for_each_fold open_iface 0%nat l names u2 (fun k n => links_open_iface k n) L2) as Ef.
    change (length []) with 0%nat in Hr. change (calls u2) with (calls u1) in Hr. rewrite Hc in Hr.
    destruct (devices (calls u) names) as [ds|] eqn:Ed.
    + destruct Hr as (k & u' & E & L' & Hf & Hd). exists u', l. split; [by rewrite E in Ef; rewrite (u_bind_ok _ _ _ _ _ Ef)|].
      split; [done|]. split; [done|]. split; [done|]. rewrite Hf. by eapply devices_polled, devices_fds.
    + rewrite Hr in Ef. by rewrite (u_bind_exit _ _ _ _ Ef).
Qed.

(** The start-up code as a whole: without a usable interface it exits with 1, and
    it faults when their names do not fit into the message it logs.  Otherwise it
    exits with 1 when the kernel does not open or describe one of the devices
    ([devices]), and else ends with every usable interface in the list, holding the
    descriptor, index, hardware address, address (as a number and as text) and
    mask of its device, and polled for input at its index of [fds]. *)
Theorem init_all_ifaces_spec u :
  blank u -> (forall k, malloc_ok k = true) ->
  let names := usable_names k_ifaddrs in
  (names = [] -> init_all_ifaces u = UExit 1) /\
  (DEV_NAMES <= Z.of_nat (length (dev_names names)) -> init_all_ifaces u = UFault) /\
  (names ≠ [] -> Z.of_nat (length (dev_names names)) < DEV_NAMES ->
   match devices (calls u) names with
   | Some ds => exists u' l, init_all_ifaces u = UOk tt u' /\ all_open u' l names ds
   | None => init_all_ifaces u = UExit 1
   end).
Proof. apply init_all_ifaces_run. Qed.

(** *** Finding the interface of a descriptor *)

Lemma fd_to_iface_walk fuel u pos l fd :
  list_walk fuel u pos IHead = Some (INode <$> l) ->
  fd_to_iface_from fuel u pos fd = Some (find (fun i => if_fd i =? fd) (omap (fun n => ifaces u !! n) l)).
Proof.
  revert pos l. induction fuel as [|fuel IH]; intros pos l Hw; [done|]. cbn [list_walk] in Hw. case_decide as Hp.
  - subst pos. injection Hw as Hw. by destruct l.
  - destruct pos as [| |n]; [done..|]. destruct (node_get u (INode n)) as [nd|] eqn:En; [|done]. simpl in Hw.
    destruct (list_walk fuel u (next nd) IHead) as [l'|] eqn:Ew; [|done]. injection Hw as Hw.
    destruct l as [|n' l]; [done|]. simpl in Hw. injection Hw as <- ->. cbn [fd_to_iface_from omap list_omap].
    simpl in En. destruct (ifaces u !! n) as [i|]; [|done]. simpl in En. injection En as En. cbn [mbind option_bind find].
    destruct (if_fd i =? fd); [done|]. rewrite En. by apply IH.
Qed.

Lemma fd_to_iface_run u l names fd :
  listed u l names -> fd_to_iface u fd = Some (find (fun i => if_fd i =? fd) (omap (fun n => ifaces u !! n) l)).
Proof.
  intros L. unfold fd_to_iface. apply fd_to_iface_walk.
  destruct (list_for_each_entry_ok u IHead (INode <$> l) (S (size (ifaces u))) (listed_list _ _ _ L)) as [Hw _]; [|exact Hw].
  rewrite length_fmap. pose proof (listed_length _ _ _ L). lia.
Qed.

Lemma fd_to_iface_at u l names k p :
  listed u l names -> Forall2 (polled u) l (fds u) -> NoDup (pfd_fd <$> fds u) -> fds u !! k = Some p ->
  exists n i, l !! k = Some n /\ ifaces u !! n = Some i /\ if_fd i = pfd_fd p /\
    fd_to_iface u (pfd_fd p) = Some (Some i).
Proof.
  intros L Hp ND Hk. rewrite (fd_to_iface_run u l names _ L).
  destruct (Forall2_lookup_r _ _ _ _ _ Hp Hk) as (n & Hn & i & Hi & -> & _). exists n, i.
  split; [done|]. split; [done|]. split; [done|]. f_equal. clear L. simpl. revert k Hk Hn ND.
  induction Hp as [|m q l' ps (j & Hj & Ej & _) _ IH]; intros [|k] Hk Hn ND; simpl in *; try done; rewrite Hj; simpl.
  - simplify_eq. by rewrite Z.eqb_refl.
  - apply NoDup_cons in ND as [Hq ND]. destruct (Z.eqb_spec (if_fd j) (if_fd i)) as [E|E].
    + destruct Hq. rewrite Ej. simpl. rewrite E. apply list_elem_of_fmap. exists (Pollfd (if_fd i) POLLIN).
      split; [done|]. by eapply list_elem_of_lookup_2.
    + by apply (IH k).
Qed.

(** After the start-up, what arrives on a descriptor is handled for the
    interface that was opened with it: if the kernel gave different descriptors,
    [fd_to_iface] finds for the [k]-th polled descriptor the [k]-th interface of
    the list, and it always ends. *)
Theorem fd_to_iface_spec u l names k p :
  listed u l names -> Forall2 (polled u) l (fds u) -> NoDup (pfd_fd <$> fds u) -> fds u !! k = Some p ->
  exists n i, l !! k = Some n /\ ifaces u !! n = Some i /\ if_fd i = pfd_fd p /\
    fd_to_iface u (pfd_fd p) = Some (Some i).
Proof. apply fd_to_iface_at. Qed.

End Theorems.

(** A host with two interfaces, of which one is usable: "lo" and "h1-eth0". *)
Section Witnesses.
#[local] Instance host_env : Env := {|
  malloc_ok _ := true; block_addr n := 4096 * Z.pos n; table_addr := 1024; timers_addr := 512; past_instance := 0 |}.

(** A host with one usable interface, h1-eth0; the answer of every [ioctl] on an open
    descriptor has the address 10.0.0.x at [sin_addr]. *)
Definition kernel_at (x : Z) : Kernel := {|
  k_ifaddrs := [IfAddr [108; 111] (Some AF_PACKET); IfAddr [104; 49; 45; 101; 116; 104; 48] (Some AF_PACKET)];
  k_socket c := 3 + Z.of_nat c; k_bind _ _ _ := 0;
  k_ioctl _ fd _ _ _ := if fd <? 0 then None else Some ([2; 0; 0; 0; 10; 0; 0; x] ++ replicate 16 0);
  k_garbage := replicate 24 0 |}.

Lemma kernel_at_ok x : @KernelOk (kernel_at x).
Proof.
  split.
  - intros a Ha. simpl in Ha. set_unfold in Ha. destruct Ha as [->|[->|[]]]; simpl; lia.
  - intros c fd r name u Hfd. simpl. by destruct (Z.ltb_spec fd 0); [|lia].
  - intros c fd r name u u'. simpl. case_match; [done|]. by intros [= <-].
  - done.
Qed.

(** Its one device. *)
Definition eth0 : list Z := [104; 49; 45; 101; 116; 104; 48].
Definition device_of (x : Z) : device :=
  Device 3 2 [0; 0; 10; 0; 0; x] [10; 0; 0; x] [10; 0; 0; x].
Lemma kernel_at_devices x : @devices (kernel_at x) 0 [eth0] = Some [device_of x].
Proof. reflexivity. Qed.

(** The host 10.0.0.1. *)
#[local] Instance host_kernel : Kernel := kernel_at 1.
#[local] Instance host_kernel_ok : KernelOk := kernel_at_ok 1.
Lemma host_devices : devices 0 [eth0] = Some [device_of 1].
Proof. reflexivity. Qed.
Definition blank_ustack : ustack := Ustack (ListHead INull INull) 0 [] ∅ 1 0 1.

Lemma find_available_ifaces_spec_witness :
  exists u' l, find_available_ifaces blank_ustack = UOk [32; 104; 49; 45; 101; 116; 104; 48] u' /\
    listed u' l [[104; 49; 45; 101; 116; 104; 48]].
Proof.
  destruct (find_available_ifaces_spec blank_ustack) as (_ & Hok & _); [split; reflexivity|reflexivity|].
  apply Hok; [discriminate|vm_compute; reflexivity].
Defined.

Lemma init_all_ifaces_spec_witness :
  exists u' l, init_all_ifaces blank_ustack = UOk tt u' /\ all_open u' l [eth0] [device_of 1].
Proof.
  destruct (init_all_ifaces_spec blank_ustack) as (_ & _ & Hr); [split; reflexivity|reflexivity|].
  change (usable_names k_ifaddrs) with [eth0] in Hr. change (calls blank_ustack) with 0%nat in Hr.
  rewrite host_devices in Hr. apply Hr; [discriminate|vm_compute; reflexivity].
Defined.

Definition host : ustack := match init_all_ifaces blank_ustack with UOk _ u => u | _ => blank_ustack end.
Lemma host_open : exists l, all_open host l [eth0] [device_of 1].
Proof.
  destruct (init_all_ifaces_run blank_ustack) as (_ & _ & Hr); [split; reflexivity|reflexivity|].
  change (usable_names k_ifaddrs) with [eth0] in Hr. change (calls blank_ustack) with 0%nat in Hr.
  rewrite host_devices in Hr. destruct Hr as (u & l & E & Ho); [discriminate|vm_compute; reflexivity|].
  exists l. unfold host. by rewrite E.
Qed.

Lemma fd_to_iface_spec_witness : exists i, fd_to_iface host 3 = Some (Some i) /\ if_ip i = 0x0a000001.
Proof.
  destruct host_open as (l & L & _ & _ & P).
  destruct (fd_to_iface_spec host l [eth0] 0 (Pollfd 3 POLLIN) L P) as (n & i & _ & _ & _ & Ef).
  - vm_compute. apply NoDup_singleton.
  - vm_compute. reflexivity.
  - exists i. split; [exact Ef|]. vm_compute in Ef. by injection Ef as <-.
Defined.
End Witnesses.
