(* ===== verification/Wire.v ===== *)
(** * ICMP checksums and printed addresses (include/icmp.h, include/ip.h)

    The two pieces of code in the headers that the C files leave to the library
    or use only for messages: [icmp_checksum] on the memory of a message, and the
    macros that print an IP address. *)

From S2P Require Import Prelude Checksum RingBuffer Segment Ifaces.

(** ** ICMP *)

Definition ICMP_HDR_SIZE : Z := 8.

(** [struct icmphdr], packed, and its image in memory. *)
Record icmphdr := IcmpHdr {
  icmp_type : Z; icmp_code : Z; icmp_check : Z; icmp_identifier : Z; icmp_sequence : Z
}.
Definition icmphdr_bytes (h : icmphdr) : list Z :=
  [icmp_type h; icmp_code h] ++ le_store 2 (icmp_check h) ++ le_store 2 (icmp_identifier h) ++
  le_store 2 (icmp_sequence h).

(** The sum, and the memory from [icmp] on after the call: the member is zeroed,
    [len] bytes are added up, the member is restored.  [None]: an access outside
    the memory (an odd negative [len] makes [checksum] read before it). *)
Definition icmp_checksum (icmp : list Z) (len : Z) : option (Z * list Z) :=
  if (length icmp <? 4)%nat then None
  else
    let tmp := load 2 icmp 2 in
    let icmp := Ring.memcpy icmp 2 [0; 0] in
    if (len <? 0) && Z.odd len then None
    else
      bs ← read_bytes icmp len;
      Some (checksum bs 0, Ring.memcpy icmp 2 (le_store 2 tmp)).

(** ** Addresses in messages *)

(** The bytes of the variable in the order in which the macros list them. *)
Definition LE_IP_FMT_STR (ip : Z) : list Z := rev (le_store 4 ip).
Definition BE_IP_FMT_STR (ip : Z) : list Z := le_store 4 ip.
Definition NET_IP_FMT_STR (ip : Z) : list Z := BE_IP_FMT_STR ip.
Definition HOST_IP_FMT_STR (ip : Z) : list Z := LE_IP_FMT_STR ip.

(** What [printf] makes of [IP_FMT] and four bytes: the format of [inet_ntoa]. *)
Definition ip_fmt (bytes : list Z) : list Z := inet_ntoa bytes.

(** Reading a printed address: decimal numbers separated by dots (46). *)
Fixpoint read_addr (s : list Z) (octet acc : Z) : Z :=
  match s with
  | [] => 256 * acc + octet
  | c :: s => if c =? 46 then read_addr s 0 (256 * acc + octet) else read_addr s (10 * octet + (c - 48)) acc
  end.

(** ** Theorems *)

Lemma memcpy_at pre mid post new :
  length new = length mid -> Ring.memcpy (pre ++ mid ++ post) (Z.of_nat (length pre)) new = pre ++ new ++ post.
Proof.
  intros Hl. unfold Ring.memcpy. rewrite Nat2Z.id.
  replace (length pre) with (length pre + 0)%nat by lia. rewrite list_inserts_app_r. f_equal.
  by rewrite list_inserts_0_r.
Qed.

Lemma load2_at pre x post :
  is_u16 x -> load 2 (pre ++ le_store 2 x ++ post) (length pre) = x.
Proof.
  intros Hx. unfold load. rewrite drop_app_length.
  rewrite take_app_length' by (by rewrite length_le_store). rewrite le_load_store. unfold is_u16 in Hx.
  apply Z.mod_small. lia.
Qed.

(** [icmp_checksum] of a message of even length (header included, at most
    65535 bytes) leaves the message as it was and returns the RFC 1071 checksum of
    the message with its checksum member zero, whatever the member holds and
    whatever follows in memory; with this value stored in the member, the sum over
    the whole message is all ones, so the receiver accepts it.  Beyond the end of
    the memory the call is out of bounds. *)
Theorem icmp_checksum_spec h body rest :
  bytes_ok (icmphdr_bytes h ++ body) -> is_u16 (icmp_check h) -> Nat.even (length body) = true ->
  8 + Z.of_nat (length body) <= 65535 ->
  let with_check c := icmphdr_bytes (IcmpHdr (icmp_type h) (icmp_code h) c (icmp_identifier h) (icmp_sequence h)) ++ body in
  let mem := icmphdr_bytes h ++ body ++ rest in
  let c := rfc1071 (with_check 0) in
  icmp_checksum mem (ICMP_HDR_SIZE + Z.of_nat (length body)) = Some (c, mem) /\
  onec_sum (words16 (with_check c)) = 0xffff /\
  forall len, Z.of_nat (length mem) < len -> icmp_checksum mem len = None.
Proof.
  intros Hb Hck He Hl with_check mem c. destruct h as [ty co ck id sq]. simpl in Hck.
  set (pre := [ty; co]). set (post := le_store 2 id ++ le_store 2 sq ++ body).
  assert (Hw : forall v, with_check v = pre ++ le_store 2 v ++ post) by done.
  assert (Em : mem = pre ++ le_store 2 ck ++ (post ++ rest)) by reflexivity.
  assert (Hlen : length (with_check 0) = (8 + length body)%nat) by done.
  assert (Hpost : Nat.even (length post) = true) by exact He.
  assert (Hok : bytes_ok pre /\ bytes_ok post).
  { assert (E : icmphdr_bytes (IcmpHdr ty co ck id sq) ++ body = pre ++ le_store 2 ck ++ post) by done.
    rewrite E, !Forall_app in Hb. tauto. }
  destruct Hok as [Hpre Hpo].
  assert (Hz : bytes_ok (with_check 0)).
  { rewrite Hw, !Forall_app. split; [done|]. split; [|done]. repeat constructor; unfold is_u8; vm_compute; congruence. }
  assert (Hrun : checksum (with_check 0) 0 = c)
    by (apply checksum_even_run; [done|by rewrite Hlen|rewrite Hlen; lia]).
  assert (Hunfold : forall len, icmp_checksum mem len =
    if (len <? 0) && Z.odd len then None else bs ← read_bytes (with_check 0 ++ rest) len; Some (checksum bs 0, mem)).
  { intros len. unfold icmp_checksum. rewrite Em. rewrite (load2_at pre ck) by done.
    rewrite (memcpy_at pre (le_store 2 ck) _ [0; 0]) by done.
    rewrite (memcpy_at pre [0; 0] _ (le_store 2 ck)) by done.
    rewrite Hw. by rewrite <- !app_assoc. }
  split; [|split].
  - rewrite Hunfold. unfold ICMP_HDR_SIZE. rewrite (proj2 (Z.ltb_ge _ 0)) by lia. cbn [andb].
    unfold read_bytes. rewrite length_app, Hlen. rewrite (proj2 (Z.leb_le _ _)) by lia.
    replace (Z.to_nat _) with (length (with_check 0)) by (rewrite Hlen; lia).
    rewrite take_app_length. cbn [mbind option_bind]. by rewrite Hrun.
  - rewrite <- Hrun, !Hw. apply checksum_verifies; [done..|]. change ([0; 0]) with (le_store 2 0).
    rewrite <- Hw, Hlen. lia.
  - intros len Hlong. rewrite Hunfold. rewrite (proj2 (Z.ltb_ge _ 0)) by lia. cbn [andb].
    unfold read_bytes. assert (length (with_check 0 ++ rest) = length mem) as ->.
    { rewrite Em, Hw, <- !app_assoc. by rewrite !length_app, !length_le_store. }
    by rewrite (proj2 (Z.leb_gt _ _)) by lia.
Qed.

(** An echo request with four bytes of data. *)
Lemma icmp_checksum_spec_witness :
  exists c, icmp_checksum [8; 0; 1; 2; 0; 1; 0; 1; 10; 20; 30; 40; 99] 12 = Some (c, [8; 0; 1; 2; 0; 1; 0; 1; 10; 20; 30; 40; 99]).
Proof.
  destruct (icmp_checksum_spec (IcmpHdr 8 0 513 256 256) [10; 20; 30; 40] [99]) as [R _].
  - repeat constructor; unfold is_u8; vm_compute; congruence.
  - unfold is_u16. simpl. lia.
  - reflexivity.
  - simpl. lia.
  - eexists. exact R.
Defined.

Lemma read_dec b s acc : is_u8 b -> read_addr (dec b ++ s) 0 acc = read_addr s b acc.
Proof.
  intros Hb. unfold is_u8 in Hb.
  assert (Hd : forall d s' o, 0 <= d < 10 -> read_addr (48 + d :: s') o acc = read_addr s' (10 * o + d) acc).
  { intros d s' o Hd. cbn [read_addr]. destruct (Z.eqb_spec (48 + d) 46); [lia|]. do 2 f_equal. lia. }
  pose proof (Z.mod_pos_bound b 10). pose proof (Z.mod_pos_bound (b / 10) 10).
  pose proof (Z.div_mod b 10). pose proof (Z.div_mod (b / 10) 10).
  assert (b / 100 = b / 10 / 10) as E by (by rewrite Z.div_div by lia).
  pose proof (Z.div_pos b 100). pose proof (Z.div_lt_upper_bound b 100 10).
  unfold dec. rewrite E. destruct (Z.leb_spec 100 b); destruct (Z.leb_spec 10 b); try lia; cbn [app].
  - rewrite !Hd by lia. f_equal; lia.
  - rewrite !Hd by lia. f_equal; lia.
  - rewrite Hd by lia. f_equal. rewrite Z.mod_small; lia.
Qed.

(** The messages show the right addresses: four bytes printed with [IP_FMT]
    read back as the number they stand for, so [HOST_IP_FMT_STR] prints an
    address kept in host order, [NET_IP_FMT_STR] one in network order, and
    different addresses are never printed alike. *)
Theorem printed_addresses ip :
  is_u32 ip -> read_addr (ip_fmt (HOST_IP_FMT_STR ip)) 0 0 = ip /\
               read_addr (ip_fmt (NET_IP_FMT_STR ip)) 0 0 = ntohl ip.
Proof.
  intros Hip.
  assert (Hq : forall a b c d, bytes_ok [a; b; c; d] ->
    read_addr (ip_fmt [a; b; c; d]) 0 0 = le_load [d; c; b; a]).
  { intros a b c d Hb. apply Forall_cons in Hb as [Ha Hb]. do 2 apply Forall_cons in Hb as [? Hb].
    apply Forall_cons in Hb as [Hd' _].
    unfold ip_fmt, inet_ntoa. rewrite !read_dec by done. simpl. rewrite !read_dec by done. simpl.
    rewrite read_dec by done. simpl. rewrite <- (app_nil_r (dec d)), read_dec by done. simpl. lia. }
  assert (Hb : bytes_ok (le_store 4 ip)) by auto with cint.
  assert (E : exists a b c d, le_store 4 ip = [a; b; c; d]) by (simpl; eauto).
  destruct E as (a & b & c & d & E). rewrite E in Hb. split.
  - unfold HOST_IP_FMT_STR, LE_IP_FMT_STR. rewrite E. simpl rev. rewrite Hq by (by apply (Forall_rev (P := is_u8) (l := [a; b; c; d]))).
    rewrite <- E, le_load_store. apply Z.mod_small. exact Hip.
  - unfold NET_IP_FMT_STR, BE_IP_FMT_STR, htonl. rewrite E. by rewrite Hq.
Qed.

(** 10.0.0.1, kept in host order. *)
Lemma printed_addresses_witness :
  ip_fmt (HOST_IP_FMT_STR 0x0a000001) = [49; 48; 46; 48; 46; 48; 46; 49] /\
  read_addr (ip_fmt (HOST_IP_FMT_STR 0x0a000001)) 0 0 = 0x0a000001.
Proof. split; [vm_compute; reflexivity|]. apply printed_addresses. unfold is_u32. lia. Defined.
