(* ===== verification/Log.v ===== *)
(** * Messages (include/log.h, and the [log] calls of the C files)

    [log] drops what lies below [this_log_level] and prints the rest on one line
    with the name of its level.  Every call of the program is a definition, with the
    format string and the arguments it passes ([log_switch_state] and so on), and
    [message] is the type of them all; [sprintf] interprets the conversions that
    occur.  Shown: which messages come out, that every call's
    arguments fit its format (a mismatch is undefined in C), that a message is one
    line, and that the message of a state change can be read back. *)

From S2P Require Import Prelude RingBuffer Segment Ifaces Wire.
From stdpp Require Import strings.
#[local] Open Scope Z_scope.

(** ** Levels *)

Inductive log_level := DEBUG | INFO | WARNING | ERROR.

Definition level_num (l : log_level) : Z :=
  match l with DEBUG => 0 | INFO => 1 | WARNING => 2 | ERROR => 3 end.
Definition this_log_level : log_level := DEBUG.
Definition log_level_str : list string := ["DEBUG"; "INFO"; "WARNING"; "ERROR"]%string.

(** ** Formats *)

(** An argument as the call passes it: an integer or the bytes of a string. *)
Inductive arg := AInt (z : Z) | AStr (s : list Z).

Inductive conv := CHhu | CHu | CD | CS | CX | C04hx | CU.
Definition conversions : list (string * conv) :=
  [("hhu", CHhu); ("hu", CHu); ("d", CD); ("s", CS); ("x", CX); ("04hx", C04hx); ("u", CU)]%string.

(** Digits of a number of at most 32 bits, most significant first. *)
Definition digit (d : Z) : Z := if d <? 10 then 48 + d else 87 + d.
Fixpoint digits_from (fuel : nat) (base z : Z) (acc : list Z) : list Z :=
  match fuel with
  | O => acc
  | S fuel =>
      let acc := digit (z mod base) :: acc in
      if z / base =? 0 then acc else digits_from fuel base (z / base) acc
  end.
Definition digits (base z : Z) : list Z := digits_from 32 base z [].

(** One conversion; [None]: the argument has the wrong type. *)
Definition convert (c : conv) (a : arg) : option (list Z) :=
  match c, a with
  | CHhu, AInt z => Some (digits 10 (u8 z))
  | CHu, AInt z => Some (digits 10 (u16 z))
  | CD, AInt z => Some (if s32 z <? 0 then 45 :: digits 10 (- s32 z) else digits 10 (s32 z))
  | CX, AInt z => Some (digits 16 (u32 z))
  | C04hx, AInt z => let ds := digits 16 (u16 z) in Some (replicate (4 - length ds) 48 ++ ds)
  | CU, AInt z => Some (digits 10 (u32 z))
  | CS, AStr s => Some s
  | _, _ => None
  end.

(** The conversion at the start of a format, and the rest of it. *)
Fixpoint find_conv (cs : list (string * conv)) (f : list Z) : option (conv * list Z) :=
  match cs with
  | [] => None
  | (s, c) :: cs =>
      if decide (take (length (chars s)) f = chars s) then Some (c, drop (length (chars s)) f)
      else find_conv cs f
  end.

(** [None]: an unknown conversion, or arguments that do not match. *)
Fixpoint sprintf_from (fuel : nat) (f : list Z) (args : list arg) : option (list Z) :=
  match fuel with
  | O => None
  | S fuel =>
      match f with
      | [] => match args with [] => Some [] | _ => None end
      | c :: f =>
          if c =? 37 then
            '(cv, f) ← find_conv conversions f;
            match args with
            | [] => None
            | a :: args => s ← convert cv a; t ← sprintf_from fuel f args; Some (s ++ t)
            end
          else t ← sprintf_from fuel f args; Some (c :: t)
      end
  end.
Definition sprintf (f : string) (args : list arg) : option (list Z) :=
  sprintf_from (S (length (chars f))) (chars f) args.

(** ** log.h *)

Definition newline : list Z := [10].

(** [log_it] without [LOG_DEBUG]: [fprintf(stderr, "%s: " fmt "\n", level_str, ...)]. *)
Definition log_it (fmt : string) (level_str : string) (args : list arg) : option (list Z) :=
  t ← sprintf ("%s: " +:+ fmt) (AStr (chars level_str) :: args); Some (t ++ newline).

(** With it: the file and the line come first. *)
Definition log_it_debug (file : string) (line : Z) (fmt level_str : string) (args : list arg) : option (list Z) :=
  t ← sprintf ("[%s:%u] %s: " +:+ fmt) (AStr (chars file) :: AInt line :: AStr (chars level_str) :: args);
  Some (t ++ newline).

(** What [log] writes when the level is [this_level]; [None] is undefined. *)
Definition log_at (this_level level : log_level) (fmt : string) (args : list arg) : option (list Z) :=
  if level_num level <? level_num this_level then Some []
  else str ← log_level_str !! Z.to_nat (level_num level); log_it fmt str args.
Definition log := log_at this_log_level.

(** ** The messages *)

Definition tcp_state_num (s : tcp_state) : nat :=
  match s with
  | TCP_CLOSED => 0 | TCP_LISTEN => 1 | TCP_SYN_RECV => 2 | TCP_SYN_SENT => 3 | TCP_ESTABLISHED => 4
  | TCP_CLOSE_WAIT => 5 | TCP_LAST_ACK => 6 | TCP_FIN_WAIT_1 => 7 | TCP_FIN_WAIT_2 => 8 | TCP_CLOSING => 9
  | TCP_TIME_WAIT => 10
  end.
(** [tcp_state_str[state]]; the default is never used. *)
Definition tcp_state_to_str (state : tcp_state) : string := default ""%string (tcp_state_str !! tcp_state_num state).

Definition IP_FMT : string := "%hhu.%hhu.%hhu.%hhu".
Definition host_ip (ip : Z) : list arg := AInt <$> HOST_IP_FMT_STR ip.
Definition net_ip (ip : Z) : list arg := AInt <$> NET_IP_FMT_STR ip.

(** The arguments of the calls of [log]: level, format and the values formatted. *)
Definition call (level : log_level) (fmt : string) (args : list arg) : log_level * string * list arg := (level, fmt, args).

(** ip.c: handle_ip_packet. *)
Definition log_unsupported_protocol (protocol : Z) :=
  call ERROR "unsupported IP protocol (0x%x) packet." [AInt protocol].
(** ip.c: handle_ip_packet. *)
Definition log_incorrect_destination := call ERROR "received IP packet with incorrect destination." [].
(** main.c: fd_to_iface. *)
Definition log_no_iface_for_fd (fd : Z) :=
  call ERROR "Could not find the desired interface according to fd '%d'" [AInt fd].
(** main.c: handle_packet. *)
Definition log_unknown_packet_type (ether_type : Z) :=
  call ERROR "Unknown packet type 0x%04hx, ingore it." [AInt (ntohs ether_type)].
(** main.c: find_available_ifaces. *)
Definition log_no_interfaces := call ERROR "could not find available interfaces." [].
Definition log_found_interfaces (dev_names : list Z) :=
  call DEBUG "find the following interfaces: %s." [AStr dev_names].
(** main.c: ustack_run. *)
Definition log_receive_error (error : list Z) := call ERROR "receive packet error: %s" [AStr error].
Definition log_receive_malloc_failed := call ERROR "malloc failed when receiving packet." [].
(** tcp.c: handle_tcp_packet. *)
Definition log_invalid_checksum := call ERROR "received tcp packet with invalid checksum, drop it." [].
(** tcp_in.c: is_tcp_seq_valid. *)
Definition log_invalid_seq := call ERROR "received packet with invalid seq, drop it." [].
(** tcp_out.c: tcp_send_control_packet. *)
Definition log_control_malloc_failed := call ERROR "malloc tcp control packet failed." [].
(** tcp_out.c: tcp_send_reset. *)
Definition log_reset_malloc_failed := call ERROR "malloc tcp control packet failed." [].
(** tcp_apps.c: tcp_server; the ports of the applications are in network order. *)
Definition log_bind_failed (port : Z) := call ERROR "tcp_sock bind to port %hu failed" [AInt (ntohs port)].
Definition log_listen_failed := call ERROR "tcp_sock listen failed" [].
Definition log_listening (port : Z) := call DEBUG "listen to port %hu." [AInt (ntohs port)].
Definition log_accepted_connection := call DEBUG "accept a connection." [].
Definition log_read_returned_zero := call DEBUG "tcp_sock_read return 0, finish transmission." [].
Definition log_closing_connection := call DEBUG "close this connection." [].
(** tcp_apps.c: tcp_client. *)
Definition log_connect_failed (ip port : Z) :=
  call ERROR ("tcp_sock connect to server (" +:+ IP_FMT +:+ ":%hu)failed.") (net_ip ip ++ [AInt (ntohs port)]).
(** tcp_sock.c: tcp_set_state. *)
Definition log_switch_state (sk_sip sk_sport : Z) (from to : tcp_state) :=
  call DEBUG (IP_FMT +:+ ":%hu switch state, from %s to %s.")
    (host_ip sk_sip ++ [AInt sk_sport; AStr (chars (tcp_state_to_str from)); AStr (chars (tcp_state_to_str to))]).
(** tcp_sock.c: free_tcp_sock. *)
Definition log_free_sock (sk_sip sk_sport sk_dip sk_dport : Z) :=
  call DEBUG ("free tcp sock: [" +:+ IP_FMT +:+ ":%hu<->" +:+ IP_FMT +:+ ":%hu].")
    (host_ip sk_sip ++ [AInt sk_sport] ++ host_ip sk_dip ++ [AInt sk_dport]).
(** tcp_sock.c: tcp_sock_accept_queue_full. *)
Definition log_accept_queue_full (accept_backlog : Z) :=
  call ERROR "tcp accept queue (%d) is full." [AInt accept_backlog].

(** The messages of the program, one constructor per call. *)
Inductive message :=
  | UnsupportedProtocol (protocol : Z)
  | IncorrectDestination
  | NoIfaceForFd (fd : Z)
  | UnknownPacketType (ether_type : Z)
  | NoInterfaces
  | FoundInterfaces (dev_names : list Z)
  | ReceiveError (error : list Z)
  | ReceiveMallocFailed
  | InvalidChecksum
  | InvalidSeq
  | ControlMallocFailed
  | ResetMallocFailed
  | BindFailed (port : Z)
  | ListenFailed
  | Listening (port : Z)
  | AcceptedConnection
  | ReadReturnedZero
  | ClosingConnection
  | ConnectFailed (ip port : Z)
  | SwitchState (sk_sip sk_sport : Z) (from to : tcp_state)
  | FreeSock (sk_sip sk_sport sk_dip sk_dport : Z)
  | AcceptQueueFull (accept_backlog : Z).

Definition message_call (m : message) : log_level * string * list arg :=
  match m with
  | UnsupportedProtocol protocol => log_unsupported_protocol protocol
  | IncorrectDestination => log_incorrect_destination
  | NoIfaceForFd fd => log_no_iface_for_fd fd
  | UnknownPacketType ether_type => log_unknown_packet_type ether_type
  | NoInterfaces => log_no_interfaces
  | FoundInterfaces dev_names => log_found_interfaces dev_names
  | ReceiveError error => log_receive_error error
  | ReceiveMallocFailed => log_receive_malloc_failed
  | InvalidChecksum => log_invalid_checksum
  | InvalidSeq => log_invalid_seq
  | ControlMallocFailed => log_control_malloc_failed
  | ResetMallocFailed => log_reset_malloc_failed
  | BindFailed port => log_bind_failed port
  | ListenFailed => log_listen_failed
  | Listening port => log_listening port
  | AcceptedConnection => log_accepted_connection
  | ReadReturnedZero => log_read_returned_zero
  | ClosingConnection => log_closing_connection
  | ConnectFailed ip port => log_connect_failed ip port
  | SwitchState sk_sip sk_sport from to => log_switch_state sk_sip sk_sport from to
  | FreeSock sk_sip sk_sport sk_dip sk_dport => log_free_sock sk_sip sk_sport sk_dip sk_dport
  | AcceptQueueFull accept_backlog => log_accept_queue_full accept_backlog
  end.

Definition message_level (m : message) : log_level := (message_call m).1.1.
Definition log_message (this_level : log_level) (m : message) : option (list Z) :=
  let '(level, fmt, args) := message_call m in log_at this_level level fmt args.

#[global] Arguments digits : simpl never.

(** ** Numbers *)

Definition undigits (l : list Z) (a : Z) : Z := fold_left (fun a c => 10 * a + (c - 48)) l a.

Lemma undigits_from fuel z acc :
  0 <= z < 10 ^ Z.of_nat fuel -> undigits (digits_from fuel 10 z acc) 0 = undigits acc z.
Proof.
  revert z acc. induction fuel as [|fuel IH]; intros z acc Hz; cbn [digits_from].
  - by replace z with 0 by (simpl in Hz; lia).
  - assert (Hd : undigits (digit (z mod 10) :: acc) (z / 10) = undigits acc z).
    { unfold undigits. cbn [fold_left]. f_equal. unfold digit.
      pose proof (Z.mod_pos_bound z 10). pose proof (Z.div_mod z 10). destruct (Z.ltb_spec (z mod 10) 10); lia. }
    destruct (Z.eqb_spec (z / 10) 0) as [E|E]; [by rewrite E in Hd|].
    rewrite IH; [done|]. pose proof (Z.div_pos z 10). split; [lia|].
    apply Z.div_lt_upper_bound; [lia|]. replace (Z.of_nat (S fuel)) with (Z.succ (Z.of_nat fuel)) in Hz by lia.
    rewrite Z.pow_succ_r in Hz by lia. lia.
Qed.

Lemma digits_inj x y : is_u32 x -> is_u32 y -> digits 10 x = digits 10 y -> x = y.
Proof.
  intros Hx Hy E.
  assert (Hb : forall v, is_u32 v -> 0 <= v < 10 ^ Z.of_nat 32).
  { intros v [H1 H2]. split; [done|]. eapply Z.lt_trans; [exact H2|]. vm_compute. reflexivity. }
  pose proof (undigits_from 32 x [] (Hb x Hx)) as Ex. pose proof (undigits_from 32 y [] (Hb y Hy)) as Ey.
  fold (digits 10 x) in Ex. fold (digits 10 y) in Ey. rewrite E in Ex.
  exact (eq_trans (eq_sym Ex) Ey).
Qed.

Lemma digits_range base z :
  0 < base -> Forall (fun c => 48 <= c /\ (base <= 10 -> c < 58)) (digits base z).
Proof.
  intros Hb. unfold digits. assert (Hacc : Forall (fun c => 48 <= c /\ (base <= 10 -> c < 58)) []) by constructor.
  revert z Hacc. generalize (@nil Z) as acc. generalize 32%nat as fuel.
  induction fuel as [|fuel IH]; intros acc z Hacc; cbn [digits_from]; [done|].
  assert (Hd : Forall (fun c => 48 <= c /\ (base <= 10 -> c < 58)) (digit (z mod base) :: acc)).
  { constructor; [|done]. pose proof (Z.mod_pos_bound z base Hb). unfold digit. zcases; lia. }
  destruct (_ =? 0); auto.
Qed.

Lemma digits_no base z c : 0 < base -> c < 48 \/ (base <= 10 /\ 58 <= c) -> c ∉ digits base z.
Proof.
  intros Hb Hc Hin. pose proof (digits_range base z Hb) as Hr. rewrite Forall_forall in Hr.
  specialize (Hr c Hin). lia.
Qed.

(** ** Lines *)

(** A message whose strings hold no newline. *)
Definition one_line (m : message) : Prop :=
  match m with FoundInterfaces s | ReceiveError s => 10 ∉ s | _ => True end.

(** Any fuel above the length of the format will do. *)
Lemma find_conv_length cs f c f' : find_conv cs f = Some (c, f') -> (length f' <= length f)%nat.
Proof.
  induction cs as [|[s cv] cs IH]; cbn [find_conv]; [done|]. case_decide; [|done].
  intros [= _ <-]. rewrite length_drop. lia.
Qed.

Lemma sprintf_fuel fuel fuel' f args :
  (length f < fuel)%nat -> (length f < fuel')%nat -> sprintf_from fuel f args = sprintf_from fuel' f args.
Proof.
  revert fuel' f args. induction fuel as [|fuel IH]; intros [|fuel'] f args H1 H2; [lia..|].
  cbn [sprintf_from]. destruct f as [|c f]; [done|]. cbn [length] in H1, H2. destruct (c =? 37).
  - destruct (find_conv conversions f) as [[cv f']|] eqn:E; [|done]. apply find_conv_length in E.
    cbn [mbind option_bind]. destruct args as [|a args]; [done|]. by rewrite (IH fuel') by lia.
  - by rewrite (IH fuel') by lia.
Qed.

Lemma chars_app s t : chars (s +:+ t) = chars s ++ chars t.
Proof.
  induction s as [|c s IH]; [done|].
  change (chars (String c s +:+ t)) with (Z.of_nat (Ascii.nat_of_ascii c) :: chars (s +:+ t)).
  by rewrite IH.
Qed.

Lemma sprintf_char fuel c f args :
  c ≠ 37 -> sprintf_from (S fuel) (c :: f) args = t ← sprintf_from fuel f args; Some (c :: t).
Proof. intros Hc. cbn [sprintf_from]. by rewrite (proj2 (Z.eqb_neq c 37) Hc). Qed.
Lemma sprintf_conv fuel f cv f' a args :
  find_conv conversions f = Some (cv, f') ->
  sprintf_from (S fuel) (37 :: f) (a :: args) = s ← convert cv a; t ← sprintf_from fuel f' args; Some (s ++ t).
Proof. intros Hf. cbn [sprintf_from Z.eqb Pos.eqb]. by rewrite Hf. Qed.

(** The level in front. *)
Lemma log_it_text fmt str args t :
  sprintf fmt args = Some t -> log_it fmt str args = Some (chars str ++ [58; 32] ++ t ++ newline).
Proof.
  intros Ht. unfold log_it, sprintf. rewrite chars_app. change (chars "%s: ") with [37; 115; 58; 32].
  cbn [length app]. rewrite (sprintf_conv _ _ CS (58 :: 32 :: chars fmt)) by reflexivity.
  rewrite !sprintf_char by done. cbn [convert mbind option_bind].
  rewrite (sprintf_fuel _ (S (length (chars fmt)))) by lia. unfold sprintf in Ht. rewrite Ht.
  cbn [mbind option_bind]. by rewrite <- app_assoc.
Qed.

(** Without a newline in the format or in a string there is none in the text. *)
Definition arg_ok (a : arg) : Prop := match a with AInt _ => True | AStr s => 10 ∉ s end.

Lemma convert_ok c a s : convert c a = Some s -> arg_ok a -> 10 ∉ s.
Proof.
  assert (Hd : forall base z, 0 < base -> 10 ∉ digits base z) by (intros; apply digits_no; lia).
  destruct c, a; cbn [convert arg_ok]; try discriminate; intros [= <-] Ha; try (apply Hd; lia); [|exact Ha|].
  - destruct (_ <? 0); [|apply Hd; lia]. apply not_elem_of_cons. split; [done|apply Hd; lia].
  - apply not_elem_of_app. split; [|apply Hd; lia]. intros Hin%elem_of_replicate. lia.
Qed.

Lemma find_conv_suffix cs f c f' : find_conv cs f = Some (c, f') -> 10 ∉ f -> 10 ∉ f'.
Proof.
  induction cs as [|[s cv] cs IH]; cbn [find_conv]; [done|]. case_decide; [|done].
  intros [= _ <-] Hf Hin. apply Hf.
  rewrite <- (take_drop (length (chars s)) f). apply elem_of_app. by right.
Qed.

Lemma sprintf_no_newline fuel f args t :
  sprintf_from fuel f args = Some t -> 10 ∉ f -> Forall arg_ok args -> 10 ∉ t.
Proof.
  revert f args t. induction fuel as [|fuel IH]; intros f args t; [done|]. cbn [sprintf_from].
  destruct f as [|c f].
  - destruct args; [|done]. intros [= <-] _ _. apply not_elem_of_nil.
  - intros E Hf Ha. apply not_elem_of_cons in Hf as [Hc Hf]. destruct (c =? 37).
    + destruct (find_conv conversions f) as [[cv f']|] eqn:Ef; [|done]. cbn [mbind option_bind] in E.
      destruct args as [|x args]; [done|]. apply Forall_cons in Ha as [Hx Ha].
      destruct (convert cv x) as [s|] eqn:Es; [|done]. cbn [mbind option_bind] in E.
      destruct (sprintf_from fuel f' args) as [t'|] eqn:Et; [|done]. injection E as <-.
      apply not_elem_of_app. split; [by eapply convert_ok|]. eapply IH; [exact Et| |done].
      by eapply find_conv_suffix.
    + destruct (sprintf_from fuel f args) as [t'|] eqn:Et; [|done]. injection E as <-.
      apply not_elem_of_cons. split; [done|by eapply IH].
Qed.

(** Every call: the arguments fit the format, and the format is one line. *)
Lemma message_text m : is_Some (sprintf (message_call m).1.2 (message_call m).2).
Proof.
  destruct m; eexists;
    lazy -[digits u8 u16 u32 s32 Z.opp Z.ltb replicate Nat.sub app length ntohs le_store tcp_state_to_str]; reflexivity.
Qed.

Lemma message_format m : 10 ∉ chars (message_call m).1.2.
Proof. apply (bool_decide_unpack _). destruct m; vm_compute; exact I. Qed.

Lemma state_name_ok s :
  (10 ∉ chars (tcp_state_to_str s)) /\ (32 ∉ chars (tcp_state_to_str s)) /\ (46 ∉ chars (tcp_state_to_str s)).
Proof. split; [|split]; apply (bool_decide_unpack _); destruct s; vm_compute; exact I. Qed.

Lemma message_args m : one_line m -> Forall arg_ok (message_call m).2.
Proof.
  assert (Hi : forall l, Forall arg_ok (AInt <$> l)) by (intros l; apply Forall_fmap, Forall_forall; done).
  destruct m; lazy beta delta [message_call log_unsupported_protocol log_incorrect_destination log_no_iface_for_fd
      log_unknown_packet_type log_no_interfaces log_found_interfaces log_receive_error
      log_receive_malloc_failed log_invalid_checksum log_invalid_seq log_control_malloc_failed
      log_reset_malloc_failed log_bind_failed log_listen_failed log_listening
      log_accepted_connection log_read_returned_zero log_closing_connection log_connect_failed
      log_switch_state log_free_sock log_accept_queue_full call snd one_line] iota; intros Hl;
    repeat first [apply Forall_app; split|apply Hi|apply Forall_cons; split|apply Forall_nil; exact I];
    first [exact I|exact Hl|apply state_name_ok].
Qed.

(** ** Theorems *)

(** Every message of the program is well formed: its arguments fit its format,
    a mismatch being undefined behaviour.  A message below the level set is not
    printed; any other comes out after the name of its level, and, when its strings
    hold no newline, on one line.  At the level the program sets, nothing is
    dropped. *)
Theorem messages_printed this_level m :
  exists text, sprintf (message_call m).1.2 (message_call m).2 = Some text /\
    (one_line m -> 10 ∉ text) /\
    log_message this_level m =
      Some (if level_num (message_level m) <? level_num this_level then []
            else chars (default ""%string (log_level_str !! Z.to_nat (level_num (message_level m)))) ++
                 [58; 32] ++ text ++ newline) /\
    level_num this_log_level <= level_num (message_level m).
Proof.
  destruct (message_text m) as [t Ht]. exists t. split; [exact Ht|]. split.
  { intros Hl. eapply sprintf_no_newline; [exact Ht|apply message_format|by apply message_args]. }
  unfold log_message, message_level. destruct (message_call m) as [[level fmt] args]. cbn [fst snd] in *.
  split; [|by destruct level]. unfold log_at. destruct (_ <? _); [done|].
  assert (Hs : exists s, log_level_str !! Z.to_nat (level_num level) = Some s) by (destruct level; by eexists).
  destruct Hs as [s ->]. cbn [mbind option_bind default]. exact (log_it_text _ _ _ _ Ht).
Qed.

Lemma messages_printed_witness :
  log_message DEBUG (BindFailed 0x3930) = Some (chars "ERROR: tcp_sock bind to port 12345 failed" ++ newline) /\
  exists text, sprintf (message_call (BindFailed 0x3930)).1.2 (message_call (BindFailed 0x3930)).2 = Some text /\
    10 ∉ text.
Proof.
  split; [vm_compute; reflexivity|].
  destruct (messages_printed DEBUG (BindFailed 0x3930)) as (t & E & Hl & _). exists t. split; [exact E|exact (Hl I)].
Defined.

(** Two texts with the same delimiter after parts that do not hold it. *)
Lemma delimited (c : Z) l1 l2 r1 r2 :
  l1 ++ c :: r1 = l2 ++ c :: r2 -> c ∉ l1 -> c ∉ l2 -> l1 = l2 /\ r1 = r2.
Proof.
  revert l2. induction l1 as [|x l1 IH]; intros [|y l2] E H1 H2; simpl in E.
  - by injection E.
  - injection E as -> _. set_solver.
  - injection E as -> _. set_solver.
  - injection E as -> E. destruct (IH l2 E) as [-> ->]; set_solver.
Qed.

Lemma state_name_inj s s' : chars (tcp_state_to_str s) = chars (tcp_state_to_str s') -> s = s'.
Proof. destruct s, s'; intros E; first [reflexivity|vm_compute in E; discriminate E]. Qed.

Lemma switch_text sip sport from to a b c d :
  le_store 4 sip = [a; b; c; d] ->
  sprintf (message_call (SwitchState sip sport from to)).1.2 (message_call (SwitchState sip sport from to)).2 =
  Some (digits 10 (u8 d) ++ 46 :: digits 10 (u8 c) ++ 46 :: digits 10 (u8 b) ++ 46 :: digits 10 (u8 a) ++ 58 ::
        digits 10 (u16 sport) ++ 32 :: chars "switch state, from " ++
        chars (tcp_state_to_str from) ++ 32 :: chars "to " ++ chars (tcp_state_to_str to) ++ [46]).
Proof.
  intros E. unfold message_call, log_switch_state, call, host_ip, HOST_IP_FMT_STR, LE_IP_FMT_STR. rewrite E.
  lazy -[digits u8 u16 app tcp_state_to_str]. reflexivity.
Qed.

Lemma le_store4_cases ip : exists a b c d, le_store 4 ip = [a; b; c; d] /\ is_u8 a /\ is_u8 b /\ is_u8 c /\ is_u8 d.
Proof. eexists _, _, _, _. split; [reflexivity|]. repeat split; apply u8_range. Qed.

Lemma u8_digits_inj x y : is_u8 x -> is_u8 y -> digits 10 (u8 x) = digits 10 (u8 y) -> x = y.
Proof.
  intros Hx Hy E. rewrite !u8_id in E by done. apply digits_inj; [..|done]; unfold is_u8, is_u32 in *; lia.
Qed.

(** The message [tcp_set_state] prints tells the address and the port of the
    socket and both states apart: two state changes are printed alike only if they
    agree in all four. *)
Theorem switch_message_injective sip sport from to sip' sport' from' to' :
  is_u32 sip -> is_u32 sip' -> is_u16 sport -> is_u16 sport' ->
  log_message DEBUG (SwitchState sip sport from to) = log_message DEBUG (SwitchState sip' sport' from' to') ->
  sip = sip' /\ sport = sport' /\ from = from' /\ to = to'.
Proof.
  intros H1 H2 H3 H4 E.
  destruct (le_store4_cases sip) as (a & b & c & d & Es & Ha & Hb & Hc & Hd).
  destruct (le_store4_cases sip') as (a' & b' & c' & d' & Es' & Ha' & Hb' & Hc' & Hd').
  pose proof (switch_text sip sport from to a b c d Es) as T.
  pose proof (switch_text sip' sport' from' to' a' b' c' d' Es') as T'.
  apply log_it_text with (str := "DEBUG"%string) in T, T'.
  assert (E' : log_it (message_call (SwitchState sip sport from to)).1.2 "DEBUG" (message_call (SwitchState sip sport from to)).2 =
               log_it (message_call (SwitchState sip' sport' from' to')).1.2 "DEBUG" (message_call (SwitchState sip' sport' from' to')).2)
    by exact E.
  rewrite T, T' in E'. apply (inj Some), app_inv_head, app_inv_head, app_inv_tail in E'.
  assert (Hno : forall x, (46 ∉ digits 10 x) /\ (58 ∉ digits 10 x) /\ (32 ∉ digits 10 x))
    by (intros x; repeat split; apply digits_no; lia).
  apply delimited in E' as [Ed E']; [|apply Hno..]. apply delimited in E' as [Ec E']; [|apply Hno..].
  apply delimited in E' as [Eb E']; [|apply Hno..]. apply delimited in E' as [Ea E']; [|apply Hno..].
  apply delimited in E' as [Ep E']; [|apply Hno..]. apply app_inv_head in E'.
  apply delimited in E' as [Ef E']; [|apply state_name_ok..]. apply app_inv_head, app_inv_tail in E'.
  split; [|split; [|split; by apply state_name_inj]].
  - apply u8_digits_inj in Ea, Eb, Ec, Ed; try done. subst. rewrite <- Es' in Es.
    apply (f_equal le_load) in Es. rewrite !le_load_store in Es. unfold is_u32 in *.
    by rewrite !Z.mod_small in Es by (simpl; lia).
  - rewrite !u16_id in Ep by done. apply digits_inj; [..|done]; unfold is_u16, is_u32 in *; lia.
Qed.

Lemma switch_message_injective_witness :
  log_message DEBUG (SwitchState 0x0a000001 12345 TCP_CLOSED TCP_SYN_SENT) =
    Some (chars "DEBUG: 10.0.0.1:12345 switch state, from CLOSED to SYN_SENT." ++ [10]) /\
  forall from to, log_message DEBUG (SwitchState 0x0a000001 12345 from to) =
    log_message DEBUG (SwitchState 0x0a000001 12345 TCP_CLOSED TCP_SYN_SENT) -> from = TCP_CLOSED.
Proof.
  split; [vm_compute; reflexivity|]. intros from to E.
  apply (switch_message_injective 0x0a000001 12345 from to 0x0a000001 12345 TCP_CLOSED TCP_SYN_SENT);
    [unfold is_u32, is_u16; lia..|exact E].
Defined.
