(* ===== verification/Sock.v ===== *)
(** * Sockets and the three tables (tcp_sock.c, first half)

    Allocation and reference counting, the bind, listen and established tables
    with their lookups, and the choice of ports.  [tables_ok] is the invariant of
    the tables: every bucket is a well-formed list of live sockets that belong in
    it, and no two sockets of the established table share a connection. *)

From S2P Require Import Prelude Hash DList RingBuffer SynchWait Layout Segment Memory.

Definition PORT_MIN : Z := 12345.
Definition PORT_MAX : Z := 23456.

(** [&tcp_established_sock_table[h]] and so on: three arrays of 256 list heads,
    16 bytes each, one after the other. *)
Definition tcp_established_sock_table (h : Z) : ptr := Ptr BTable (16 * h).
Definition tcp_listen_sock_table (h : Z) : ptr := Ptr BTable (16 * (TCP_HASH_SIZE + h)).
Definition tcp_bind_sock_table (h : Z) : ptr := Ptr BTable (16 * (2 * TCP_HASH_SIZE + h)).

Section Code.
Context `{Env}.

Definition tcp_set_state (tsk : ptr) (s : tcp_state) : M unit := modify tsk (set_state s).

(** ** Initialisation *)

Fixpoint init_heads (n : nat) (i : Z) (head : Z -> ptr) : M unit :=
  match n with
  | O => ret tt
  | S n => list_op (fun st => init_list_head st (head i));; init_heads n (i + 1) head
  end.

(** The timer thread that is started last is modelled in Timer.v. *)
Definition init_tcp_stack : M unit :=
  init_heads (Z.to_nat TCP_HASH_SIZE) 0 tcp_established_sock_table;;
  init_heads (Z.to_nat TCP_HASH_SIZE) 0 tcp_listen_sock_table;;
  init_heads (Z.to_nat TCP_HASH_SIZE) 0 tcp_bind_sock_table.

(** ** Allocation *)

Definition zero_sock : tcp_sock :=
  TcpSock 0 0 0 0 NULL 0 zero_node zero_node zero_node zero_node 0 0 zero_node zero_timer zero_timer
    Wait.wait_init Wait.wait_init Wait.wait_init Wait.wait_init (Ring.RingBuffer 0 0 0 [])
    zero_node zero_node TCP_CLOSED 0 0 0 0 0 0 0 0 0 0.

(** A fresh block holding a zeroed socket. *)
Definition new_block : M ptr := fun st =>
  Done (Ptr (BSock (next_blk st)) 0)
       (Stack (<[next_blk st := zero_sock]> (socks st)) (Pos.succ (next_blk st)) (table st)
              (timer_list st) (sent st) (nmalloc st)).

Definition alloc_tcp_sock : M ptr :=
  malloc_unchecked;;
  do tsk <- new_block;
  modify tsk (set_state TCP_CLOSED);;
  modify tsk (set_rcv_wnd TCP_DEFAULT_WINDOW);;
  list_op (fun st => init_list_head st (ptr_add tsk off_list));;
  list_op (fun st => init_list_head st (ptr_add tsk off_listen_queue));;
  list_op (fun st => init_list_head st (ptr_add tsk off_accept_queue));;
  malloc_unchecked;;
  modify tsk (fun s => set_rcv_buf (Ring.alloc_ring_buffer (rcv_wnd s)) s);;
  malloc_unchecked;; modify tsk (set_wait_connect Wait.alloc_wait_struct);;
  malloc_unchecked;; modify tsk (set_wait_accept Wait.alloc_wait_struct);;
  malloc_unchecked;; modify tsk (set_wait_recv Wait.alloc_wait_struct);;
  malloc_unchecked;; modify tsk (set_wait_send Wait.alloc_wait_struct);;
  ret tsk.

Definition tcp_sock_inc_ref_cnt (tsk : ptr) : M unit :=
  modify tsk (fun s => set_ref_cnt (ref_cnt s + 1) s).

Definition free_tcp_sock (tsk : ptr) : M unit :=
  modify tsk (fun s => set_ref_cnt (ref_cnt s - 1) s);;
  do s <- sock tsk;
  if ref_cnt s <=? 0 then free tsk else ret tt.

(** ** Lookup *)

Definition or_null (r : option ptr) : ptr := default NULL r.

Definition tcp_sock_lookup_established (saddr daddr sport dport : Z) : M ptr :=
  let hash := tcp_hash_function saddr daddr sport dport in
  do r <- find_entry (tcp_established_sock_table hash) off_hash_list (fun tmp =>
    do t <- sock tmp;
    ret ((sk_sip t =? saddr) && (sk_sport t =? sport) && (sk_dip t =? daddr) && (sk_dport t =? dport)));
  ret (or_null r).

Definition tcp_sock_lookup_listen (saddr sport : Z) : M ptr :=
  let hash := tcp_hash_function 0 0 sport 0 in
  do r <- find_entry (tcp_listen_sock_table hash) off_hash_list (fun tmp =>
    do t <- sock tmp; ret (sk_sport t =? sport));
  ret (or_null r).

Definition tcp_sock_lookup (cb : tcp_cb) : M ptr :=
  let '(saddr, daddr, sport, dport) := (daddr cb, saddr cb, dport cb, sport cb) in
  do tsk <- tcp_sock_lookup_established saddr daddr sport dport;
  if decide (tsk = NULL) then tcp_sock_lookup_listen saddr sport else ret tsk.

(** ** Ports and the bind table *)

Definition tcp_bind_hash (tsk : ptr) : M Z :=
  do s <- sock tsk;
  let bind_hash_value := tcp_hash_function 0 0 (sk_sport s) 0 in
  list_op (fun st => list_add_head st (ptr_add tsk off_bind_hash_list) (tcp_bind_sock_table bind_hash_value));;
  tcp_sock_inc_ref_cnt tsk;;
  ret 0.

Definition tcp_bind_unhash (tsk : ptr) : M unit :=
  do empty <- list_test (fun st => list_empty st (ptr_add tsk off_bind_hash_list));
  if negb empty then
    list_op (fun st => list_delete_entry st (ptr_add tsk off_bind_hash_list));; free_tcp_sock tsk
  else ret tt.

(** The loop names the member [hash_list], although the nodes of the bind table
    are [bind_hash_list] members: [tsk] is not the address of a socket, and the
    port is loaded from where it points. *)
Definition tcp_port_in_use (sport : Z) : M bool :=
  let value := tcp_hash_function 0 0 sport 0 in
  do r <- find_entry (tcp_bind_sock_table value) off_hash_list (fun tsk =>
    do p <- load_u16 (ptr_add tsk off_sport); ret (p =? sport));
  ret (bool_decide (is_Some r)).

Fixpoint tcp_get_port_from (n : nat) (port : Z) : M Z :=
  match n with
  | O => ret 0
  | S n => do b <- tcp_port_in_use port; if negb b then ret port else tcp_get_port_from n (port + 1)
  end.
Definition tcp_get_port : M Z := tcp_get_port_from (Z.to_nat (PORT_MAX - PORT_MIN)) PORT_MIN.

Definition tcp_sock_set_sport (tsk : ptr) (port : Z) : M Z :=
  do (failed, port) <-
    (if negb (port =? 0) then do b <- tcp_port_in_use port; ret (b, port)
     else do p <- tcp_get_port; ret (p =? 0, p));
  if (failed : bool) then ret (-1)
  else
    modify tsk (set_sport port);;
    tcp_bind_hash tsk;;
    ret 0.

(** ** The established and listen tables *)

Definition tcp_hash (tsk : ptr) : M Z :=
  do s <- sock tsk;
  if decide (state s = TCP_CLOSED) then ret (-1)
  else
    do (dup, list) <-
      (if decide (state s = TCP_LISTEN) then
         ret (false, tcp_listen_sock_table (tcp_hash_function 0 0 (sk_sport s) 0))
       else
         let list := tcp_established_sock_table
           (tcp_hash_function (sk_sip s) (sk_dip s) (sk_sport s) (sk_dport s)) in
         do r <- find_entry list off_hash_list (fun tmp =>
           do t <- sock tmp;
           ret ((sk_sip s =? sk_sip t) && (sk_dip s =? sk_dip t) && (sk_sport s =? sk_sport t)
                && (sk_dport s =? sk_dport t)));
         ret (bool_decide (is_Some r), list));
    if (dup : bool) then ret (-1)
    else
      list_op (fun st => list_add_head st (ptr_add tsk off_hash_list) list);;
      tcp_sock_inc_ref_cnt tsk;;
      ret 0.

Definition tcp_unhash (tsk : ptr) : M unit :=
  do empty <- list_test (fun st => list_empty st (ptr_add tsk off_hash_list));
  if negb empty then
    list_op (fun st => list_delete_entry st (ptr_add tsk off_hash_list));; free_tcp_sock tsk
  else ret tt.

(** [skaddr] is in network order; its address is ignored. *)
Definition tcp_sock_bind (tsk : ptr) (skaddr_port : Z) : M Z :=
  tcp_sock_set_sport tsk (ntohs skaddr_port).

End Code.

(** ** The static memory the process starts with *)

(** [k] allocations have been made before. *)
Definition boot (k : nat) : stack :=
  Stack ∅ 1 (list_to_map ((fun i => (16 * i, zero_node)) <$> seqZ 0 (3 * TCP_HASH_SIZE)))
        zero_node [] k.
Arguments boot : simpl never.

(** ** The invariant of the tables *)

Inductive which := TEst | TLis | TBnd.
#[export] Instance which_eq_dec : EqDecision which.
Proof. solve_decision. Defined.

Definition head_of (w : which) (h : Z) : ptr :=
  match w with
  | TEst => tcp_established_sock_table h
  | TLis => tcp_listen_sock_table h
  | TBnd => tcp_bind_sock_table h
  end.
(** The member of the socket that links it into a table. *)
Definition moff_of (w : which) : Z :=
  match w with TBnd => off_bind_hash_list | _ => off_hash_list end.

(** Which sockets each bucket holds, in list order. *)
Definition buckets := which -> Z -> list positive.
Definition is_bucket (h : Z) : Prop := 0 <= h < TCP_HASH_SIZE.
Definition set_bucket (c : buckets) (w : which) (h : Z) (l : list positive) : buckets :=
  fun w' h' => if decide (w' = w /\ h' = h) then l else c w' h'.

(** Every bucket is a list, and a socket is linked at most once per member. *)
Record lists_ok (st : stack) (c : buckets) : Prop := {
  lo_list w h : is_bucket h -> dlist st (head_of w h) (nodes (moff_of w) (c w h));
  lo_once w h w' h' n : is_bucket h -> is_bucket h' -> moff_of w = moff_of w' ->
    n ∈ c w h -> n ∈ c w' h' -> w = w' /\ h = h'
}.

(** The connection of a socket, and the bucket it belongs in. *)
Definition conn (s : tcp_sock) : Z * Z * Z * Z := (sk_sip s, sk_dip s, sk_sport s, sk_dport s).
Definition key_of (w : which) (k : Z * Z * Z * Z) : Z :=
  let '(sip, dip, sport, dport) := k in
  match w with TEst => tcp_hash_function sip dip sport dport | _ => tcp_hash_function 0 0 sport 0 end.
Definition key (w : which) (s : tcp_sock) : Z := key_of w (conn s).

Record tables_ok (st : stack) (c : buckets) : Prop := {
  to_lists : lists_ok st c;
  to_key w h n s : is_bucket h -> n ∈ c w h -> socks st !! n = Some s -> key w s = h;
  to_uniq h n m s t : is_bucket h -> n ∈ c TEst h -> m ∈ c TEst h ->
    socks st !! n = Some s -> socks st !! m = Some t -> conn s = conn t -> n = m
}.

(** ** List operations leave the data of the sockets alone *)

(** A socket without its list nodes. *)
Definition strip (s : tcp_sock) : tcp_sock :=
  TcpSock (sk_sip s) (sk_sport s) (sk_dip s) (sk_dport s) (parent s) (ref_cnt s) zero_node
    zero_node zero_node zero_node (accept_backlog s) (backlog s) zero_node
    (set_tlist zero_node (timewait s)) (set_tlist zero_node (retrans_timer s)) (wait_connect s)
    (wait_accept s) (wait_recv s) (wait_send s) (rcv_buf s) zero_node zero_node (state s) (iss s)
    (snd_una s) (snd_nxt s) (rcv_nxt s) (recovery_point s) (snd_wnd s) (adv_wnd s) (rcv_wnd s)
    (cwnd s) (ssthresh s).

(** Everything but the list nodes. *)
Definition data (st : stack) :=
  (strip <$> socks st, next_blk st, sent st, nmalloc st).

Lemma strip_set o get set s nd : sock_node o = Some (get, set) -> strip (set nd s) = strip s.
Proof. unfold sock_node. repeat (case_match; [intros [= <- <-]; done|]). done. Qed.

Lemma node_set_data (st : stack) (p : ptr) nd : data (node_set st p nd) = data st.
Proof.
  destruct p as [|b o]; [done|]. destruct b as [n| |]; [|done|simpl; by destruct (o =? 0)].
  simpl. destruct (socks st !! n) as [s|] eqn:Hs; [|done].
  destruct (sock_node o) as [[get set]|] eqn:E; [|done]. unfold data. simpl.
  rewrite fmap_insert, (strip_set _ _ _ _ _ E). do 3 f_equal.
  apply insert_id. by rewrite lookup_fmap, Hs.
Qed.

Lemma list_add_head_data (st st' : stack) (a b : ptr) :
  list_add_head st a b = Some st' -> data st' = data st.
Proof. apply list_add_head_view, node_set_data. Qed.
Lemma list_add_tail_data (st st' : stack) (a b : ptr) :
  list_add_tail st a b = Some st' -> data st' = data st.
Proof. apply list_add_tail_view, node_set_data. Qed.
Lemma list_delete_entry_data (st st' : stack) (a : ptr) :
  list_delete_entry st a = Some st' -> data st' = data st.
Proof. apply list_delete_entry_view, node_set_data. Qed.
Lemma init_list_head_data (st st' : stack) (a : ptr) :
  init_list_head st a = Some st' -> data st' = data st.
Proof. apply init_list_head_view, node_set_data. Qed.

(** What equal data says of one socket. *)
Lemma data_sock st st' n s :
  data st' = data st -> socks st !! n = Some s ->
  exists s', socks st' !! n = Some s' /\ strip s' = strip s.
Proof.
  intros E Hs. apply (f_equal (fun d => d.1.1.1)) in E. simpl in E.
  assert (Hv : (strip <$> socks st') !! n = Some (strip s)) by (by rewrite E, lookup_fmap, Hs).
  rewrite lookup_fmap in Hv. destruct (socks st' !! n) as [s'|]; [|done]. simpl in Hv.
  apply (inj Some) in Hv. eauto.
Qed.

Lemma strip_conn s s' : strip s' = strip s -> conn s' = conn s.
Proof. intros E. exact (f_equal conn E). Qed.
Lemma strip_ref_cnt s s' : strip s' = strip s -> ref_cnt s' = ref_cnt s.
Proof. intros E. exact (f_equal ref_cnt E). Qed.

(** ** Inserting into and deleting from a bucket *)

Lemma head_of_inj w h w' h' :
  is_bucket h -> is_bucket h' -> head_of w h = head_of w' h' -> w = w' /\ h = h'.
Proof.
  unfold is_bucket, TCP_HASH_SIZE, HASH_8BITS.
  destruct w, w'; simpl; unfold tcp_established_sock_table, tcp_listen_sock_table,
    tcp_bind_sock_table, TCP_HASH_SIZE, HASH_8BITS; intros ?? [= ?];
    (split; [done || lia|lia]).
Qed.

Lemma head_not_node w h moff l : head_of w h ∉ nodes moff l.
Proof. intros (n & E & _)%list_elem_of_fmap. by destruct w. Qed.

(** A store confined to one bucket keeps the others. *)
Lemma lists_frame st st' c w h w' h' k :
  lists_ok st c -> is_bucket h -> is_bucket h' -> ~ (w' = w /\ h' = h) ->
  same_outside k st st' ->
  (forall x, x ∈ k -> x = head_of w h \/
     exists n, x = Ptr (BSock n) (moff_of w) /\
       (n ∈ c w h \/ forall w' h', is_bucket h' -> moff_of w' = moff_of w -> n ∉ c w' h')) ->
  dlist st' (head_of w' h') (nodes (moff_of w') (c w' h')).
Proof.
  intros [HL HO] Hh Hh' Hne O Hk. apply (dlist_frame k st); [by apply HL|done|].
  intros x Hx Hxk. destruct (Hk x Hxk) as [->|(n & -> & Hn)]; apply elem_of_cons in Hx as [Hx|Hx].
  - destruct (head_of_inj _ _ _ _ Hh Hh' Hx) as [-> ->]. by apply Hne.
  - by apply head_not_node in Hx.
  - by destruct w'.
  - apply list_elem_of_fmap in Hx as (m & [= -> Em] & Hm).
    destruct Hn as [Hn|Hn]; [|by apply (Hn w' h')].
    by destruct (HO w h w' h' m); auto.
Qed.

Lemma sock_node_table w : exists get set, sock_node (moff_of w) = Some (get, set).
Proof. destruct w; eexists _, _; reflexivity. Qed.

Lemma bucket_eq (c : buckets) w h l : set_bucket c w h l w h = l.
Proof. unfold set_bucket. by rewrite decide_True. Qed.
Lemma bucket_ne (c : buckets) w h l w' h' : ~ (w' = w /\ h' = h) -> set_bucket c w h l w' h' = c w' h'.
Proof. intros. unfold set_bucket. by rewrite decide_False. Qed.
Lemma bucket_elem (c : buckets) w h l w' h' n :
  n ∈ set_bucket c w h l w' h' <-> (w' = w /\ h' = h /\ n ∈ l) \/ (~ (w' = w /\ h' = h) /\ n ∈ c w' h').
Proof. unfold set_bucket. case_decide; naive_solver. Qed.

Definition unlinked (c : buckets) (w : which) (n : positive) : Prop :=
  forall w' h', is_bucket h' -> moff_of w' = moff_of w -> n ∉ c w' h'.

(** The nodes that link sockets to each other and to timers, rather than to the
    tables, are untouched, and so is the head of the timer list. *)
Definition other_nodes (st st' : stack) : Prop :=
  (forall m o, o ≠ off_hash_list -> o ≠ off_bind_hash_list ->
    node_get st' (Ptr (BSock m) o) = node_get st (Ptr (BSock m) o)) /\ timer_list st' = timer_list st.

Lemma outside_other st st' w h k :
  same_outside k st st' ->
  (forall x, x ∈ k -> x = head_of w h \/ exists n, x = Ptr (BSock n) (moff_of w)) -> other_nodes st st'.
Proof.
  intros O Hk. split.
  - intros m o H1 H2. apply O. intros [E|[n E]]%Hk; [by destruct w|]. injection E as _ E. by destruct w.
  - assert (E : node_get st' (Ptr BTimers 0) = node_get st (Ptr BTimers 0))
      by (apply O; intros [E|[n E]]%Hk; by destruct w). by injection E.
Qed.

Lemma lists_add st c w h n :
  lists_ok st c -> is_bucket h -> is_Some (socks st !! n) -> unlinked c w n ->
  exists st', list_add_head st (Ptr (BSock n) (moff_of w)) (head_of w h) = Some st' /\
    lists_ok st' (set_bucket c w h (n :: c w h)) /\ data st' = data st /\ other_nodes st st'.
Proof.
  intros Hlo Hh [s Hs] Hun. pose proof Hlo as [HL HO].
  destruct (list_add_ok st (head_of w h) (nodes (moff_of w) (c w h)) (Ptr (BSock n) (moff_of w)))
    as [(st' & E & D & O) _].
  - by apply HL.
  - intros [Hx|Hx]%elem_of_cons; [by destruct w|]. apply nodes_elem in Hx. by apply (Hun w h).
  - simpl. rewrite Hs. simpl. destruct (sock_node_table w) as (get & set & ->). simpl. eauto.
  - exists st'. split; [done|]. split; [|split; [by apply list_add_head_data in E|]]; cycle 1.
    { apply (outside_other st st' w h _ O). intros x [->|[->|Hx]%elem_of_cons]%elem_of_cons; [by eauto|by left|].
      apply list_elem_of_fmap in Hx as (m & -> & _). eauto. }
    split.
    + intros w' h' Hh'. destruct (decide (w' = w /\ h' = h)) as [[-> ->]|Hne].
      * rewrite bucket_eq. exact D.
      * rewrite bucket_ne by done. apply (lists_frame st st' c w h w' h' _ Hlo Hh Hh' Hne O).
        intros x [->|[->|Hx]%elem_of_cons]%elem_of_cons; [right|by left|right].
        -- exists n. split; [done|]. right. exact Hun.
        -- apply list_elem_of_fmap in Hx as (m & -> & Hm). eauto.
    + intros w1 h1 w2 h2 m H1 H2 Em. rewrite !bucket_elem.
      intros [(-> & -> & Hm)|[Hne Hm]] [(-> & -> & Hm')|[Hne' Hm']]; [done|..].
      * apply elem_of_cons in Hm as [->|Hm]; [by destruct (Hun w2 h2)|naive_solver].
      * apply elem_of_cons in Hm' as [->|Hm']; [by destruct (Hun w1 h1)|naive_solver].
      * eauto.
Qed.

Lemma lists_delete st c w h n l1 l2 :
  lists_ok st c -> is_bucket h -> c w h = l1 ++ n :: l2 ->
  exists st', list_delete_entry st (Ptr (BSock n) (moff_of w)) = Some st' /\
    lists_ok st' (set_bucket c w h (l1 ++ l2)) /\ data st' = data st /\ other_nodes st st' /\
    unlinked (set_bucket c w h (l1 ++ l2)) w n /\
    list_empty st (Ptr (BSock n) (moff_of w)) = Some false.
Proof.
  intros Hlo Hh Ec. pose proof Hlo as [HL HO]. pose proof (HL w h Hh) as D. rewrite Ec in D.
  pose proof (proj1 (dlist_socks _ _ _ _ D)) as ND.
  assert (Hn : n ∉ l1 ++ l2) by (rewrite <- Permutation_middle in ND; by apply NoDup_cons in ND as [? _]).
  unfold nodes in D. rewrite fmap_app, fmap_cons in D.
  destruct (list_delete_entry_ok _ _ _ _ _ D) as (st' & E & D' & O & Gn & Em).
  exists st'. split; [done|]. rewrite <- fmap_app in D', O. fold (nodes (moff_of w) (l1 ++ l2)) in D', O.
  assert (Hlo' : lists_ok st' (set_bucket c w h (l1 ++ l2))).
  { split.
    - intros w' h' Hh'. destruct (decide (w' = w /\ h' = h)) as [[-> ->]|Hne].
      + rewrite bucket_eq. exact D'.
      + rewrite bucket_ne by done. apply (lists_frame st st' c w h w' h' _ Hlo Hh Hh' Hne O).
        intros x [->|Hx]%elem_of_cons; [by left|right].
        apply list_elem_of_fmap in Hx as (m & -> & Hm). exists m. split; [done|]. left.
        rewrite Ec. set_solver.
    - intros w1 h1 w2 h2 m H1 H2 Eo. rewrite !bucket_elem.
      assert (Hsub : forall x, x ∈ l1 ++ l2 -> x ∈ c w h) by (rewrite Ec; set_solver).
      intros [(-> & -> & Hm)|[Hne Hm]] [(-> & -> & Hm')|[Hne' Hm']]; [done|..]; eauto. }
  split; [done|]. split; [by apply list_delete_entry_data in E|]. split.
  { apply (outside_other st st' w h _ O). intros x [->|Hx]%elem_of_cons; [by left|].
    apply list_elem_of_fmap in Hx as (m & -> & _). eauto. }
  split.
  - intros w' h' Hh' Eo. rewrite bucket_elem. intros [(_ & _ & Hm)|[Hne Hm]]; [done|].
    apply Hne. destruct (HO w' h' w h n); auto. rewrite Ec. set_solver.
  - unfold list_empty in *. rewrite Gn in Em. exact Em.
Qed.

(** ** Updates that keep the list nodes *)

Definition keeps_nodes (f : tcp_sock -> tcp_sock) : Prop :=
  forall o get set s, sock_node o = Some (get, set) -> get (f s) = get s.

Lemma modify_node_get st n s s' (p : ptr) :
  socks st !! n = Some s ->
  (forall o get set, sock_node o = Some (get, set) -> get s' = get s) ->
  node_get (set_socks (<[n := s']> (socks st)) st) p = node_get st p.
Proof.
  intros Hs Hk. destruct p as [|b o]; [done|]. destruct b as [m| |]; [|done..]. simpl.
  destruct (decide (n = m)) as [<-|]; [|by rewrite lookup_insert_ne].
  rewrite lookup_insert_eq, Hs. simpl.
  destruct (sock_node o) as [[get set]|] eqn:E; [|done]. simpl. by rewrite (Hk _ _ _ E).
Qed.

Lemma lists_modify st c n s s' :
  lists_ok st c -> socks st !! n = Some s ->
  (forall o get set, sock_node o = Some (get, set) -> get s' = get s) ->
  lists_ok (set_socks (<[n := s']> (socks st)) st) c.
Proof.
  intros [HL HO] Hs Hk. split; [|done]. intros w h Hh.
  apply (dlist_frame [] st); [by apply HL| |set_solver].
  intros p _. by apply (modify_node_get st n s).
Qed.

(** The case analysis behind [keeps_nodes] for a concrete member. *)
Ltac keeps :=
  let o := fresh "o" in let get := fresh "get" in let set := fresh "set" in
  intros o get set; unfold sock_node; repeat (case_match; [intros [= <- <-]; done|]); done.

(** ** Running the code *)

Lemma bind_done {A B} (m : M A) (k : A -> M B) st a st' :
  m st = Done a st' -> bind m k st = k a st'.
Proof. unfold bind. by intros ->. Qed.
Lemma bind_fault {A B} (m : M A) (k : A -> M B) st f : m st = Fault f -> bind m k st = Fault f.
Proof. unfold bind. by intros ->. Qed.

Lemma sock_run st n s : socks st !! n = Some s -> sock (Ptr (BSock n) 0) st = Done s st.
Proof. intros Hs. unfold sock, sock_of. simpl. by rewrite Hs. Qed.
Lemma modify_run st n s f :
  socks st !! n = Some s ->
  modify (Ptr (BSock n) 0) f st = Done tt (set_socks (<[n := f s]> (socks st)) st).
Proof. intros Hs. unfold modify, sock_of. simpl. by rewrite Hs. Qed.
Lemma free_run st n s :
  socks st !! n = Some s -> free (Ptr (BSock n) 0) st = Done tt (set_socks (delete n (socks st)) st).
Proof. intros Hs. unfold free, sock_of. simpl. by rewrite Hs. Qed.

Lemma list_op_run f st st' : f st = Some st' -> list_op f st = Done tt st'.
Proof. unfold list_op. by intros ->. Qed.
Lemma list_test_run f st b : f st = Some b -> list_test f st = Done b st.
Proof. unfold list_test. by intros ->. Qed.
Lemma ret_run {A} (a : A) st : ret a st = Done a st.
Proof. done. Qed.

(** A function of the socket behind a block number. *)
Definition on_sock (st : stack) (f : tcp_sock -> bool) (n : positive) : bool :=
  match socks st !! n with Some s => f s | None => false end.
Definition sock_ptr (n : positive) : ptr := Ptr (BSock n) 0.

(** What [free_tcp_sock] does to the heap. *)
Definition released (st : stack) (n : positive) (s : tcp_sock) : stack :=
  if ref_cnt s - 1 <=? 0 then set_socks (delete n (socks st)) st
  else set_socks (<[n := set_ref_cnt (ref_cnt s - 1) s]> (socks st)) st.

Lemma free_tcp_sock_run st n s :
  socks st !! n = Some s -> free_tcp_sock (sock_ptr n) st = Done tt (released st n s).
Proof.
  intros Hs. unfold free_tcp_sock. erewrite bind_done; [|by apply modify_run].
  erewrite bind_done; [|apply sock_run, lookup_insert_eq]. unfold released. simpl ref_cnt.
  destruct (_ <=? 0); [|done]. rewrite (free_run _ n (set_ref_cnt (ref_cnt s - 1) s)); [|apply lookup_insert_eq].
  cbn [socks set_socks]. by rewrite delete_insert_eq.
Qed.

Lemma find_entry_socks st h moff test f l :
  dlist st h (nodes moff l) ->
  (forall n s, n ∈ l -> socks st !! n = Some s -> test (sock_ptr n) st = Done (f s) st) ->
  find_entry h moff test st = Done (sock_ptr <$> first_sock (on_sock st f) l) st.
Proof.
  intros D Ht. erewrite (find_entry_spec st h moff moff); [|exact D|].
  - do 2 f_equal. unfold sock_ptr. by rewrite Z.sub_diag.
  - intros n Hn. destruct (dlist_socks _ _ _ _ D) as [_ Hs]. destruct (Hs n Hn) as [s Es].
    rewrite Z.sub_diag. unfold on_sock. rewrite Es. eauto.
Qed.

Lemma hash_bucket a b p q : is_bucket (tcp_hash_function a b p q).
Proof.
  unfold is_bucket. rewrite tcp_hash_function_xor.
  apply (xor_bytes_u8 _). rewrite !Forall_app. auto with cint.
Qed.
Lemma key_bucket w s : is_bucket (key w s).
Proof. unfold key, conn. destruct w; apply hash_bucket. Qed.
#[local] Hint Resolve hash_bucket key_bucket : core.

Definition conn_is (saddr daddr sport dport : Z) (s : tcp_sock) : bool :=
  (sk_sip s =? saddr) && (sk_sport s =? sport) && (sk_dip s =? daddr) && (sk_dport s =? dport).

Lemma conn_is_true a b c d s :
  conn_is a b c d s = true <-> sk_sip s = a /\ sk_dip s = b /\ sk_sport s = c /\ sk_dport s = d.
Proof. unfold conn_is. rewrite !andb_true_iff, !Z.eqb_eq. naive_solver. Qed.

Section Specs.
Context `{Env}.

(** The established lookup returns the first socket of the bucket that matches. *)
Lemma lookup_established_run st c a b p q :
  lists_ok st c ->
  tcp_sock_lookup_established a b p q st =
  Done (or_null (sock_ptr <$> first_sock (on_sock st (conn_is a b p q)) (c TEst (tcp_hash_function a b p q)))) st.
Proof.
  intros [HL _]. unfold tcp_sock_lookup_established.
  erewrite bind_done; [reflexivity|]. apply (find_entry_socks st _ off_hash_list).
  - by apply (HL TEst).
  - intros n s _ Hs. erewrite bind_done; [|by apply sock_run]. done.
Qed.

Lemma lookup_listen_run st c a p :
  lists_ok st c ->
  tcp_sock_lookup_listen a p st =
  Done (or_null (sock_ptr <$> first_sock (on_sock st (fun s => sk_sport s =? p))
                                (c TLis (tcp_hash_function 0 0 p 0)))) st.
Proof.
  intros [HL _]. unfold tcp_sock_lookup_listen.
  erewrite bind_done; [reflexivity|]. apply (find_entry_socks st _ off_hash_list).
  - by apply (HL TLis).
  - intros n s _ Hs. erewrite bind_done; [|by apply sock_run]. done.
Qed.

(** Under the invariant the match is the only one. *)
Lemma first_conn st c a b p q n s :
  tables_ok st c -> socks st !! n = Some s -> conn_is a b p q s = true ->
  n ∈ c TEst (tcp_hash_function a b p q) ->
  first_sock (on_sock st (conn_is a b p q)) (c TEst (tcp_hash_function a b p q)) = Some n.
Proof.
  intros [HL HK HU] Hs Hc Hn. destruct (first_sock _ _) as [m|] eqn:E.
  - apply first_sock_Some in E as [Hm Ht]. unfold on_sock in Ht.
    destruct (socks st !! m) as [t|] eqn:Et; [|done]. f_equal.
    apply conn_is_true in Hc. apply conn_is_true in Ht.
    apply (HU (tcp_hash_function a b p q) m n t s); auto. unfold conn. intuition congruence.
  - apply first_sock_None with (n := n) in E; [|done]. unfold on_sock in E. rewrite Hs in E. congruence.
Qed.

(** ** Inserting a socket into a table: the list operation and the count *)

(** The table invariant only depends on the lists and on the connections. *)
Lemma tables_conn st st' c :
  tables_ok st c -> lists_ok st' c ->
  (forall m t', socks st' !! m = Some t' -> exists t, socks st !! m = Some t /\ conn t' = conn t) ->
  tables_ok st' c.
Proof.
  intros [_ HK HU] HL Hconn. split; [done|..].
  - intros w h n s' Hh Hn Hs'. destruct (Hconn n s' Hs') as (s & Hs & E).
    unfold key. rewrite E. by apply (HK w h n s).
  - intros h n m s' t' Hh Hn Hm Hs' Ht' Heq.
    destruct (Hconn n s' Hs') as (s & Hs & E), (Hconn m t' Ht') as (t & Ht & E').
    apply (HU h n m s t); auto. congruence.
Qed.

Lemma tables_add st c w n s st1 :
  tables_ok st c -> socks st !! n = Some s -> data st1 = data st ->
  lists_ok st1 (set_bucket c w (key w s) (n :: c w (key w s))) ->
  (w = TEst -> forall m t, m ∈ c TEst (key TEst s) -> socks st !! m = Some t -> conn s ≠ conn t) ->
  tables_ok st1 (set_bucket c w (key w s) (n :: c w (key w s))).
Proof.
  intros [HL HK HU] Hs Ed HL1 Hnew.
  assert (Hback : forall m t', socks st1 !! m = Some t' -> exists t, socks st !! m = Some t /\ conn t' = conn t).
  { intros m t' Ht'. destruct (data_sock st1 st m t' (eq_sym Ed) Ht') as (t & Ht & E).
    exists t. split; [done|]. symmetry. by apply strip_conn. }
  split; [done|..].
  - intros w' h m t' Hh Hm Ht'. destruct (Hback m t' Ht') as (t & Ht & E). unfold key. rewrite E.
    apply bucket_elem in Hm as [(-> & -> & [->|Hm]%elem_of_cons)|[_ Hm]]; [by simplify_eq|..];
      by eapply HK.
  - intros h m1 m2 t1' t2' Hh Hm1 Hm2 Ht1' Ht2' Heq.
    destruct (Hback m1 t1' Ht1') as (t1 & Ht1 & E1), (Hback m2 t2' Ht2') as (t2 & Ht2 & E2).
    rewrite E1, E2 in Heq. apply bucket_elem in Hm1, Hm2.
    destruct Hm1 as [(Ew & Eh & Hm1)|[N1 Hm1]], Hm2 as [(Ew' & Eh' & Hm2)|[N2 Hm2]]; [|tauto..|by eapply HU].
    subst w h. apply elem_of_cons in Hm1 as [->|Hm1], Hm2 as [->|Hm2]; [done|..|by eapply HU].
    + exfalso. apply (Hnew eq_refl m2 t2); auto. congruence.
    + exfalso. apply (Hnew eq_refl m1 t1); auto. congruence.
Qed.

Lemma tables_modify st c n s s' :
  tables_ok st c -> socks st !! n = Some s -> conn s' = conn s ->
  (forall o get set, sock_node o = Some (get, set) -> get s' = get s) ->
  tables_ok (set_socks (<[n := s']> (socks st)) st) c.
Proof.
  intros HT Hs Hc Hk. apply (tables_conn st); [done|by apply (lists_modify st c n s); [apply HT|..]|].
  intros m t'. simpl. destruct (decide (n = m)) as [<-|Hne].
  - rewrite lookup_insert_eq. intros [= <-]. eauto.
  - rewrite lookup_insert_ne by done. eauto.
Qed.

(** The sockets of [st'] are those of [st] but for the nodes of the tables and
    for the count of socket [n], which is [s] in [st] and has changed by [d]. *)
Definition counted (st st' : stack) (n : positive) (s : tcp_sock) (d : Z) : Prop :=
  strip <$> socks st' = <[n := strip (set_ref_cnt (ref_cnt s + d) s)]> (strip <$> socks st) /\
  sent st' = sent st /\ other_nodes st st' /\ next_blk st' = next_blk st.

Lemma data_view st st' :
  data st' = data st ->
  strip <$> socks st' = strip <$> socks st /\ sent st' = sent st /\ next_blk st' = next_blk st.
Proof.
  intros E. split; [exact (f_equal (fun d => d.1.1.1) E)|].
  split; [exact (f_equal (fun d => d.1.2) E)|exact (f_equal (fun d => d.1.1.2) E)].
Qed.

(** Sockets with the same data keep them when the same member is set in both. *)
Lemma strip_wait c w s s' : strip s = strip s' -> strip (set_wait c w s) = strip (set_wait c w s').
Proof. assert (E : forall x, strip (set_wait c w x) = set_wait c w (strip x)) by (by destruct c). intros Es. by rewrite !E, Es. Qed.
Lemma strip_state x s s' : strip s = strip s' -> strip (set_state x s) = strip (set_state x s').
Proof. intros Es. exact (f_equal (set_state x) Es). Qed.
Lemma strip_backlog b s s' : strip s = strip s' -> strip (set_backlog b s) = strip (set_backlog b s').
Proof. intros Es. exact (f_equal (set_backlog b) Es). Qed.
Lemma strip_set_ref s s1 v : strip s1 = strip s -> strip (set_ref_cnt v s1) = strip (set_ref_cnt v s).
Proof. intros E. exact (f_equal (set_ref_cnt v) E). Qed.

(** Changing the count of a socket after a list operation. *)
Lemma counted_modify st st1 n s s1 d :
  data st1 = data st -> other_nodes st st1 -> socks st1 !! n = Some s1 -> strip s1 = strip s ->
  counted st (set_socks (<[n := set_ref_cnt (ref_cnt s1 + d) s1]> (socks st1)) st1) n s d.
Proof.
  intros Ed Ho Hs1 E. destruct (data_view _ _ Ed) as (Ev & Es & En). split; [|split; [done|split; [|done]]].
  - simpl. rewrite fmap_insert, Ev, (strip_ref_cnt _ _ E). f_equal. by apply strip_set_ref.
  - split; [|exact (proj2 Ho)]. intros m o H1 H2. rewrite <- (proj1 Ho) by done.
    apply (modify_node_get st1 n s1); [done|keeps].
Qed.

(** [list_add_head] into the right bucket of a table, then one more reference. *)
Lemma hash_run st c w n s :
  tables_ok st c -> socks st !! n = Some s -> unlinked c w n ->
  (w = TEst -> forall m t, m ∈ c TEst (key TEst s) -> socks st !! m = Some t -> conn s ≠ conn t) ->
  exists st',
    (list_op (fun st => list_add_head st (ptr_add (sock_ptr n) (moff_of w)) (head_of w (key w s)));;
     tcp_sock_inc_ref_cnt (sock_ptr n);; ret 0) st = Done 0 st' /\
    tables_ok st' (set_bucket c w (key w s) (n :: c w (key w s))) /\ counted st st' n s 1.
Proof.
  intros HT Hs Hun Hnew.
  destruct (lists_add st c w (key w s) n (to_lists _ _ HT) (key_bucket w s) ltac:(eauto) Hun)
    as (st1 & E & HL1 & Ed & Ho).
  destruct (data_sock _ _ _ _ Ed Hs) as (s1 & Hs1 & Es1).
  eexists. split.
  { erewrite bind_done; [|by apply list_op_run; simpl]. 
    erewrite bind_done; [|by apply modify_run]. done. }
  split; [|by apply counted_modify].
  apply (tables_modify st1 _ n s1); [|done|done|keeps].
  by apply (tables_add st c w n s st1).
Qed.

(** [list_delete_entry] from a bucket, then one reference less. *)
Lemma unhash_run st c w h n s l1 l2 :
  tables_ok st c -> is_bucket h -> c w h = l1 ++ n :: l2 -> socks st !! n = Some s ->
  exists st1 s1, 
    (do empty <- list_test (fun st => list_empty st (ptr_add (sock_ptr n) (moff_of w)));
     if negb empty then
       list_op (fun st => list_delete_entry st (ptr_add (sock_ptr n) (moff_of w)));;
       free_tcp_sock (sock_ptr n)
     else ret tt) st =
    (if ref_cnt s - 1 <=? 0 then Done tt (set_socks (delete n (socks st1)) st1) else Done tt st1) /\
    tables_ok st1 (set_bucket c w h (l1 ++ l2)) /\ counted st st1 n s (-1) /\
    socks st1 !! n = Some s1 /\ strip s1 = strip (set_ref_cnt (ref_cnt s + -1) s) /\
    unlinked (set_bucket c w h (l1 ++ l2)) w n.
Proof.
  intros HT Hh Ec Hs.
  destruct (lists_delete st c w h n l1 l2 (to_lists _ _ HT) Hh Ec) as (st1 & E & HL1 & Ed & Ho & Hun & Em).
  destruct (data_sock _ _ _ _ Ed Hs) as (s1 & Hs1 & Es1).
  set (s2 := set_ref_cnt (ref_cnt s1 - 1) s1).
  set (st2 := set_socks (<[n := s2]> (socks st1)) st1).
  assert (Hs2 : socks st2 !! n = Some s2) by apply lookup_insert_eq.
  exists st2, s2. split.
  { erewrite bind_done; [|by apply list_test_run; simpl]. cbn [negb].
    erewrite bind_done; [|by apply list_op_run; simpl]. unfold free_tcp_sock.
    erewrite bind_done; [|by apply modify_run].
    erewrite bind_done; [|by apply sock_run].
    replace (ref_cnt s2) with (ref_cnt s - 1)
      by (unfold s2; simpl; by rewrite (strip_ref_cnt _ _ Es1)).
    destruct (_ <=? 0); [by apply (free_run st2 n s2)|done]. }
  assert (HT1 : tables_ok st1 (set_bucket c w h (l1 ++ l2))).
  { assert (Hsub : forall w' h' m, m ∈ set_bucket c w h (l1 ++ l2) w' h' -> m ∈ c w' h').
    { intros w' h' m. rewrite bucket_elem. intros [(-> & -> & Hm)|[_ Hm]]; [|done].
      rewrite Ec. set_solver. }
    assert (Hback : forall m t', socks st1 !! m = Some t' -> exists t, socks st !! m = Some t /\ conn t' = conn t).
    { intros m t' Ht'. destruct (data_sock st1 st m t' (eq_sym Ed) Ht') as (t & Ht & Et).
      exists t. split; [done|]. symmetry. by apply strip_conn. }
    split; [done|..].
    - intros w' h' m t' Hh' Hm Ht'. destruct (Hback m t' Ht') as (t & Ht & Et).
      unfold key. rewrite Et. apply (to_key _ _ HT w' h' m t); auto.
    - intros h' m1 m2 t1' t2' Hh' Hm1 Hm2 Ht1 Ht2 Heq.
      destruct (Hback _ _ Ht1) as (t1 & T1 & E1), (Hback _ _ Ht2) as (t2 & T2 & E2).
      apply (to_uniq _ _ HT h' m1 m2 t1 t2); auto. congruence. }
  split; [apply (tables_modify st1 _ n s1); [done..|keeps]|].
  split; [apply (counted_modify st st1 n s s1 (-1)); done|].
  split; [done|]. split; [|done]. unfold s2. rewrite (strip_ref_cnt _ _ Es1).
  by apply strip_set_ref.
Qed.

End Specs.

(** ** Initialisation *)

Definition all_heads (st : stack) : Prop :=
  forall w h, is_bucket h -> is_Some (node_get st (head_of w h)).

Lemma init_heads_run w n i st :
  0 <= i -> i + Z.of_nat n <= TCP_HASH_SIZE -> all_heads st ->
  exists st', init_heads n i (head_of w) st = Done tt st' /\ all_heads st' /\ data st' = data st /\
    (forall h, i <= h < i + Z.of_nat n -> dlist st' (head_of w h) []) /\
    (forall w' h', is_bucket h' -> ~ (w' = w /\ i <= h' < i + Z.of_nat n) ->
       dlist st (head_of w' h') [] -> dlist st' (head_of w' h') []).
Proof.
  revert i st. induction n as [|n IH]; intros i st Hi Hn Ha.
  { exists st. do 3 (split; [done|]). split; [intros h Hh; lia|done]. }
  assert (Hb : is_bucket i) by (unfold is_bucket; lia).
  destruct (init_list_head_spec st (head_of w i) (Ha w i Hb)) as (st1 & E1 & D1 & O1).
  assert (Ha1 : all_heads st1).
  { intros w' h' Hh'. destruct (decide (head_of w' h' = head_of w i)) as [->|Hne].
    - apply (dlist_node _ _ _ _ D1). set_solver.
    - rewrite O1; [by apply Ha|set_solver]. }
  destruct (IH (i + 1) st1) as (st' & E & Ha' & Ed & Dn & Dk); [lia|lia|done|].
  exists st'. split.
  { cbn [init_heads]. erewrite bind_done; [exact E|]. by apply list_op_run. }
  split; [done|]. split; [rewrite Ed; by apply init_list_head_data in E1|]. split.
  - intros h Hh. destruct (decide (h = i)) as [->|]; [|apply Dn; lia].
    apply Dk; [done|lia|done].
  - intros w' h' Hh' Hne D. apply Dk; [done|intros [-> ?]; apply Hne; split; [done|lia]|].
    apply (dlist_frame [head_of w i] st); [done..|].
    intros x [->|Hx]%elem_of_cons; [|by apply elem_of_nil in Hx].
    intros [Hx|Hx]%elem_of_cons; [|by apply elem_of_nil in Hx].
    apply head_of_inj in Hx as [-> ->]; [|done..]. apply Hne. split; [done|lia].
Qed.

Lemma boot_heads k : all_heads (boot k).
Proof.
  intros w h Hh. unfold is_bucket, TCP_HASH_SIZE, HASH_8BITS in Hh.
  assert (exists i, head_of w h = Ptr BTable (16 * i) /\ 0 <= i < 768) as (i & -> & Hi).
  { destruct w; eexists; (split; [reflexivity|]); unfold TCP_HASH_SIZE, HASH_8BITS; lia. }
  change (node_get (boot k) (Ptr BTable (16 * i))) with (table (boot k) !! (16 * i)).
  destruct (table (boot k) !! (16 * i)) as [nd|] eqn:E; [by eexists|]. unfold boot, table in E.
  apply not_elem_of_list_to_map in E. destruct E. rewrite <- list_fmap_compose.
  apply list_elem_of_fmap. exists i. split; [done|]. apply elem_of_seqZ.
  unfold TCP_HASH_SIZE, HASH_8BITS. lia.
Qed.

Definition no_socks : buckets := fun _ _ => [].

Lemma init_tcp_stack_run k :
  exists st, init_tcp_stack (boot k) = Done tt st /\ tables_ok st no_socks /\ socks st = ∅ /\ sent st = [].
Proof.
  assert (Hn : Z.of_nat (Z.to_nat TCP_HASH_SIZE) = TCP_HASH_SIZE) by done.
  destruct (init_heads_run TEst (Z.to_nat TCP_HASH_SIZE) 0 (boot k)) as (st1 & E1 & A1 & D1 & L1 & K1);
    [lia|lia|apply boot_heads|].
  destruct (init_heads_run TLis (Z.to_nat TCP_HASH_SIZE) 0 st1) as (st2 & E2 & A2 & D2 & L2 & K2);
    [lia|lia|done|].
  destruct (init_heads_run TBnd (Z.to_nat TCP_HASH_SIZE) 0 st2) as (st3 & E3 & A3 & D3 & L3 & K3);
    [lia|lia|done|].
  rewrite Hn in *. exists st3. split.
  { unfold init_tcp_stack. erewrite bind_done; [|exact E1]. erewrite bind_done; [|exact E2]. exact E3. }
  assert (Hd : data st3 = data (boot k)) by congruence.
  destruct (data_view _ _ Hd) as (Hv & Hse & _).
  change (socks (boot k)) with (∅ : gmap positive tcp_sock) in Hv. rewrite fmap_empty in Hv.
  apply fmap_empty_iff in Hv.
  split; [|split; [exact Hv|rewrite Hse; reflexivity]]. clear Hv Hse Hd E1 E2 E3.
  split; [split|..].
  - intros w h Hh. unfold is_bucket in Hh. destruct w.
    + apply K3; [done|intros [? _]; done|]. apply K2; [done|intros [? _]; done|]. apply L1. lia.
    + apply K3; [done|intros [? _]; done|]. apply L2. lia.
    + apply L3. lia.
  - intros w h w' h' n _ _ _ Hm. by apply elem_of_nil in Hm.
  - intros w h n s _ Hm. by apply elem_of_nil in Hm.
  - intros h n m s t _ Hm. by apply elem_of_nil in Hm.
Qed.

(** Empty tables stay well formed whatever the heap holds. *)
Lemma no_socks_ok st m : tables_ok st no_socks -> tables_ok (set_socks m st) no_socks.
Proof.
  intros [[HL _] _ _]. split; [split|..].
  - intros w h Hh. destruct (HL w h Hh) as [ND HL']. split; [done|].
    intros a b Hab. specialize (HL' a b Hab). simpl in Hab.
    apply elem_of_cons in Hab as [[= -> ->]|Hab]; [|by apply elem_of_nil in Hab].
    destruct w; exact HL'.
  - intros w h w' h' n _ _ _ Hm. by apply elem_of_nil in Hm.
  - intros w h n s _ Hm. by apply elem_of_nil in Hm.
  - intros h n m' s t _ Hm. by apply elem_of_nil in Hm.
Qed.

(** The stack as [init_tcp_stack] leaves it, and with sockets put into its heap. *)
Definition stack0 : stack :=
  match init_tcp_stack (boot 0) with Done _ st => st | _ => boot 0 end.
#[global] Opaque stack0.
Definition with_socks (m : gmap positive tcp_sock) : stack := set_socks m stack0.

Lemma stack0_ok : tables_ok stack0 no_socks.
Proof.
  destruct (init_tcp_stack_run 0) as (st & E & HT & _). with_strategy transparent [stack0] unfold stack0.
  rewrite E. exact HT.
Qed.

Lemma with_socks_ok m : tables_ok (with_socks m) no_socks.
Proof. apply no_socks_ok, stack0_ok. Qed.

Lemma no_socks_unlinked w n : unlinked no_socks w n.
Proof. intros w' h' _ _ Hn. by apply elem_of_nil in Hn. Qed.
