(* ===== verification/SockTables.v ===== *)
(** * Theorems on sockets and tables

    What [tcp_hash], [tcp_unhash], the lookups, the port functions, allocation
    and initialisation do, in every case, on tables that satisfy the invariant of
    Sock.v. *)

From S2P Require Import Prelude Hash DList RingBuffer SynchWait Layout Segment Memory Sock.

(** An environment in which every allocation succeeds. *)
Definition demo_env : Env := {|
  malloc_ok _ := true;
  block_addr n := 0x555500000000 + 512 * Z.pos n;
  table_addr := 0x555400000000;
  timers_addr := 0x555400010000;
  past_instance := 0
|}.

(** A socket of the connection 10.0.0.1:10001 - 10.0.0.2:12345 in a given state. *)
Definition demo_sock (s : tcp_state) : tcp_sock :=
  set_sip 0x0a000001 (set_sport 10001 (set_dip 0x0a000002 (set_dport 12345 (set_state s zero_sock)))).

Section Theorems.
Context `{Env}.

(** ** Initialisation and allocation *)

(** [init_tcp_stack] on the zeroed static memory terminates normally and
    leaves all 768 buckets of the three tables empty, well-formed lists. *)
Theorem init_tcp_stack_spec k :
  exists st, init_tcp_stack (boot k) = Done tt st /\ tables_ok st no_socks /\ socks st = ∅ /\ sent st = [].
Proof. apply init_tcp_stack_run. Qed.

(** What [alloc_tcp_sock] puts into a fresh block. *)
Definition new_sock (n : positive) : tcp_sock :=
  let at_ o := ListHead (Ptr (BSock n) o) (Ptr (BSock n) o) in
  set_list (at_ off_list) (set_listen_queue (at_ off_listen_queue) (set_accept_queue (at_ off_accept_queue)
    (set_rcv_wnd TCP_DEFAULT_WINDOW (set_rcv_buf (Ring.alloc_ring_buffer TCP_DEFAULT_WINDOW) zero_sock)))).

Lemma malloc_unchecked_run st :
  malloc_ok (nmalloc st) = true -> malloc_unchecked st = Done tt (tick_malloc st).
Proof. intros Hm. unfold malloc_unchecked, bind, malloc. simpl. by rewrite Hm. Qed.
Lemma malloc_unchecked_fails {B} st (k : unit -> M B) :
  malloc_ok (nmalloc st) = false -> bind malloc_unchecked k st = Fault BadAccess.
Proof. intros Hm. apply bind_fault. unfold malloc_unchecked, bind, malloc. simpl. by rewrite Hm. Qed.

Lemma init_node_run st n s o get set :
  socks st !! n = Some s -> sock_node o = Some (get, set) ->
  (forall a b x, set a (set b x) = set a x) ->
  list_op (fun st => init_list_head st (ptr_add (sock_ptr n) o)) st =
  Done tt (set_socks (<[n := set (ListHead (Ptr (BSock n) o) (Ptr (BSock n) o)) s]> (socks st)) st).
Proof.
  intros Hs Hn Hss. apply list_op_run. change (ptr_add (sock_ptr n) o) with (Ptr (BSock n) o).
  unfold init_list_head, set_prev, set_next. simpl.
  rewrite Hs. simpl. rewrite Hn. simpl. rewrite lookup_insert_eq. simpl.
  rewrite (sock_node_set _ _ _ _ _ Hn). simpl. by rewrite insert_insert_eq, Hss.
Qed.

(** The six allocations of [alloc_tcp_sock], the first being the [k]-th of all. *)
Definition allocs_ok (k : nat) : bool := forallb (fun i => malloc_ok (i + k)) [0; 1; 2; 3; 4; 5]%nat.

(** Run one allocation, and one assignment. *)
Ltac step_malloc k :=
  let E := fresh "Em" in
  destruct (malloc_ok k) eqn:E; [|by apply malloc_unchecked_fails];
  erewrite bind_done; [|apply malloc_unchecked_run; exact E].
Ltac step_modify :=
  erewrite bind_done; [|apply modify_run, lookup_insert_eq];
  cbn [socks set_socks tick_malloc]; rewrite insert_insert_eq.

Lemma alloc_run st :
  alloc_tcp_sock st =
  if allocs_ok (nmalloc st) then
    Done (sock_ptr (next_blk st))
      (Stack (<[next_blk st := new_sock (next_blk st)]> (socks st)) (Pos.succ (next_blk st)) (table st)
             (timer_list st) (sent st) (6 + nmalloc st))
  else Fault BadAccess.
Proof.
  destruct st as [ss n tb tl se nm]. unfold allocs_ok, alloc_tcp_sock. cbn [nmalloc next_blk forallb Nat.add].
  step_malloc nm. erewrite bind_done; [|reflexivity]. cbn [next_blk tick_malloc socks].
  do 2 step_modify.
  do 3 (erewrite bind_done; [|eapply init_node_run; [apply lookup_insert_eq|reflexivity|reflexivity]];
        cbn [socks set_socks]; rewrite insert_insert_eq).
  step_malloc (S nm). step_modify. step_malloc (S (S nm)). step_modify. step_malloc (S (S (S nm))). step_modify.
  step_malloc (S (S (S (S nm)))). step_modify. step_malloc (S (S (S (S (S nm))))). step_modify.
  unfold new_sock. match goal with |- context [Ring.alloc_ring_buffer ?w] => replace w with TCP_DEFAULT_WINDOW by reflexivity end.
  generalize (Ring.alloc_ring_buffer TCP_DEFAULT_WINDOW). reflexivity.
Qed.

Lemma alloc_cases st :
  (forall m, is_Some (socks st !! m) -> (m < next_blk st)%positive) ->
  alloc_tcp_sock st = Fault BadAccess \/
  exists st', alloc_tcp_sock st = Done (sock_ptr (next_blk st)) st' /\ socks st !! next_blk st = None /\
    socks st' = <[next_blk st := new_sock (next_blk st)]> (socks st).
Proof.
  intros Hfresh. rewrite alloc_run. destruct (allocs_ok (nmalloc st)); [right|by left].
  eexists. split; [reflexivity|]. split; [|done]. destruct (socks st !! next_blk st) as [s|] eqn:E; [|done].
  exfalso. apply (Pos.lt_irrefl (next_blk st)). apply Hfresh. rewrite E. eauto.
Qed.

(** When its six allocations succeed, [alloc_tcp_sock] returns a block
    that was not in use, holding a closed socket with no references, a receive
    window of 65535, an empty receive buffer of that capacity and empty queues
    (but with null [hash_list] and [bind_hash_list] nodes); every other socket
    is untouched.  When any of them fails, the null pointer is dereferenced. *)
Theorem alloc_tcp_sock_spec st :
  (forall m, is_Some (socks st !! m) -> (m < next_blk st)%positive) ->
  let n := next_blk st in
  (allocs_ok (nmalloc st) = true ->
   exists st', alloc_tcp_sock st = Done (sock_ptr n) st' /\ socks st !! n = None /\
     socks st' = <[n := new_sock n]> (socks st) /\ table st' = table st /\ sent st' = sent st /\
     Ring.contents (rcv_buf (new_sock n)) = [] /\
     Ring.ring_buffer_free (rcv_buf (new_sock n)) = TCP_DEFAULT_WINDOW /\
     hash_list (new_sock n) = ListHead NULL NULL /\ bind_hash_list (new_sock n) = ListHead NULL NULL) /\
  (allocs_ok (nmalloc st) = false -> alloc_tcp_sock st = Fault BadAccess).
Proof.
  intros Hfresh n. rewrite alloc_run. split; intros ->; [|done].
  eexists. split; [reflexivity|]. split; [|repeat split; reflexivity].
  destruct (socks st !! n) as [s|] eqn:E; [|done]. exfalso. apply (Pos.lt_irrefl n). apply Hfresh. rewrite E. eauto.
Qed.

(** ** Hashing and looking up *)

(** Socket [n], in state [st] the socket [s], has been linked at the front of its
    bucket of table [w] and has one more reference. *)
Definition hashed (st st' : stack) (c : buckets) (w : which) (n : positive) (s : tcp_sock) : Prop :=
  tables_ok st' (set_bucket c w (key w s) (n :: c w (key w s))) /\ counted st st' n s 1.

Definition conn_taken (st : stack) (c : buckets) (s : tcp_sock) : Prop :=
  exists m t, m ∈ c TEst (key TEst s) /\ socks st !! m = Some t /\ conn t = conn s.

Lemma find_same_conn st c s :
  lists_ok st c ->
  find_entry (tcp_established_sock_table (tcp_hash_function (sk_sip s) (sk_dip s) (sk_sport s) (sk_dport s)))
    off_hash_list (fun tmp => do t <- sock tmp;
      ret ((sk_sip s =? sk_sip t) && (sk_dip s =? sk_dip t) && (sk_sport s =? sk_sport t)
           && (sk_dport s =? sk_dport t))) st =
  Done (sock_ptr <$> first_sock (on_sock st (fun t => (sk_sip s =? sk_sip t) && (sk_dip s =? sk_dip t)
     && (sk_sport s =? sk_sport t) && (sk_dport s =? sk_dport t))) (c TEst (key TEst s))) st.
Proof.
  intros [HL _]. apply (find_entry_socks st _ off_hash_list).
  - pose proof (HL TEst _ (key_bucket TEst s)) as D. cbv [key key_of conn head_of moff_of] in D |- *. exact D.
  - intros n t _ Ht. erewrite bind_done; [|by apply sock_run]. done.
Qed.

Lemma first_same_conn st c s :
  lists_ok st c ->
  is_Some (first_sock (on_sock st (fun t => (sk_sip s =? sk_sip t) && (sk_dip s =? sk_dip t)
     && (sk_sport s =? sk_sport t) && (sk_dport s =? sk_dport t))) (c TEst (key TEst s)))
  <-> conn_taken st c s.
Proof.
  intros [HL _]. destruct (first_sock _ _) as [m|] eqn:E.
  - split; [|by eauto]. intros _. apply first_sock_Some in E as [Hm Ht]. unfold on_sock in Ht.
    destruct (socks st !! m) as [t|] eqn:Et; [|done]. zprop. exists m, t. unfold conn. repeat split; congruence.
  - split; [by intros [? ?]|]. intros (m & t & Hm & Ht & Hc). exfalso.
    rewrite first_sock_None in E. specialize (E m Hm). unfold on_sock in E. rewrite Ht in E.
    injection Hc as E1 E2 E3 E4. by rewrite E1, E2, E3, E4, !Z.eqb_refl in E.
Qed.

Lemma tcp_hash_listen st c n s :
  tables_ok st c -> socks st !! n = Some s -> unlinked c TEst n -> state s = TCP_LISTEN ->
  exists st', tcp_hash (sock_ptr n) st = Done 0 st' /\ hashed st st' c TLis n s.
Proof.
  intros HT Hs Hun E. destruct (hash_run st c TLis n s) as (st' & R & P); [done..|].
  exists st'. split; [|exact P]. unfold tcp_hash. rewrite (bind_done _ _ _ _ _ (sock_run _ _ _ Hs)).
  rewrite decide_False by congruence. erewrite bind_done; [|by rewrite decide_True]. exact R.
Qed.

Lemma tcp_hash_taken st c n s :
  tables_ok st c -> socks st !! n = Some s -> state s ≠ TCP_CLOSED -> state s ≠ TCP_LISTEN ->
  conn_taken st c s -> tcp_hash (sock_ptr n) st = Done (-1) st.
Proof.
  intros HT Hs E1 E2 Hc. pose proof (to_lists _ _ HT) as HL.
  unfold tcp_hash. rewrite (bind_done _ _ _ _ _ (sock_run _ _ _ Hs)). rewrite decide_False by done.
  erewrite bind_done; [|rewrite decide_False by done;
    erewrite bind_done; [reflexivity|by apply (find_same_conn st c)]].
  apply (first_same_conn st c s HL) in Hc. rewrite bool_decide_true; [done|]. by apply fmap_is_Some.
Qed.

Lemma tcp_hash_est st c n s :
  tables_ok st c -> socks st !! n = Some s -> unlinked c TEst n ->
  state s ≠ TCP_CLOSED -> state s ≠ TCP_LISTEN -> ~ conn_taken st c s ->
  exists st', tcp_hash (sock_ptr n) st = Done 0 st' /\ hashed st st' c TEst n s.
Proof.
  intros HT Hs Hun E1 E2 Hc. pose proof (to_lists _ _ HT) as HL.
  destruct (hash_run st c TEst n s) as (st' & R & P); [done..| |].
  { intros _ m t Hm Ht Heq. apply Hc. by exists m, t. }
  exists st'. split; [|exact P]. unfold tcp_hash. rewrite (bind_done _ _ _ _ _ (sock_run _ _ _ Hs)).
  rewrite decide_False by done.
  erewrite bind_done; [|rewrite decide_False by done;
    erewrite bind_done; [reflexivity|by apply (find_same_conn st c)]].
  rewrite bool_decide_false; [exact R|]. by rewrite fmap_is_Some, (first_same_conn st c s HL).
Qed.

(** C19: [tcp_hash] of a socket that is not linked refuses a closed socket,
    links a listening one into the listen table under its port, and links any
    other into the established table under its connection unless a socket of
    that connection is already there, in which case it fails; failures change
    nothing, successes add a reference and keep the tables well formed. *)
Theorem tcp_hash_spec st c n s :
  tables_ok st c -> socks st !! n = Some s -> unlinked c TEst n ->
  (state s = TCP_CLOSED -> tcp_hash (sock_ptr n) st = Done (-1) st) /\
  (state s = TCP_LISTEN ->
     exists st', tcp_hash (sock_ptr n) st = Done 0 st' /\ hashed st st' c TLis n s) /\
  (state s ≠ TCP_CLOSED -> state s ≠ TCP_LISTEN ->
     (conn_taken st c s -> tcp_hash (sock_ptr n) st = Done (-1) st) /\
     (~ conn_taken st c s ->
        exists st', tcp_hash (sock_ptr n) st = Done 0 st' /\ hashed st st' c TEst n s)).
Proof.
  intros HT Hs Hun. split; [|split].
  - intros E. unfold tcp_hash. rewrite (bind_done _ _ _ _ _ (sock_run _ _ _ Hs)). by rewrite decide_True.
  - by apply tcp_hash_listen.
  - split; [by apply (tcp_hash_taken st c n s)|by apply tcp_hash_est].
Qed.

(** C18: on well-formed tables [tcp_sock_lookup] terminates without touching
    memory and returns the one socket established for the packet's connection if
    there is one; otherwise a listening socket on its destination port;
    otherwise NULL, exactly when neither exists. *)
Theorem tcp_sock_lookup_spec st c cb :
  tables_ok st c ->
  let a := daddr cb in let b := saddr cb in let p := dport cb in let q := sport cb in
  let est := c TEst (tcp_hash_function a b p q) in
  let lis := c TLis (tcp_hash_function 0 0 p 0) in
  exists r, tcp_sock_lookup cb st = Done r st /\
  (forall n s, n ∈ est -> socks st !! n = Some s -> conn s = (a, b, p, q) -> r = sock_ptr n) /\
  ((forall n s, n ∈ est -> socks st !! n = Some s -> conn s ≠ (a, b, p, q)) ->
     (forall n, r = sock_ptr n -> n ∈ lis /\ exists s, socks st !! n = Some s /\ sk_sport s = p) /\
     (r = NULL <-> forall n s, n ∈ lis -> socks st !! n = Some s -> sk_sport s ≠ p)).
Proof.
  intros HT a b p q est lis. pose proof (to_lists _ _ HT) as HL.
  unfold tcp_sock_lookup. fold a b p q.
  rewrite (bind_done _ _ _ _ _ (lookup_established_run st c a b p q HL)). fold est.
  destruct (first_sock (on_sock st (conn_is a b p q)) est) as [m|] eqn:E1; simpl.
  - exists (sock_ptr m). split; [done|]. pose proof (first_sock_Some _ _ _ E1) as [Hm Ht].
    unfold on_sock in Ht. destruct (socks st !! m) as [t|] eqn:Et; [|done]. split.
    + intros n s Hn Hs Hc. unfold sock_ptr. do 2 f_equal. injection Hc as ????.
      assert (first_sock (on_sock st (conn_is a b p q)) est = Some n) as E2.
      { apply (first_conn st c a b p q n s); auto. by apply conn_is_true. }
      congruence.
    + intros Hno. exfalso. apply (Hno m t); auto. apply conn_is_true in Ht as (<- & <- & <- & <-). done.
  - rewrite (lookup_listen_run st c a p HL). fold lis. eexists. split; [done|]. split.
    + intros n s Hn Hs Hc. exfalso. rewrite first_sock_None in E1. specialize (E1 n Hn).
      unfold on_sock in E1. rewrite Hs in E1. injection Hc as ????.
      assert (conn_is a b p q s = true) by (by apply conn_is_true). congruence.
    + intros _. destruct (first_sock _ lis) as [m|] eqn:E2; simpl.
      * pose proof (first_sock_Some _ _ _ E2) as [Hm Ht]. unfold on_sock in Ht.
        destruct (socks st !! m) as [t|] eqn:Et; [|done]. zprop. split.
        -- intros n [= <-]. eauto.
        -- split; [done|]. intros Hno. by destruct (Hno m t).
      * rewrite first_sock_None in E2. split; [done|]. split; [|done]. intros _ n s Hn Hs Hp.
        specialize (E2 n Hn). unfold on_sock in E2. rewrite Hs in E2. zprop. done.
Qed.


(** ** Unhashing *)

Definition in_no_table (c : buckets) (n : positive) : Prop := forall w h, is_bucket h -> n ∉ c w h.

(** Freeing a socket that no table links keeps the tables well formed. *)
Lemma tables_free st c n :
  tables_ok st c -> in_no_table c n -> tables_ok (set_socks (delete n (socks st)) st) c.
Proof.
  intros HT Hun. pose proof (to_lists _ _ HT) as [HL HO].
  apply (tables_conn st); [done|split; [|done]|].
  - intros w h Hh. apply (dlist_ext st); [by apply HL|].
    intros p [->|Hp]%elem_of_cons; [by destruct w|].
    apply list_elem_of_fmap in Hp as (m & -> & Hm). simpl.
    rewrite lookup_delete_ne; [done|]. intros ->. by apply (Hun w h).
  - intros m t'. simpl. intros [_ Ht]%lookup_delete_Some. eauto.
Qed.

(** The socket may change at will as long as no table links it. *)
Lemma tables_update st c n s' :
  tables_ok st c -> in_no_table c n -> tables_ok (set_socks (<[n := s']> (socks st)) st) c.
Proof.
  intros HT Hun. pose proof (to_lists _ _ HT) as [HL HO].
  assert (Hne : forall w h m, is_bucket h -> m ∈ c w h -> m ≠ n)
    by (intros w h m Hh Hm ->; by apply (Hun w h)).
  split; [split; [|done]|..].
  - intros w h Hh. apply (dlist_ext st); [by apply HL|].
    intros p [->|Hp]%elem_of_cons; [by destruct w|].
    apply list_elem_of_fmap in Hp as (m & -> & Hm). simpl.
    rewrite lookup_insert_ne; [done|]. intros <-. by apply (Hne w h n).
  - intros w h m t Hh Hm. simpl. rewrite lookup_insert_ne by (apply not_eq_sym; eauto).
    by apply (to_key _ _ HT).
  - intros h m1 m2 t1 t2 Hh H1 H2. simpl. rewrite !lookup_insert_ne by (apply not_eq_sym; eauto).
    by apply (to_uniq _ _ HT h).
Qed.

Lemma counted_sock st st' n s d :
  counted st st' n s d -> exists s', socks st' !! n = Some s' /\ strip s' = strip (set_ref_cnt (ref_cnt s + d) s).
Proof.
  intros [E _]. assert (Hn : (strip <$> socks st') !! n = Some (strip (set_ref_cnt (ref_cnt s + d) s)))
    by (by rewrite E, lookup_insert_eq).
  rewrite lookup_fmap in Hn. destruct (socks st' !! n) as [s'|]; [|done]. simpl in Hn.
  apply (inj Some) in Hn. eauto.
Qed.

(** What [tcp_unhash] and [tcp_bind_unhash] leave of socket [n], linked in bucket
    [h] of table [w]: with more than one reference it loses one; with the last
    reference gone it is freed, and then the tables stay well formed provided no
    other table still links it. *)
Definition unhashed (st st' : stack) (c : buckets) (w : which) (h : Z) (n : positive) (s : tcp_sock) : Prop :=
  let c' := set_bucket c w h (filter (fun m => m ≠ n) (c w h)) in
  (forall m t, m ≠ n -> socks st !! m = Some t -> exists t', socks st' !! m = Some t' /\ strip t' = strip t) /\
  (1 < ref_cnt s -> tables_ok st' c' /\ counted st st' n s (-1)) /\
  (ref_cnt s <= 1 -> socks st' !! n = None /\ (in_no_table c' n -> tables_ok st' c')).

Lemma counted_others st st' n s d m t :
  counted st st' n s d -> m ≠ n -> socks st !! m = Some t ->
  exists t', socks st' !! m = Some t' /\ strip t' = strip t.
Proof.
  intros [E _] Hm Ht. assert (Hv : (strip <$> socks st') !! m = Some (strip t)).
  { rewrite E, lookup_insert_ne by done. by rewrite lookup_fmap, Ht. }
  rewrite lookup_fmap in Hv. destruct (socks st' !! m) as [t'|]; [|done]. simpl in Hv.
  apply (inj Some) in Hv. eauto.
Qed.

Lemma counted_back st st' n s d m t' :
  counted st st' n s d -> m ≠ n -> socks st' !! m = Some t' ->
  exists t, socks st !! m = Some t /\ strip t' = strip t.
Proof.
  intros [E _] Hm Ht. assert (Hv : (strip <$> socks st') !! m = Some (strip t')) by (by rewrite lookup_fmap, Ht).
  rewrite E, lookup_insert_ne, lookup_fmap in Hv by done.
  destruct (socks st !! m) as [t|]; [|done]. simpl in Hv. apply (inj Some) in Hv. eauto.
Qed.

Lemma filter_middle (n : positive) (l1 l2 : list positive) :
  NoDup (l1 ++ n :: l2) -> filter (fun m => m ≠ n) (l1 ++ n :: l2) = l1 ++ l2.
Proof.
  intros ND. assert (Hid : forall l : list positive, n ∉ l -> filter (fun m => m ≠ n) l = l).
  { induction l as [|x l IH]; [done|]. intros [Hx Hl]%not_elem_of_cons.
    rewrite filter_cons_True by done. by rewrite IH. }
  rewrite filter_app, filter_cons_False by naive_solver.
  apply NoDup_app in ND as (_ & H1 & [H2 _]%NoDup_cons).
  rewrite !Hid; [done|done|]. intros Hn. apply (H1 n Hn). set_solver.
Qed.

Lemma unhash_full st c w h n s :
  tables_ok st c -> is_bucket h -> n ∈ c w h -> socks st !! n = Some s ->
  exists st',
    (do empty <- list_test (fun st => list_empty st (ptr_add (sock_ptr n) (moff_of w)));
     if negb empty then
       list_op (fun st => list_delete_entry st (ptr_add (sock_ptr n) (moff_of w)));;
       free_tcp_sock (sock_ptr n)
     else ret tt) st = Done tt st' /\ unhashed st st' c w h n s.
Proof.
  intros HT Hh Hn Hs. destruct (list_elem_of_split _ _ Hn) as (l1 & l2 & Ec).
  destruct (unhash_run st c w h n s l1 l2 HT Hh Ec Hs) as (st1 & s1 & R & HT1 & Hc & Hs1 & E1 & Hun).
  pose proof (lo_list _ _ (to_lists _ _ HT) w h Hh) as D. rewrite Ec in D.
  pose proof (proj1 (dlist_socks _ _ _ _ D)) as ND.
  unfold unhashed. rewrite Ec, filter_middle by done. rewrite R.
  destruct (Z.leb_spec (ref_cnt s - 1) 0); eexists; (split; [done|]); (split; [|split; intros ?]); try lia.
  - intros m t Hm Ht. simpl. rewrite lookup_delete_ne by done. by eapply counted_others.
  - split; [apply lookup_delete_eq|]. intros; by apply tables_free.
  - intros m t Hm Ht. by eapply counted_others.
  - done.
Qed.

(** No other socket of the bucket has the connection of the one taken out. *)
Lemma unhashed_conn st st' c h n s m t :
  tables_ok st c -> is_bucket h -> n ∈ c TEst h -> socks st !! n = Some s ->
  unhashed st st' c TEst h n s -> m ∈ c TEst h -> m ≠ n -> socks st' !! m = Some t -> conn t ≠ conn s.
Proof.
  intros HT Hh Hn Hs (Ho & _) Hm Hne Ht E.
  destruct (dlist_socks _ _ _ _ (lo_list _ _ (to_lists _ _ HT) TEst h Hh)) as [_ Hlive].
  destruct (Hlive m Hm) as [t1 Ht1]. destruct (Ho m t1 Hne Ht1) as (t' & Ht' & Et).
  apply strip_conn in Et. apply Hne, (to_uniq _ _ HT h m n t1 s); auto. congruence.
Qed.

(** C20: [tcp_unhash] of a socket in the established or listen table, and
    [tcp_bind_unhash] of one in the bind table, take it out of its bucket and
    drop one reference, freeing the socket exactly when that was the last one;
    the other sockets keep their contents, and the tables stay well formed
    unless the freed socket is still linked in another table. *)
Theorem tcp_unhash_spec st c w h n s :
  tables_ok st c -> is_bucket h -> n ∈ c w h -> socks st !! n = Some s ->
  exists st', (if decide (w = TBnd) then tcp_bind_unhash (sock_ptr n) else tcp_unhash (sock_ptr n)) st
              = Done tt st' /\ unhashed st st' c w h n s.
Proof.
  intros HT Hh Hn Hs. destruct (unhash_full st c w h n s HT Hh Hn Hs) as (st' & R & P).
  exists st'. split; [|exact P]. destruct w; exact R.
Qed.


(** ** Round trip *)

Lemma lookup_hashed st c cb n s :
  tables_ok st c -> n ∈ c TEst (tcp_hash_function (daddr cb) (saddr cb) (dport cb) (sport cb)) ->
  socks st !! n = Some s -> conn s = (daddr cb, saddr cb, dport cb, sport cb) ->
  tcp_sock_lookup cb st = Done (sock_ptr n) st.
Proof.
  intros HT Hn Hs Hc. unfold tcp_sock_lookup.
  rewrite (bind_done _ _ _ _ _ (lookup_established_run st c _ _ _ _ (to_lists _ _ HT))).
  erewrite first_conn; [done|done..| |done]. injection Hc as ????. by apply conn_is_true.
Qed.

Lemma lookup_none st c cb :
  tables_ok st c ->
  (forall n s, n ∈ c TEst (tcp_hash_function (daddr cb) (saddr cb) (dport cb) (sport cb)) ->
     socks st !! n = Some s -> conn s ≠ (daddr cb, saddr cb, dport cb, sport cb)) ->
  tcp_sock_lookup cb st = tcp_sock_lookup_listen (daddr cb) (dport cb) st.
Proof.
  intros HT Hno. unfold tcp_sock_lookup.
  rewrite (bind_done _ _ _ _ _ (lookup_established_run st c _ _ _ _ (to_lists _ _ HT))).
  destruct (first_sock _ _) as [m|] eqn:E; [|done]. exfalso.
  apply first_sock_Some in E as [Hm Ht]. unfold on_sock in Ht.
  destruct (socks st !! m) as [t|] eqn:Et; [|done].
  apply (Hno m t Hm Et). apply conn_is_true in Ht as (<- & <- & <- & <-). done.
Qed.

(** C7: once [tcp_hash] has linked an open, non-listening socket,
    [tcp_sock_lookup] finds exactly that socket for every packet of its
    connection; [tcp_unhash] undoes it: the socket has its old reference count
    or is freed if that was zero, and packets of the connection go to the
    listening sockets again. *)
Theorem hash_lookup_unhash st c n s cb :
  tables_ok st c -> socks st !! n = Some s -> in_no_table c n ->
  state s ≠ TCP_CLOSED -> state s ≠ TCP_LISTEN -> ~ conn_taken st c s ->
  conn s = (daddr cb, saddr cb, dport cb, sport cb) ->
  exists st1 st2,
    tcp_hash (sock_ptr n) st = Done 0 st1 /\
    tcp_sock_lookup cb st1 = Done (sock_ptr n) st1 /\
    tcp_unhash (sock_ptr n) st1 = Done tt st2 /\
    (if ref_cnt s <=? 0 then socks st2 !! n = None
     else exists s2, socks st2 !! n = Some s2 /\ strip s2 = strip s) /\
    tcp_sock_lookup cb st2 = tcp_sock_lookup_listen (daddr cb) (dport cb) st2.
Proof.
  intros HT Hs Hun E1 E2 Hc Hcb.
  destruct (tcp_hash_est st c n s HT Hs) as (st1 & R1 & HT1 & Hc1); [by intros ????; apply Hun|done..|].
  destruct (counted_sock _ _ _ _ _ Hc1) as (s1 & Hs1 & Es1).
  assert (Hconn : conn s1 = conn s) by exact (f_equal conn Es1).
  assert (Href : ref_cnt s1 = ref_cnt s + 1) by exact (f_equal ref_cnt Es1).
  assert (Ekey : key TEst s = tcp_hash_function (daddr cb) (saddr cb) (dport cb) (sport cb))
    by (unfold key; by rewrite Hcb).
  set (c1 := set_bucket c TEst (key TEst s) (n :: c TEst (key TEst s))) in *.
  assert (Hn1 : n ∈ c1 TEst (key TEst s)) by (unfold c1; rewrite bucket_eq; set_solver).
  destruct (unhash_full st1 c1 TEst (key TEst s) n s1 HT1 (key_bucket _ _) Hn1 Hs1) as (st2 & R2 & P2).
  exists st1, st2. split; [done|]. split.
  { apply (lookup_hashed st1 c1 cb n s1); [done|by rewrite <- Ekey|done|congruence]. }
  split; [exact R2|].
  assert (Hc2 : forall w h, is_bucket h ->
    n ∉ set_bucket c1 TEst (key TEst s) (filter (fun m => m ≠ n) (c1 TEst (key TEst s))) w h).
  { intros w h Hh. unfold c1. rewrite !bucket_elem. intros [(-> & -> & [? _]%list_elem_of_filter)|[Hne [?|[_ Hm]]]];
      [done|naive_solver|by apply (Hun w h)]. }
  assert (HT2 : tables_ok st2 (set_bucket c1 TEst (key TEst s) (filter (fun m => m ≠ n) (c1 TEst (key TEst s))))).
  { destruct P2 as (_ & P & P'). destruct (Z.le_gt_cases (ref_cnt s1) 1); [by apply P'|apply P; lia]. }
  split.
  - destruct (Z.leb_spec (ref_cnt s) 0); [apply P2; lia|].
    destruct (counted_sock _ _ _ _ _ (proj2 (proj1 (proj2 P2) ltac:(lia)))) as (s2 & Hs2 & Es2).
    exists s2. split; [done|]. rewrite Es2, Href.
    replace (ref_cnt s + 1 + -1) with (ref_cnt s) by lia.
    etransitivity; [exact (f_equal (set_ref_cnt (ref_cnt s)) Es1)|]. by destruct s.
  - apply (lookup_none st2 _ cb HT2). intros m t Hm Ht Hct. rewrite <- Ekey, bucket_eq in Hm.
    apply list_elem_of_filter in Hm as [Hne Hm].
    apply (unhashed_conn st1 st2 c1 (key TEst s) n s1 m t HT1); auto using key_bucket. congruence.
Qed.

End Theorems.

(** ** Witnesses *)

Section Witnesses.
Existing Instance demo_env.

(** One socket, in no table. *)
Definition one_sock (s : tcp_state) : stack := with_socks {[ 1%positive := demo_sock s ]}.

Lemma one_sock_at s : socks (one_sock s) !! 1%positive = Some (demo_sock s).
Proof. unfold one_sock, with_socks. apply lookup_singleton_eq. Qed.

Lemma no_conn_taken st s : ~ conn_taken st no_socks s.
Proof. intros (m & t & Hm & _). by apply elem_of_nil in Hm. Qed.

Lemma in_no_socks n : in_no_table no_socks n.
Proof. intros w h _ Hn. by apply elem_of_nil in Hn. Qed.

(** A packet of the connection of [demo_sock]. *)
Definition demo_cb : tcp_cb := TcpCb 0x0a000002 0x0a000001 12345 10001 0 0 0 20 0 0 0.

(** The demo socket linked into the established table. *)
Lemma demo_hashed : exists st s,
  tables_ok st (set_bucket no_socks TEst (key TEst s) [1%positive]) /\ socks st !! 1%positive = Some s /\
  conn s = (0x0a000001, 0x0a000002, 10001, 12345).
Proof.
  destruct (tcp_hash_est (one_sock TCP_SYN_SENT) no_socks 1%positive (demo_sock TCP_SYN_SENT)) as (st & _ & HT & Hc);
    [apply with_socks_ok|apply one_sock_at|apply no_socks_unlinked|done|done|apply no_conn_taken|].
  destruct (counted_sock _ _ _ _ _ Hc) as (s & Hs & Es). apply strip_conn in Es.
  exists st, s. split; [|done]. unfold key in *. by rewrite Es.
Qed.

Lemma alloc_tcp_sock_spec_witness :
  exists st', alloc_tcp_sock (with_socks ∅) = Done (sock_ptr (next_blk (with_socks ∅))) st'.
Proof.
  destruct (alloc_tcp_sock_spec (with_socks ∅)) as [Hok _].
  { intros m [x Hx]. unfold with_socks in Hx. change (socks (set_socks ∅ stack0)) with (∅ : gmap positive tcp_sock) in Hx.
    by rewrite lookup_empty in Hx. }
  destruct Hok as (st' & R & _); [done|]. by exists st'.
Defined.

Lemma tcp_hash_spec_witness :
  exists st', tcp_hash (sock_ptr 1) (one_sock TCP_SYN_SENT) = Done 0 st' /\
    hashed (one_sock TCP_SYN_SENT) st' no_socks TEst 1%positive (demo_sock TCP_SYN_SENT).
Proof.
  apply (tcp_hash_spec (one_sock TCP_SYN_SENT) no_socks 1%positive (demo_sock TCP_SYN_SENT));
    [apply with_socks_ok|apply one_sock_at|apply no_socks_unlinked|done|done|apply no_conn_taken].
Defined.

Lemma tcp_sock_lookup_spec_witness :
  exists st, tcp_sock_lookup demo_cb st = Done (sock_ptr 1) st.
Proof.
  destruct demo_hashed as (st & s & HT & Hs & Hc). exists st.
  destruct (tcp_sock_lookup_spec st _ demo_cb HT) as (r & R & Hr & _).
  rewrite R. f_equal. apply (Hr 1%positive s); [|done|done].
  unfold key, key_of. rewrite Hc. unfold set_bucket, demo_cb. cbn [daddr saddr dport sport].
  rewrite decide_True by done. set_solver.
Defined.

Lemma tcp_unhash_spec_witness :
  exists st c h s st', unhashed st st' c TEst h 1%positive s /\ tcp_unhash (sock_ptr 1) st = Done tt st'.
Proof.
  destruct demo_hashed as (st & s & HT & Hs & Hc).
  destruct (tcp_unhash_spec st _ TEst (key TEst s) 1%positive s HT) as (st' & R & P);
    [apply key_bucket|rewrite bucket_eq; set_solver|done|].
  eexists st, _, _, s, st'. split; [exact P|exact R].
Defined.

Lemma hash_lookup_unhash_witness :
  exists st1, tcp_hash (sock_ptr 1) (one_sock TCP_SYN_RECV) = Done 0 st1 /\
    tcp_sock_lookup demo_cb st1 = Done (sock_ptr 1) st1.
Proof.
  destruct (hash_lookup_unhash (one_sock TCP_SYN_RECV) no_socks 1%positive (demo_sock TCP_SYN_RECV) demo_cb)
    as (st1 & st2 & R1 & R2 & _);
    [apply with_socks_ok|apply one_sock_at|apply in_no_socks|done|done|apply no_conn_taken|done|].
  exists st1. split; [exact R1|exact R2].
Defined.

End Witnesses.
