(* ===== verification/Ports.v ===== *)
(** * Theorems on ports and binding

    The search for a used port reads two bytes of the [parent] pointer of each
    bound socket in place of its port.  Sockets that bind have no parent, so every
    port but 0 looks free; [tcp_get_port] always returns the first of its range
    and [tcp_sock_bind] accepts a port that is taken. *)

From S2P Require Import Prelude Hash DList RingBuffer SynchWait Layout Segment Memory Sock SockTables.

Section Theorems.
Context `{Env}.

(** The sockets of the bind table were not created by a listening socket. *)
Definition bound_no_parent (st : stack) (c : buckets) : Prop :=
  forall h n s, is_bucket h -> n ∈ c TBnd h -> socks st !! n = Some s -> parent s = NULL.

(** What the search compares with the port: bytes 4 and 5 of [parent]. *)
Definition parent_bytes (s : tcp_sock) : Z := u16 (ptr_addr (parent s) / 2 ^ 32).

Lemma port_in_use_run st c p :
  tables_ok st c ->
  tcp_port_in_use p st =
  Done (bool_decide (is_Some (first_sock (on_sock st (fun s => parent_bytes s =? p))
    (c TBnd (tcp_hash_function 0 0 p 0))))) st.
Proof.
  intros HT. pose proof (lo_list _ _ (to_lists _ _ HT) TBnd _ (hash_bucket 0 0 p 0)) as D.
  unfold tcp_port_in_use. erewrite bind_done; cycle 1.
  - apply (find_entry_spec _ _ off_hash_list off_bind_hash_list); [exact D|].
    intros n Hn. destruct (dlist_socks _ _ _ _ D) as [_ Hlive]. destruct (Hlive n Hn) as [s Hs].
    instantiate (1 := on_sock st (fun s => parent_bytes s =? p)). unfold on_sock. rewrite Hs. erewrite bind_done; [done|]. unfold load_u16. simpl. by rewrite Hs.
  - unfold ret. f_equal. apply bool_decide_ext. by rewrite fmap_is_Some.
Qed.

Lemma port_free_run st c p :
  tables_ok st c -> bound_no_parent st c -> p ≠ 0 -> tcp_port_in_use p st = Done false st.
Proof.
  intros HT Hp Hz. rewrite (port_in_use_run st c p HT). f_equal. apply bool_decide_false.
  destruct (first_sock _ _) as [m|] eqn:E; [|by intros [? ?]]. intros _.
  apply first_sock_Some in E as [Hm Ht]. unfold on_sock in Ht.
  destruct (socks st !! m) as [s|] eqn:Es; [|done].
  unfold parent_bytes in Ht. rewrite (Hp _ m s (hash_bucket 0 0 p 0) Hm Es) in Ht.
  apply Z.eqb_eq in Ht. symmetry in Ht. done.
Qed.

Lemma get_port_run st c :
  tables_ok st c -> bound_no_parent st c -> tcp_get_port st = Done PORT_MIN st.
Proof.
  intros HT Hp. unfold tcp_get_port.
  assert (exists k, Z.to_nat (PORT_MAX - PORT_MIN) = S k) as [k ->] by (by eexists (Z.to_nat 11110)).
  cbn [tcp_get_port_from]. rewrite (bind_done _ _ _ _ _ (port_free_run st c PORT_MIN HT Hp ltac:(done))). done.
Qed.

(** As long as no bound socket has a parent, [tcp_port_in_use]
    answers "free" for every port from 1 up, also for one that a socket of the
    bind table holds, and [tcp_get_port] returns PORT_MIN every time. *)
Theorem port_search_blind st c :
  tables_ok st c -> bound_no_parent st c ->
  (forall p, p ≠ 0 -> tcp_port_in_use p st = Done false st) /\
  tcp_get_port st = Done PORT_MIN st.
Proof. intros HT Hp. split; [intros p; by apply (port_free_run st c)|by apply (get_port_run st c)]. Qed.

(** Socket [n], [s] in [st], has source port [p], is linked in the bind table
    under it and has one more reference. *)
Definition bound (st st' : stack) (c : buckets) (n : positive) (s : tcp_sock) (p : Z) : Prop :=
  hashed (set_socks (<[n := set_sport p s]> (socks st)) st) st' c TBnd n (set_sport p s).

Lemma bind_hash_run st c n s :
  tables_ok st c -> in_no_table c n -> socks st !! n = Some s ->
  exists st', tcp_bind_hash (sock_ptr n) st = Done 0 st' /\ hashed st st' c TBnd n s.
Proof.
  intros HT Hun Hs. destruct (hash_run st c TBnd n s HT Hs) as (st' & R & P); [|done|].
  { intros w h Hh _. by apply Hun. }
  exists st'. split; [|exact P]. unfold tcp_bind_hash.
  rewrite (bind_done _ _ _ _ _ (sock_run _ _ _ Hs)). exact R.
Qed.

Lemma set_sport_run st c n s p q :
  tables_ok st c -> bound_no_parent st c -> in_no_table c n -> socks st !! n = Some s ->
  q = (if p =? 0 then PORT_MIN else p) ->
  exists st', tcp_sock_set_sport (sock_ptr n) p st = Done 0 st' /\ bound st st' c n s q.
Proof.
  intros HT Hp Hun Hs ->.
  set (q := if p =? 0 then PORT_MIN else p).
  assert (E : (if negb (p =? 0) then do b <- tcp_port_in_use p; ret (b, p)
               else do q <- tcp_get_port; ret (q =? 0, q)) st = Done (false, q) st).
  { unfold q. destruct (Z.eqb_spec p 0); cbn [negb].
    - by rewrite (bind_done _ _ _ _ _ (get_port_run st c HT Hp)).
    - by rewrite (bind_done _ _ _ _ _ (port_free_run st c p HT Hp ltac:(done))). }
  set (st1 := set_socks (<[n := set_sport q s]> (socks st)) st).
  destruct (bind_hash_run st1 c n (set_sport q s)) as (st' & R & P);
    [by apply tables_update|done|apply lookup_insert_eq|].
  exists st'. split; [|exact P]. unfold tcp_sock_set_sport.
  rewrite (bind_done _ _ _ _ _ E). rewrite (bind_done _ _ _ _ _ (modify_run _ _ _ _ Hs)).
  by rewrite (bind_done _ _ _ _ _ R).
Qed.

(** [tcp_sock_bind] of a socket in no table, to a port in network order,
    succeeds: the socket gets the port in host order (PORT_MIN for port 0), is
    linked into the bind table under it, gains a reference, and the tables stay
    well formed.  Nothing prevents two sockets from binding one port. *)
Theorem tcp_sock_bind_spec st c n s p :
  tables_ok st c -> bound_no_parent st c -> in_no_table c n -> socks st !! n = Some s ->
  exists st', tcp_sock_bind (sock_ptr n) p st = Done 0 st' /\
    bound st st' c n s (if ntohs p =? 0 then PORT_MIN else ntohs p) /\
    (parent s = NULL -> bound_no_parent st'
       (set_bucket c TBnd (key TBnd (set_sport (if ntohs p =? 0 then PORT_MIN else ntohs p) s))
         (n :: c TBnd (key TBnd (set_sport (if ntohs p =? 0 then PORT_MIN else ntohs p) s))))).
Proof.
  intros HT Hp Hun Hs.
  destruct (set_sport_run st c n s (ntohs p) _ HT Hp Hun Hs eq_refl) as (st' & R & P).
  exists st'. split; [exact R|]. split; [exact P|]. destruct P as [HT' Hc]. intros Hpar h m t Hh Hm Ht.
  set (q := if ntohs p =? 0 then PORT_MIN else ntohs p) in *.
  destruct (decide (m = n)) as [->|Hne].
  - destruct (counted_sock _ _ _ _ _ Hc) as (t' & Ht' & Et). replace t with t' by congruence.
    transitivity (parent s); [exact (f_equal parent Et)|done].
  - apply bucket_elem in Hm. assert (Hm' : m ∈ c TBnd h)
      by (destruct Hm as [(_ & -> & [?|?]%elem_of_cons)|[_ ?]]; done).
    destruct (dlist_socks _ _ _ _ (lo_list _ _ (to_lists _ _ HT) TBnd h Hh)) as [_ Hlive].
    destruct (Hlive m Hm') as [t0 Ht0].
    destruct (counted_others _ _ _ _ _ m t0 Hc Hne) as (t' & Ht' & Et);
      [simpl; by rewrite lookup_insert_ne|].
    replace t with t' by congruence. transitivity (parent t0); [exact (f_equal parent Et)|].
    by apply (Hp h m).
Qed.

End Theorems.

Section Witnesses.
Existing Instance demo_env.

Lemma no_socks_no_parent st : bound_no_parent st no_socks.
Proof. intros h n s _ Hn. by apply elem_of_nil in Hn. Qed.

Lemma tcp_sock_bind_spec_witness :
  exists st', tcp_sock_bind (sock_ptr 1) (htons 10001) (one_sock TCP_CLOSED) = Done 0 st' /\
    bound (one_sock TCP_CLOSED) st' no_socks 1%positive (demo_sock TCP_CLOSED) 10001.
Proof.
  destruct (tcp_sock_bind_spec (one_sock TCP_CLOSED) no_socks 1%positive (demo_sock TCP_CLOSED) (htons 10001))
    as (st' & R & P & _);
    [apply with_socks_ok|apply no_socks_no_parent|apply in_no_socks|apply one_sock_at|].
  exists st'. split; [exact R|exact P].
Defined.

(** With socket 1 bound to port 10001, the port still looks free. *)
Lemma port_search_blind_witness :
  exists st s, socks st !! 1%positive = Some s /\ sk_sport s = 10001 /\
    tcp_port_in_use 10001 st = Done false st.
Proof.
  destruct (set_sport_run (one_sock TCP_CLOSED) no_socks 1%positive (demo_sock TCP_CLOSED) 10001 10001)
    as (st & _ & HT & Hc);
    [apply with_socks_ok|apply no_socks_no_parent|apply in_no_socks|apply one_sock_at|done|].
  destruct (counted_sock _ _ _ _ _ Hc) as (s & Hs & Es). exists st, s. split; [done|].
  split; [exact (f_equal sk_sport Es)|]. eapply (port_search_blind st); [exact HT| |done].
  intros h m t Hh Hm Ht. apply bucket_elem in Hm as [(_ & _ & Hm)|[_ Hm]]; [|by apply elem_of_nil in Hm].
  apply elem_of_cons in Hm as [->|Hm]; [|by apply elem_of_nil in Hm].
  replace t with s by congruence. exact (f_equal parent Es).
Defined.

End Witnesses.
