(* ===== verification/RefCount.v ===== *)
(** * Reference counts (tcp_sock.c)

    "Each time the tcp sock is referred (e.g. hashed), the ref_cnt is increased by
    1": the count of a socket is the number of tables that link it, in every state
    that allocation, [tcp_hash], [tcp_bind_hash], [tcp_unhash], [tcp_bind_unhash]
    and assignments to other members lead to, as long as the callers keep four rules:
    a socket is linked only through a member that links it nowhere yet, taken out of
    a table only when it is in one, not given another address or port while a table
    links it by that, and loses references only with links.  Then a table
    never links a freed socket, a socket is freed by exactly the call that takes it
    out of the last table, and no count leaves the range from 0 to 2.  The
    rules are needed: [tcp_sock_close] breaks the last one, and the established
    table then links a freed socket (Calls.v, [close_leaves_dangling]). *)

From S2P Require Import Prelude Hash DList RingBuffer SynchWait Layout Segment Memory Sock SockTables Ports.

(** ** Counting the links *)

Definition all_buckets : list Z := seqZ 0 TCP_HASH_SIZE.

Definition linked (c : buckets) (w : which) (n : positive) : bool :=
  existsb (fun h => bool_decide (n ∈ c w h)) all_buckets.

(** The number of tables that link socket [n]. *)
Definition links (c : buckets) (n : positive) : Z :=
  Z.b2z (linked c TEst n) + Z.b2z (linked c TLis n) + Z.b2z (linked c TBnd n).

Lemma linked_true c w n : linked c w n = true <-> exists h, is_bucket h /\ n ∈ c w h.
Proof.
  unfold linked. rewrite existsb_exists. split; intros (h & Hh & Hn); exists h.
  - apply bool_decide_eq_true in Hn. split; [|done]. apply list_elem_of_In, elem_of_seqZ in Hh.
    unfold is_bucket. lia.
  - split; [|by apply bool_decide_eq_true]. apply list_elem_of_In, elem_of_seqZ.
    unfold is_bucket in Hh. lia.
Qed.

Lemma linked_false c w n : linked c w n = false <-> forall h, is_bucket h -> n ∉ c w h.
Proof.
  rewrite <- not_true_iff_false, linked_true. naive_solver.
Qed.

(** Putting a socket into a bucket, and taking it out. *)
Lemma linked_add c w h n w' m :
  is_bucket h ->
  linked (set_bucket c w h (n :: c w h)) w' m = (bool_decide (w' = w /\ m = n) || linked c w' m).
Proof.
  intros Hh. apply eq_true_iff_eq. rewrite orb_true_iff, bool_decide_eq_true, !linked_true. split.
  - intros (h' & Hh' & [(-> & -> & [->|Hm]%elem_of_cons)|[_ Hm]]%bucket_elem); eauto.
  - intros [[-> ->]|(h' & Hh' & Hm)].
    + exists h. rewrite bucket_eq. split; [done|]. apply elem_of_cons; auto.
    + exists h'. split; [done|]. destruct (decide (w' = w /\ h' = h)) as [[-> ->]|Hne].
      * rewrite bucket_eq. apply elem_of_cons; auto.
      * by rewrite bucket_ne.
Qed.

Lemma linked_del st c w h l1 n l2 w' m :
  lists_ok st c -> is_bucket h -> c w h = l1 ++ n :: l2 ->
  linked (set_bucket c w h (l1 ++ l2)) w' m = (negb (bool_decide (w' = w /\ m = n)) && linked c w' m).
Proof.
  intros [HL HO] Hh Ec. pose proof (HL w h Hh) as D. rewrite Ec in D.
  pose proof (proj1 (dlist_socks _ _ _ _ D)) as ND.
  rewrite <- Permutation_middle in ND. apply NoDup_cons in ND as [Hn _].
  apply eq_true_iff_eq. rewrite andb_true_iff, negb_true_iff, bool_decide_eq_false, !linked_true. split.
  - intros (h' & Hh' & [(-> & -> & Hm)|[Hne Hm]]%bucket_elem).
    + split; [intros [_ ->]; done|]. exists h. split; [done|]. rewrite Ec. set_solver.
    + split; [|eauto]. intros [-> ->]. apply Hne. split; [done|].
      apply (HO w h' w h n); auto. rewrite Ec. set_solver.
  - intros [Hne (h' & Hh' & Hm)]. exists h'. split; [done|]. apply bucket_elem.
    destruct (decide (w' = w /\ h' = h)) as [[-> ->]|Hwh]; [left|by right].
    split; [done|]. split; [done|]. rewrite Ec in Hm. set_solver.
Qed.

Lemma links_add c w h n m :
  is_bucket h -> linked c w n = false ->
  links (set_bucket c w h (n :: c w h)) m = links c m + (if decide (m = n) then 1 else 0).
Proof.
  intros Hh Hun. unfold links. rewrite !linked_add by done.
  destruct (decide (m = n)) as [->|Hne].
  - destruct w; rewrite Hun; repeat case_bool_decide; naive_solver lia.
  - repeat rewrite (bool_decide_false (_ /\ m = n)) by naive_solver. simpl. lia.
Qed.

Lemma links_del st c w h l1 n l2 m :
  lists_ok st c -> is_bucket h -> c w h = l1 ++ n :: l2 ->
  links (set_bucket c w h (l1 ++ l2)) m = links c m - (if decide (m = n) then 1 else 0).
Proof.
  intros HL Hh Ec. assert (Hl : linked c w n = true)
    by (apply linked_true; exists h; split; [done|]; rewrite Ec; set_solver).
  unfold links. rewrite !(linked_del st c w h l1 n l2) by done.
  destruct (decide (m = n)) as [->|Hne].
  - destruct w; rewrite Hl; repeat case_bool_decide; naive_solver lia.
  - repeat rewrite (bool_decide_false (_ /\ m = n)) by naive_solver. simpl. lia.
Qed.

Lemma links_zero c n : links c n = 0 <-> in_no_table c n.
Proof.
  unfold links, in_no_table. split.
  - intros Hz w. apply linked_false. destruct w, (linked c TEst n), (linked c TLis n), (linked c TBnd n); done.
  - intros Hn. rewrite !(proj2 (linked_false c _ n)); [done|intros; by apply Hn..].
Qed.

(** One member links a socket into the established or into the listen table. *)
Lemma links_range st c n : lists_ok st c -> 0 <= links c n <= 2.
Proof.
  intros [_ HO]. unfold links.
  destruct (linked c TEst n) eqn:E, (linked c TLis n) eqn:L, (linked c TBnd n); simpl; try lia.
  all: apply linked_true in E as (h & Hh & Hn), L as (h' & Hh' & Hn').
  all: by destruct (HO TEst h TLis h' n Hh Hh' eq_refl Hn Hn').
Qed.

Lemma unlinked_linked c w n : unlinked c w n -> linked c w n = false.
Proof. intros Hun. apply linked_false. intros h Hh. by apply (Hun w h). Qed.

(** ** The steps *)

Section Steps.
Context `{Env}.

(** A store to other members than the nodes and the count: the four-tuple does
    not change while a table links the socket by it. *)
Definition may_set (c : buckets) (n : positive) (s s' : tcp_sock) : Prop :=
  (forall o get set, sock_node o = Some (get, set) -> get s' = get s) /\
  ref_cnt s' = ref_cnt s /\
  (conn s' = conn s \/ linked c TEst n = false) /\
  (sk_sport s' = sk_sport s \/ (linked c TLis n = false /\ linked c TBnd n = false)).

(** The table [tcp_hash] uses. *)
Definition hash_table (s : tcp_sock) : which :=
  if decide (state s = TCP_LISTEN) then TLis else TEst.

(** The tables along a run that keeps the rules: [buckets] says which sockets they
    hold.  A socket that is linked ([ts_bind_hash], [ts_hash]) is not linked through
    the same member before, one that is taken out ([ts_unhash]) is in the table,
    assignments ([ts_set]) leave nodes, count and, while a table links the socket
    by it, the connection or the port alone, and [free_tcp_sock] is called by
    the two unhash functions or, as in [tcp_sock_close], for a socket that no table
    links ([ts_free]). *)
Inductive table_step : stack * buckets -> stack * buckets -> Prop :=
  | ts_alloc st c p st' : alloc_tcp_sock st = Done p st' -> table_step (st, c) (st', c)
  | ts_set st c n s s' :
      socks st !! n = Some s -> may_set c n s s' ->
      table_step (st, c) (set_socks (<[n := s']> (socks st)) st, c)
  | ts_bind_hash st c n s st' :
      socks st !! n = Some s -> unlinked c TBnd n -> tcp_bind_hash (sock_ptr n) st = Done 0 st' ->
      table_step (st, c) (st', set_bucket c TBnd (key TBnd s) (n :: c TBnd (key TBnd s)))
  | ts_hash st c n s st' :
      socks st !! n = Some s -> unlinked c TEst n -> tcp_hash (sock_ptr n) st = Done 0 st' ->
      let w := hash_table s in
      table_step (st, c) (st', set_bucket c w (key w s) (n :: c w (key w s)))
  | ts_hash_refused st c n s st' :
      socks st !! n = Some s -> unlinked c TEst n -> tcp_hash (sock_ptr n) st = Done (-1) st' ->
      table_step (st, c) (st', c)
  | ts_unhash st c w h n l1 l2 st' :
      is_bucket h -> c w h = l1 ++ n :: l2 ->
      (if decide (w = TBnd) then tcp_bind_unhash (sock_ptr n) else tcp_unhash (sock_ptr n)) st
        = Done tt st' ->
      table_step (st, c) (st', set_bucket c w h (l1 ++ l2))
  | ts_free st c n st' :
      in_no_table c n -> free_tcp_sock (sock_ptr n) st = Done tt st' -> table_step (st, c) (st', c).

Record refs_ok (st : stack) (c : buckets) : Prop := {
  ro_tables : tables_ok st c;
  ro_fresh : forall n, is_Some (socks st !! n) -> (n < next_blk st)%positive;
  ro_count : forall n s, socks st !! n = Some s -> ref_cnt s = links c n
}.

(** ** Every step keeps the counts *)

Lemma alloc_refs st c p st' : refs_ok st c -> alloc_tcp_sock st = Done p st' -> refs_ok st' c.
Proof.
  intros [HT Hf Hc]. rewrite alloc_run. destruct (allocs_ok _); [|discriminate]. intros [= _ <-].
  assert (Hn : socks st !! next_blk st = None).
  { apply eq_None_not_Some. intros Hs. apply Hf in Hs. by apply Pos.lt_irrefl in Hs. }
  assert (Hun : in_no_table c (next_blk st)).
  { intros w h Hh Hm. destruct (dlist_socks _ _ _ _ (lo_list _ _ (to_lists _ _ HT) w h Hh)) as [_ Hl].
    destruct (Hl _ Hm) as [s Hs]. congruence. }
  split.
  - pose proof (tables_update st c _ (new_sock (next_blk st)) HT Hun) as HT'.
    apply (tables_conn _ _ c HT'); [|eauto].
    destruct (to_lists _ _ HT') as [HL HO]. split; [|exact HO].
    intros w h Hh. apply (dlist_ext _ _ _ _ (HL w h Hh)). done.
  - cbn [socks next_blk]. intros m [s [[<- _]|[_ Hm]]%lookup_insert_Some]; [lia|].
    specialize (Hf m ltac:(eauto)). lia.
  - cbn [socks]. intros m s [[<- <-]|[_ Hm]]%lookup_insert_Some; [|eauto].
    symmetry. transitivity 0; [by apply links_zero|reflexivity].
Qed.

Lemma set_refs st c n s s' :
  refs_ok st c -> socks st !! n = Some s -> may_set c n s s' ->
  refs_ok (set_socks (<[n := s']> (socks st)) st) c.
Proof.
  intros [HT Hf Hc] Hs (Hk & Hr & Hconn & Hport). pose proof HT as [HL HK HU]. split.
  - assert (Est : forall h, is_bucket h -> n ∈ c TEst h -> conn s' = conn s).
    { intros h Hh Hn. destruct Hconn as [|Hl]; [done|]. exfalso. by apply (proj1 (linked_false c TEst n) Hl h). }
    split; [by apply (lists_modify st c n s)|..].
    + intros w h m t Hh Hm. cbn [socks set_socks]. intros [[<- <-]|[_ Ht]]%lookup_insert_Some; [|by eapply HK].
      rewrite <- (HK w h n s Hh Hm Hs). destruct w; unfold key; [by rewrite (Est h Hh Hm)|..];
        (destruct Hport as [Hp|[H1 H2]]; [unfold conn, key_of; simpl; by rewrite Hp|];
         exfalso; first [by apply (proj1 (linked_false c _ n) H1 h)|by apply (proj1 (linked_false c _ n) H2 h)]).
    + intros h m1 m2 t1 t2 Hh H1 H2. cbn [socks set_socks].
      intros [[<- <-]|[_ Ht1]]%lookup_insert_Some [[<- <-]|[_ Ht2]]%lookup_insert_Some; [done|..|by eapply HU];
        rewrite (Est h) by done; eauto.
  - cbn [socks set_socks next_blk]. intros m [t [[<- _]|[_ Hm]]%lookup_insert_Some]; eauto.
  - cbn [socks set_socks]. intros m t [[<- <-]|[_ Hm]]%lookup_insert_Some; [|eauto].
    rewrite Hr. eauto.
Qed.

(** Linking a socket through a free member, with one more reference. *)
Lemma hashed_refs st st' c w n s :
  refs_ok st c -> socks st !! n = Some s -> unlinked c w n -> hashed st st' c w n s ->
  refs_ok st' (set_bucket c w (key w s) (n :: c w (key w s))).
Proof.
  intros [HT Hf Hc] Hs Hun [HT' Hcnt]. pose proof Hcnt as (_ & _ & _ & En).
  assert (Hback : forall m t', m ≠ n -> socks st' !! m = Some t' ->
            exists t, socks st !! m = Some t /\ strip t' = strip t)
    by (intros; by eapply counted_back).
  split; [done|..].
  - intros m [t' Ht']. rewrite En. destruct (decide (m = n)) as [->|Hne]; [by eauto|].
    destruct (Hback m t' Hne Ht') as (t & Ht & _). eauto.
  - intros m t' Ht'. rewrite links_add by (apply key_bucket || by apply unlinked_linked).
    destruct (decide (m = n)) as [->|Hne].
    + destruct (counted_sock _ _ _ _ _ Hcnt) as (s' & Hs' & Es'). replace t' with s' by congruence.
      rewrite <- (Hc n s Hs). exact (f_equal ref_cnt Es').
    + destruct (Hback m t' Hne Ht') as (t & Ht & Et). rewrite (strip_ref_cnt _ _ Et), (Hc m t Ht). lia.
Qed.

(** Taking a socket out of a table: never out of memory that is gone, and freed
    by the last one. *)
Lemma unhash_refs st c w h n l1 l2 :
  refs_ok st c -> is_bucket h -> c w h = l1 ++ n :: l2 ->
  exists st', (if decide (w = TBnd) then tcp_bind_unhash (sock_ptr n) else tcp_unhash (sock_ptr n)) st
      = Done tt st' /\
    refs_ok st' (set_bucket c w h (l1 ++ l2)) /\ (socks st' !! n = None <-> links c n = 1).
Proof.
  intros [HT Hf Hc] Hh Ec.
  destruct (dlist_socks _ _ _ _ (lo_list _ _ (to_lists _ _ HT) w h Hh)) as [_ Hl].
  destruct (Hl n) as [s Hs]; [rewrite Ec; set_solver|].
  destruct (unhash_run st c w h n s l1 l2 HT Hh Ec Hs) as (st1 & s1 & R & HT1 & Hcnt & Hs1 & E1 & _).
  pose proof Hcnt as (_ & _ & _ & En).
  pose proof (fun m => links_del st c w h l1 n l2 m (to_lists _ _ HT) Hh Ec) as Hlinks.
  assert (Hpos : 1 <= links c n).
  { specialize (Hlinks n). rewrite decide_True in Hlinks by done.
    assert (forall c m, 0 <= links c m)
      by (intros c0 m; unfold links; destruct (linked c0 TEst m), (linked c0 TLis m), (linked c0 TBnd m); simpl; lia).
    specialize (H0 (set_bucket c w h (l1 ++ l2)) n). lia. }
  assert (Hback : forall m t', m ≠ n -> socks st1 !! m = Some t' ->
            exists t, socks st !! m = Some t /\ strip t' = strip t)
    by (intros; by eapply counted_back).
  assert (Hother : forall m t', m ≠ n -> socks st1 !! m = Some t' ->
            (m < next_blk st1)%positive /\ ref_cnt t' = links (set_bucket c w h (l1 ++ l2)) m).
  { intros m t' Hne Ht'. destruct (Hback m t' Hne Ht') as (t & Ht & Et).
    rewrite En, Hlinks, decide_False, (strip_ref_cnt _ _ Et), (Hc m t Ht) by done. split; [eauto|lia]. }
  assert (R' : (if decide (w = TBnd) then tcp_bind_unhash (sock_ptr n) else tcp_unhash (sock_ptr n)) st =
    (if ref_cnt s - 1 <=? 0 then Done tt (set_socks (delete n (socks st1)) st1) else Done tt st1))
    by (destruct w; exact R).
  rewrite (Hc n s Hs) in R'. rewrite R'. destruct (Z.leb_spec (links c n - 1) 0).
  - eexists. split; [reflexivity|]. split; [|cbn [socks set_socks]; rewrite lookup_delete_eq; split; [lia|done]].
    split.
    + apply tables_free; [done|]. apply links_zero. rewrite Hlinks, decide_True by done. lia.
    + cbn [socks set_socks next_blk]. intros m [t' [Hne Ht']%lookup_delete_Some]. by eapply Hother.
    + cbn [socks set_socks]. intros m t' [Hne Ht']%lookup_delete_Some. by apply Hother.
  - eexists. split; [reflexivity|]. split; [|rewrite Hs1; split; [done|lia]]. split; [done|..].
    + intros m [t' Ht']. destruct (decide (m = n)) as [->|Hne]; [rewrite En; eauto|by eapply Hother].
    + intros m t' Ht'. destruct (decide (m = n)) as [->|Hne]; [|by apply Hother].
      replace t' with s1 by congruence. rewrite Hlinks, decide_True by done.
      rewrite <- (Hc n s Hs). exact (f_equal ref_cnt E1).
Qed.

(** [tcp_hash] either links the socket or refuses it without a trace. *)
Lemma tcp_hash_cases st c n s r st' :
  tables_ok st c -> socks st !! n = Some s -> unlinked c TEst n ->
  tcp_hash (sock_ptr n) st = Done r st' ->
  (r = 0 /\ hashed st st' c (hash_table s) n s) \/ (r = -1 /\ st' = st).
Proof.
  intros HT Hs Hun E. unfold hash_table. destruct (decide (state s = TCP_LISTEN)) as [Hl|Hl].
  - destruct (tcp_hash_listen st c n s HT Hs Hun Hl) as (st1 & R & P). rewrite R in E. left. by simplify_eq.
  - destruct (decide (state s = TCP_CLOSED)) as [Hcl|Hcl].
    + right. revert E. unfold tcp_hash. rewrite (bind_done _ _ _ _ _ (sock_run _ _ _ Hs)).
      rewrite decide_True by done. by intros [= <- <-].
    + pose proof (first_same_conn st c s (to_lists _ _ HT)) as Hf.
      destruct (first_sock _ _) as [m|].
      * rewrite (tcp_hash_taken st c n s HT Hs Hcl Hl) in E by (apply Hf; eauto). right. by simplify_eq.
      * destruct (tcp_hash_est st c n s HT Hs Hun Hcl Hl) as (st1 & R & P);
          [intros Ht; apply Hf in Ht as [? ?]; done|].
        rewrite R in E. left. by simplify_eq.
Qed.

Lemma bind_hash_refs st c n s :
  refs_ok st c -> socks st !! n = Some s -> unlinked c TBnd n ->
  exists st', tcp_bind_hash (sock_ptr n) st = Done 0 st' /\
    refs_ok st' (set_bucket c TBnd (key TBnd s) (n :: c TBnd (key TBnd s))).
Proof.
  intros Hr Hs Hun. destruct (hash_run st c TBnd n s (ro_tables _ _ Hr) Hs Hun) as (st' & R & P); [done|].
  exists st'. split; [|by apply (hashed_refs st)].
  unfold tcp_bind_hash. rewrite (bind_done _ _ _ _ _ (sock_run _ _ _ Hs)). exact R.
Qed.

Lemma free_refs st c n st' :
  refs_ok st c -> in_no_table c n -> free_tcp_sock (sock_ptr n) st = Done tt st' -> refs_ok st' c.
Proof.
  intros [HT Hf Hc] Hun R. destruct (socks st !! n) as [s|] eqn:Hs.
  2: { unfold free_tcp_sock, bind, modify in R. simpl in R. by rewrite Hs in R. }
  rewrite (free_tcp_sock_run st n s Hs) in R. unfold released in R. pose proof (Hc n s Hs) as E.
  rewrite (proj2 (links_zero c n) Hun) in E. rewrite E in R. injection R as <-. split.
  - by apply tables_free.
  - cbn [socks set_socks next_blk]. intros m [t [_ Ht]%lookup_delete_Some]. eauto.
  - cbn [socks set_socks]. intros m t [_ Ht]%lookup_delete_Some. eauto.
Qed.

Lemma table_step_refs a b : refs_ok a.1 a.2 -> table_step a b -> refs_ok b.1 b.2.
Proof.
  intros Hr Hstep. inversion Hstep as [st c p st' R|st c n s s' Hs Hm|st c n s st' Hs Hun R|st c n s st' Hs Hun R|
    st c n s st' Hs Hun R|st c w h n l1 l2 st' Hh Ec R|st c n st' Hun R]; subst; simpl in *.
  - by eapply alloc_refs.
  - by apply (set_refs st c n s).
  - destruct (bind_hash_refs st c n s Hr Hs Hun) as (st1 & R1 & P). rewrite R in R1. by simplify_eq.
  - destruct (tcp_hash_cases st c n s 0 st' (ro_tables _ _ Hr) Hs Hun R) as [[_ P]|[? _]]; [|done].
    subst w. apply (hashed_refs st); [done..| |done]. unfold hash_table. destruct (decide _); exact Hun.
  - destruct (tcp_hash_cases st c n s (-1) st' (ro_tables _ _ Hr) Hs Hun R) as [[? _]|[_ ->]]; done.
  - destruct (unhash_refs st c w h n l1 l2 Hr Hh Ec) as (st1 & R1 & P & _). rewrite R in R1. by simplify_eq.
  - by apply (free_refs st c n).
Qed.

Lemma table_steps_refs a b : refs_ok a.1 a.2 -> rtc table_step a b -> refs_ok b.1 b.2.
Proof. intros Hr Hs. induction Hs; eauto using table_step_refs. Qed.

Lemma init_refs k st : init_tcp_stack (boot k) = Done tt st -> refs_ok st no_socks.
Proof.
  intros E. destruct (init_tcp_stack_run k) as (st' & R & HT & Hs & _). rewrite E in R.
  injection R as <-. split; [done|..]; rewrite Hs.
  - intros n [s Hn]. by rewrite lookup_empty in Hn.
  - intros n s Hn. by rewrite lookup_empty in Hn.
Qed.

(** ** Theorems *)

(** C5: in every run from the start of the stack on that allocates sockets, assigns
    to them, links them into and takes them out of the three tables, and keeps the
    rules of [table_step] (link only what that member does not link yet, take out only what is linked,
    keep address and port while linked, drop references only with links): the
    count of every socket is the number of tables that link it, which is at most
    two, so that the [int] does not overflow; no table links a socket that has been
    freed; and the tables are well formed. *)
Theorem ref_counts_exact k st0 st c :
  init_tcp_stack (boot k) = Done tt st0 -> rtc table_step (st0, no_socks) (st, c) ->
  (forall n s, socks st !! n = Some s -> ref_cnt s = links c n /\ 0 <= ref_cnt s <= 2) /\
  (forall n w h, is_bucket h -> n ∈ c w h -> is_Some (socks st !! n)) /\
  tables_ok st c.
Proof.
  intros E Hs. apply (table_steps_refs (st0, no_socks)) in Hs; [|by apply (init_refs k)].
  destruct Hs as [HT _ Hc]. simpl in HT, Hc. split; [|split; [|exact HT]].
  - intros n s Hn. rewrite (Hc n s Hn). split; [done|]. apply (links_range st), HT.
  - intros n w h Hh Hn.
    by apply (proj2 (dlist_socks _ _ _ _ (lo_list _ _ (to_lists _ _ HT) w h Hh))).
Qed.

(** C21: in a state that such a run reaches, a socket that a table links can be taken
    out without a fault, which is again a step of such a run; it is freed by exactly
    the call that takes it out of the last table, and the counts stay exact. *)
Theorem freed_with_last_link k st0 st c w h n :
  init_tcp_stack (boot k) = Done tt st0 -> rtc table_step (st0, no_socks) (st, c) ->
  is_bucket h -> n ∈ c w h ->
  exists st' c',
    (if decide (w = TBnd) then tcp_bind_unhash (sock_ptr n) else tcp_unhash (sock_ptr n)) st = Done tt st' /\
    table_step (st, c) (st', c') /\ links c' n = links c n - 1 /\
    (socks st' !! n = None <-> links c n = 1) /\
    (forall s, socks st' !! n = Some s -> ref_cnt s = links c' n).
Proof.
  intros E Hs Hh Hn. apply (table_steps_refs (st0, no_socks)) in Hs; [|by apply (init_refs k)]. simpl in Hs.
  destruct (list_elem_of_split _ _ Hn) as (l1 & l2 & Ec).
  destruct (unhash_refs st c w h n l1 l2 Hs Hh Ec) as (st' & R & P & Hfree).
  exists st', (set_bucket c w h (l1 ++ l2)). split; [done|]. split; [by eapply ts_unhash|].
  split; [|split; [done|by apply P]].
  rewrite (links_del st c w h l1 n l2 n (to_lists _ _ (ro_tables _ _ Hs)) Hh Ec). by rewrite decide_True.
Qed.

End Steps.

(** ** A run: a socket is allocated, bound and made to listen *)

Section Witnesses.
Existing Instance demo_env.

Lemma demo_steps : exists st0 st n h,
  init_tcp_stack (boot 0) = Done tt st0 /\ is_bucket h /\
  rtc table_step (st0, no_socks) (st, set_bucket no_socks TBnd h [n]).
Proof.
  destruct (init_tcp_stack_run 0) as (st0 & E & _).
  pose proof (init_refs 0 st0 E) as Hr0. pose proof (alloc_run st0) as Ra.
  replace (allocs_ok (nmalloc st0)) with true in Ra by reflexivity.
  pose proof (alloc_refs _ _ _ _ Hr0 Ra) as Hr1.
  destruct (bind_hash_refs _ no_socks (next_blk st0) (new_sock (next_blk st0)) Hr1) as (st2 & R2 & Hr2);
    [apply lookup_insert_eq|apply no_socks_unlinked|].
  exists st0, st2, (next_blk st0), (key TBnd (new_sock (next_blk st0))).
  split; [exact E|]. split; [apply key_bucket|].
  eapply rtc_l; [exact (ts_alloc _ _ _ _ Ra)|]. eapply rtc_l; [|apply rtc_refl].
  refine (ts_bind_hash _ _ _ _ _ _ _ R2); [apply lookup_insert_eq|apply no_socks_unlinked].
Qed.

Lemma links_one n h : is_bucket h -> links (set_bucket no_socks TBnd h [n]) n = 1.
Proof.
  intros Hh. pose proof (links_add no_socks TBnd h n n Hh) as E.
  rewrite decide_True in E by done. transitivity (links no_socks n + 1).
  - apply E. apply linked_false. intros h' _ Hn. by apply elem_of_nil in Hn.
  - rewrite (proj2 (links_zero no_socks n)); [done|apply in_no_socks].
Qed.

Lemma ref_counts_exact_witness :
  exists st n s, socks st !! n = Some s /\ ref_cnt s = 1.
Proof.
  destruct demo_steps as (st0 & st & n & h & E & Hh & Hs).
  destruct (ref_counts_exact 0 st0 st _ E Hs) as (Hc & Hl & _).
  destruct (Hl n TBnd h Hh) as [s Hn]; [rewrite bucket_eq; apply list_elem_of_singleton; reflexivity|].
  exists st, n, s. split; [exact Hn|]. rewrite (proj1 (Hc n s Hn)). apply links_one, Hh.
Defined.

Lemma freed_with_last_link_witness :
  exists st n st', tcp_bind_unhash (sock_ptr n) st = Done tt st' /\ socks st' !! n = None.
Proof.
  destruct demo_steps as (st0 & st & n & h & E & Hh & Hs).
  destruct (freed_with_last_link 0 st0 st _ TBnd h n E Hs Hh) as (st' & c' & R & _ & _ & Hf & _);
    [rewrite bucket_eq; apply list_elem_of_singleton; reflexivity|].
  exists st, n, st'. split; [exact R|]. apply Hf, links_one, Hh.
Defined.

End Witnesses.
