(* ===== verification/Out.v ===== *)
(** * Sending packets (tcp_out.c)

    A packet handed to [ip_send_packet], which belongs to the IP library, is
    appended to the packets sent. *)

From S2P Require Import Prelude Checksum DList RingBuffer SynchWait Layout Segment Memory Sock SockTables.

Section Code.
Context `{Env} `{IpLayer}.

(** The result of a computation that may read past a buffer. *)
Definition checked {A} (r : option A) : M A :=
  match r with Some a => ret a | None => fail BadAccess end.

(** What [ip_init_hdr] takes from elsewhere differs from packet to packet. *)
Definition fresh_seed : M nat := fun st => Done (length (sent st)) st.

Definition ip_send_packet (p : packet) : M unit := update (push_sent p).

(** [data]: the bytes that follow the headers in the caller's buffer. *)
Definition tcp_send_packet (tsk : ptr) (data : list Z) (len : Z) : M unit :=
  let ip_tot_len := len - ETHER_HDR_SIZE in
  let tcp_data_len := ip_tot_len - IP_BASE_HDR_SIZE - TCP_BASE_HDR_SIZE in
  do s <- sock tsk;
  let tcp := tcp_init_hdr (sk_sport s) (sk_dport s) (snd_nxt s) (rcv_nxt s)
                          (Z.lor TCP_PSH TCP_ACK) (rcv_wnd s) in
  do seed <- fresh_seed;
  let ip := ip_init_hdr seed (sk_sip s) (sk_dip s) ip_tot_len IPPROTO_TCP in
  do ck <- checked (tcp_checksum ip tcp data);
  let tcp := set_th_check tcp ck in
  do ick <- checked (ip_checksum ip (tcphdr_bytes tcp ++ data));
  let ip := set_ip_check ip ick in
  modify tsk (fun s => set_snd_nxt (u32 (snd_nxt s + tcp_data_len)) s);;
  modify tsk (fun s => set_snd_wnd (u32 (snd_wnd s - tcp_data_len)) s);;
  ip_send_packet (Packet len ip tcp data).

Definition ctl_size : Z := ETHER_HDR_SIZE + IP_BASE_HDR_SIZE + TCP_BASE_HDR_SIZE.

Definition tcp_send_control_packet (tsk : ptr) (flags : Z) : M unit :=
  let pkt_size := ctl_size in
  do ok <- malloc;
  if negb ok then ret tt
  else
    let tot_len := u16 (IP_BASE_HDR_SIZE + TCP_BASE_HDR_SIZE) in
    do s <- sock tsk;
    do seed <- fresh_seed;
    let ip := ip_init_hdr seed (sk_sip s) (sk_dip s) tot_len IPPROTO_TCP in
    let tcp := tcp_init_hdr (sk_sport s) (sk_dport s) (snd_nxt s) (rcv_nxt s) flags (rcv_wnd s) in
    do ck <- checked (tcp_checksum ip tcp []);
    let tcp := set_th_check tcp ck in
    (if negb (Z.land flags (Z.lor TCP_SYN TCP_FIN) =? 0)
     then modify tsk (fun s => set_snd_nxt (u32 (snd_nxt s + 1)) s) else ret tt);;
    ip_send_packet (Packet pkt_size ip tcp []).

Definition tcp_send_reset (cb : tcp_cb) : M unit :=
  let pkt_size := ctl_size in
  do ok <- malloc;
  if negb ok then ret tt
  else
    let tot_len := u16 (IP_BASE_HDR_SIZE + TCP_BASE_HDR_SIZE) in
    do seed <- fresh_seed;
    let ip := ip_init_hdr seed (daddr cb) (saddr cb) tot_len IPPROTO_TCP in
    let tcp := tcp_init_hdr (dport cb) (sport cb) 0 (seq_end cb) (Z.lor TCP_RST TCP_ACK) 0 in
    do ck <- checked (tcp_checksum ip tcp []);
    let tcp := set_th_check tcp ck in
    ip_send_packet (Packet pkt_size ip tcp []).

End Code.

(** ** Lemmas *)

(** What the receiver makes of a packet: its control block, and whether the
    checksum test of [handle_tcp_packet] lets it pass. *)
Definition cb_of (p : packet) : tcp_cb := tcp_cb_init (pk_ip p) (pk_tcp p).
Definition accepted (p : packet) : Prop :=
  tcp_checksum (pk_ip p) (pk_tcp p) (pk_data p) = Some (th_check (pk_tcp p)).

(** The members of a socket that go into the headers of packets hold values of
    their width; the other members are the subject of [members_ok] in System.v. *)
Record sock_ok (s : tcp_sock) : Prop := {
  so_sip : is_u32 (sk_sip s); so_dip : is_u32 (sk_dip s);
  so_sport : is_u16 (sk_sport s); so_dport : is_u16 (sk_dport s);
  so_snd_nxt : is_u32 (snd_nxt s); so_rcv_nxt : is_u32 (rcv_nxt s); so_rcv_wnd : is_u16 (rcv_wnd s)
}.
#[export] Hint Resolve so_sip so_dip so_sport so_dport so_snd_nxt so_rcv_nxt so_rcv_wnd : cint.

Section Lemmas.
Context `{Env} `{IpLayerOk}.

(** The control block of a packet with headers from [ip_init_hdr] and [tcp_init_hdr]. *)
Definition cb_for (s d sp dp sq ak fl rw len : Z) : tcp_cb :=
  TcpCb s d sp dp sq (u32 (sq + len + (if Z.land fl (Z.lor TCP_SYN TCP_FIN) =? 0 then 0 else 1)))
        ak rw fl TCP_BASE_HDR_SIZE len.

Lemma cb_of_init seed s d len sp dp sq ak fl rw ck :
  is_u32 s -> is_u32 d -> is_u16 sp -> is_u16 dp -> is_u32 sq -> is_u32 ak -> is_u16 rw ->
  is_u16 len ->
  tcp_cb_init (ip_init_hdr seed s d len IPPROTO_TCP) (set_th_check (tcp_init_hdr sp dp sq ak fl rw) ck) =
  cb_for s d sp dp sq ak fl rw (len - 40).
Proof.
  intros Hs Hd Hsp Hdp Hsq Hak Hrw Hlen. unfold tcp_cb_init, cb_for, IP_HDR_SIZE, TCP_HDR_SIZE; simpl.
  rewrite ip_init_ihl, ip_init_saddr, ip_init_daddr, ip_init_tot_len.
  rewrite !ntohs_htons, !ntohl_htonl, (u32_id s), (u32_id d), (u32_id sq), (u32_id ak), !u16_id by done.
  replace (len - 5 * 4 - TCP_HDR_OFFSET * 4) with (len - 40) by (unfold TCP_HDR_OFFSET; lia).
  by destruct (Z.land fl _ =? 0).
Qed.

Lemma tcp_len_init seed s d len p :
  20 <= len < 2 ^ 16 -> tcp_len (ip_init_hdr seed s d len p) = len - 20.
Proof.
  intros Hl. unfold tcp_len, IP_HDR_SIZE. rewrite ip_init_ihl, ip_init_tot_len, ntohs_htons.
  rewrite (u16_id len) by (unfold is_u16; lia). apply u16_id. unfold is_u16. lia.
Qed.

(** The checksum is computed inside the packet, whatever the member held. *)
Lemma tcp_checksum_init seed s d len p t data :
  20 <= len < 2 ^ 16 -> len - 20 <= 20 + Z.of_nat (length data) ->
  exists ck, tcp_checksum (ip_init_hdr seed s d len p) t data = Some ck /\ is_u16 ck /\
    forall ip, tcp_len ip = tcp_len (ip_init_hdr seed s d len p) ->
      pseudo_sum ip = pseudo_sum (ip_init_hdr seed s d len p) ->
      tcp_checksum ip (set_th_check t ck) data = Some ck.
Proof.
  intros Hl Hd. unfold tcp_checksum at 1. rewrite tcp_len_init by done. unfold read_bytes.
  rewrite length_app, length_tcphdr_bytes. destruct (Z.leb_spec (len - 20) (Z.of_nat (20 + length data))); [|lia].
  eexists. split; [reflexivity|]. split; [apply checksum_u16|]. intros ip El Ep.
  unfold tcp_checksum. rewrite El, Ep. unfold read_bytes.
  rewrite length_app, length_tcphdr_bytes. by destruct (Z.leb_spec (len - 20) (Z.of_nat (20 + length data))); [|lia].
Qed.

Lemma malloc_run st : malloc st = Done (malloc_ok (nmalloc st)) (tick_malloc st).
Proof. done. Qed.

(** The packets the two functions build, but for the checksum. *)
Definition ctl_packet (seed : nat) (s : tcp_sock) (flags ck : Z) : packet :=
  Packet ctl_size (ip_init_hdr seed (sk_sip s) (sk_dip s) 40 IPPROTO_TCP)
    (set_th_check (tcp_init_hdr (sk_sport s) (sk_dport s) (snd_nxt s) (rcv_nxt s) flags (rcv_wnd s)) ck) [].
Definition rst_packet (seed : nat) (cb : tcp_cb) (ck : Z) : packet :=
  Packet ctl_size (ip_init_hdr seed (daddr cb) (saddr cb) 40 IPPROTO_TCP)
    (set_th_check (tcp_init_hdr (dport cb) (sport cb) 0 (seq_end cb) (Z.lor TCP_RST TCP_ACK) 0) ck) [].

(** The socket after sending [flags]: SYN and FIN take a sequence number. *)
Definition after_ctl (flags : Z) (s : tcp_sock) : tcp_sock :=
  if Z.land flags (Z.lor TCP_SYN TCP_FIN) =? 0 then s else set_snd_nxt (u32 (snd_nxt s + 1)) s.

Lemma control_fails st n flags :
  malloc_ok (nmalloc st) = false -> tcp_send_control_packet (sock_ptr n) flags st = Done tt (tick_malloc st).
Proof. intros Hm. unfold tcp_send_control_packet. by rewrite (bind_done _ _ _ _ _ (malloc_run st)), Hm. Qed.

Lemma control_run st n s flags :
  socks st !! n = Some s -> malloc_ok (nmalloc st) = true ->
  exists ck, accepted (ctl_packet (length (sent st)) s flags ck) /\
    tcp_send_control_packet (sock_ptr n) flags st =
      Done tt (push_sent (ctl_packet (length (sent st)) s flags ck)
                (set_socks (<[n := after_ctl flags s]> (socks st)) (tick_malloc st))).
Proof.
  intros Hs Hm. unfold tcp_send_control_packet.
  set (t0 := tcp_init_hdr (sk_sport s) (sk_dport s) (snd_nxt s) (rcv_nxt s) flags (rcv_wnd s)).
  destruct (tcp_checksum_init (length (sent st)) (sk_sip s) (sk_dip s) 40 IPPROTO_TCP t0 [])
    as (ck & E & _ & Ack); [lia|simpl; lia|].
  exists ck. split; [by apply Ack|].
  rewrite (bind_done _ _ _ _ _ (malloc_run st)), Hm. cbn [negb].
  rewrite (bind_done _ _ _ s (tick_malloc st)) by (by apply sock_run).
  rewrite (bind_done _ _ _ (length (sent st)) (tick_malloc st)) by done. fold t0.
  change (u16 (IP_BASE_HDR_SIZE + TCP_BASE_HDR_SIZE)) with 40.
  rewrite (bind_done _ _ _ ck (tick_malloc st)) by (by rewrite E).
  unfold after_ctl. destruct (Z.land flags _ =? 0); cbn [negb].
  - erewrite bind_done; [|done]. unfold ip_send_packet, update. do 2 f_equal.
    rewrite insert_id by done. by destruct st.
  - erewrite bind_done; [|by apply modify_run]. done.
Qed.

Lemma reset_fails st cb :
  malloc_ok (nmalloc st) = false -> tcp_send_reset cb st = Done tt (tick_malloc st).
Proof. intros Hm. unfold tcp_send_reset. by rewrite (bind_done _ _ _ _ _ (malloc_run st)), Hm. Qed.

Lemma reset_run st cb :
  malloc_ok (nmalloc st) = true ->
  exists ck, accepted (rst_packet (length (sent st)) cb ck) /\
    tcp_send_reset cb st = Done tt (push_sent (rst_packet (length (sent st)) cb ck) (tick_malloc st)).
Proof.
  intros Hm. unfold tcp_send_reset.
  set (t0 := tcp_init_hdr (dport cb) (sport cb) 0 (seq_end cb) (Z.lor TCP_RST TCP_ACK) 0).
  destruct (tcp_checksum_init (length (sent st)) (daddr cb) (saddr cb) 40 IPPROTO_TCP t0 [])
    as (ck & E & _ & Ack); [lia|simpl; lia|].
  exists ck. split; [by apply Ack|].
  rewrite (bind_done _ _ _ _ _ (malloc_run st)), Hm. cbn [negb].
  rewrite (bind_done _ _ _ (length (sent st)) (tick_malloc st)) by done. fold t0.
  change (u16 (IP_BASE_HDR_SIZE + TCP_BASE_HDR_SIZE)) with 40.
  by rewrite (bind_done _ _ _ ck (tick_malloc st)) by (by rewrite E).
Qed.

Lemma ctl_packet_cb seed s flags ck :
  sock_ok s -> cb_of (ctl_packet seed s flags ck) =
  cb_for (sk_sip s) (sk_dip s) (sk_sport s) (sk_dport s) (snd_nxt s) (rcv_nxt s) flags (rcv_wnd s) 0.
Proof. intros Hs. apply cb_of_init; auto with cint. unfold is_u16. lia. Qed.

(** ** Theorems *)

(** [tcp_send_control_packet] hands exactly one 54-byte packet to the IP
    layer.  Its receiver accepts the checksum and sees the connection of the
    socket, its [snd_nxt], [rcv_nxt] and [rcv_wnd], the flags and no payload; the
    socket's [snd_nxt] becomes the end of the packet, so SYN and FIN take one
    number.  When the allocation fails, nothing is sent and no number is used. *)
Theorem tcp_send_control_packet_spec st n s flags :
  socks st !! n = Some s -> sock_ok s ->
  exists st', tcp_send_control_packet (sock_ptr n) flags st = Done tt st' /\
  if malloc_ok (nmalloc st) then
    exists p, sent st' = sent st ++ [p] /\ pk_len p = 54 /\ accepted p /\
      cb_of p = cb_for (sk_sip s) (sk_dip s) (sk_sport s) (sk_dport s) (snd_nxt s) (rcv_nxt s)
                       flags (rcv_wnd s) 0 /\
      socks st' = <[n := set_snd_nxt (seq_end (cb_of p)) s]> (socks st) /\ table st' = table st
  else sent st' = sent st /\ socks st' = socks st /\ table st' = table st.
Proof.
  intros Hs Hok. destruct (malloc_ok (nmalloc st)) eqn:Hm.
  - destruct (control_run st n s flags Hs Hm) as (ck & Hacc & R).
    eexists. split; [exact R|]. exists (ctl_packet (length (sent st)) s flags ck).
    rewrite ctl_packet_cb by done. do 4 (split; [done|]). split; [|done]. cbn [socks push_sent set_socks].
    f_equal. unfold after_ctl, cb_for, seq_end. destruct (Z.land flags _ =? 0).
    + rewrite u32_id; [|rewrite !Z.add_0_r; auto with cint]. rewrite !Z.add_0_r. by destruct s.
    + by rewrite Z.add_0_r.
  - eexists. split; [by apply control_fails|done].
Qed.

(** [tcp_send_reset] answers a packet with one RST|ACK packet whose
    checksum the peer accepts, on the reversed connection, with sequence number
    0, acknowledging everything the packet occupied; sockets and tables are not
    touched, and nothing is sent when the allocation fails. *)
Theorem tcp_send_reset_spec st cb :
  is_u32 (saddr cb) -> is_u32 (daddr cb) -> is_u16 (sport cb) -> is_u16 (dport cb) -> is_u32 (seq_end cb) ->
  exists st', tcp_send_reset cb st = Done tt st' /\ socks st' = socks st /\ table st' = table st /\
  if malloc_ok (nmalloc st) then
    exists p, sent st' = sent st ++ [p] /\ accepted p /\
      cb_of p = cb_for (daddr cb) (saddr cb) (dport cb) (sport cb) 0 (seq_end cb) (Z.lor TCP_RST TCP_ACK) 0 0
  else sent st' = sent st.
Proof.
  intros Ha Hb Hc Hd He. destruct (malloc_ok (nmalloc st)) eqn:Hm.
  - destruct (reset_run st cb Hm) as (ck & Hacc & R). eexists. split; [exact R|]. do 2 (split; [done|]).
    eexists. split; [done|]. split; [exact Hacc|].
    apply cb_of_init; (done || (unfold is_u16, is_u32; lia)).
  - eexists. split; [by apply reset_fails|done].
Qed.

(** [tcp_send_packet] as a run. *)
Lemma send_packet_run st n s data :
  socks st !! n = Some s -> sock_ok s -> Z.of_nat (length data) < 2 ^ 16 - 40 ->
  let len := Z.of_nat (length data) in
  exists p, tcp_send_packet (sock_ptr n) data (54 + len) st =
    Done tt (push_sent p (set_socks (<[n := set_snd_wnd (u32 (snd_wnd s - len))
                                            (set_snd_nxt (u32 (snd_nxt s + len)) s)]> (socks st)) st)) /\
    pk_data p = data /\ accepted p /\ ip_checksum (pk_ip p) [] = Some (ip_check (pk_ip p)) /\
    cb_of p = cb_for (sk_sip s) (sk_dip s) (sk_sport s) (sk_dport s) (snd_nxt s) (rcv_nxt s)
                     (Z.lor TCP_PSH TCP_ACK) (rcv_wnd s) len.
Proof.
  intros Hs Hok Hlen len.
  set (t0 := tcp_init_hdr (sk_sport s) (sk_dport s) (snd_nxt s) (rcv_nxt s) (Z.lor TCP_PSH TCP_ACK) (rcv_wnd s)).
  set (ip := ip_init_hdr (length (sent st)) (sk_sip s) (sk_dip s) (40 + len) IPPROTO_TCP).
  destruct (tcp_checksum_init (length (sent st)) (sk_sip s) (sk_dip s) (40 + len) IPPROTO_TCP t0 data)
    as (ck & E & _ & Ack); [lia|lia|]. fold ip in E, Ack.
  assert (Eip : forall t ip', ihl ip' = 5 -> set_ip_check ip' 0 = set_ip_check ip 0 -> ip_checksum ip' t =
    Some (checksum (iphdr_bytes (set_ip_check ip 0)) 0)).
  { intros t ip' Hi He. unfold ip_checksum, read_bytes. rewrite Hi, He, length_app, length_iphdr_bytes.
    destruct (Z.leb_spec (5 * 4) (Z.of_nat (20 + length t))); [|lia]. done. }
  set (ick := checksum (iphdr_bytes (set_ip_check ip 0)) 0) in *.
  assert (Hihl : ihl ip = 5) by apply ip_init_ihl.
  exists (Packet (54 + len) (set_ip_check ip ick) (set_th_check t0 ck) data). split.
  - unfold tcp_send_packet. rewrite (bind_done _ _ _ s st) by (by apply sock_run). fold t0.
    rewrite (bind_done _ _ _ (length (sent st)) st) by done.
    replace (54 + len - ETHER_HDR_SIZE) with (40 + len) by (unfold ETHER_HDR_SIZE; lia). fold ip.
    replace (40 + len - IP_BASE_HDR_SIZE - TCP_BASE_HDR_SIZE) with len
      by (unfold IP_BASE_HDR_SIZE, TCP_BASE_HDR_SIZE; lia).
    rewrite (bind_done _ _ _ ck st) by (by rewrite E).
    rewrite (bind_done _ _ _ ick st) by (by rewrite Eip).
    erewrite bind_done; [|by apply modify_run].
    erewrite bind_done; [|apply modify_run, lookup_insert_eq].
    unfold ip_send_packet, update. cbn [socks set_socks]. by rewrite insert_insert_eq.
  - split; [done|]. split; [by apply Ack|]. split; [by apply Eip|].
    transitivity (cb_for (sk_sip s) (sk_dip s) (sk_sport s) (sk_dport s) (snd_nxt s) (rcv_nxt s)
                     (Z.lor TCP_PSH TCP_ACK) (rcv_wnd s) (40 + len - 40)); [|f_equal; lia].
    apply (cb_of_init (length (sent st))); auto with cint. unfold is_u16. lia.
Qed.

(** [tcp_send_packet] on a buffer of [len] bytes, headers included, sends
    one PSH|ACK packet with the given payload and valid checksums in both
    headers; [snd_nxt] moves past the payload and [snd_wnd] shrinks by it, both
    modulo [2 ^ 32]. *)
Theorem tcp_send_packet_spec st n s data :
  socks st !! n = Some s -> sock_ok s -> Z.of_nat (length data) < 2 ^ 16 - 40 ->
  let len := Z.of_nat (length data) in
  exists p, tcp_send_packet (sock_ptr n) data (54 + len) st =
    Done tt (push_sent p (set_socks (<[n := set_snd_wnd (u32 (snd_wnd s - len))
                                            (set_snd_nxt (u32 (snd_nxt s + len)) s)]> (socks st)) st)) /\
    pk_data p = data /\ accepted p /\ ip_checksum (pk_ip p) [] = Some (ip_check (pk_ip p)) /\
    cb_of p = cb_for (sk_sip s) (sk_dip s) (sk_sport s) (sk_dport s) (snd_nxt s) (rcv_nxt s)
                     (Z.lor TCP_PSH TCP_ACK) (rcv_wnd s) len.
Proof. apply send_packet_run. Qed.

End Lemmas.

Section Witnesses.
Existing Instances demo_env demo_layer demo_layer_ok.

Lemma demo_sock_ok s : sock_ok (demo_sock s).
Proof. split; unfold is_u16, is_u32, demo_sock; simpl; lia. Qed.

(** A SYN from sequence number 0: the packet ends at 1, and so does [snd_nxt]. *)
Lemma tcp_send_control_packet_spec_witness :
  exists st' p, tcp_send_control_packet (sock_ptr 1) TCP_SYN (one_sock TCP_CLOSED) = Done tt st' /\
    sent st' = sent (one_sock TCP_CLOSED) ++ [p] /\ seq_end (cb_of p) = 1.
Proof.
  destruct (tcp_send_control_packet_spec (one_sock TCP_CLOSED) 1%positive (demo_sock TCP_CLOSED) TCP_SYN)
    as (st' & R & p & E & _ & _ & Ecb & _); [apply one_sock_at|apply demo_sock_ok|].
  exists st', p. rewrite Ecb. split; [exact R|]. split; [exact E|reflexivity].
Defined.

Lemma tcp_send_reset_spec_witness :
  exists st' p, tcp_send_reset demo_cb (one_sock TCP_CLOSED) = Done tt st' /\
    sent st' = sent (one_sock TCP_CLOSED) ++ [p] /\ daddr (cb_of p) = 0x0a000002.
Proof.
  destruct (tcp_send_reset_spec (one_sock TCP_CLOSED) demo_cb) as (st' & R & _ & _ & p & E & _ & Ecb);
    [unfold is_u16, is_u32, demo_cb; simpl; lia..|].
  exists st', p. rewrite Ecb. split; [exact R|]. split; [exact E|reflexivity].
Defined.

Lemma tcp_send_packet_spec_witness :
  exists p st', tcp_send_packet (sock_ptr 1) [1; 2; 3; 4] 58 (one_sock TCP_ESTABLISHED) = Done tt st' /\
    accepted p /\ pl_len (cb_of p) = 4.
Proof.
  destruct (tcp_send_packet_spec (one_sock TCP_ESTABLISHED) 1%positive (demo_sock TCP_ESTABLISHED) [1; 2; 3; 4])
    as (p & R & _ & Hacc & _ & Ecb); [apply one_sock_at|apply demo_sock_ok|simpl; lia|].
  eexists p, _. split; [exact R|]. split; [exact Hacc|]. by rewrite Ecb.
Defined.

End Witnesses.
