(* ===== verification/SockApi.v ===== *)
(** * The socket calls (tcp_sock.c, second half)

    [tcp_sock_connect], [tcp_sock_listen], the accept queue, [tcp_sock_accept],
    [tcp_sock_read], [tcp_sock_write] and [tcp_sock_close]. *)

From S2P Require Import Prelude DList RingBuffer SynchWait Layout Segment Memory Sock Out.

Section Code.
Context `{Env} `{IpLayer}.

(** The semicolon after [list_for_each_entry] makes the loop body empty: when
    the loop is over, [iface] is the list head taken for an interface, and its
    member [ip] lies behind the [ustack_t] object (see Layout.v).  The port
    chosen is stored in network order. *)
Definition tcp_sock_connect (tsk : ptr) (skaddr_ip skaddr_port : Z) : M Z :=
  modify tsk (set_dip (htonl skaddr_ip));;
  modify tsk (set_dport (htons skaddr_port));;
  modify tsk (set_sip past_instance);;
  do port <- tcp_get_port;
  modify tsk (set_sport (htons port));;
  tcp_bind_hash tsk;;
  tcp_send_control_packet tsk TCP_SYN;;
  tcp_set_state tsk TCP_SYN_SENT;;
  tcp_hash tsk;;
  sleep_on tsk WConnect;;
  ret 0.

Definition tcp_sock_listen (tsk : ptr) (backlog : Z) : M Z :=
  modify tsk (set_backlog backlog);;
  tcp_set_state tsk TCP_LISTEN;;
  do hash <- tcp_hash tsk;
  ret hash.

Definition tcp_sock_accept_queue_full (tsk : ptr) : M Z :=
  do s <- sock tsk;
  if backlog s <=? accept_backlog s then ret 1 else ret 0.

Definition tcp_sock_accept_enqueue (tsk : ptr) : M unit :=
  do empty <- list_test (fun st => list_empty st (ptr_add tsk off_list));
  (if negb empty then list_op (fun st => list_delete_entry st (ptr_add tsk off_list)) else ret tt);;
  do s <- sock tsk;
  list_op (fun st => list_add_tail st (ptr_add tsk off_list) (ptr_add (parent s) off_accept_queue));;
  modify (parent s) (fun p => set_accept_backlog (accept_backlog p + 1) p).

Definition tcp_sock_accept_dequeue (tsk : ptr) : M ptr :=
  do s <- sock tsk;
  let new_tsk := ptr_add (next (accept_queue s)) (- off_list) in
  list_op (fun st => list_delete_entry st (ptr_add new_tsk off_list));;
  list_op (fun st => init_list_head st (ptr_add new_tsk off_list));;
  modify tsk (fun s => set_accept_backlog (accept_backlog s - 1) s);;
  ret new_tsk.

(** The condition is written [tsk->accept_queue != NULL], which compares a
    structure with a pointer and is not C; it is read as the comment above it
    says, "accept_queue is not empty". *)
Definition tcp_sock_accept (tsk : ptr) : M ptr :=
  do empty <- list_test (fun st => list_empty st (ptr_add tsk off_accept_queue));
  if negb empty then tcp_sock_accept_dequeue tsk
  else sleep_on tsk WAccept;; tcp_sock_accept_dequeue tsk.

(** The value returned and the bytes stored into [buf]. *)
Definition tcp_sock_read (tsk : ptr) (size : Z) : M (Z * list Z) :=
  do s <- sock tsk;
  let '(len, data, rbuf) := Ring.read_ring_buffer (rcv_buf s) size in
  modify tsk (set_rcv_buf rbuf);;
  modify tsk (fun s => set_rcv_wnd (u16 (rcv_wnd s + len)) s);;
  do s <- sock tsk;
  ret (rcv_wnd s, data).

(** The body is empty; no value is returned. *)
Definition tcp_sock_write (tsk : ptr) (buf : list Z) (size : Z) : M unit := ret tt.

Definition tcp_sock_close (tsk : ptr) : M unit :=
  do s <- sock tsk;
  if decide (state s = TCP_CLOSED) then ret tt
  else
    (if decide (state s = TCP_LISTEN) then
       tcp_unhash tsk;;
       tcp_bind_unhash tsk;;
       tcp_set_state tsk TCP_CLOSED
     else if decide (state s = TCP_SYN_RECV \/ state s = TCP_SYN_SENT) then
       tcp_set_state tsk TCP_CLOSED
     else if decide (state s = TCP_ESTABLISHED) then
       tcp_send_control_packet tsk TCP_FIN;;
       tcp_set_state tsk TCP_FIN_WAIT_1
     else if decide (state s = TCP_CLOSE_WAIT) then
       tcp_send_control_packet tsk TCP_ACK;;
       tcp_send_control_packet tsk TCP_FIN;;
       tcp_set_state tsk TCP_LAST_ACK
     else ret tt);;
    free_tcp_sock tsk.

End Code.
