(* ===== verification/AcceptQueue.v ===== *)
(** * Theorems on the accept queue

    The two queues of a listening socket hold its children, linked through their
    member [list]: [tcp_sock_accept_enqueue] moves a child from the first to the
    end of the second, [tcp_sock_accept_dequeue] takes the oldest one out. *)

From S2P Require Import Prelude DList RingBuffer SynchWait Layout Segment Memory Sock SockTables Out SockApi.

Definition lq (p : positive) : ptr := Ptr (BSock p) off_listen_queue.
Definition aq (p : positive) : ptr := Ptr (BSock p) off_accept_queue.
Definition node (n : positive) : ptr := Ptr (BSock n) off_list.

(** The children pending in the listen queue and in the accept queue of [p]. *)
Record queues (st : stack) (p : positive) (pending ready : list positive) : Prop := {
  q_lq : dlist st (lq p) (nodes off_list pending);
  q_aq : dlist st (aq p) (nodes off_list ready);
  q_disj n : n ∈ pending -> n ∈ ready -> False
}.

Lemma lq_not_node p l : lq p ∉ nodes off_list l.
Proof. intros (n & E & _)%list_elem_of_fmap. done. Qed.
Lemma aq_not_node p l : aq p ∉ nodes off_list l.
Proof. intros (n & E & _)%list_elem_of_fmap. done. Qed.

(** Two lists that share no node. *)
Lemma apart_lq_aq p l l' : (forall n, n ∈ l -> n ∈ l' -> False) ->
  forall x, x ∈ lq p :: nodes off_list l -> x ∉ aq p :: nodes off_list l'.
Proof.
  intros Hd x [->|Hx]%elem_of_cons [Hy|Hy]%elem_of_cons.
  - done.
  - by apply lq_not_node in Hy.
  - subst x. by apply aq_not_node in Hx.
  - apply list_elem_of_fmap in Hx as (n & -> & Hn). apply nodes_elem in Hy. eauto.
Qed.

(** The data of the sockets are those of [st] but for the backlog count of [p]. *)
Definition backlog_moved (st st' : stack) (p : positive) (ps : tcp_sock) (d : Z) : Prop :=
  strip <$> socks st' =
    <[p := strip (set_accept_backlog (accept_backlog ps + d) ps)]> (strip <$> socks st) /\
  sent st' = sent st.

Lemma backlog_sock st st' p ps d :
  backlog_moved st st' p ps d ->
  exists ps', socks st' !! p = Some ps' /\ strip ps' = strip (set_accept_backlog (accept_backlog ps + d) ps).
Proof.
  intros [Hb _]. apply (f_equal (.!! p)) in Hb. rewrite lookup_insert_eq, lookup_fmap in Hb.
  destruct (socks st' !! p) as [ps'|]; [|done]. exists ps'. split; [done|]. by apply (inj Some) in Hb.
Qed.
Lemma backlog_other st st' p ps d n s :
  backlog_moved st st' p ps d -> n ≠ p -> socks st !! n = Some s ->
  exists s', socks st' !! n = Some s' /\ strip s' = strip s.
Proof.
  intros [Hb _] Hne Hs. apply (f_equal (.!! n)) in Hb. rewrite lookup_insert_ne, !lookup_fmap, Hs in Hb by done.
  destruct (socks st' !! n) as [s'|]; [|done]. exists s'. split; [done|]. by apply (inj Some) in Hb.
Qed.

(** Updating the count after list operations keeps the lists. *)
Lemma backlog_modify st st1 p ps ps1 d :
  data st1 = data st -> socks st1 !! p = Some ps1 -> strip ps1 = strip ps ->
  let st' := set_socks (<[p := set_accept_backlog (accept_backlog ps1 + d) ps1]> (socks st1)) st1 in
  backlog_moved st st' p ps d /\ forall h l, dlist st1 h l -> dlist st' h l.
Proof.
  intros Ed Hp E st'. split.
  - destruct (data_view _ _ Ed) as (Ev & Es & _). split; [|done]. simpl.
    rewrite fmap_insert, Ev. f_equal.
    replace (accept_backlog ps1) with (accept_backlog ps) by (symmetry; exact (f_equal accept_backlog E)).
    exact (f_equal (set_accept_backlog (accept_backlog ps + d)) E).
  - intros h l D. apply (dlist_ext st1); [done|]. intros x _. apply (modify_node_get st1 p ps1); [done|keeps].
Qed.

Section Theorems.
Context `{Env}.

Lemma enqueue_lists st p l1 l2 n r :
  queues st p (l1 ++ n :: l2) r ->
  exists st1 st2, list_empty st (node n) = Some false /\ list_delete_entry st (node n) = Some st1 /\
    list_add_tail st1 (node n) (aq p) = Some st2 /\ data st1 = data st /\ data st2 = data st /\
    queues st2 p (l1 ++ l2) (r ++ [n]).
Proof.
  intros [Dl Da Hd]. pose proof (proj1 (dlist_socks _ _ _ _ Dl)) as ND.
  assert (Hn : n ∉ l1 ++ l2) by (rewrite <- Permutation_middle in ND; by apply NoDup_cons in ND as [? _]).
  assert (Hr : n ∉ r) by (intros ?; apply (Hd n); set_solver).
  assert (Hd' : forall m, m ∈ l1 ++ l2 -> m ∈ r -> False) by (intros m ? ?; apply (Hd m); set_solver).
  unfold nodes in Dl. rewrite fmap_app, fmap_cons in Dl.
  destruct (list_delete_entry_ok _ _ _ _ _ Dl) as (st1 & E1 & Dl1 & O1 & G1 & Em).
  rewrite <- fmap_app in Dl1, O1.
  assert (Da1 : dlist st1 (aq p) (nodes off_list r)).
  { apply (dlist_frame _ st _ _ _ Da O1). intros x Hx Hx'. by apply (apart_lq_aq p (l1 ++ l2) r Hd' x). }
  destruct (list_add_ok st1 (aq p) (nodes off_list r) (node n) Da1) as [_ (st2 & E2 & Da2 & O2)].
  { intros [?|Hx]%elem_of_cons; [done|]. by apply nodes_elem in Hx. }
  { unfold node. rewrite G1. apply (dlist_node _ _ _ _ Dl). set_solver. }
  exists st1, st2. unfold list_empty in *. rewrite G1 in Em. split; [done|]. split; [done|].
  split; [done|]. pose proof (list_delete_entry_data _ _ _ E1) as X1.
  pose proof (list_add_tail_data _ _ _ _ E2) as X2. split; [done|]. split; [congruence|]. split.
  - apply (dlist_frame _ st1 _ _ _ Dl1 O2). intros x Hx [->|Hx']%elem_of_cons.
    + apply elem_of_cons in Hx as [?|Hx]; [done|]. by apply nodes_elem in Hx.
    + by apply (apart_lq_aq p (l1 ++ l2) r Hd' x).
  - unfold nodes. rewrite fmap_app. exact Da2.
  - intros m Hm [Hm'|Hm']%elem_of_app; [by apply (Hd' m)|]. apply elem_of_cons in Hm' as [->|Hm'];
      [done|by apply elem_of_nil in Hm'].
Qed.

Lemma enqueue_run st p ps n s l1 l2 r :
  queues st p (l1 ++ n :: l2) r -> socks st !! p = Some ps -> socks st !! n = Some s ->
  parent s = sock_ptr p ->
  exists st', tcp_sock_accept_enqueue (sock_ptr n) st = Done tt st' /\
    queues st' p (l1 ++ l2) (r ++ [n]) /\ backlog_moved st st' p ps 1.
Proof.
  intros Q Hp Hn Hpar. destruct (enqueue_lists st p l1 l2 n r Q) as (st1 & st2 & Em & E1 & E2 & X1 & X2 & [Dl Da Hd]).
  destruct (data_sock _ _ _ _ X1 Hn) as (s1 & Hn1 & Es1).
  destruct (data_sock _ _ _ _ X2 Hp) as (ps2 & Hp2 & Eps2).
  assert (Hpar1 : parent s1 = sock_ptr p) by (rewrite <- Hpar; exact (f_equal parent Es1)).
  destruct (backlog_modify st st2 p ps ps2 1 X2 Hp2 Eps2) as [Hb Hk].
  eexists. split.
  { unfold tcp_sock_accept_enqueue. erewrite bind_done; [|apply list_test_run; exact Em]. cbn [negb].
    erewrite bind_done; [|apply list_op_run; exact E1].
    erewrite bind_done; [|by apply sock_run]. rewrite Hpar1.
    erewrite bind_done; [|apply list_op_run; exact E2]. by apply modify_run. }
  split; [|exact Hb]. split; [by apply Hk|by apply Hk|done].
Qed.

(** [tcp_sock_accept_enqueue] moves a child from wherever it is in its
    parent's listen queue to the end of the accept queue, keeps the order of all
    others, counts one more in the parent's [accept_backlog], and changes nothing
    else.  (It does not consult the backlog limit.) *)
Theorem accept_enqueue_spec st p ps n s l1 l2 r :
  queues st p (l1 ++ n :: l2) r -> socks st !! p = Some ps -> socks st !! n = Some s ->
  parent s = sock_ptr p ->
  exists st', tcp_sock_accept_enqueue (sock_ptr n) st = Done tt st' /\
    queues st' p (l1 ++ l2) (r ++ [n]) /\ backlog_moved st st' p ps 1.
Proof. apply enqueue_run. Qed.

Lemma dequeue_lists st p ps l n r :
  queues st p l (n :: r) -> socks st !! p = Some ps ->
  exists st1 st2, next (accept_queue ps) = node n /\ list_delete_entry st (node n) = Some st1 /\
    init_list_head st1 (node n) = Some st2 /\ data st2 = data st /\
    queues st2 p l r /\ dlist st2 (node n) [].
Proof.
  intros [Dl Da Hd] Hp. pose proof (proj1 (dlist_socks _ _ _ _ Da)) as [Hn _]%NoDup_cons.
  assert (Hl : n ∉ l) by (intros ?; apply (Hd n); set_solver).
  assert (Hd' : forall m, m ∈ l -> m ∈ r -> False) by (intros m ? ?; apply (Hd m); set_solver).
  destruct (list_delete_entry_ok st (aq p) [] (nodes off_list r) (node n) Da) as (st1 & E1 & Da1 & O1 & G1 & _).
  simpl app in Da1, O1.
  assert (Dl1 : dlist st1 (lq p) (nodes off_list l)).
  { apply (dlist_frame _ st _ _ _ Dl O1). by apply apart_lq_aq. }
  destruct (init_list_head_spec st1 (node n)) as (st2 & E2 & Dn & O2).
  { rewrite G1. apply (dlist_node _ _ _ _ Da). set_solver. }
  exists st1, st2. split.
  { destruct Da as [_ HL]. destruct (HL (aq p) (node n)) as [(nd & Gh & En) _]; [unfold pairs; set_solver|].
    simpl in Gh. rewrite Hp in Gh. by simplify_eq/=. }
  split; [done|]. split; [done|]. pose proof (list_delete_entry_data _ _ _ E1) as X1.
  pose proof (init_list_head_data _ _ _ E2) as X2. split; [congruence|]. split; [split|exact Dn].
  - apply (dlist_frame _ st1 _ _ _ Dl1 O2). intros x Hx [->|Hx']%elem_of_cons; [|by apply elem_of_nil in Hx'].
    apply elem_of_cons in Hx as [?|Hx]; [done|]. by apply nodes_elem in Hx.
  - apply (dlist_frame _ st1 _ _ _ Da1 O2). intros x Hx [->|Hx']%elem_of_cons; [|by apply elem_of_nil in Hx'].
    apply elem_of_cons in Hx as [?|Hx]; [done|]. by apply nodes_elem in Hx.
  - done.
Qed.

Lemma dequeue_run st p ps l n r :
  queues st p l (n :: r) -> socks st !! p = Some ps ->
  exists st', tcp_sock_accept_dequeue (sock_ptr p) st = Done (sock_ptr n) st' /\
    queues st' p l r /\ dlist st' (node n) [] /\ backlog_moved st st' p ps (-1).
Proof.
  intros Q Hp. destruct (dequeue_lists st p ps l n r Q Hp) as (st1 & st2 & En & E1 & E2 & X2 & [Dl Da Hd] & Dn).
  destruct (data_sock _ _ _ _ X2 Hp) as (ps2 & Hp2 & Eps2).
  destruct (backlog_modify st st2 p ps ps2 (-1) X2 Hp2 Eps2) as [Hb Hk].
  eexists. split.
  { unfold tcp_sock_accept_dequeue. erewrite bind_done; [|by apply sock_run]. rewrite En.
    change (ptr_add (node n) (- off_list)) with (sock_ptr n).
    erewrite bind_done; [|apply list_op_run; exact E1].
    erewrite bind_done; [|apply list_op_run; exact E2].
    erewrite bind_done; [|by apply modify_run]. done. }
  split; [split; [by apply Hk|by apply Hk|done]|]. split; [by apply Hk|exact Hb].
Qed.

(** On a non-empty accept queue [tcp_sock_accept_dequeue] returns the
    child that has waited longest, leaves the rest in order, gives the child an
    empty list node of its own and counts one less; nothing else changes.  With
    [accept_enqueue_spec]: children are accepted first in, first out. *)
Theorem accept_dequeue_spec st p ps l n r :
  queues st p l (n :: r) -> socks st !! p = Some ps ->
  exists st', tcp_sock_accept_dequeue (sock_ptr p) st = Done (sock_ptr n) st' /\
    queues st' p l r /\ dlist st' (node n) [] /\ backlog_moved st st' p ps (-1).
Proof. apply dequeue_run. Qed.

(** ** An empty queue *)

Lemma delete_self (st : stack) h :
  dlist st h [] -> exists st', list_delete_entry st h = Some st' /\ dlist st' h [] /\ same_outside [h] st st'.
Proof.
  intros [_ HL]. destruct (HL h h) as [(nd & Gh & Hnx) (nd' & Gh' & Hpv)]; [unfold pairs; set_solver|].
  rewrite Gh in Gh'. apply (inj Some) in Gh'. subst nd'. unfold list_delete_entry. rewrite Gh. cbn [mbind option_bind].
  rewrite Hnx, Hpv. destruct (set_prev_spec st h h nd Gh) as (st1 & E1 & G1 & O1). rewrite E1.
  cbn [mbind option_bind]. rewrite G1. cbn [mbind option_bind prev next]. rewrite Hnx. destruct (set_next_spec st1 h h _ G1) as (st2 & E2 & G2 & O2).
  exists st2. split; [done|]. simpl in G2. split; [split; [apply NoDup_singleton|]|].
  - intros a b Hab. unfold pairs in Hab. simpl in Hab.
    apply elem_of_cons in Hab as [[= -> ->]|Hab]; [|by apply elem_of_nil in Hab].
    split; eexists; (split; [exact G2|done]).
  - intros x Hx. rewrite O2, O1 by set_solver. done.
Qed.

(** What [accept_queue.next] is taken for when the queue is empty. *)
Definition no_child (p : positive) : ptr := Ptr (BSock p) (off_accept_queue - off_list).

Lemma dequeue_empty st p ps l :
  queues st p l [] -> socks st !! p = Some ps ->
  exists st', tcp_sock_accept_dequeue (sock_ptr p) st = Done (no_child p) st' /\
    queues st' p l [] /\ backlog_moved st st' p ps (-1).
Proof.
  intros [Dl Da _] Hp.
  destruct (delete_self st (aq p) Da) as (st1 & E1 & Da1 & O1).
  destruct (init_list_head_spec st1 (aq p) (dlist_node _ _ _ (aq p) Da1 (list_elem_of_here _ _))) as (st2 & E2 & Da2 & O2).
  assert (X2 : data st2 = data st).
  { rewrite (init_list_head_data _ _ _ E2). by apply list_delete_entry_data in E1. }
  destruct (data_sock _ _ _ _ X2 Hp) as (ps2 & Hp2 & Eps2).
  destruct (backlog_modify st st2 p ps ps2 (-1) X2 Hp2 Eps2) as [Hb Hk].
  assert (En : next (accept_queue ps) = aq p).
  { destruct Da as [_ HL]. destruct (HL (aq p) (aq p)) as [(nd & Gh & En) _]; [unfold pairs; set_solver|].
    simpl in Gh. rewrite Hp in Gh. by simplify_eq/=. }
  eexists. split.
  { unfold tcp_sock_accept_dequeue. erewrite bind_done; [|by apply sock_run]. rewrite En.
    change (ptr_add (ptr_add (aq p) (- off_list)) off_list) with (aq p).
    erewrite bind_done; [|apply list_op_run; exact E1].
    erewrite bind_done; [|apply list_op_run; exact E2].
    erewrite bind_done; [|by apply modify_run]. done. }
  split; [|exact Hb]. split; [|by apply Hk|set_solver]. apply Hk.
  apply (dlist_frame _ st1 _ _ _ (dlist_frame _ st _ _ _ Dl O1 ltac:(exact (apart_lq_aq p l [] ltac:(set_solver)))) O2).
  exact (apart_lq_aq p l [] ltac:(set_solver)).
Qed.

(** Updates that leave the nodes alone keep the queues. *)
Lemma queues_modify st n s s' :
  socks st !! n = Some s -> (forall o get set, sock_node o = Some (get, set) -> get s' = get s) ->
  forall p l r, queues st p l r -> queues (set_socks (<[n := s']> (socks st)) st) p l r.
Proof.
  intros Hs Hn p l r [Dl Da Hd].
  assert (Hk : forall h k, dlist st h k -> dlist (set_socks (<[n := s']> (socks st)) st) h k).
  { intros h k D. apply (dlist_ext st); [done|]. intros x _. by apply (modify_node_get st n s). }
  split; auto.
Qed.
Lemma wait_keeps st n s c w :
  socks st !! n = Some s -> forall p l r, queues st p l r ->
  queues (set_socks (<[n := set_wait c w s]> (socks st)) st) p l r.
Proof. intros Hs. apply (queues_modify st n s _ Hs). destruct c; keeps. Qed.
Lemma state_keeps st n s x :
  socks st !! n = Some s -> forall p l r, queues st p l r ->
  queues (set_socks (<[n := set_state x s]> (socks st)) st) p l r.
Proof. intros Hs. apply (queues_modify st n s _ Hs). keeps. Qed.

Lemma sleep_on_notified st n s c :
  socks st !! n = Some s -> Wait.dead (get_wait c s) = 0 -> Wait.notified (get_wait c s) ≠ 0 ->
  sleep_on (sock_ptr n) c st =
  Done 0 (set_socks (<[n := set_wait c Wait.wait_init s]> (socks st)) st).
Proof.
  intros Hs Hd Hn. unfold sleep_on. erewrite bind_done; [|by apply sock_run].
  unfold Wait.sleep_on_enter. rewrite Hd. simpl.
  destruct (Z.eqb_spec (Wait.notified (get_wait c s)) 0); [done|].
  erewrite bind_done; [|by apply modify_run]. done.
Qed.

Lemma sleep_on_blocks st n s c :
  socks st !! n = Some s -> Wait.dead (get_wait c s) = 0 -> Wait.notified (get_wait c s) = 0 ->
  sleep_on (sock_ptr n) c st =
  Asleep (set_socks (<[n := set_wait c (Wait.SynchWait 0 0 1) s]> (socks st)) st) (sock_ptr n) c
    (sleep_on_resume (sock_ptr n) c).
Proof.
  intros Hs Hd Hn. unfold sleep_on. erewrite bind_done; [|by apply sock_run].
  unfold Wait.sleep_on_enter. rewrite Hd. simpl. rewrite Hn. simpl.
  erewrite bind_done; [|by apply modify_run]. done.
Qed.

Lemma resume_run st n s c :
  socks st !! n = Some s -> Wait.dead (get_wait c s) = 0 ->
  sleep_on_resume (sock_ptr n) c st =
  Done 0 (set_socks (<[n := set_wait c Wait.wait_init s]> (socks st)) st).
Proof.
  intros Hs Hd. unfold sleep_on_resume. erewrite bind_done; [|by apply sock_run].
  unfold Wait.sleep_on_leave. rewrite Hd. erewrite bind_done; [|by apply modify_run]. done.
Qed.

Lemma accept_empty_test st p l r :
  queues st p l r -> list_test (fun st => list_empty st (ptr_add (sock_ptr p) off_accept_queue)) st =
  Done (bool_decide (r = [])) st.
Proof.
  intros [_ Da _]. apply list_test_run.
  destruct (list_for_each_entry_ok st (aq p) (nodes off_list r) (S (length (nodes off_list r))) Da) as [_ E]; [lia|].
  change (ptr_add (sock_ptr p) off_accept_queue) with (aq p). rewrite E. f_equal.
  apply bool_decide_ext. destruct r; naive_solver.
Qed.

Lemma accept_run st p ps l r :
  queues st p l r -> socks st !! p = Some ps -> Wait.dead (wait_accept ps) = 0 ->
  match r with
  | n :: r => exists st', tcp_sock_accept (sock_ptr p) st = Done (sock_ptr n) st' /\
                queues st' p l r /\ backlog_moved st st' p ps (-1)
  | [] => Wait.notified (wait_accept ps) = 0 ->
      exists st1 k, tcp_sock_accept (sock_ptr p) st = Asleep st1 (sock_ptr p) WAccept k /\
        queues st1 p l [] /\
        forall st2 ps2 l2 n r2, queues st2 p l2 (n :: r2) -> socks st2 !! p = Some ps2 ->
          Wait.dead (wait_accept ps2) = 0 ->
          exists st', k st2 = Done (sock_ptr n) st' /\ queues st' p l2 r2
  end.
Proof.
  intros Q Hp Hdead. unfold tcp_sock_accept. erewrite bind_done; [|by apply (accept_empty_test st p l r)].
  destruct r as [|n r].
  - intros Hnot. rewrite bool_decide_true by done. cbn [negb]. eexists _, _. split.
    { unfold bind at 1. rewrite (sleep_on_blocks st p ps WAccept); [reflexivity|done..]. }
    split; [by apply wait_keeps|]. intros st2 ps2 l2 n r2 Q2 Hp2 Hd2.
    rewrite (resume_run st2 p ps2 WAccept) by done. simpl outcome_bind.
    destruct (dequeue_run _ p _ l2 n r2 (wait_keeps st2 p ps2 WAccept Wait.wait_init Hp2 p _ _ Q2)
      (lookup_insert_eq _ _ _)) as (st' & R & Q' & _).
    exists st'. split; [exact R|exact Q'].
  - rewrite bool_decide_false by done. cbn [negb].
    destruct (dequeue_run st p ps l n r Q Hp) as (st' & R & Q' & _ & Hb).
    exists st'. split; [exact R|]. split; [exact Q'|exact Hb].
Qed.


(** A notification outlives the child it announced: when one is
    pending and the queue is empty (the child was accepted without sleeping),
    [tcp_sock_accept] does not sleep; it returns a pointer into the listening
    socket that is no socket (using it is a fault) and the count of pending
    children goes one below. *)
Theorem accept_stale_notification st p ps l :
  queues st p l [] -> socks st !! p = Some ps ->
  Wait.dead (wait_accept ps) = 0 -> Wait.notified (wait_accept ps) ≠ 0 ->
  exists st', tcp_sock_accept (sock_ptr p) st = Done (no_child p) st' /\
    sock (no_child p) st' = Fault BadAccess /\
    exists ps', socks st' !! p = Some ps' /\ accept_backlog ps' = accept_backlog ps - 1.
Proof.
  intros Q Hp Hdead Hnot.
  destruct (dequeue_empty _ p _ l (wait_keeps st p ps WAccept Wait.wait_init Hp p _ _ Q)
    (lookup_insert_eq _ _ _)) as (st' & R & _ & Hb).
  exists st'. split.
  { unfold tcp_sock_accept. erewrite bind_done; [|by apply (accept_empty_test st p l [])].
    rewrite bool_decide_true by done. cbn [negb]. erewrite bind_done; [exact R|].
    by apply (sleep_on_notified st p ps WAccept). }
  split; [done|]. destruct (backlog_sock _ _ _ _ _ Hb) as (ps' & Hp' & Ep'). exists ps'.
  split; [done|exact (f_equal accept_backlog Ep')].
Qed.

End Theorems.

(** Queues of a concrete state. *)
Ltac demo_queues :=
  split; [| |set_solver]; (split; [apply (bool_decide_unpack _); vm_compute; exact I|]);
  intros a b Hab; unfold pairs in Hab; simpl in Hab;
  repeat (apply elem_of_cons in Hab as [Hab|Hab]; [injection Hab as -> ->; split; eexists; split; reflexivity|]);
  by apply elem_of_nil in Hab.

Section Witnesses.
Existing Instance demo_env.

(** A listening socket 1 whose queues hold nothing but, in one of them, its
    child 2. *)
Definition listener (l a : list_head ptr) (w : Wait.synch_wait) : tcp_sock :=
  set_wait_accept w (set_listen_queue l (set_accept_queue a (demo_sock TCP_LISTEN))).
Definition child (h : ptr) : tcp_sock :=
  set_list (ListHead h h) (set_parent (sock_ptr 1) (demo_sock TCP_SYN_RECV)).
Definition self (h : ptr) : list_head ptr := ListHead h h.
Definition two (s1 s2 : tcp_sock) : stack := with_socks (<[1%positive := s1]> {[ 2%positive := s2 ]}).

Definition pending_child : stack :=
  two (listener (self (node 2)) (self (aq 1)) Wait.wait_init) (child (lq 1)).
Definition ready_child : stack :=
  two (listener (self (lq 1)) (self (node 2)) Wait.wait_init) (child (aq 1)).
Definition stale : stack :=
  two (listener (self (lq 1)) (self (aq 1)) (Wait.SynchWait 1 0 0)) (child (node 2)).

Lemma pending_child_queues : queues pending_child 1 [2%positive] [].
Proof. demo_queues. Qed.
Lemma ready_child_queues : queues ready_child 1 [] [2%positive].
Proof. demo_queues. Qed.
Lemma stale_queues : queues stale 1 [] [].
Proof. demo_queues. Qed.

Lemma accept_enqueue_spec_witness :
  exists st', tcp_sock_accept_enqueue (sock_ptr 2) pending_child = Done tt st' /\ queues st' 1 [] [2%positive].
Proof.
  destruct (accept_enqueue_spec pending_child 1%positive
    (listener (self (node 2)) (self (aq 1)) Wait.wait_init) 2%positive (child (lq 1)) [] [] []) as (st' & R & Q & _);
    [apply pending_child_queues|reflexivity|reflexivity|reflexivity|].
  exists st'. split; [exact R|exact Q].
Defined.

Lemma accept_dequeue_spec_witness :
  exists st', tcp_sock_accept_dequeue (sock_ptr 1) ready_child = Done (sock_ptr 2) st' /\ queues st' 1 [] [].
Proof.
  destruct (accept_dequeue_spec ready_child 1%positive
    (listener (self (lq 1)) (self (node 2)) Wait.wait_init) [] 2%positive []) as (st' & R & Q & _);
    [apply ready_child_queues|reflexivity|].
  exists st'. split; [exact R|exact Q].
Defined.


Lemma accept_stale_notification_witness :
  exists st', tcp_sock_accept (sock_ptr 1) stale = Done (no_child 1) st' /\
    sock (no_child 1) st' = Fault BadAccess.
Proof.
  destruct (accept_stale_notification stale 1%positive
    (listener (self (lq 1)) (self (aq 1)) (Wait.SynchWait 1 0 0)) []) as (st' & R & F & _);
    [apply stale_queues|reflexivity|reflexivity|discriminate|].
  exists st'. split; [exact R|exact F].
Defined.

End Witnesses.
