(* ===== verification/QueueConc.v ===== *)
(** * The accept queue between two threads (tcp_sock.c, include/list.h)

    [tcp_sock_accept_enqueue] runs in the thread that receives packets,
    [tcp_sock_accept_dequeue] in the thread of the application, and the queue has no
    lock.  With Threads.v: while the queue holds at least two children the two
    calls access different list nodes, so their order does not matter and the lists
    come out right; with one child they do not, and the new child can be lost.  The
    count that both calls change at their ends is in CallConc.v. *)

From S2P Require Import Prelude DList Threads RingBuffer SynchWait Layout Segment Memory Sock SockTables Out SockApi AcceptQueue.

(** ** The cells they access *)

Section Cells.
Context {S P : Type} `{NodeStoreOk S P} `{EqDecision P}.
Implicit Types (s : S) (p q h e : P) (l : list P).

(** The two pointers of an entry and of the head. *)
Lemma dlist_entry s h l1 e l2 :
  dlist s h (l1 ++ e :: l2) -> node_get s e = Some (ListHead (List.hd h l2) (List.last l1 h)).
Proof.
  intros D. destruct (split_first h l2) as (n & tgts & E2).
  assert (En : n = List.hd h l2) by (by destruct l2; injection E2 as <-).
  assert (E1 : exists srcs, h :: l1 = srcs ++ [List.last l1 h]).
  { destruct (list_eq_dec (A := P) l1 []) as [->|Hn]; [by exists []|].
    exists (h :: removelast l1). by rewrite (app_removelast_last h Hn) at 1. }
  destruct E1 as [srcs E1]. rewrite <- En.
  by destruct (list_delete_split s h l1 l2 e srcs _ n tgts D E1 E2) as (_ & _ & _ & G & _).
Qed.

Lemma dlist_ends s h l :
  dlist s h l -> node_get s h = Some (ListHead (List.hd h l) (List.last l h)).
Proof.
  intros [_ HL]. assert (Hf : link s h (List.hd h l)) by (apply HL; unfold pairs; destruct l; simpl; set_solver).
  assert (Hl : link s (List.last l h) h).
  { apply HL. destruct (list_eq_dec (A := P) l []) as [->|Hn]; [unfold pairs; simpl; set_solver|].
    rewrite (app_removelast_last h Hn) at 2. rewrite <- (app_nil_r (_ ++ _)).
    rewrite (pairs_split h _ [] (h :: removelast l) (List.last l h) h []) by done. set_solver. }
  destruct Hf as [(n & G & <-) _], Hl as [_ (n' & G' & <-)]. rewrite G in G'. injection G' as <-. by destruct n.
Qed.

Lemma empty_field s h v : load_field FNext s h = Some v -> list_empty s h = Some (bool_decide (v = h)).
Proof. unfold load_field, list_empty. destruct (node_get s h); simpl; [by intros [= ->]|done]. Qed.

(** Running a program symbolically: memory is known cell by cell. *)
Definition updated s f p v s' : Prop :=
  forall g q, load_field g s' q = if decide ((g, q) = (f, p)) then Some v else load_field g s q.

Lemma within_load {A} (rd wr : list (field * P)) f p v (k : P -> prog P A) s :
  load_field f s p = Some v -> (f, p) ∈ rd -> within rd wr (k v) s -> within rd wr (Load f p k) s.
Proof. intros E Hr Hw. split; [done|eauto]. Qed.

Lemma store_updated f s p v :
  is_Some (load_field f s p) -> exists s', store_field f s p v = Some s' /\ updated s f p v s'.
Proof.
  intros Hs. destruct (store_field_ok f s p v Hs) as (s' & E & L & O). exists s'. split; [done|].
  intros g q. case_decide as Hc; [congruence|by apply O].
Qed.

(** The four stores of [list_insert] on any three nodes, in a list or not. *)
Lemma insert_stores_at s new prv nxt :
  is_Some (node_get s new) -> is_Some (node_get s prv) -> is_Some (node_get s nxt) -> prv ≠ new -> nxt ≠ new ->
  exists s', exec_prog (list_insert_prog new prv nxt) s = Some (tt, s') /\
    load_field FPrev s' nxt = Some new /\ load_field FNext s' prv = Some new /\
    forall f q, (f, q) ≠ (FPrev, nxt) -> (f, q) ≠ (FNext, prv) -> q ≠ new -> load_field f s' q = load_field f s q.
Proof.
  intros Hn Hp Hx N1 N2.
  assert (Hl : forall f q, is_Some (node_get s q) -> is_Some (load_field f s q))
    by (intros f q [n G]; unfold load_field; rewrite G; eauto).
  assert (Hu : forall f t g q v t' x, updated t g q v t' -> is_Some (load_field f t x) -> is_Some (load_field f t' x))
    by (intros f t g q v t' x U ?; rewrite U; case_decide; eauto).
  destruct (store_updated FPrev s nxt new) as (s1 & E1 & U1); [auto|].
  destruct (store_updated FNext s1 prv new) as (s2 & E2 & U2); [eauto|].
  destruct (store_updated FNext s2 new nxt) as (s3 & E3 & U3); [eauto|].
  destruct (store_updated FPrev s3 new prv) as (s4 & E4 & U4); [eauto 6|].
  exists s4. cbn [exec_prog list_insert_prog]. rewrite E1. cbn [mbind option_bind]. rewrite E2.
  cbn [mbind option_bind]. rewrite E3. cbn [mbind option_bind]. rewrite E4. split; [done|].
  split; [rewrite U4, U3, U2, U1; repeat case_decide; congruence|].
  split; [rewrite U4, U3, U2; repeat case_decide; congruence|].
  intros f q H1 H2 H3. rewrite U4, U3, U2, U1. repeat case_decide; congruence.
Qed.

Lemma within_store {A} (rd wr : list (field * P)) f p v (m : prog P A) s :
  is_Some (load_field f s p) -> (f, p) ∈ wr -> (forall s', updated s f p v s' -> within rd wr m s') ->
  within rd wr (Store f p v m) s.
Proof.
  intros Hs Hr Hw. split; [done|]. destruct (store_updated f s p v Hs) as (s' & E & U). eauto.
Qed.

End Cells.

(** Look a cell up behind the stores made so far. *)
Ltac load_cell :=
  repeat match goal with U : updated _ _ _ _ ?s |- context [load_field _ ?s _] => rewrite U end;
  repeat first [rewrite decide_True by reflexivity | rewrite decide_False by congruence].

(** Membership in a list written out. *)
Ltac in_cells := repeat first [apply list_elem_of_here | apply list_elem_of_further].

Section Within.
Context {S P : Type} `{NodeStoreOk S P} `{EqDecision P}.
Implicit Types (s : S) (p q h e : P) (l : list P).

(** With a second entry [b] behind the first. *)
Lemma dequeue_within s h a b l :
  dlist s h (a :: b :: l) ->
  within [(FNext, h); (FNext, a); (FPrev, a)] [(FPrev, b); (FNext, h); (FPrev, a); (FNext, a)] (dequeue_prog h) s.
Proof.
  intros D. pose proof (dlist_ends _ _ _ D) as Gh. pose proof (dlist_entry s h [] a (b :: l) D) as Ga.
  pose proof (dlist_entry s h [a] b l D) as Gb. simpl in Gh, Ga, Gb.
  assert (Hne : h ≠ a /\ h ≠ b /\ a ≠ b) by (destruct D as [ND _]; inversion_clear ND as [|? ? Hh ND']; inversion_clear ND'; set_solver).
  destruct Hne as (N1 & N2 & N3).
  assert (Lh : forall f, load_field f s h = get_field f <$> Some (ListHead a (List.last (a :: b :: l) h))) by (intros; unfold load_field; by rewrite Gh).
  assert (La : forall f, load_field f s a = get_field f <$> Some (ListHead b h)) by (intros; unfold load_field; by rewrite Ga).
  assert (Lb : forall f, is_Some (load_field f s b)) by (intros; unfold load_field; rewrite Gb; eauto).
  unfold dequeue_prog, list_delete_entry_prog, init_list_head_prog. cbn [prog_bind].
  apply (within_load _ _ _ _ a); [by rewrite Lh|in_cells|].
  apply (within_load _ _ _ _ b); [by rewrite La|in_cells|].
  apply (within_load _ _ _ _ h); [by rewrite La|in_cells|].
  apply within_store; [apply Lb|in_cells|intros s1 U1].
  apply (within_load _ _ _ _ h); [load_cell; by rewrite La|in_cells|].
  apply (within_load _ _ _ _ b); [load_cell; by rewrite La|in_cells|].
  apply within_store; [load_cell; rewrite Lh; simpl; eauto|in_cells|intros s2 U2].
  apply within_store; [load_cell; rewrite La; simpl; eauto|in_cells|intros s3 U3].
  apply within_store; [load_cell; rewrite La; simpl; eauto|in_cells|intros s4 U4].
  exact I.
Qed.

(** [e] is in another list, between [pe] and [ne]; [z] is the last entry of the
    queue or its head. *)
Lemma enqueue_within s h l lh l1 e l2 :
  dlist s h l -> dlist s lh (l1 ++ e :: l2) -> (forall x, x ∈ h :: l -> x ∉ lh :: l1 ++ e :: l2) ->
  let ne := List.hd lh l2 in let pe := List.last l1 lh in let z := List.last l h in
  within [(FNext, e); (FPrev, e); (FPrev, h)]
    [(FPrev, ne); (FNext, pe); (FPrev, h); (FNext, z); (FNext, e); (FPrev, e)] (enqueue_prog e h) s.
Proof.
  intros D De Hd ne pe z. pose proof (dlist_ends _ _ _ D) as Gh. pose proof (dlist_entry _ _ _ _ _ De) as Ge.
  fold z in Gh. fold ne pe in Ge.
  assert (Hz : z ∈ h :: l).
  { unfold z. destruct (list_eq_dec (A := P) l []) as [->|Hn]; [set_solver|].
    rewrite (app_removelast_last h Hn) at 2. set_solver. }
  assert (Hpe : pe ∈ lh :: l1).
  { unfold pe. destruct (list_eq_dec (A := P) l1 []) as [->|Hn]; [set_solver|].
    rewrite (app_removelast_last lh Hn) at 2. set_solver. }
  assert (Hne : ne ∈ lh :: l2) by (unfold ne; destruct l2; simpl; set_solver).
  destruct (dlist_node _ _ _ _ D Hz) as [nz Gz].
  destruct (dlist_node s lh _ ne De ltac:(set_solver)) as [nn Gn].
  destruct (dlist_node s lh _ pe De ltac:(set_solver)) as [np Gp].
  assert (He : e ∉ lh :: l1 ++ l2).
  { destruct De as [ND _]. rewrite <- Permutation_middle, Permutation_swap in ND. by apply NoDup_cons in ND as [? _]. }
  assert (Hh : h ∉ lh :: l1 ++ e :: l2) by (apply Hd; set_solver).
  assert (Hzz : z ∉ lh :: l1 ++ e :: l2) by (by apply Hd).
  assert (N1 : h ≠ e) by set_solver. assert (N2 : h ≠ ne) by set_solver. assert (N3 : h ≠ pe) by set_solver.
  assert (N4 : e ≠ ne) by set_solver. assert (N5 : e ≠ pe) by set_solver. assert (N6 : z ≠ e) by set_solver.
  assert (Le : forall f, load_field f s e = get_field f <$> Some (ListHead ne pe)) by (intros; unfold load_field; by rewrite Ge).
  assert (Lh : forall f, load_field f s h = get_field f <$> Some (ListHead (List.hd h l) z)) by (intros; unfold load_field; by rewrite Gh).
  assert (Lz : forall f, is_Some (load_field f s z)) by (intros; unfold load_field; rewrite Gz; eauto).
  assert (Ln : forall f, is_Some (load_field f s ne)) by (intros; unfold load_field; rewrite Gn; eauto).
  assert (Lp : forall f, is_Some (load_field f s pe)) by (intros; unfold load_field; rewrite Gp; eauto).
  unfold enqueue_prog, list_empty_prog. cbn [prog_bind].
  apply (within_load _ _ _ _ ne); [by rewrite Le|in_cells|]. rewrite bool_decide_false by congruence.
  unfold list_delete_entry_prog, list_add_tail_prog, list_insert_prog. cbn [negb prog_bind].
  apply (within_load _ _ _ _ ne); [by rewrite Le|in_cells|].
  apply (within_load _ _ _ _ pe); [by rewrite Le|in_cells|].
  apply within_store; [apply Ln|in_cells|intros s1 U1].
  apply (within_load _ _ _ _ pe); [load_cell; by rewrite Le|in_cells|].
  apply (within_load _ _ _ _ ne); [load_cell; by rewrite Le|in_cells|].
  apply within_store; [load_cell; repeat case_decide; eauto|in_cells|intros s2 U2].
  apply (within_load _ _ _ _ z); [load_cell; by rewrite Lh|in_cells|].
  apply within_store; [load_cell; rewrite Lh; simpl; eauto|in_cells|intros s3 U3].
  apply within_store; [load_cell; repeat case_decide; eauto|in_cells|intros s4 U4].
  apply within_store; [load_cell; rewrite Le; repeat case_decide; simpl; eauto|in_cells|intros s5 U5].
  apply within_store; [load_cell; rewrite Le; repeat case_decide; simpl; eauto|in_cells|intros s6 U6].
  exact I.
Qed.

Lemma last_in (l : list P) x : l ≠ [] -> List.last l x ∈ l.
Proof. intros Hn. rewrite (app_removelast_last x Hn) at 2. set_solver. Qed.

Lemma neighbours_in h e l1 l2 :
  List.hd h l2 ∈ h :: l1 ++ e :: l2 /\ List.last l1 h ∈ h :: l1 ++ e :: l2.
Proof.
  split; [destruct l2; simpl; set_solver|].
  destruct l1 as [|x l1]; [simpl; set_solver|]. pose proof (last_in (x :: l1) h ltac:(done)). set_solver.
Qed.

Lemma cells_disjoint (l l' : list (field * P)) :
  Forall (fun c => Forall (fun c' => c ≠ c') l') l -> l ## l'.
Proof. intros Hd c Hc Hc'. rewrite Forall_forall in Hd. specialize (Hd c Hc). rewrite Forall_forall in Hd. by apply (Hd c Hc'). Qed.

(** With two entries in the queue the two programs access different cells. *)
Lemma programs_apart h a b l lh l1 e l2 :
  NoDup (h :: a :: b :: l) -> (forall x, x ∈ h :: a :: b :: l -> x ∉ lh :: l1 ++ e :: l2) ->
  let ne := List.hd lh l2 in let pe := List.last l1 lh in let z := List.last (a :: b :: l) h in
  let rd1 := [(FNext, h); (FNext, a); (FPrev, a)] in
  let wr1 := [(FPrev, b); (FNext, h); (FPrev, a); (FNext, a)] in
  let rd2 := [(FNext, e); (FPrev, e); (FPrev, h)] in
  let wr2 := [(FPrev, ne); (FNext, pe); (FPrev, h); (FNext, z); (FNext, e); (FPrev, e)] in
  wr1 ## rd2 ++ wr2 /\ wr2 ## rd1 ++ wr1.
Proof.
  intros ND Hap ne pe z rd1 wr1 rd2 wr2. destruct (neighbours_in lh e l1 l2) as [Hne Hpe]. fold ne pe in Hne, Hpe.
  assert (Hz : z ∈ b :: l) by exact (last_in (b :: l) h ltac:(done)).
  apply NoDup_cons in ND as [Hh ND]. apply NoDup_cons in ND as [Ha ND].
  assert (z ≠ a) by (intros E; rewrite E in Hz; done).
  assert (z ≠ h) by (intros E; rewrite E in Hz; apply Hh; by right).
  assert (h ≠ a) by (intros E; apply Hh; rewrite E; by left).
  assert (h ≠ b) by (intros E; apply Hh; rewrite E; right; by left).
  assert (He : e ∈ lh :: l1 ++ e :: l2) by (clear; set_solver).
  assert (Hq : forall x y, x ∈ [h; a; b] -> y ∈ lh :: l1 ++ e :: l2 -> x ≠ y).
  { intros x y Hx Hy ->. apply (Hap y); [|done]. clear -Hx. set_solver. }
  assert (Nh : h ≠ e /\ h ≠ ne /\ h ≠ pe) by (repeat split; apply Hq; (done || in_cells)).
  assert (Na : a ≠ e /\ a ≠ ne /\ a ≠ pe) by (repeat split; apply Hq; (done || in_cells)).
  assert (Nb : b ≠ e /\ b ≠ ne /\ b ≠ pe) by (repeat split; apply Hq; (done || in_cells)).
  destruct Nh as (? & ? & ?), Na as (? & ? & ?), Nb as (? & ? & ?).
  split; apply cells_disjoint; repeat constructor; intros [=]; congruence.
Qed.

(** The receiving thread loads the last entry [z] of the queue [h], the whole of a
    dequeue comes in between, and then the four stores of the insertion. *)
Lemma take_out_meanwhile s h e z r s1 s2 s3 :
  list_empty s e = Some false -> list_delete_entry s e = Some s1 -> load_field FPrev s1 h = Some z ->
  exec_prog (dequeue_prog h) s1 = Some (r, s2) -> exec_prog (list_insert_prog e z h) s2 = Some (tt, s3) ->
  par_run (replicate (prog_cost (list_empty_prog e) s) TRight ++
           replicate (prog_cost (list_delete_entry_prog e) s) TRight ++ [TRight] ++
           replicate (prog_cost (dequeue_prog h) s1) TLeft ++
           replicate (prog_cost (list_insert_prog e z h) s2) TRight)
    (Par s (dequeue_prog h) (enqueue_prog e h)) = Some (Par s3 (Ret r) (Ret tt)).
Proof.
  intros Ee E1 Hl E2 E3.
  unfold enqueue_prog. rewrite par_run_app, (right_alone _ _ _ s s false) by (by rewrite exec_empty, Ee).
  cbn [mbind option_bind negb]. rewrite par_run_app, (right_alone _ _ _ s s1 tt) by (by rewrite exec_delete, E1).
  cbn [mbind option_bind]. rewrite par_run_app. cbn [par_run par_step left right shared step_prog].
  unfold list_add_tail_prog at 1. cbn [step_prog].
  rewrite Hl. cbn [mbind option_bind]. rewrite par_run_app, (left_alone _ _ _ s2 r) by done.
  cbn [mbind option_bind]. by apply (right_end _ _ _ s3 tt).
Qed.

End Within.

(** ** The calls and the programs *)

Section Calls.
Context `{Env}.

Lemma ptr_add_back (x : ptr) d : ptr_add (ptr_add x (- d)) d = x.
Proof. destruct x as [|b o]; [done|]. simpl. f_equal. lia. Qed.

(** The programs of Threads.v are the calls: [tcp_sock_accept_enqueue] is
    [enqueue_prog] run without interruption and then the count of the parent, and
    [tcp_sock_accept_dequeue] is [dequeue_prog] and then the count and the result,
    faults included, in every state. *)
Theorem calls_are_programs st :
  (forall n s, socks st !! n = Some s ->
     tcp_sock_accept_enqueue (sock_ptr n) st =
     match exec_prog (enqueue_prog (node n) (ptr_add (parent s) off_accept_queue)) st with
     | Some (_, st') => modify (parent s) (fun p => set_accept_backlog (accept_backlog p + 1) p) st'
     | None => Fault BadAccess
     end) /\
  (forall p ps, socks st !! p = Some ps ->
     tcp_sock_accept_dequeue (sock_ptr p) st =
     match exec_prog (dequeue_prog (aq p)) st with
     | Some (nd, st') =>
         (modify (sock_ptr p) (fun s => set_accept_backlog (accept_backlog s - 1) s);;
          ret (ptr_add nd (- off_list))) st'
     | None => Fault BadAccess
     end).
Proof.
  split.
  - intros n s Hs. unfold tcp_sock_accept_enqueue, enqueue_prog. rewrite exec_bind, exec_empty.
    change (ptr_add (sock_ptr n) off_list) with (node n).
    destruct (list_empty st (node n)) as [e|] eqn:Ee.
    2: { apply bind_fault. unfold list_test. by rewrite Ee. }
    erewrite bind_done; [|apply list_test_run; exact Ee]. cbn [fmap option_fmap option_map mbind option_bind].
    rewrite exec_bind. destruct e; cbn [negb exec_prog mbind option_bind].
    + rewrite exec_add_tail. erewrite bind_done; [|done]. erewrite bind_done; [|by apply sock_run].
      destruct (list_add_tail st _ _) as [st'|] eqn:E; cbn [fmap option_fmap option_map];
        [by erewrite bind_done; [|apply list_op_run; exact E]|]. apply bind_fault. unfold list_op. by rewrite E.
    + rewrite exec_delete. destruct (list_delete_entry st (node n)) as [st1|] eqn:E1; cbn [fmap option_fmap option_map mbind option_bind].
      2: { apply bind_fault. unfold list_op. by rewrite E1. }
      erewrite bind_done; [|apply list_op_run; exact E1].
      destruct (data_sock _ _ _ _ (list_delete_entry_data _ _ _ E1) Hs) as (s1 & Hs1 & Es1).
      erewrite bind_done; [|by apply sock_run]. rewrite (f_equal parent Es1 : parent s1 = parent s), exec_add_tail.
      destruct (list_add_tail st1 _ _) as [st'|] eqn:E; cbn [fmap option_fmap option_map];
        [by erewrite bind_done; [|apply list_op_run; exact E]|]. apply bind_fault. unfold list_op. by rewrite E.
  - intros p ps Hp. unfold tcp_sock_accept_dequeue, dequeue_prog. erewrite bind_done; [|by apply sock_run].
    cbn [exec_prog]. assert (Hl : load_field FNext st (aq p) = Some (next (accept_queue ps))).
    { unfold load_field. simpl. by rewrite Hp. }
    rewrite Hl. cbn [mbind option_bind]. rewrite ptr_add_back. set (nd := next (accept_queue ps)).
    rewrite exec_bind, exec_delete.
    destruct (list_delete_entry st nd) as [st1|] eqn:E1; cbn [fmap option_fmap option_map mbind option_bind].
    2: { apply bind_fault. unfold list_op. by rewrite E1. }
    erewrite bind_done; [|apply list_op_run; exact E1]. rewrite exec_bind, exec_init.
    destruct (init_list_head st1 nd) as [st2|] eqn:E2; cbn [fmap option_fmap option_map mbind option_bind exec_prog].
    2: { apply bind_fault. unfold list_op. by rewrite E2. }
    by erewrite bind_done; [|apply list_op_run; exact E2].
Qed.

(** What the programs do alone, on the queues of [p]. *)
Lemma dequeue_exec st p ps l a r :
  queues st p l (a :: r) -> socks st !! p = Some ps ->
  exists st', exec_prog (dequeue_prog (aq p)) st = Some (node a, st') /\ data st' = data st /\
    queues st' p l r /\ dlist st' (node a) [].
Proof.
  intros Q Hp. destruct (dequeue_lists st p ps l a r Q Hp) as (st1 & st2 & En & E1 & E2 & Ed & Q2 & Da).
  exists st2. split; [|done]. unfold dequeue_prog. cbn [exec_prog].
  assert (Hl : load_field FNext st (aq p) = Some (node a)) by (unfold load_field; simpl; rewrite Hp; simpl; by rewrite <- En).
  rewrite Hl. cbn [mbind option_bind]. rewrite exec_bind, exec_delete, E1.
  cbn [fmap option_fmap option_map mbind option_bind]. rewrite exec_bind, exec_init, E2. done.
Qed.

Lemma enqueue_exec st p l1 n l2 r :
  queues st p (l1 ++ n :: l2) r ->
  exists st', exec_prog (enqueue_prog (node n) (aq p)) st = Some (tt, st') /\ queues st' p (l1 ++ l2) (r ++ [n]).
Proof.
  intros Q. destruct (enqueue_lists st p l1 l2 n r Q) as (st1 & st2 & Ee & E1 & E2 & _ & _ & Q2).
  exists st2. split; [|done]. unfold enqueue_prog. rewrite exec_bind, exec_empty, Ee.
  cbn [fmap option_fmap option_map mbind option_bind negb]. rewrite exec_bind, exec_delete, E1.
  cbn [fmap option_fmap option_map mbind option_bind]. by rewrite exec_add_tail, E2.
Qed.

Lemma queues_same_mem st st' p l r : same_mem st st' -> queues st p l r -> queues st' p l r.
Proof. intros E [Dl Da Hd]. split; [by rewrite <- E|by rewrite <- E|done]. Qed.

Lemma accept_queue_two_run st p ps l1 n l2 a b r :
  queues st p (l1 ++ n :: l2) (a :: b :: r) -> socks st !! p = Some ps ->
  exists k1 k2, forall xs, exists c,
    par_run xs (Par st (dequeue_prog (aq p)) (enqueue_prog (node n) (aq p))) = Some c /\
    ((k1 <= count_left xs)%nat -> left c = Ret (node a)) /\
    ((k2 <= count_right xs)%nat -> right c = Ret tt) /\
    ((k1 <= count_left xs)%nat -> (k2 <= count_right xs)%nat -> queues (shared c) p (l1 ++ l2) (b :: r ++ [n])).
Proof.
  intros Q Hp. pose proof Q as [Dl Da Hd].
  destruct (dequeue_exec st p ps _ a (b :: r) Q Hp) as (st1 & E1 & _ & Q1 & _).
  destruct (enqueue_exec st1 p l1 n l2 (b :: r) Q1) as (st2 & E2 & Q2).
  unfold nodes in Dl, Da. rewrite fmap_app, fmap_cons in Dl. rewrite !fmap_cons in Da.
  fold (node n) in Dl. fold (node a) (node b) in Da.
  set (pend1 := (fun m => Ptr (BSock m) off_list) <$> l1) in *. set (pend2 := (fun m => Ptr (BSock m) off_list) <$> l2) in *.
  set (rest := (fun m => Ptr (BSock m) off_list) <$> r) in *.
  assert (Hap : forall x, x ∈ aq p :: node a :: node b :: rest -> x ∉ lq p :: pend1 ++ node n :: pend2).
  { intros x Hx Hy. apply (apart_lq_aq p (l1 ++ n :: l2) (a :: b :: r) Hd x); unfold nodes;
      rewrite ?fmap_app, ?fmap_cons; [exact Hy|exact Hx]. }
  pose proof (dequeue_within _ _ _ _ _ Da) as W1.
  pose proof (enqueue_within st (aq p) (node a :: node b :: rest) (lq p) pend1 (node n) pend2 Da Dl Hap) as W2.
  cbv zeta in W2.
  destruct (programs_apart _ _ _ _ _ pend1 (node n) pend2 (proj1 Da) Hap) as [X12 X21].
  destruct (par_independent_run _ _ st _ _ _ _ W1 W2 X12 X21) as (a1 & a2 & s1 & s12 & R1 & R2 & Hall).
  exists (prog_cost (dequeue_prog (aq p)) st), (prog_cost (enqueue_prog (node n) (aq p)) st). intros xs.
  destruct (Hall xs) as (c & E & El & Er & Em). exists c.
  rewrite E1 in R1. injection R1 as <- <-. rewrite E2 in R2. injection R2 as <- <-.
  split; [done|]. split; [done|]. split; [done|]. intros Hl Hr.
  apply (queues_same_mem st2); [symmetry; by apply Em|done].
Qed.

(** C14: while the accept queue holds at least two children, a child that completes
    its handshake can be queued by the receiving thread while the application takes
    another one out, without a lock: whatever the order of their loads and stores,
    neither faults, each call has ended once it has taken its steps, the application
    with the oldest child, and then the new one is last in the queue and the listen
    queue has lost it. *)
Theorem accept_queue_two st p ps l1 n l2 a b r :
  queues st p (l1 ++ n :: l2) (a :: b :: r) -> socks st !! p = Some ps ->
  exists k1 k2, forall xs, exists c,
    par_run xs (Par st (dequeue_prog (aq p)) (enqueue_prog (node n) (aq p))) = Some c /\
    ((k1 <= count_left xs)%nat -> left c = Ret (node a)) /\
    ((k2 <= count_right xs)%nat -> right c = Ret tt) /\
    ((k1 <= count_left xs)%nat -> (k2 <= count_right xs)%nat -> queues (shared c) p (l1 ++ l2) (b :: r ++ [n])).
Proof. apply accept_queue_two_run. Qed.

(** C28: with a single child in the queue they are not independent.  The receiving
    thread loads the last entry of the queue, the application then takes that entry
    out, and the receiving thread goes on and links the new child behind it: both
    calls succeed, and the new child, taken off the listen queue, is in neither
    queue.  The accept queue looks empty. *)
Theorem accept_queue_one st p ps l1 n l2 a :
  queues st p (l1 ++ n :: l2) [a] -> socks st !! p = Some ps ->
  exists xs c, par_run xs (Par st (dequeue_prog (aq p)) (enqueue_prog (node n) (aq p))) = Some c /\
    left c = Ret (node a) /\ right c = Ret tt /\
    list_empty (shared c) (aq p) = Some true /\ dlist (shared c) (lq p) (nodes off_list (l1 ++ l2)) /\
    load_field FPrev (shared c) (aq p) = Some (node n).
Proof.
  intros Q Hp. pose proof Q as [Dl Da Hd]. pose proof (proj1 (dlist_socks _ _ _ _ Dl)) as ND.
  assert (Hn : n ∉ l1 ++ l2) by (rewrite <- Permutation_middle in ND; by apply NoDup_cons in ND as [? _]).
  assert (Hna : n ≠ a) by (intros ->; apply (Hd a); set_solver).
  assert (Hal : a ∉ l1 ++ l2) by (intros ?; apply (Hd a); set_solver).
  destruct (list_delete_entry_ok _ _ _ _ _ ltac:(unfold nodes in Dl; rewrite fmap_app, fmap_cons in Dl; exact Dl))
    as (st1 & E1 & Dl1 & O1 & G1 & Em).
  rewrite <- fmap_app in Dl1, O1. fold (nodes off_list (l1 ++ l2)) in Dl1, O1. fold (node n) in E1, G1, Em.
  unfold list_empty in Em. rewrite G1 in Em. fold (list_empty st (node n)) in Em.
  assert (Q1 : queues st1 p (l1 ++ l2) [a]).
  { split; [exact Dl1| |intros m ? ?; apply (Hd m); set_solver]. apply (dlist_frame _ st _ _ _ Da O1).
    intros x Hx Hx'. apply (apart_lq_aq p (l1 ++ l2) [a]) with (x := x); [intros m ? ?; apply (Hd m); set_solver|done|done]. }
  destruct (data_sock _ _ _ _ (list_delete_entry_data _ _ _ E1) Hp) as (ps1 & Hp1 & _).
  destruct (dequeue_exec st1 p ps1 _ a [] Q1 Hp1) as (st2 & E2 & Ed2 & Q2 & Dna).
  destruct Q2 as [Dl2 Da2 _].
  assert (Gn : is_Some (node_get st2 (node n))).
  { destruct (dlist_socks _ _ _ _ Dl) as [_ Hs]. destruct (Hs n ltac:(set_solver)) as [sn Hsn].
    destruct (data_sock _ _ _ _ (list_delete_entry_data _ _ _ E1) Hsn) as (sn1 & Hsn1 & _).
    destruct (data_sock _ _ _ _ Ed2 Hsn1) as (sn2 & Hsn2 & _). simpl. rewrite Hsn2. simpl. eauto. }
  pose proof (dlist_ends _ _ _ Da2) as Gq. simpl List.hd in Gq. simpl List.last in Gq.
  pose proof (dlist_ends _ _ _ Dna) as Ga.
  destruct (insert_stores_at st2 (node n) (node a) (aq p)) as (st3 & E3 & Lp & _ & O3);
    [done|rewrite Ga; eauto|rewrite Gq; eauto|unfold node; congruence|done|].
  eexists _, _. split.
  { apply (take_out_meanwhile st (aq p) (node n) (node a) (node a) st1 st2 st3); [by rewrite Em|done| |done|done].
    unfold load_field. by rewrite (dlist_ends _ _ _ (q_aq _ _ _ _ Q1)). }
  split; [done|]. split; [done|]. split; [|split; [|exact Lp]].
  - rewrite (empty_field st3 (aq p) (aq p)), bool_decide_true; [done..|].
    rewrite O3 by done. unfold load_field. by rewrite Gq.
  - apply (dlist_ext st2); [exact Dl2|]. intros x Hx. apply get_fields. intros f.
    assert (Hxn : forall m, m ∉ l1 ++ l2 -> x ≠ node m).
    { intros m Hm ->. apply elem_of_cons in Hx as [?|Hx]; [done|]. by apply nodes_elem in Hx. }
    apply O3; [|intros [= _ E]; by apply (Hxn a)|by apply Hxn].
    intros [= _ ->]. apply elem_of_cons in Hx as [?|Hx]; [done|]. by apply aq_not_node in Hx.
Qed.

End Calls.

Section Witnesses.
Existing Instance demo_env.

(** A listening socket 1, a child 2 in its listen queue, children 3 (and 4) in its
    accept queue. *)
Definition linked_child (nxt prv : ptr) : tcp_sock := set_list (ListHead nxt prv) (child NULL).
Definition one_ready : stack :=
  with_socks (<[1%positive := listener (self (node 2)) (self (node 3)) Wait.wait_init]>
    (<[2%positive := child (lq 1)]> {[ 3%positive := child (aq 1) ]})).
Definition two_ready : stack :=
  with_socks (<[1%positive := listener (self (node 2)) (ListHead (node 3) (node 4)) Wait.wait_init]>
    (<[2%positive := child (lq 1)]> (<[3%positive := linked_child (node 4) (aq 1)]>
       {[ 4%positive := linked_child (aq 1) (node 3) ]}))).

Lemma one_ready_queues : queues one_ready 1 [2%positive] [3%positive].
Proof. demo_queues. Qed.
Lemma two_ready_queues : queues two_ready 1 [2%positive] [3%positive; 4%positive].
Proof. demo_queues. Qed.

Lemma calls_are_programs_witness : exists nd st',
  exec_prog (dequeue_prog (aq 1)) one_ready = Some (nd, st') /\
  tcp_sock_accept_dequeue (sock_ptr 1) one_ready =
    (modify (sock_ptr 1) (fun s => set_accept_backlog (accept_backlog s - 1) s);; ret (ptr_add nd (- off_list))) st'.
Proof.
  destruct (dequeue_exec one_ready 1 (listener (self (node 2)) (self (node 3)) Wait.wait_init) [2%positive] 3 []
    one_ready_queues eq_refl) as (st' & E & _).
  exists (node 3), st'. split; [exact E|].
  destruct (calls_are_programs one_ready) as [_ Hd].
  rewrite (Hd 1%positive (listener (self (node 2)) (self (node 3)) Wait.wait_init) eq_refl), E. reflexivity.
Defined.

Lemma accept_queue_two_witness : exists c : par ptr stack ptr unit,
  left c = Ret (node 3) /\ right c = Ret tt /\ queues (shared c) 1 [] [4%positive; 2%positive].
Proof.
  destruct (accept_queue_two two_ready 1 (listener (self (node 2)) (ListHead (node 3) (node 4)) Wait.wait_init)
    [] 2 [] 3 4 [] two_ready_queues eq_refl) as (k1 & k2 & Hxs).
  assert (Hk : (k1 <= count_left (replicate k2 TRight ++ replicate k1 TLeft))%nat /\
               (k2 <= count_right (replicate k2 TRight ++ replicate k1 TLeft))%nat).
  { rewrite (proj1 (count_app _ _)), (proj2 (count_app _ _)), (proj1 (count_replicate k1)), (proj2 (count_replicate k2)). lia. }
  destruct Hk as [Hl Hr]. destruct (Hxs (replicate k2 TRight ++ replicate k1 TLeft)) as (c & _ & El & Er & Q). exists c.
  split; [exact (El Hl)|]. split; [exact (Er Hr)|exact (Q Hl Hr)].
Defined.

Lemma accept_queue_one_witness : exists xs c,
  par_run xs (Par one_ready (dequeue_prog (aq 1)) (enqueue_prog (node 2) (aq 1))) = Some c /\
  right c = Ret tt /\ list_empty (shared c) (aq 1) = Some true.
Proof.
  destruct (accept_queue_one one_ready 1 (listener (self (node 2)) (self (node 3)) Wait.wait_init) [] 2 [] 3
    one_ready_queues eq_refl) as (xs & c & E & _ & Er & Ee & _).
  exists xs, c. split; [exact E|]. split; [exact Er|exact Ee].
Defined.

End Witnesses.
