(* ===== verification/CallConc.v ===== *)
(** * Two whole calls on the accept queue (tcp_sock.c)

    QueueConc.v follows the list operations of [tcp_sock_accept_enqueue] and
    [tcp_sock_accept_dequeue], which the receiving thread and the application run
    without a lock.  Here the calls go on to their last statements, the [+= 1] and
    [-= 1] of [accept_backlog], each a load and a store of an [int].  The count is
    in no list node, so the lists come out as QueueConc.v says; but both calls store
    to it, and one of the two changes can be lost. *)

From S2P Require Import Prelude DList Threads RingBuffer SynchWait Layout Segment Memory Sock SockTables Out SockApi AcceptQueue QueueConc.

(** ** The calls *)

(** [Lists]: in the list operations; [StoreCount]: the count has been loaded and
    [v] is to be stored; [Returned]: at the end. *)
Inductive call (A : Type) := Lists (m : prog ptr A) | StoreCount (a : A) (v : Z) | Returned (a : A).
Arguments Lists {A}.
Arguments StoreCount {A}.
Arguments Returned {A}.

(** [tcp_sock_accept_enqueue] of a child [n] of [p], and [tcp_sock_accept_dequeue]
    of [p], whose result is the node of the child. *)
Definition enqueue_call (n p : positive) : call unit := Lists (enqueue_prog (node n) (aq p)).
Definition dequeue_call (p : positive) : call ptr := Lists (dequeue_prog (aq p)).

(** The member [accept_backlog] of socket [p]. *)
Definition load_count (p : positive) (st : stack) : option Z := accept_backlog <$> socks st !! p.
Definition store_count (p : positive) (v : Z) (st : stack) : option stack :=
  s ← socks st !! p; Some (set_socks (<[p := set_accept_backlog v s]> (socks st)) st).

(** One access of a call that ends with adding [d] to the count of [p]. *)
Definition call_step {A} (p : positive) (d : Z) (m : call A) (st : stack) : option (call A * stack) :=
  match m with
  | Lists (Ret a) => v ← load_count p st; Some (StoreCount a (v + d), st)
  | Lists m => '(m, st) ← step_prog m st; Some (Lists m, st)
  | StoreCount a v => st ← store_count p v st; Some (Returned a, st)
  | Returned a => Some (Returned a, st)
  end.

(** The application runs a dequeue, the receiving thread an enqueue. *)
Record calls := Calls { mem : stack; deq : call ptr; enq : call unit }.
Definition calls_step (p : positive) (x : thread) (c : calls) : option calls :=
  match x with
  | TLeft => '(m, st) ← call_step p (-1) (deq c) (mem c); Some (Calls st m (enq c))
  | TRight => '(m, st) ← call_step p 1 (enq c) (mem c); Some (Calls st (deq c) m)
  end.
Fixpoint calls_run (p : positive) (xs : list thread) (c : calls) : option calls :=
  match xs with [] => Some c | x :: xs => c ← calls_step p x c; calls_run p xs c end.

(** A call alone, to the end. *)
Definition call_exec {A} (p : positive) (d : Z) (m : call A) (st : stack) : option (A * stack) :=
  match m with
  | Lists m => '(a, st) ← exec_prog m st; v ← load_count p st; st ← store_count p (v + d) st; Some (a, st)
  | StoreCount a v => st ← store_count p v st; Some (a, st)
  | Returned a => Some (a, st)
  end.

(** ** The calls alone *)

Section Alone.
Context `{Env}.

Lemma count_add p d (st : stack) :
  is_Some (socks st !! p) ->
  exists st', modify (sock_ptr p) (fun s => set_accept_backlog (accept_backlog s + d) s) st = Done tt st' /\
    (v ← load_count p st; store_count p (v + d) st) = Some st'.
Proof.
  intros [s Hs]. eexists. split; [by apply modify_run|]. unfold load_count, store_count. by rewrite Hs.
Qed.

Lemma step_data {A} (m : prog ptr A) (st : stack) m' st' : step_prog m st = Some (m', st') -> data st' = data st.
Proof.
  destruct m as [a|f q k|f q v m]; cbn [step_prog]; [by intros [= _ <-]|..].
  - destruct (load_field f st q); [|done]. by intros [= _ <-].
  - destruct (store_field f st q v) as [st1|] eqn:E; [|done]. intros [= _ <-].
    destruct f; [exact (set_next_view data node_set_data _ _ _ _ E)|exact (set_prev_view data node_set_data _ _ _ _ E)].
Qed.

Lemma exec_data {A} (m : prog ptr A) (st : stack) a st' : exec_prog m st = Some (a, st') -> data st' = data st.
Proof.
  revert st. induction m as [x|f q k IH|f q v m IH]; intros st; cbn [exec_prog]; [by intros [= _ <-]|..].
  - destruct (load_field f st q); [apply IH|done].
  - destruct (store_field f st q v) as [st1|] eqn:E; [|done]. cbn [mbind option_bind]. intros E'.
    rewrite (IH _ E'). exact (step_data (Store f q v m) st m st1 ltac:(cbn [step_prog]; by rewrite E)).
Qed.

Lemma data_load_count p (st st' : stack) : data st' = data st -> load_count p st' = load_count p st.
Proof.
  intros E. unfold load_count. destruct (socks st !! p) as [s|] eqn:Es.
  - destruct (data_sock _ _ _ _ E Es) as (s' & -> & Es'). simpl. f_equal. exact (f_equal accept_backlog Es').
  - destruct (socks st' !! p) as [s'|] eqn:Es'; [|done].
    destruct (data_sock _ _ _ _ (eq_sym E) Es') as (s & Hs & _). congruence.
Qed.

Lemma load_count_some p (st : stack) : is_Some (load_count p st) <-> is_Some (socks st !! p).
Proof. unfold load_count. by rewrite fmap_is_Some. Qed.

(** Run alone, they are the functions of SockApi.v, faults included. *)
Lemma enqueue_call_alone st n s p :
  socks st !! n = Some s -> parent s = sock_ptr p -> is_Some (socks st !! p) ->
  tcp_sock_accept_enqueue (sock_ptr n) st =
  match call_exec p 1 (enqueue_call n p) st with Some (_, st') => Done tt st' | None => Fault BadAccess end.
Proof.
  intros Hs Hpar Hp. rewrite (proj1 (calls_are_programs st) n s Hs), Hpar. cbn [call_exec enqueue_call].
  change (ptr_add (sock_ptr p) off_accept_queue) with (aq p).
  destruct (exec_prog _ st) as [[a st1]|] eqn:E; [|done]. cbn [mbind option_bind].
  destruct (count_add p 1 st1) as (st2 & -> & E2).
  { apply load_count_some. rewrite (data_load_count _ st) by (by eapply exec_data). by apply load_count_some. }
  destruct (load_count p st1); [|done]. cbn [mbind option_bind] in *. by rewrite E2.
Qed.

Lemma dequeue_call_alone st p :
  is_Some (socks st !! p) ->
  tcp_sock_accept_dequeue (sock_ptr p) st =
  match call_exec p (-1) (dequeue_call p) st with
  | Some (nd, st') => Done (ptr_add nd (- off_list)) st' | None => Fault BadAccess end.
Proof.
  intros [ps Hp]. rewrite (proj2 (calls_are_programs st) p ps Hp). cbn [call_exec dequeue_call].
  destruct (exec_prog _ st) as [[a st1]|] eqn:E; [|done]. cbn [mbind option_bind].
  destruct (count_add p (-1) st1) as (st2 & E1 & E2).
  { apply load_count_some. rewrite (data_load_count _ st) by (by eapply exec_data). apply load_count_some. eauto. }
  erewrite bind_done; [|exact E1]. destruct (load_count p st1); [|done]. cbn [mbind option_bind] in *. by rewrite E2.
Qed.

End Alone.

(** ** The count beside the lists *)

(** The list operations of a call; a finished program stays. *)
Definition list_part {A} (m : call A) : prog ptr A :=
  match m with Lists m => m | StoreCount a _ | Returned a => Ret a end.

(** The count, when it was [c0] at the start, and what the calls have loaded. *)
Definition count_ok (c0 : Z) (l : call ptr) (r : call unit) (v : Z) : Prop :=
  match l, r with
  | Lists _, Lists _ => v = c0
  | StoreCount _ x, Lists _ => x = c0 - 1 /\ v = c0
  | Returned _, Lists _ => v = c0 - 1
  | Lists _, StoreCount _ y => y = c0 + 1 /\ v = c0
  | StoreCount _ x, StoreCount _ y => x = c0 - 1 /\ y = c0 + 1 /\ v = c0
  | Returned _, StoreCount _ y => v = c0 - 1 /\ (y = c0 \/ y = c0 + 1)
  | Lists _, Returned _ => v = c0 + 1
  | StoreCount _ x, Returned _ => v = c0 + 1 /\ (x = c0 \/ x = c0 - 1)
  | Returned _, Returned _ => c0 - 1 <= v <= c0 + 1
  end.

(** [n] accesses have been made, and the list operations take [k]. *)
Definition progress {A} (k n : nat) (m : call A) : Prop :=
  match m with Lists _ => (n <= k)%nat | StoreCount _ _ => (n <= S k)%nat | Returned _ => True end.

Lemma step_same_mem {A} (m : prog ptr A) (s t : stack) m' s' :
  same_mem s t -> step_prog m s = Some (m', s') -> exists t', step_prog m t = Some (m', t') /\ same_mem s' t'.
Proof.
  intros Em. destruct m as [a|f q k|f q v m]; cbn [step_prog]; [intros [= <- <-]; eauto|..].
  - rewrite <- (Em f q). destruct (load_field f s q) as [w|]; [|done]. intros [= <- <-]. eauto.
  - destruct (store_field f s q v) as [s1|] eqn:E; [|done]. intros [= <- <-].
    pose proof (store_field_some _ _ _ _ _ E) as Hs.
    destruct (store_field_ok f t q v) as (t1 & Et & _); [by rewrite <- (Em f q)|]. rewrite Et. exists t1. split; [done|].
    intros g x. apply (agree_store (fun _ => True) f q v s s1 t t1); [intros h y _; apply Em|exact E|exact Et|exact I].
Qed.

Lemma store_count_run p v (st : stack) :
  is_Some (load_count p st) ->
  exists st', store_count p v st = Some st' /\ load_count p st' = Some v /\ same_mem st st'.
Proof.
  intros [s Hs]%load_count_some. unfold store_count, load_count. rewrite Hs. cbn [mbind option_bind].
  eexists. split; [reflexivity|]. simpl. rewrite lookup_insert_eq. split; [done|].
  intros f q. unfold load_field. f_equal. symmetry. apply (modify_node_get st p s); [done|keeps].
Qed.

(** A step of a call is a step of its list operations, or leaves them alone. *)
Lemma call_step_sim {A} p d (m : call A) (s t : stack) m' s' :
  same_mem s t -> is_Some (load_count p t) -> step_prog (list_part m) s = Some (m', s') ->
  exists M t', call_step p d m t = Some (M, t') /\ same_mem s' t' /\ list_part M = m' /\
    match m with
    | Lists (Ret a) => exists v, load_count p t = Some v /\ M = StoreCount a (v + d) /\ load_count p t' = Some v
    | Lists _ => exists M', M = Lists M' /\ load_count p t' = load_count p t
    | StoreCount a v => M = Returned a /\ load_count p t' = Some v
    | Returned a => M = Returned a /\ load_count p t' = load_count p t
    end.
Proof.
  intros Em Hc E. destruct m as [m|a v|a]; cbn [list_part call_step] in *.
  - destruct (step_same_mem m s t m' s' Em E) as (t' & Et & Em'). pose proof (data_load_count p _ _ (step_data _ _ _ _ Et)) as Hl.
    destruct m as [a|f q k|f q v m].
    { destruct Hc as [v Hv]. rewrite Hv. injection E as <- <-. exists (StoreCount a (v + d)), t. eauto 8. }
    all: rewrite Et; cbn [mbind option_bind]; eauto 10.
  - injection E as <- <-. destruct (store_count_run p v t Hc) as (t' & -> & Hl & Es). exists (Returned a), t'.
    split; [done|]. split; [by transitivity t|]. by repeat split.
  - injection E as <- <-. exists (Returned a), t. by repeat split.
Qed.

Definition sim (c : par ptr stack ptr unit) (C : calls) : Prop :=
  same_mem (shared c) (mem C) /\ list_part (deq C) = left c /\ list_part (enq C) = right c.
Definition counted_ok (p : positive) (c0 : Z) (C : calls) : Prop :=
  exists v, load_count p (mem C) = Some v /\ count_ok c0 (deq C) (enq C) v.

(** The cases of a call's step: the count is loaded, the list operations go on, the
    count is stored, nothing is left to do. *)
Ltac call_cases i v Hend HM :=
  let M' := fresh "M'" in let Hl := fresh "Hl" in
  match type of HM with
  | match ?m with Lists _ => _ | StoreCount _ _ => _ | Returned _ => _ end =>
      destruct m as [[?|? ? ?|? ? ? ?]|? w|?]
  end;
  [ destruct HM as (? & [= <-] & -> & Hl); split; [exists v; split; [done|]|split; [simpl in *; lia|done]]
  | destruct HM as (M' & -> & Hl); split; [by exists v|]; split; [simpl in *|done]
  | destruct HM as (M' & -> & Hl); split; [by exists v|]; split; [simpl in *|done]
  | destruct HM as (-> & Hl); split; [eexists; split; [exact Hl|]|done]
  | destruct HM as (-> & Hl); split; [by exists v|done] ];
  try match goal with |- (S i <= ?k)%nat => destruct (decide (k <= i)%nat) as [Hk|]; [by discriminate (Hend Hk)|lia] end.

(** A step of the application, [i] being the accesses it has made. *)
Lemma sim_left p c0 k i c C c' a :
  sim c C -> counted_ok p c0 C -> par_step TLeft c = Some c' ->
  progress k i (deq C) -> ((k <= i)%nat -> left c = Ret a) ->
  exists C', calls_step p TLeft C = Some C' /\ sim c' C' /\ counted_ok p c0 C' /\
    progress k (S i) (deq C') /\ enq C' = enq C.
Proof.
  intros (Em & El & Er) (v & Hv & Hok) E Hp Hend. cbn [par_step] in E.
  destruct (step_prog (left c) (shared c)) as [[m' s']|] eqn:Es; [|done]. injection E as <-.
  rewrite <- El in Es. destruct (call_step_sim p (-1) (deq C) _ _ _ _ Em ltac:(eauto) Es) as (M & t' & Ec & Em' & El' & HM).
  exists (Calls t' M (enq C)). cbn [calls_step]. rewrite Ec. split; [done|]. split; [by split|]. rewrite <- El in Hend.
  unfold counted_ok. cbn [mem deq enq]. rewrite Hv in HM. call_cases i v Hend HM; destruct (enq C); simpl in *; lia.
Qed.

(** A step of the receiving thread. *)
Lemma sim_right p c0 k i c C c' a :
  sim c C -> counted_ok p c0 C -> par_step TRight c = Some c' ->
  progress k i (enq C) -> ((k <= i)%nat -> right c = Ret a) ->
  exists C', calls_step p TRight C = Some C' /\ sim c' C' /\ counted_ok p c0 C' /\
    progress k (S i) (enq C') /\ deq C' = deq C.
Proof.
  intros (Em & El & Er) (v & Hv & Hok) E Hp Hend. cbn [par_step] in E.
  destruct (step_prog (right c) (shared c)) as [[m' s']|] eqn:Es; [|done]. injection E as <-.
  rewrite <- Er in Es. destruct (call_step_sim p 1 (enq C) _ _ _ _ Em ltac:(eauto) Es) as (M & t' & Ec & Em' & Er' & HM).
  exists (Calls t' (deq C) M). cbn [calls_step]. rewrite Ec. split; [done|]. split; [by split|]. rewrite <- Er in Hend.
  unfold counted_ok. cbn [mem deq enq]. rewrite Hv in HM. call_cases i v Hend HM; destruct (deq C); simpl in *; lia.
Qed.

(** Any interleaving of the calls, followed beside that of their list operations,
    which take [k1] and [k2] accesses. *)
Section Sim.
Context (st : stack) (p n : positive) (c0 : Z) (k1 k2 : nat) (a : ptr) (lists_ok : stack -> Prop).
Let start : par ptr stack ptr unit := Par st (dequeue_prog (aq p)) (enqueue_prog (node n) (aq p)).
Hypothesis Hlists : forall xs, exists c, par_run xs start = Some c /\
  ((k1 <= count_left xs)%nat -> left c = Ret a) /\ ((k2 <= count_right xs)%nat -> right c = Ret tt) /\
  ((k1 <= count_left xs)%nat -> (k2 <= count_right xs)%nat -> lists_ok (shared c)).
Hypothesis Hcount : load_count p st = Some c0.
Hypothesis Hmem : forall s t, same_mem s t -> lists_ok s -> lists_ok t.

Lemma calls_run_app xs ys c : calls_run p (xs ++ ys) c = c ← calls_run p xs c; calls_run p ys c.
Proof.
  revert c. induction xs as [|x xs IH]; intros c; [done|]. cbn [calls_run app].
  destruct (calls_step p x c); [apply IH|done].
Qed.

Lemma calls_sim xs :
  exists c C, par_run xs start = Some c /\ calls_run p xs (Calls st (dequeue_call p) (enqueue_call n p)) = Some C /\
    sim c C /\ counted_ok p c0 C /\ progress k1 (count_left xs) (deq C) /\ progress k2 (count_right xs) (enq C).
Proof.
  induction xs as [|x xs (c & C & E & EC & Hs & Hc & P1 & P2)] using rev_ind.
  - exists start, (Calls st (dequeue_call p) (enqueue_call n p)). split; [done|]. split; [done|].
    split; [by repeat split|]. split; [by exists c0|]. split; apply Nat.le_0_l.
  - destruct (Hlists xs) as (c1 & E1 & D1 & D2 & _). rewrite E in E1. injection E1 as <-.
    destruct (Hlists (xs ++ [x])) as (c' & E' & _). pose proof E' as Es. rewrite par_run_app, E in Es.
    cbn [mbind option_bind par_run] in Es. destruct (par_step x c) as [c2|] eqn:Ep; [|done].
    cbn [mbind option_bind] in Es. injection Es as ->. destruct (count_snoc xs x) as [-> ->].
    assert (HC : forall C', calls_step p x C = Some C' ->
      calls_run p (xs ++ [x]) (Calls st (dequeue_call p) (enqueue_call n p)) = Some C')
      by (intros C' Ex; rewrite calls_run_app, EC; cbn [mbind option_bind calls_run]; by rewrite Ex).
    destruct x.
    + destruct (sim_left p c0 k1 _ c C c' a Hs Hc Ep P1 D1) as (C' & Ex & Hs' & Hc' & P1' & Eq).
      exists c', C'. rewrite Nat.add_1_r, Nat.add_0_r, Eq. eauto 8.
    + destruct (sim_right p c0 k2 _ c C c' tt Hs Hc Ep P2 D2) as (C' & Ex & Hs' & Hc' & P2' & Eq).
      exists c', C'. rewrite Nat.add_1_r, Nat.add_0_r, Eq. eauto 8.
Qed.

(** Two accesses more than the list operations take, and the call has returned. *)
Lemma call_end {A} (m : call A) k i b :
  progress k i m -> (2 + k <= i)%nat -> list_part m = Ret b -> m = Returned b.
Proof. destruct m; simpl; [lia|lia|by intros _ _ [= ->]]. Qed.

Lemma calls_return xs :
  exists C, calls_run p xs (Calls st (dequeue_call p) (enqueue_call n p)) = Some C /\
    ((2 + k1 <= count_left xs)%nat -> deq C = Returned a) /\ ((2 + k2 <= count_right xs)%nat -> enq C = Returned tt) /\
    ((2 + k1 <= count_left xs)%nat -> (2 + k2 <= count_right xs)%nat ->
     lists_ok (mem C) /\ exists v, load_count p (mem C) = Some v /\ c0 - 1 <= v <= c0 + 1).
Proof.
  destruct (calls_sim xs) as (c & C & E & EC & (Em & El & Er) & (v & Hv & Hok) & P1 & P2).
  destruct (Hlists xs) as (c1 & E1 & D1 & D2 & D). rewrite E in E1. injection E1 as <-. exists C. split; [done|].
  assert (R1 : (2 + k1 <= count_left xs)%nat -> deq C = Returned a)
    by (intros Hk; eapply call_end; [exact P1|exact Hk|]; rewrite El; apply D1; lia).
  assert (R2 : (2 + k2 <= count_right xs)%nat -> enq C = Returned tt)
    by (intros Hk; eapply call_end; [exact P2|exact Hk|]; rewrite Er; apply D2; lia).
  split; [done|]. split; [done|]. intros H1 H2. split; [apply (Hmem (shared c)), D; [done|lia..]|].
  exists v. split; [done|]. rewrite (R1 H1), (R2 H2) in Hok. exact Hok.
Qed.

End Sim.

(** ** One list part after the other, then the counts *)

Ltac run_cbn :=
  cbn [Z.eqb Pos.eqb replicate calls_run calls_step mem deq enq call_step step_prog mbind option_bind].

(** One access of a call that runs alone, then the induction hypothesis. *)
Ltac call_turn IH :=
  match goal with
  | |- mbind _ ?x = Some _ -> _ =>
      let E := fresh "E" in destruct x eqn:E; [|done]; run_cbn; intros ?; rewrite E; run_cbn; by apply IH
  end.

Lemma lists_left p (m : prog ptr ptr) (s s' : stack) (e : call unit) a :
  exec_prog m s = Some (a, s') ->
  calls_run p (replicate (prog_cost m s) TLeft) (Calls s (Lists m) e) = Some (Calls s' (Lists (Ret a)) e).
Proof.
  revert s. induction m as [x|f q k IH|f q v m IH]; intros s; cbn [exec_prog prog_cost].
  1: by intros [= -> ->].
  all: call_turn IH.
Qed.

Lemma lists_right p (m : prog ptr unit) (s s' : stack) (l : call ptr) a :
  exec_prog m s = Some (a, s') ->
  calls_run p (replicate (prog_cost m s) TRight) (Calls s l (Lists m)) = Some (Calls s' l (Lists (Ret a))).
Proof.
  revert s. induction m as [x|f q k IH|f q v m IH]; intros s; cbn [exec_prog prog_cost].
  1: by intros [= -> ->].
  all: call_turn IH.
Qed.

(** Both counts are loaded before one is stored, unless [d] is 0: the change that
    is stored first is lost. *)
Definition count_order (d : Z) : list thread :=
  if d =? 0 then [TLeft; TLeft; TRight; TRight]
  else if d =? 1 then [TLeft; TRight; TLeft; TRight] else [TLeft; TRight; TRight; TLeft].

Lemma count_order_run p (s : stack) c0 a d :
  load_count p s = Some c0 -> -1 <= d <= 1 ->
  exists s', calls_run p (count_order d) (Calls s (Lists (Ret a)) (Lists (Ret tt))) =
      Some (Calls s' (Returned a) (Returned tt)) /\
    load_count p s' = Some (c0 + d) /\ same_mem s s'.
Proof.
  intros Hc Hd.
  assert (Hst : forall v v', exists s1 s2, store_count p v s = Some s1 /\ load_count p s1 = Some v /\
    store_count p v' s1 = Some s2 /\ load_count p s2 = Some v' /\ same_mem s s2).
  { intros v v'. destruct (store_count_run p v s ltac:(eauto)) as (s1 & E1 & L1 & M1).
    destruct (store_count_run p v' s1 ltac:(eauto)) as (s2 & E2 & L2 & M2). exists s1, s2.
    split; [done|]. split; [done|]. split; [done|]. split; [done|]. by transitivity s1. }
  assert (d = 0 \/ d = 1 \/ d = -1) as [-> |[-> | ->]] by lia; unfold count_order; run_cbn.
  - destruct (Hst (c0 + -1) (c0 + -1 + 1)) as (s1 & s2 & E1 & L1 & E2 & L2 & M). exists s2.
    rewrite Hc. run_cbn. rewrite E1. run_cbn. rewrite L1. run_cbn. rewrite E2. split; [done|]. split; [|done]. rewrite L2. f_equal. lia.
  - destruct (Hst (c0 + -1) (c0 + 1)) as (s1 & s2 & E1 & L1 & E2 & L2 & M). exists s2.
    rewrite Hc. run_cbn. rewrite Hc. run_cbn. rewrite E1. run_cbn. by rewrite E2.
  - destruct (Hst (c0 + 1) (c0 + -1)) as (s1 & s2 & E1 & L1 & E2 & L2 & M). exists s2.
    rewrite Hc. run_cbn. rewrite Hc. run_cbn. rewrite E1. run_cbn. by rewrite E2.
Qed.

Section Theorems.
Context `{Env}.

(** C27: two whole calls without a lock, [tcp_sock_accept_dequeue] in the thread of
    the application and [tcp_sock_accept_enqueue] in the receiving thread, with at
    least two children in the accept queue.  In every interleaving of their loads
    and stores, those of the count included, neither faults, both return, the application with the
    oldest child, and the lists are right; but the count [accept_backlog], which
    should be what it was, may end one too low or one too high, and interleavings
    with each of the three results exist. *)
Theorem accept_count_race st p ps l1 n l2 a b r :
  queues st p (l1 ++ n :: l2) (a :: b :: r) -> socks st !! p = Some ps ->
  let start := Calls st (dequeue_call p) (enqueue_call n p) in
  let count v c := load_count p (mem c) = Some v in
  (exists k, forall xs, exists c, calls_run p xs start = Some c /\
     ((k <= count_left xs)%nat -> deq c = Returned (node a)) /\ ((k <= count_right xs)%nat -> enq c = Returned tt) /\
     ((k <= count_left xs)%nat -> (k <= count_right xs)%nat ->
      queues (mem c) p (l1 ++ l2) (b :: r ++ [n]) /\
      exists v, count v c /\ accept_backlog ps - 1 <= v <= accept_backlog ps + 1)) /\
  (forall d, -1 <= d <= 1 -> exists xs c, calls_run p xs start = Some c /\
     deq c = Returned (node a) /\ enq c = Returned tt /\ queues (mem c) p (l1 ++ l2) (b :: r ++ [n]) /\
     count (accept_backlog ps + d) c).
Proof.
  intros Q Hp start count. assert (Hc : load_count p st = Some (accept_backlog ps)) by (unfold load_count; by rewrite Hp).
  split.
  - destruct (accept_queue_two_run st p ps l1 n l2 a b r Q Hp) as (k1 & k2 & Hall). exists (2 + (k1 + k2))%nat. intros xs.
    destruct (calls_return st p n (accept_backlog ps) k1 k2 (node a) (fun s => queues s p (l1 ++ l2) (b :: r ++ [n])) Hall Hc
      (fun s t E => queues_same_mem s t p _ _ E) xs) as (c & E & R1 & R2 & R).
    exists c. split; [exact E|]. split; [intros ?; apply R1; lia|]. split; [intros ?; apply R2; lia|].
    intros ? ?. apply R; lia.
  - intros d Hd. destruct (dequeue_exec st p ps _ a (b :: r) Q Hp) as (st1 & E1 & Ed1 & Q1 & _).
    destruct (enqueue_exec st1 p l1 n l2 (b :: r) Q1) as (st2 & E2 & Q2).
    assert (Hc2 : load_count p st2 = Some (accept_backlog ps)).
    { rewrite (data_load_count p st1) by exact (exec_data _ _ _ _ E2). by rewrite (data_load_count p st). }
    destruct (count_order_run p st2 _ (node a) d Hc2 Hd) as (st3 & E3 & Hc3 & M).
    eexists (_ ++ _ ++ count_order d), _. rewrite calls_run_app. unfold start, dequeue_call.
    rewrite (lists_left p _ _ _ _ _ E1). cbn [mbind option_bind]. rewrite calls_run_app.
    unfold enqueue_call. rewrite (lists_right p _ _ _ _ _ E2). cbn [mbind option_bind]. split; [exact E3|].
    split; [done|]. split; [done|]. split; [by apply (queues_same_mem st2)|exact Hc3].
Qed.

End Theorems.

Section Witnesses.
Existing Instance demo_env.

(** The count of the listening socket of QueueConc.v goes from 0 to 1 although one
    child came and one left. *)
Lemma accept_count_race_witness : exists xs c,
  calls_run 1 xs (Calls two_ready (dequeue_call 1) (enqueue_call 2 1)) = Some c /\
  deq c = Returned (node 3) /\ enq c = Returned tt /\ queues (mem c) 1 [] [4%positive; 2%positive] /\
  load_count 1 (mem c) = Some 1.
Proof.
  destruct (accept_count_race two_ready 1 (listener (self (node 2)) (ListHead (node 3) (node 4)) Wait.wait_init)
    [] 2 [] 3 4 [] two_ready_queues eq_refl) as [_ Hd].
  destruct (Hd 1) as (xs & c & E & R1 & R2 & Q & Hc); [lia|].
  exists xs, c. split; [exact E|]. split; [exact R1|]. split; [exact R2|]. split; [exact Q|exact Hc].
Defined.

End Witnesses.
