(* ===== verification/Calls.v ===== *)
(** * Theorems on the socket calls

    [tcp_sock_listen], [tcp_sock_connect], [tcp_sock_read] and [tcp_sock_close]
    on well-formed tables, in each state of the socket. *)

From S2P Require Import Prelude Hash DList RingBuffer SynchWait Layout Segment Memory Sock SockTables Ports Out SockApi AcceptQueue.

(** The tables only depend on the sockets and on the list heads. *)
Lemma tables_same st st' c :
  tables_ok st c -> socks st' = socks st -> table st' = table st -> tables_ok st' c.
Proof.
  intros HT Es Et. apply (tables_conn st); [done| |by rewrite Es; eauto].
  pose proof (to_lists _ _ HT) as [HL HO]. split; [|done]. intros w h Hh.
  apply (dlist_ext st); [by apply HL|]. intros p [->|Hp]%elem_of_cons.
  - destruct w; simpl; by rewrite Et.
  - apply list_elem_of_fmap in Hp as (m & -> & _). simpl. by rewrite Es.
Qed.

Lemma bind_inv {A B} (m : M A) (k : A -> M B) st b st' :
  bind m k st = Done b st' -> exists a st1, m st = Done a st1 /\ k a st1 = Done b st'.
Proof. unfold bind. destruct (m st); simpl; [eauto|done..]. Qed.

Section Theorems.
Context `{Env} `{IpLayerOk}.

(** ** Listening *)

Lemma hashed_sock st st' c w n s :
  hashed st st' c w n s -> exists s', socks st' !! n = Some s' /\ strip s' = strip (set_ref_cnt (ref_cnt s + 1) s).
Proof. intros [_ Hc]. by eapply counted_sock. Qed.

Lemma counted_dom st st' n s d t :
  counted st st' n s d -> socks st !! n = Some t -> dom (socks st') = dom (socks st).
Proof.
  intros [E _] Ht. rewrite <- (dom_fmap_L strip (socks st')), E, dom_insert_L, dom_fmap_L.
  apply elem_of_dom_2 in Ht. set_solver.
Qed.

Lemma listen_run st c n s b :
  tables_ok st c -> socks st !! n = Some s -> unlinked c TEst n ->
  exists st' s', tcp_sock_listen (sock_ptr n) b st = Done 0 st' /\
    tables_ok st' (set_bucket c TLis (key TLis s) (n :: c TLis (key TLis s))) /\
    socks st' !! n = Some s' /\
    strip s' = strip (set_ref_cnt (ref_cnt s + 1) (set_state TCP_LISTEN (set_backlog b s))) /\
    other_nodes st st' /\ sent st' = sent st /\
    dom (socks st') = dom (socks st) /\
    forall a, exists m t, tcp_sock_lookup_listen a (sk_sport s) st' = Done (sock_ptr m) st' /\
                socks st' !! m = Some t /\ sk_sport t = sk_sport s.
Proof.
  intros HT Hs Hun. set (s1 := set_state TCP_LISTEN (set_backlog b s)).
  set (st1 := set_socks (<[n := s1]> (socks st)) st).
  assert (HT1 : tables_ok st1 c) by (apply (tables_modify st c n s); [done..|keeps]).
  destruct (tcp_hash_listen st1 c n s1 HT1) as (st' & R & HT' & Hc); [apply lookup_insert_eq|done|done|].
  destruct (counted_sock _ _ _ _ _ Hc) as (s' & Hs' & Es').
  exists st', s'. split; [|split; [exact HT'|split; [done|split; [exact Es'|split; [|split; [apply Hc|split]]]]]].
  2:{ destruct (proj1 (proj2 (proj2 Hc))) as [Ho Ht]. split; [|exact Ht]. intros m o Ho1 Ho2.
      rewrite (Ho m o Ho1 Ho2). apply (modify_node_get st n s); [done|keeps]. }
  { unfold tcp_sock_listen. erewrite bind_done; [|by apply modify_run].
    erewrite bind_done; [|apply modify_run, lookup_insert_eq]. cbn [socks set_socks]. rewrite insert_insert_eq.
    change (set_socks _ (set_socks _ st)) with st1. by rewrite (bind_done _ _ _ _ _ R). }
  { rewrite (counted_dom _ _ _ _ _ s1 Hc) by apply lookup_insert_eq. apply dom_insert_lookup_L. by eexists. }
  intros a. rewrite (lookup_listen_run st' _ a (sk_sport s) (to_lists _ _ HT')).
  change (tcp_hash_function 0 0 (sk_sport s) 0) with (key TLis s).
  destruct (first_sock _ _) as [m|] eqn:E.
  - apply first_sock_Some in E as [Hm Ht]. unfold on_sock in Ht.
    destruct (socks st' !! m) as [t|] eqn:Et; [|done]. zprop. eauto 6.
  - exfalso. rewrite first_sock_None in E. specialize (E n). unfold on_sock in E.
    rewrite Hs', Z.eqb_neq in E. apply E; [|exact (f_equal sk_sport Es')].
    change (key TLis s1) with (key TLis s). rewrite bucket_eq. set_solver.
Qed.

(** [tcp_sock_listen] of a socket that is in neither the listen nor the
    established table succeeds: the socket becomes a listening one with the
    given backlog, is linked into the listen table under its port and gains a
    reference, the queues and timers of all sockets being left alone; from then on a SYN to that port from an unknown peer finds a
    listening socket of that port. *)
Theorem tcp_sock_listen_spec st c n s b :
  tables_ok st c -> socks st !! n = Some s -> unlinked c TEst n ->
  exists st' s', tcp_sock_listen (sock_ptr n) b st = Done 0 st' /\
    tables_ok st' (set_bucket c TLis (key TLis s) (n :: c TLis (key TLis s))) /\
    socks st' !! n = Some s' /\
    strip s' = strip (set_ref_cnt (ref_cnt s + 1) (set_state TCP_LISTEN (set_backlog b s))) /\
    other_nodes st st' /\ sent st' = sent st /\
    forall a, exists m t, tcp_sock_lookup_listen a (sk_sport s) st' = Done (sock_ptr m) st' /\
                socks st' !! m = Some t /\ sk_sport t = sk_sport s.
Proof.
  intros HT Hs Hun. destruct (listen_run st c n s b HT Hs Hun) as (st' & s' & R & H1' & H2' & H3' & H4' & H5' & _ & P).
  by exists st', s'.
Qed.

(** ** Reading *)

Lemma read_run st n s size :
  socks st !! n = Some s -> Ring.wf (rcv_buf s) -> 0 <= size ->
  let data := take (Z.to_nat size) (Ring.contents (rcv_buf s)) in
  exists rb, Ring.wf rb /\ Ring.contents rb = drop (Z.to_nat size) (Ring.contents (rcv_buf s)) /\
    let wnd := u16 (rcv_wnd s + Z.of_nat (length data)) in
    tcp_sock_read (sock_ptr n) size st =
    Done (wnd, data) (set_socks (<[n := set_rcv_wnd wnd (set_rcv_buf rb s)]> (socks st)) st).
Proof.
  intros Hs Hwf Hsz data. pose proof (Ring.read_shape (rcv_buf s) size Hwf) as Hsh.
  pose proof (Ring.read_contents (rcv_buf s) size Hwf) as Hc.
  pose proof (Ring.used_range _ Hwf) as Hu.
  destruct (Ring.read_ring_buffer (rcv_buf s) size) as [[len dat] rb] eqn:E.
  destruct Hsh as (El & _ & _ & _ & _ & Hwf' & Hl & _), Hc as [-> Ec].
  exists rb. split; [done|]. split; [done|]. fold data in Hl. cbv zeta.
  replace (Z.of_nat (length data)) with len by lia.
  unfold tcp_sock_read. erewrite bind_done; [|by apply sock_run]. rewrite E.
  erewrite bind_done; [|by apply modify_run].
  erewrite bind_done; [|apply modify_run, lookup_insert_eq]. cbn [socks set_socks]. rewrite insert_insert_eq.
  erewrite bind_done; [|apply sock_run, lookup_insert_eq]. done.
Qed.

(** C40: [tcp_sock_read] delivers the oldest bytes of the receive buffer, up to
    [size], and removes them, but returns the receive window after adding their
    number (modulo [2 ^ 16]), not their number. *)
Theorem tcp_sock_read_spec st n s size :
  socks st !! n = Some s -> Ring.wf (rcv_buf s) -> 0 <= size ->
  let data := take (Z.to_nat size) (Ring.contents (rcv_buf s)) in
  exists rb, Ring.wf rb /\ Ring.contents rb = drop (Z.to_nat size) (Ring.contents (rcv_buf s)) /\
    let wnd := u16 (rcv_wnd s + Z.of_nat (length data)) in
    tcp_sock_read (sock_ptr n) size st =
    Done (wnd, data) (set_socks (<[n := set_rcv_wnd wnd (set_rcv_buf rb s)]> (socks st)) st).
Proof. apply read_run. Qed.

(** ** Closing *)

(** The flags of the packets [tcp_sock_close] sends, and the state it leaves. *)
Definition close_packets (s : tcp_state) : list Z :=
  match s with TCP_ESTABLISHED => [TCP_FIN] | TCP_CLOSE_WAIT => [TCP_ACK; TCP_FIN] | _ => [] end.
Definition close_state (s : tcp_state) : tcp_state :=
  match s with
  | TCP_SYN_RECV | TCP_SYN_SENT => TCP_CLOSED
  | TCP_ESTABLISHED => TCP_FIN_WAIT_1
  | TCP_CLOSE_WAIT => TCP_LAST_ACK
  | s => s
  end.

(** The sequence numbers used up by packets with these flags. *)
Definition after_flags (fl : list Z) (s : tcp_sock) : tcp_sock := foldl (fun s f => after_ctl f s) s fl.

(** Sending control packets one after the other. *)
Fixpoint send_all (tsk : ptr) (fl : list Z) : M unit :=
  match fl with [] => ret tt | f :: fl => tcp_send_control_packet tsk f;; send_all tsk fl end.

Lemma after_ctl_ok flags s : sock_ok s -> sock_ok (after_ctl flags s).
Proof.
  intros []. unfold after_ctl. case_match; [done|]. split; simpl; try done. apply u32_range.
Qed.

(** Each packet carries the socket's data as they are when it is sent. *)
Fixpoint cbs_of (s : tcp_sock) (fl : list Z) : list tcp_cb :=
  match fl with
  | [] => []
  | f :: fl => cb_for (sk_sip s) (sk_dip s) (sk_sport s) (sk_dport s) (snd_nxt s) (rcv_nxt s) f (rcv_wnd s) 0
               :: cbs_of (after_ctl f s) fl
  end.

Lemma send_all_run fl st n s :
  (forall k, malloc_ok k = true) -> socks st !! n = Some s -> sock_ok s ->
  exists ps st', send_all (sock_ptr n) fl st = Done tt st' /\ sent st' = sent st ++ ps /\
    cb_of <$> ps = cbs_of s fl /\ Forall accepted ps /\
    socks st' = <[n := after_flags fl s]> (socks st) /\ table st' = table st.
Proof.
  intros Hm. revert st s. induction fl as [|f fl IH]; intros st s Hs Hok.
  { exists [], st. rewrite app_nil_r. simpl. rewrite insert_id by done. by repeat split. }
  destruct (control_run st n s f Hs (Hm _)) as (ck & Hacc & R).
  set (p := ctl_packet (length (sent st)) s f ck) in *.
  destruct (IH (push_sent p (set_socks (<[n := after_ctl f s]> (socks st)) (tick_malloc st))) (after_ctl f s))
    as (ps & st' & R' & E1 & E2 & E3 & E4 & E5); [apply lookup_insert_eq|by apply after_ctl_ok|].
  exists (p :: ps), st'. split; [cbn [send_all]; by rewrite (bind_done _ _ _ _ _ R)|].
  split; [rewrite E1; simpl; by rewrite <- app_assoc|].
  split; [rewrite fmap_cons, E2; cbn [cbs_of]; f_equal; by apply ctl_packet_cb|]. split; [by constructor|].
  split; [rewrite E4; simpl; by rewrite insert_insert_eq|exact E5].
Qed.

Lemma close_run st n s :
  (forall k, malloc_ok k = true) -> socks st !! n = Some s -> sock_ok s -> state s ≠ TCP_LISTEN ->
  (state s = TCP_CLOSED -> tcp_sock_close (sock_ptr n) st = Done tt st) /\
  (state s ≠ TCP_CLOSED ->
   exists ps st1, let s1 := set_state (close_state (state s)) (after_flags (close_packets (state s)) s) in
     tcp_sock_close (sock_ptr n) st = Done tt (released st1 n s1) /\
     sent st1 = sent st ++ ps /\ cb_of <$> ps = cbs_of s (close_packets (state s)) /\ Forall accepted ps /\
     socks st1 = <[n := s1]> (socks st) /\ table st1 = table st).
Proof.
  intros Hm Hs Hok Hnl. unfold tcp_sock_close. rewrite (bind_done _ _ _ s st) by (by apply sock_run). split.
  { intros E. by rewrite decide_True. }
  intros Hnc. rewrite decide_False by done. rewrite decide_False by done.
  destruct (send_all_run (close_packets (state s)) st n s Hm Hs Hok) as (ps & st0 & R & E1 & E2 & E3 & E4 & E5).
  set (s0 := after_flags (close_packets (state s)) s) in *.
  assert (Hs0 : socks st0 !! n = Some s0) by (rewrite E4; apply lookup_insert_eq).
  set (s1 := set_state (close_state (state s)) s0).
  set (st1 := set_socks (<[n := s1]> (socks st0)) st0).
  exists ps, st1. split; [|do 3 (split; [done|]); split; [|done]].
  2:{ change (socks st1) with (<[n := s1]> (socks st0)). by rewrite E4, insert_insert_eq. }
  assert (Hset : tcp_set_state (sock_ptr n) (close_state (state s)) st0 = Done tt st1) by (by apply modify_run).
  assert (Hfree : free_tcp_sock (sock_ptr n) st1 = Done tt (released st1 n s1))
    by (apply free_tcp_sock_run, lookup_insert_eq).
  assert (Hid : close_packets (state s) = [] -> close_state (state s) = state s -> st1 = st0).
  { intros Ef Es. assert (X0 : s0 = s) by (unfold s0; by rewrite Ef).
    assert (X1 : s1 = s0) by (unfold s1; rewrite Es, X0; by destruct s).
    unfold st1. rewrite X1, insert_id by done. by destruct st0. }
  destruct (state s) eqn:Est; try done; simpl in R, Hset;
    repeat (first [rewrite decide_True by tauto | rewrite decide_False by (intros X; intuition discriminate)]).
  all: first
    [ injection R as R; subst st0; erewrite bind_done; [exact Hfree|]; exact Hset
    | injection R as R; subst st0; erewrite bind_done; [exact Hfree|]; rewrite Hid by done; reflexivity
    | idtac ].
  - apply bind_inv in R as ([] & st' & R1 & [= ->]). erewrite bind_done; [exact Hfree|].
    erewrite bind_done; [exact Hset|exact R1].
  - apply bind_inv in R as ([] & st' & R1 & R). apply bind_inv in R as ([] & st'' & R2 & [= ->]).
    erewrite bind_done; [exact Hfree|]. erewrite bind_done; [|exact R1]. erewrite bind_done; [exact Hset|exact R2].
Qed.

(** C35: [tcp_sock_close] of a socket that does not listen, allocations
    succeeding: a closed socket is left alone; an established one sends FIN and
    goes to FIN_WAIT_1, one in CLOSE_WAIT sends ACK and FIN and goes to LAST_ACK,
    half-open ones go to CLOSED without a packet, in any other state nothing is
    sent; then a reference is dropped, and the socket is freed if it was the
    last, whether or not a table still links it.  (The comment above the function
    promises a FIN or RST and the state CLOSED; in SYN_RECV and SYN_SENT nothing is
    sent, and from ESTABLISHED and CLOSE_WAIT the socket goes on to FIN_WAIT_1 and
    LAST_ACK.) *)
Theorem tcp_sock_close_spec st n s :
  (forall k, malloc_ok k = true) -> socks st !! n = Some s -> sock_ok s -> state s ≠ TCP_LISTEN ->
  (state s = TCP_CLOSED -> tcp_sock_close (sock_ptr n) st = Done tt st) /\
  (state s ≠ TCP_CLOSED ->
   exists ps st1, let s1 := set_state (close_state (state s)) (after_flags (close_packets (state s)) s) in
     tcp_sock_close (sock_ptr n) st = Done tt (released st1 n s1) /\
     sent st1 = sent st ++ ps /\ cb_of <$> ps = cbs_of s (close_packets (state s)) /\ Forall accepted ps /\
     socks st1 = <[n := s1]> (socks st) /\ table st1 = table st).
Proof. apply close_run. Qed.

Lemma close_listening_run st c n s :
  tables_ok st c -> socks st !! n = Some s -> state s = TCP_LISTEN ->
  n ∈ c TLis (key TLis s) -> n ∈ c TBnd (key TBnd s) -> ref_cnt s = 2 ->
  tcp_sock_close (sock_ptr n) st = Fault BadAccess.
Proof.
  intros HT Hs Hst Hl Hb Href. unfold tcp_sock_close. rewrite (bind_done _ _ _ s st) by (by apply sock_run).
  rewrite decide_False by congruence. apply bind_fault. rewrite decide_True by done.
  destruct (unhash_full st c TLis _ n s HT (key_bucket _ _) Hl Hs) as (st1 & R1 & _ & U1 & _).
  destruct U1 as [HT1 Hc1]; [lia|]. destruct (counted_sock _ _ _ _ _ Hc1) as (s1 & Hs1 & Es1).
  assert (Hr1 : ref_cnt s1 = 1) by (transitivity (ref_cnt s + -1); [exact (f_equal ref_cnt Es1)|lia]).
  destruct (unhash_full st1 _ TBnd (key TBnd s) n s1 HT1 (key_bucket _ _)) as (st2 & R2 & _ & _ & U2);
    [rewrite bucket_ne; [done|by intros [? _]]|done|].
  destruct U2 as [U2 _]; [lia|].
  erewrite bind_done; [|exact R1]. erewrite bind_done; [|exact R2].
  unfold tcp_set_state, modify, sock_of. simpl. by rewrite U2.
Qed.

(** Closing a listening socket that is bound, and so has the two
    references of the tables, frees it and then writes its state: a use after
    free, in every run. *)
Theorem close_listening_faults st c n s :
  tables_ok st c -> socks st !! n = Some s -> state s = TCP_LISTEN ->
  n ∈ c TLis (key TLis s) -> n ∈ c TBnd (key TBnd s) -> ref_cnt s = 2 ->
  tcp_sock_close (sock_ptr n) st = Fault BadAccess.
Proof. apply close_listening_run. Qed.

(** Closing an accepted connection, whose only reference is the
    established table's, sends FIN and frees the socket without unlinking it:
    the next packet that hashes to its bucket makes the lookup fault. *)
Theorem close_leaves_dangling st c n s l :
  (forall k, malloc_ok k = true) -> tables_ok st c -> socks st !! n = Some s -> sock_ok s ->
  state s = TCP_ESTABLISHED -> ref_cnt s = 1 -> c TEst (key TEst s) = n :: l ->
  exists st' p, tcp_sock_close (sock_ptr n) st = Done tt st' /\ sent st' = sent st ++ [p] /\
    flags (cb_of p) = TCP_FIN /\ socks st' !! n = None /\
    forall cb, tcp_hash_function (daddr cb) (saddr cb) (dport cb) (sport cb) = key TEst s ->
      tcp_sock_lookup cb st' = Fault BadAccess.
Proof.
  intros Hm HT Hs Hok Hst Href Hl.
  destruct (close_run st n s Hm Hs Hok) as [_ Hrun]; [congruence|].
  destruct Hrun as (ps & st1 & R & E1 & E2 & _ & E4 & E5); [congruence|]. rewrite Hst in *.
  assert (Hf : flags <$> (cb_of <$> ps) = [TCP_FIN]) by (by rewrite E2). clear E2.
  destruct ps as [|p [|]]; try discriminate Hf. injection Hf as Hf.
  unfold released in R. replace (ref_cnt (set_state _ _)) with 1 in R by (by rewrite <- Href).
  simpl Z.leb in R. eexists _, p. split; [exact R|]. split; [exact E1|]. split; [exact Hf|].
  split; [apply lookup_delete_eq|]. intros cb Hcb. unfold tcp_sock_lookup. apply bind_fault.
  unfold tcp_sock_lookup_established. apply bind_fault. rewrite Hcb. unfold find_entry.
  pose proof (lo_list _ _ (to_lists _ _ HT) TEst _ (key_bucket TEst s)) as [_ D]. rewrite Hl in D.
  destruct (D (head_of TEst (key TEst s)) (Ptr (BSock n) off_hash_list)) as [(nd & Gh & Hnx) _];
    [unfold pairs; set_solver|].
  simpl in Gh. unfold tcp_established_sock_table. simpl node_get. cbn [table set_socks].
  rewrite E5, Gh, Hnx. unfold loop_fuel. cbn [find_entry_from]. rewrite decide_False by done.
  apply bind_fault. apply bind_fault. unfold sock, sock_of. simpl. by rewrite lookup_delete_eq.
Qed.

(** ** Connecting *)

(** The socket with the four members [tcp_sock_connect] fills in. *)
Definition addressed (ip port : Z) (s : tcp_sock) : tcp_sock :=
  set_sport (htons PORT_MIN) (set_sip past_instance (set_dport (htons port) (set_dip (htonl ip) s))).

Lemma bound_update st c n s :
  bound_no_parent st c -> in_no_table c n ->
  bound_no_parent (set_socks (<[n := s]> (socks st)) st) c.
Proof.
  intros Hp Hun h m t Hh Hm. simpl. rewrite lookup_insert_ne; [by apply (Hp h)|].
  intros <-. by apply (Hun TBnd h).
Qed.

Lemma connect_address {A} st c n s ip port (k : M A) :
  tables_ok st c -> bound_no_parent st c -> in_no_table c n -> socks st !! n = Some s ->
  (modify (sock_ptr n) (set_dip (htonl ip));; modify (sock_ptr n) (set_dport (htons port));;
   modify (sock_ptr n) (set_sip past_instance);; do p <- tcp_get_port;
   modify (sock_ptr n) (set_sport (htons p));; k) st =
  k (set_socks (<[n := addressed ip port s]> (socks st)) st).
Proof.
  intros HT Hp Hun Hs. erewrite bind_done; [|by apply modify_run].
  do 2 (erewrite bind_done; [|apply modify_run, lookup_insert_eq]; cbn [socks set_socks];
        rewrite insert_insert_eq).
  erewrite bind_done; [|apply (get_port_run _ c); [by apply (tables_update st)|by apply (bound_update st)]].
  erewrite bind_done; [|apply modify_run, lookup_insert_eq]. cbn [socks set_socks].
  by rewrite insert_insert_eq.
Qed.

(** The socket as the SYN leaves it. *)
Definition syn_sent (ip port : Z) (s : tcp_sock) : tcp_sock :=
  set_state TCP_SYN_SENT (set_snd_nxt (u32 (snd_nxt s + 1)) (addressed ip port s)).

Lemma sock_ok_strip s : sock_ok (strip s) <-> sock_ok s.
Proof. by split; intros []; split. Qed.

(** Binding, sending the SYN and changing state. *)
Lemma connect_send st c n s :
  (forall i, malloc_ok i = true) -> tables_ok st c -> in_no_table c n -> socks st !! n = Some s -> sock_ok s ->
  exists p st2 s2,
    (forall A (k : M A),
      (tcp_bind_hash (sock_ptr n);; tcp_send_control_packet (sock_ptr n) TCP_SYN;;
       tcp_set_state (sock_ptr n) TCP_SYN_SENT;; k) st = k st2) /\
    sent st2 = sent st ++ [p] /\ accepted p /\
    cb_of p = cb_for (sk_sip s) (sk_dip s) (sk_sport s) (sk_dport s) (snd_nxt s) (rcv_nxt s) TCP_SYN (rcv_wnd s) 0 /\
    tables_ok st2 (set_bucket c TBnd (key TBnd s) (n :: c TBnd (key TBnd s))) /\
    socks st2 !! n = Some s2 /\
    strip s2 = strip (set_ref_cnt (ref_cnt s + 1) (set_state TCP_SYN_SENT (set_snd_nxt (u32 (snd_nxt s + 1)) s))) /\
    (forall m t2, m ≠ n -> socks st2 !! m = Some t2 -> exists t, socks st !! m = Some t /\ conn t2 = conn t).
Proof.
  intros Hm HT Hun Hs Hok. destruct (bind_hash_run st c n s HT Hun Hs) as (st1 & R1 & HT1 & Hc1).
  destruct (counted_sock _ _ _ _ _ Hc1) as (s1 & Hs1 & Es1).
  destruct (control_run st1 n s1 TCP_SYN Hs1 (Hm _)) as (ck & Hacc & R2).
  assert (Hok1 : sock_ok s1) by (apply sock_ok_strip; rewrite Es1; destruct Hok; by split).
  set (p := ctl_packet (length (sent st1)) s1 TCP_SYN ck) in *.
  set (st2 := push_sent p _) in R2. set (s2 := set_state TCP_SYN_SENT (after_ctl TCP_SYN s1)).
  exists p, (set_socks (<[n := s2]> (socks st2)) st2), s2. split.
  { intros A k. erewrite bind_done; [|exact R1]. erewrite bind_done; [|exact R2].
    erewrite bind_done; [|apply modify_run, lookup_insert_eq]. done. }
  split; [simpl; f_equal; apply Hc1|]. split; [exact Hacc|]. split.
  { transitivity (cb_of (ctl_packet (length (sent st1)) s TCP_SYN ck)); [|by apply ctl_packet_cb].
    exact (f_equal (fun x => cb_of (ctl_packet (length (sent st1)) x TCP_SYN ck)) Es1). }
  split.
  { apply (tables_modify st2 _ n (after_ctl TCP_SYN s1)); [|apply lookup_insert_eq|done|keeps].
    apply (tables_same (set_socks (<[n := after_ctl TCP_SYN s1]> (socks st1)) st1)); [|done|done].
    apply (tables_modify st1 _ n s1); [done|done|done|keeps]. }
  split; [apply lookup_insert_eq|]. split.
  - exact (f_equal (fun x => set_state TCP_SYN_SENT (set_snd_nxt (u32 (snd_nxt x + 1)) x)) Es1).
  - intros m t2 Hne. simpl. rewrite !lookup_insert_ne by done. intros Ht2.
    destruct (counted_back _ _ _ _ _ m t2 Hc1 Hne Ht2) as (t & Ht & Et).
    exists t. split; [done|]. by apply strip_conn.
Qed.

(** The socket while its thread sleeps in [tcp_sock_connect]. *)
Definition connecting (ip port : Z) (s : tcp_sock) : tcp_sock :=
  set_wait WConnect (Wait.SynchWait 0 0 1) (set_ref_cnt (ref_cnt s + 2) (syn_sent ip port s)).

(** The tables once a socket of this key is bound and connected. *)
Definition linked_twice (c : buckets) (n : positive) (w : which) (s : tcp_sock) : buckets :=
  let c1 := set_bucket c TBnd (key TBnd s) (n :: c TBnd (key TBnd s)) in
  set_bucket c1 w (key w s) (n :: c1 w (key w s)).

Lemma linked_twice_bnd c n w s : w ≠ TBnd -> n ∈ linked_twice c n w s TBnd (key TBnd s).
Proof. intros Hw. unfold linked_twice. rewrite bucket_ne by (intros [? _]; congruence). rewrite bucket_eq. set_solver. Qed.
Lemma linked_twice_in c n w s : n ∈ linked_twice c n w s w (key w s).
Proof. unfold linked_twice. rewrite (bucket_eq _ w). set_solver. Qed.

(** [tcp_sock_connect] up to where it sleeps. *)
Lemma connect_run st c n s ip port :
  (forall i, malloc_ok i = true) -> is_u32 past_instance ->
  tables_ok st c -> bound_no_parent st c -> in_no_table c n -> socks st !! n = Some s -> sock_ok s ->
  wait_connect s = Wait.wait_init ->
  let s1 := addressed ip port s in
  (forall m t, m ∈ c TEst (key TEst s1) -> socks st !! m = Some t -> conn t ≠ conn s1) ->
  exists p st' s',
    tcp_sock_connect (sock_ptr n) ip port st = Asleep st' (sock_ptr n) WConnect
      (fun st => (sleep_on_resume (sock_ptr n) WConnect;; ret 0) st) /\
    sent st' = sent st ++ [p] /\ accepted p /\
    cb_of p = cb_for past_instance (htonl ip) (htons PORT_MIN) (htons port) (snd_nxt s) (rcv_nxt s)
                     TCP_SYN (rcv_wnd s) 0 /\
    tables_ok st' (linked_twice c n TEst s1) /\
    socks st' !! n = Some s' /\ strip s' = strip (connecting ip port s).
Proof.
  intros Hm Hpast HT Hp Hun Hs Hok Hw s1 Hfree.
  assert (Hok1 : sock_ok s1).
  { destruct Hok. split; try done; first [apply htonl_range|apply htons_range]. }
  assert (Hun1 : forall h w, is_bucket h -> n ∉ c w h) by (intros; by apply Hun).
  set (st1 := set_socks (<[n := s1]> (socks st)) st).
  destruct (connect_send st1 c n s1 Hm)
    as (p & st2 & s2 & R2 & E2 & Hacc & Hcb & HT2 & Hs2 & Es2 & Hoth);
    [by apply tables_update|done|apply lookup_insert_eq|done|].
  assert (Hconn2 : conn s2 = conn s1) by exact (f_equal conn Es2).
  assert (Hst2 : state s2 = TCP_SYN_SENT) by exact (f_equal state Es2).
  destruct (tcp_hash_est st2 _ n s2 HT2 Hs2) as (st3 & R3 & HT3 & Hc3); [|congruence|congruence| |].
  { intros w h Hh Hw'. rewrite bucket_ne; [by apply Hun|intros [-> _]; done]. }
  { intros (m & t & Hmem & Ht & Hct). unfold key in Hmem. rewrite Hconn2 in Hmem. fold (key TEst s1) in Hmem.
    rewrite bucket_ne in Hmem by (intros [? _]; done).
    assert (Hne : m ≠ n) by (intros ->; by apply (Hun TEst _ (key_bucket TEst s1))).
    destruct (Hoth m t Hne Ht) as (t0 & Ht0 & E0). simpl in Ht0. rewrite lookup_insert_ne in Ht0 by done.
    apply (Hfree m t0 Hmem Ht0). congruence. }
  destruct (counted_sock _ _ _ _ _ Hc3) as (s3 & Hs3 & Es3).
  assert (Hw3 : wait_connect s3 = Wait.wait_init).
  { transitivity (wait_connect s2); [exact (f_equal wait_connect Es3)|].
    transitivity (wait_connect s); [exact (f_equal wait_connect Es2)|done]. }
  eexists p, _, (set_wait WConnect (Wait.SynchWait 0 0 1) s3). split.
  { unfold tcp_sock_connect. rewrite (connect_address st c n s) by done. fold s1 st1. rewrite R2.
    erewrite bind_done; [|exact R3]. unfold bind at 1.
    rewrite (sleep_on_blocks st3 n s3 WConnect); [reflexivity|done|simpl; by rewrite Hw3..]. }
  split; [simpl; rewrite (proj1 (proj2 Hc3)); exact E2|]. split; [exact Hacc|]. split; [exact Hcb|]. split.
  { replace (key TEst s2) with (key TEst s1) in HT3 by (unfold key; by rewrite Hconn2).
    apply (tables_modify st3 _ n s3); [exact HT3|done|done|keeps]. }
  split; [apply lookup_insert_eq|].
  assert (Href : ref_cnt s2 = ref_cnt s + 1) by exact (f_equal ref_cnt Es2).
  transitivity (strip (set_wait WConnect (Wait.SynchWait 0 0 1) (set_ref_cnt (ref_cnt s2 + 1) s2)));
    [exact (f_equal (set_wait WConnect (Wait.SynchWait 0 0 1)) Es3)|].
  rewrite Href. replace (ref_cnt s + 1 + 1) with (ref_cnt s + 2) by lia.
  exact (f_equal (fun x => set_wait WConnect (Wait.SynchWait 0 0 1) (set_ref_cnt (ref_cnt s + 2) x)) Es2).
Qed.

(** C36: [tcp_sock_connect] of a socket in no table, allocations succeeding
    and no socket established for the same connection: a SYN goes to the peer
    given, from the port PORT_MIN in the wrong byte order and from the address
    found behind the [ustack_t] object; the socket is left in SYN_SENT, linked in
    the bind and established tables, and the call blocks on [wait_connect];
    whenever it is woken up it returns 0. *)
Theorem tcp_sock_connect_spec st c n s ip port :
  (forall i, malloc_ok i = true) -> is_u32 past_instance ->
  tables_ok st c -> bound_no_parent st c -> in_no_table c n -> socks st !! n = Some s -> sock_ok s ->
  wait_connect s = Wait.wait_init ->
  let s1 := addressed ip port s in
  (forall m t, m ∈ c TEst (key TEst s1) -> socks st !! m = Some t -> conn t ≠ conn s1) ->
  exists p st' s' k,
    tcp_sock_connect (sock_ptr n) ip port st = Asleep st' (sock_ptr n) WConnect k /\
    sent st' = sent st ++ [p] /\ accepted p /\
    cb_of p = cb_for past_instance (htonl ip) (htons PORT_MIN) (htons port) (snd_nxt s) (rcv_nxt s)
                     TCP_SYN (rcv_wnd s) 0 /\
    (exists c', tables_ok st' c' /\ n ∈ c' TBnd (key TBnd s1) /\ n ∈ c' TEst (key TEst s1)) /\
    socks st' !! n = Some s' /\ state s' = TCP_SYN_SENT /\ ref_cnt s' = ref_cnt s + 2 /\ conn s' = conn s1 /\
    (forall st2 s2, socks st2 !! n = Some s2 -> Wait.dead (wait_connect s2) = 0 ->
       exists st3, k st2 = Done 0 st3).
Proof.
  intros Hm Hpast HT Hp Hun Hs Hok Hw s1 Hfree.
  destruct (connect_run st c n s ip port) as (p & st' & s' & R & E & Hacc & Hcb & HT' & Hs' & Es'); [done..|].
  eexists p, st', s', _. split; [exact R|]. split; [done|]. split; [done|]. split; [done|]. split.
  { eexists. split; [exact HT'|]. split; [by apply linked_twice_bnd|apply linked_twice_in]. }
  split; [done|]. split; [exact (f_equal state Es')|]. split; [exact (f_equal ref_cnt Es')|].
  split; [exact (f_equal conn Es')|].
  intros st4 s4 Hs4 Hd4. cbv beta. rewrite (bind_done _ _ _ _ _ (resume_run st4 n s4 WConnect Hs4 Hd4)). by eexists.
Qed.

End Theorems.

Section Witnesses.
Existing Instances demo_env demo_layer demo_layer_ok.

Lemma tcp_sock_listen_spec_witness :
  exists st' s', tcp_sock_listen (sock_ptr 1) 3 (one_sock TCP_CLOSED) = Done 0 st' /\
    socks st' !! 1%positive = Some s' /\ backlog s' = 3.
Proof.
  destruct (tcp_sock_listen_spec (one_sock TCP_CLOSED) no_socks 1%positive (demo_sock TCP_CLOSED) 3)
    as (st' & s' & R & _ & Hs & Es & _); [apply with_socks_ok|apply one_sock_at|apply no_socks_unlinked|].
  exists st', s'. split; [exact R|]. split; [exact Hs|exact (f_equal backlog Es)].
Defined.

(** Three bytes in a buffer of seven; two are read, and 1 is returned. *)
Definition reading : tcp_sock :=
  set_rcv_wnd TCP_DEFAULT_WINDOW (set_rcv_buf (Ring.RingBuffer 8 0 3 [11; 12; 13; 0; 0; 0; 0; 0]) (demo_sock TCP_ESTABLISHED)).
Lemma tcp_sock_read_spec_witness :
  exists st', tcp_sock_read (sock_ptr 1) 2 (with_socks {[ 1%positive := reading ]}) = Done (1, [11; 12]) st'.
Proof.
  destruct (tcp_sock_read_spec (with_socks {[ 1%positive := reading ]}) 1%positive reading 2) as (rb & _ & _ & R);
    [apply lookup_singleton_eq|unfold Ring.wf; simpl; lia|lia|].
  eexists. exact R.
Defined.

Lemma tcp_sock_close_spec_witness :
  exists st' p, tcp_sock_close (sock_ptr 1) (one_sock TCP_ESTABLISHED) = Done tt st' /\
    cb_of p = cb_for 0x0a000001 0x0a000002 10001 12345 0 0 TCP_FIN 0 0.
Proof.
  destruct (tcp_sock_close_spec (one_sock TCP_ESTABLISHED) 1%positive (demo_sock TCP_ESTABLISHED)) as [_ Hrun];
    [done|apply one_sock_at|apply demo_sock_ok|done|].
  destruct Hrun as (ps & st1 & R & _ & E & _); [done|].
  destruct ps as [|p ps]; [discriminate E|]. eexists _, p. split; [exact R|].
  rewrite fmap_cons in E. apply (f_equal (hd_error)) in E. by apply (inj Some) in E.
Defined.

(** The demo socket in the bind and in the listen table, with their references. *)
Lemma demo_listening : exists st c s,
  tables_ok st c /\ socks st !! 1%positive = Some s /\ state s = TCP_LISTEN /\ ref_cnt s = 2 /\
  1%positive ∈ c TLis (key TLis s) /\ 1%positive ∈ c TBnd (key TBnd s).
Proof.
  destruct (bind_hash_run (one_sock TCP_LISTEN) no_socks 1%positive (demo_sock TCP_LISTEN)) as (st1 & _ & HT1 & Hc1);
    [apply with_socks_ok|apply in_no_socks|apply one_sock_at|].
  destruct (counted_sock _ _ _ _ _ Hc1) as (s1 & Hs1 & Es1).
  assert (Ek1 : forall w, key w s1 = key w (demo_sock TCP_LISTEN))
    by (intros w; exact (f_equal (fun x => key_of w (conn x)) Es1)).
  destruct (tcp_hash_listen st1 _ 1%positive s1 HT1 Hs1) as (st2 & _ & HT2 & Hc2).
  { intros w h Hh Hw. rewrite bucket_ne; [by apply in_no_socks|intros [-> _]; done]. }
  { exact (f_equal state Es1). }
  destruct (counted_sock _ _ _ _ _ Hc2) as (s2 & Hs2 & Es2).
  assert (Ek2 : forall w, key w s2 = key w s1) by (intros w; exact (f_equal (fun x => key_of w (conn x)) Es2)).
  exists st2. eexists _, s2. split; [exact HT2|]. split; [exact Hs2|].
  split; [transitivity (state s1); [exact (f_equal state Es2)|exact (f_equal state Es1)]|].
  split; [transitivity (ref_cnt s1 + 1); [exact (f_equal ref_cnt Es2)|
          rewrite (f_equal ref_cnt Es1 : ref_cnt s1 = 0 + 1); lia]|].
  rewrite !Ek2. split; [rewrite bucket_eq; set_solver|].
  rewrite bucket_ne by (by intros [? _]). rewrite !Ek1, bucket_eq. set_solver.
Qed.

Lemma close_listening_faults_witness : exists st, tcp_sock_close (sock_ptr 1) st = Fault BadAccess.
Proof.
  destruct demo_listening as (st & c & s & HT & Hs & Hst & Hr & Hl & Hb). exists st.
  exact (close_listening_faults st c 1%positive s HT Hs Hst Hl Hb Hr).
Defined.

(** The demo socket established, with the reference of the table only. *)
Lemma demo_established : exists st s,
  tables_ok st (set_bucket no_socks TEst (key TEst s) [1%positive]) /\ socks st !! 1%positive = Some s /\
  strip s = strip (set_ref_cnt 1 (demo_sock TCP_ESTABLISHED)).
Proof.
  destruct (tcp_hash_est (one_sock TCP_ESTABLISHED) no_socks 1%positive (demo_sock TCP_ESTABLISHED))
    as (st & _ & HT & Hc);
    [apply with_socks_ok|apply one_sock_at|apply no_socks_unlinked|done|done|apply no_conn_taken|].
  destruct (counted_sock _ _ _ _ _ Hc) as (s & Hs & Es). exists st, s.
  split; [|split; [exact Hs|exact Es]]. unfold key in *. by rewrite (strip_conn _ _ Es).
Qed.

Lemma close_leaves_dangling_witness :
  exists st st', tcp_sock_close (sock_ptr 1) st = Done tt st' /\ tcp_sock_lookup demo_cb st' = Fault BadAccess.
Proof.
  destruct demo_established as (st & s & HT & Hs & Es). exists st.
  destruct (close_leaves_dangling st _ 1%positive s [] ltac:(done) HT Hs) as (st' & p & R & _ & _ & _ & Hl).
  - apply sock_ok_strip. rewrite Es. by destruct (demo_sock_ok TCP_ESTABLISHED).
  - exact (f_equal state Es).
  - exact (f_equal ref_cnt Es).
  - apply bucket_eq.
  - exists st'. split; [exact R|]. apply Hl. unfold key. by rewrite (strip_conn _ _ Es).
Defined.

Lemma tcp_sock_connect_spec_witness :
  exists p st' k, tcp_sock_connect (sock_ptr 1) (htonl 0x0a000002) (htons 10001) (one_sock TCP_CLOSED) =
      Asleep st' (sock_ptr 1) WConnect k /\ sent st' = sent (one_sock TCP_CLOSED) ++ [p] /\
    daddr (cb_of p) = 0x0a000002 /\ dport (cb_of p) = 10001 /\ sport (cb_of p) = 0x3930.
Proof.
  destruct (tcp_sock_connect_spec (one_sock TCP_CLOSED) no_socks 1%positive (demo_sock TCP_CLOSED)
    (htonl 0x0a000002) (htons 10001)) as (p & st' & s' & k & R & E & _ & Ecb & _);
    [done|unfold is_u32; simpl; lia|apply with_socks_ok|apply no_socks_no_parent|apply in_no_socks|
     apply one_sock_at|apply demo_sock_ok|done|by intros m t Hm; apply elem_of_nil in Hm|].
  exists p, st', k. split; [exact R|]. split; [exact E|]. rewrite Ecb. clear. repeat split; vm_compute; reflexivity.
Defined.

End Witnesses.
