(* ===== verification/TcpIn.v ===== *)
(** * Processing incoming packets (tcp_in.c)

    tcp_in.c does not compile as it stands; four places are read as they are
    evidently meant: [struct *tcp_sock tmp] as [struct tcp_sock *tmp], the missing
    semicolon after the [list_add_tail] call, [LISTEN] as [TCP_LISTEN], and
    [cb->flag] as [cb->flags].  Everything else, operator precedence included, is
    taken literally. *)

From S2P Require Import Prelude Hash DList RingBuffer SynchWait Layout Segment Memory Sock SockTables Ports Out SockApi AcceptQueue Calls.

Section Code.
Context `{Env} `{IpLayer}.

Definition tcp_update_window (tsk : ptr) (cb : tcp_cb) : M unit :=
  do s <- sock tsk;
  let old_snd_wnd := u16 (snd_wnd s) in
  modify tsk (set_snd_wnd (rwnd cb));;
  if old_snd_wnd =? 0 then wake_up tsk WSend;; ret tt else ret tt.

Definition tcp_update_window_safe (tsk : ptr) (cb : tcp_cb) : M unit :=
  do s <- sock tsk;
  if less_or_equal_32b (snd_una s) (ack cb) && less_or_equal_32b (ack cb) (snd_nxt s)
  then tcp_update_window tsk cb else ret tt.

Definition seq_valid (s : tcp_sock) (cb : tcp_cb) : bool :=
  let rcv_end := u32 (rcv_nxt s + Z.max (rcv_wnd s) 1) in
  less_than_32b (seq cb) rcv_end && less_or_equal_32b (rcv_nxt s) (seq_end cb).
Definition is_tcp_seq_valid (tsk : ptr) (cb : tcp_cb) : M bool :=
  do s <- sock tsk; ret (seq_valid s cb).

(** [cb->flags == TCP_SYN|TCP_ACK]: [==] binds tighter than [|]. *)
Definition syn_ack_test (flags : Z) : bool :=
  negb (Z.lor (Z.b2z (flags =? TCP_SYN)) TCP_ACK =? 0).

(** The branch for TCP_LISTEN when a SYN arrives. *)
Definition tcp_process_listen (tsk : ptr) (cb : tcp_cb) : M unit :=
  do tmp <- alloc_tcp_sock;
  modify tmp (set_sip (daddr cb));;
  modify tmp (set_sport (dport cb));;
  modify tmp (set_dip (saddr cb));;
  modify tmp (set_dport (sport cb));;
  modify tmp (set_parent tsk);;
  do s <- sock tsk;
  list_op (fun st => list_add_tail st (ptr_add tmp off_list) (ptr_add (parent s) off_listen_queue));;
  tcp_send_control_packet tmp (Z.lor TCP_SYN TCP_ACK);;
  tcp_set_state tmp TCP_SYN_RECV;;
  tcp_hash tmp;;
  ret tt.

(** The chain of comparisons with [state]. *)
Definition tcp_process_state (tsk : ptr) (cb : tcp_cb) (state : tcp_state) : M unit :=
  match state with
  | TCP_CLOSED => tcp_send_reset cb
  | TCP_LISTEN =>
      if flags cb =? TCP_SYN then tcp_process_listen tsk cb else tcp_send_reset cb
  | TCP_SYN_RECV =>
      if flags cb =? TCP_ACK then
        tcp_sock_accept_enqueue tsk;;
        tcp_set_state tsk TCP_ESTABLISHED;;
        do s <- sock tsk;
        wake_up (parent s) WAccept;;
        ret tt
      else tcp_send_reset cb
  | TCP_SYN_SENT =>
      if syn_ack_test (flags cb) then
        tcp_set_state tsk TCP_ESTABLISHED;;
        tcp_send_control_packet tsk TCP_ACK;;
        wake_up tsk WConnect;;
        ret tt
      else tcp_send_reset cb
  | _ => ret tt
  end.

Definition tcp_process (tsk : ptr) (cb : tcp_cb) : M unit :=
  do valid <- is_tcp_seq_valid tsk cb;
  if negb valid then ret tt
  else if flags cb =? TCP_RST then
    tcp_send_control_packet tsk TCP_ACK;;
    tcp_sock_close tsk
  else if flags cb =? TCP_FIN then
    tcp_sock_close tsk
  else
    do s <- sock tsk;
    tcp_process_state tsk cb (state s).

End Code.

Section Theorems.
Context `{Env} `{IpLayerOk}.

(** ** The receive window *)

Lemma valid_run st n s cb :
  socks st !! n = Some s -> is_tcp_seq_valid (sock_ptr n) cb st = Done (seq_valid s cb) st.
Proof. intros Hs. unfold is_tcp_seq_valid. by rewrite (bind_done _ _ _ s st) by (by apply sock_run). Qed.

Lemma process_dropped st n s cb :
  socks st !! n = Some s -> seq_valid s cb = false -> tcp_process (sock_ptr n) cb st = Done tt st.
Proof. intros Hs Hv. unfold tcp_process. by rewrite (bind_done _ _ _ _ _ (valid_run st n s cb Hs)), Hv. Qed.

(** The window test by offsets from [rcv_nxt]. *)
Lemma seq_valid_offset s cb x i j :
  is_u16 (rcv_wnd s) -> rcv_nxt s = u32 x -> seq cb = u32 (x + i) -> seq_end cb = u32 (x + j) ->
  - (2 ^ 31 - 2 ^ 16) < i < 2 ^ 31 - 2 ^ 16 -> - (2 ^ 31 - 2 ^ 16) < j < 2 ^ 31 - 2 ^ 16 ->
  seq_valid s cb = bool_decide (i < Z.max (rcv_wnd s) 1 /\ 0 <= j).
Proof.
  intros Hw Hn Hseq Hend Hi Hj. unfold is_u16 in Hw. unfold seq_valid. rewrite Hn, Hseq, Hend.
  replace (u32 (u32 x + Z.max (rcv_wnd s) 1)) with (u32 (x + Z.max (rcv_wnd s) 1))
    by (unfold u32; by rewrite Zplus_mod_idemp_l).
  destruct (less_32b_offset x i (Z.max (rcv_wnd s) 1)) as [-> _]; [lia|].
  replace (u32 x) with (u32 (x + 0)) by (by rewrite Z.add_0_r).
  destruct (less_32b_offset x 0 j) as [_ ->]; [lia|].
  apply eq_true_iff_eq. by rewrite bool_decide_eq_true, andb_true_iff, Z.ltb_lt, Z.leb_le.
Qed.

(** C23: with [rcv_nxt] at [x], a packet from [x + i] to [x + j] (less than
    [2 ^ 31 - 2 ^ 16] away, wrap-around included) is accepted exactly when it
    begins before the end of the window, which is taken to be at least one, and
    does not end before [rcv_nxt]; otherwise [tcp_process] drops it and changes
    nothing, whatever the socket's state and the flags. *)
Theorem seq_window_spec st n s cb x i j :
  socks st !! n = Some s -> is_u16 (rcv_wnd s) -> rcv_nxt s = u32 x ->
  seq cb = u32 (x + i) -> seq_end cb = u32 (x + j) ->
  - (2 ^ 31 - 2 ^ 16) < i < 2 ^ 31 - 2 ^ 16 -> - (2 ^ 31 - 2 ^ 16) < j < 2 ^ 31 - 2 ^ 16 ->
  let inside := i < Z.max (rcv_wnd s) 1 /\ 0 <= j in
  is_tcp_seq_valid (sock_ptr n) cb st = Done (bool_decide inside) st /\
  (~ inside -> tcp_process (sock_ptr n) cb st = Done tt st).
Proof.
  intros Hs Hw Hn Hseq Hend Hi Hj inside.
  assert (Hv : seq_valid s cb = bool_decide inside) by (by apply (seq_valid_offset s cb x)).
  rewrite <- Hv. split; [by apply valid_run|]. intros Hout. apply (process_dropped st n s); [done|].
  rewrite Hv. by apply bool_decide_false.
Qed.

(** ** The handshake *)

(** The rest of [tcp_process] for a packet that passed the first three tests. *)
Lemma process_run st n s cb :
  socks st !! n = Some s -> seq_valid s cb = true -> flags cb ≠ TCP_RST -> flags cb ≠ TCP_FIN ->
  tcp_process (sock_ptr n) cb st = tcp_process_state (sock_ptr n) cb (state s) st.
Proof.
  intros Hs Hv Hr Hf. unfold tcp_process. rewrite (bind_done _ _ _ _ _ (valid_run st n s cb Hs)), Hv. cbn [negb].
  destruct (Z.eqb_spec (flags cb) TCP_RST); [done|]. destruct (Z.eqb_spec (flags cb) TCP_FIN); [done|].
  by rewrite (bind_done _ _ _ s st) by (by apply sock_run).
Qed.

(** The test meant to recognise SYN|ACK never fails. *)
Lemma syn_ack_test_true f : syn_ack_test f = true.
Proof. unfold syn_ack_test. by destruct (f =? TCP_SYN). Qed.

(** [wake_up] of a live wait structure. *)
Definition notified_wait (w : Wait.synch_wait) : Wait.synch_wait :=
  if Wait.notified w =? 0 then Wait.SynchWait 1 0 (Wait.sleep w) else w.
Lemma wake_up_live st n s c :
  socks st !! n = Some s -> Wait.dead (get_wait c s) = 0 ->
  wake_up (sock_ptr n) c st =
  Done 0 (set_socks (<[n := set_wait c (notified_wait (get_wait c s)) s]> (socks st)) st).
Proof.
  intros Hs Hd. unfold wake_up, notified_wait. erewrite bind_done; [|by apply sock_run].
  unfold Wait.wake_up. rewrite Hd. cbn [negb Z.eqb].
  destruct (Z.eqb_spec (Wait.notified (get_wait c s)) 0); (erewrite bind_done; [|by apply modify_run]); [done|].
  unfold Wait.wait_result. by rewrite Hd.
Qed.

(** One that is not notified yet. *)
Lemma wake_up_run st n s c :
  socks st !! n = Some s -> Wait.dead (get_wait c s) = 0 -> Wait.notified (get_wait c s) = 0 ->
  wake_up (sock_ptr n) c st =
  Done 0 (set_socks (<[n := set_wait c (Wait.SynchWait 1 0 (Wait.sleep (get_wait c s))) s]> (socks st)) st).
Proof.
  intros Hs Hd Hn. rewrite (wake_up_live st n s c Hs Hd). unfold notified_wait. by rewrite Hn.
Qed.

Lemma syn_sent_run st n s cb :
  malloc_ok (nmalloc st) = true -> socks st !! n = Some s -> sock_ok s -> state s = TCP_SYN_SENT ->
  Wait.dead (wait_connect s) = 0 -> Wait.notified (wait_connect s) = 0 ->
  seq_valid s cb = true -> flags cb ≠ TCP_RST -> flags cb ≠ TCP_FIN ->
  exists p st', tcp_process (sock_ptr n) cb st = Done tt st' /\ sent st' = sent st ++ [p] /\ accepted p /\
    cb_of p = cb_for (sk_sip s) (sk_dip s) (sk_sport s) (sk_dport s) (snd_nxt s) (rcv_nxt s) TCP_ACK (rcv_wnd s) 0 /\
    socks st' = <[n := set_wait_connect (Wait.SynchWait 1 0 (Wait.sleep (wait_connect s)))
                         (set_state TCP_ESTABLISHED s)]> (socks st).
Proof.
  intros Hm Hs Hok Hst Hd Hn Hv Hr Hf. set (s1 := set_state TCP_ESTABLISHED s).
  set (st1 := set_socks (<[n := s1]> (socks st)) st).
  assert (Hs1 : socks st1 !! n = Some s1) by apply lookup_insert_eq.
  destruct (control_run st1 n s1 TCP_ACK Hs1 Hm) as (ck & Hacc & R).
  set (p := ctl_packet (length (sent st1)) s1 TCP_ACK ck) in *.
  exists p. eexists. split; [|split; [|split; [exact Hacc|split]]].
  - rewrite (process_run st n s cb) by done. rewrite Hst. unfold tcp_process_state. rewrite syn_ack_test_true.
    erewrite bind_done; [|by apply modify_run]. fold s1 st1. erewrite bind_done; [|exact R].
    erewrite bind_done; [reflexivity|]. apply (wake_up_run _ n s1 WConnect); [apply lookup_insert_eq|done..].
  - done.
  - apply (ctl_packet_cb _ s1 TCP_ACK ck). destruct Hok. by split.
  - cbn [socks set_socks push_sent set_wait]. unfold st1. cbn [socks set_socks]. by rewrite !insert_insert_eq.
Qed.

(** In SYN_SENT every packet inside the window whose flags are not
    exactly RST or FIN establishes the connection, SYN or no SYN, RST|ACK
    included: the socket goes to ESTABLISHED, an ACK is sent and the thread in
    [tcp_sock_connect] is notified. *)
Theorem syn_sent_establishes st n s cb :
  malloc_ok (nmalloc st) = true -> socks st !! n = Some s -> sock_ok s -> state s = TCP_SYN_SENT ->
  Wait.dead (wait_connect s) = 0 -> Wait.notified (wait_connect s) = 0 ->
  seq_valid s cb = true -> flags cb ≠ TCP_RST -> flags cb ≠ TCP_FIN ->
  exists p st', tcp_process (sock_ptr n) cb st = Done tt st' /\ sent st' = sent st ++ [p] /\ accepted p /\
    cb_of p = cb_for (sk_sip s) (sk_dip s) (sk_sport s) (sk_dport s) (snd_nxt s) (rcv_nxt s) TCP_ACK (rcv_wnd s) 0 /\
    socks st' = <[n := set_wait_connect (Wait.SynchWait 1 0 (Wait.sleep (wait_connect s)))
                         (set_state TCP_ESTABLISHED s)]> (socks st).
Proof. apply syn_sent_run. Qed.

Lemma syn_recv_run st p ps n s l1 l2 r cb :
  queues st p (l1 ++ n :: l2) r -> socks st !! p = Some ps -> socks st !! n = Some s -> p ≠ n ->
  parent s = sock_ptr p -> state s = TCP_SYN_RECV -> seq_valid s cb = true ->
  Wait.dead (wait_accept ps) = 0 -> flags cb = TCP_ACK ->
  exists st' ps' s', tcp_process (sock_ptr n) cb st = Done tt st' /\ sent st' = sent st /\
    queues st' p (l1 ++ l2) (r ++ [n]) /\
    socks st' !! n = Some s' /\ strip s' = strip (set_state TCP_ESTABLISHED s) /\
    socks st' !! p = Some ps' /\ accept_backlog ps' = accept_backlog ps + 1 /\
    wait_accept ps' = notified_wait (wait_accept ps) /\
    (forall m t, m ≠ n -> m ≠ p -> socks st !! m = Some t ->
       exists t', socks st' !! m = Some t' /\ strip t' = strip t).
Proof.
  intros Q Hp Hs Hne Hpar Hst Hv Hd Hf.
  destruct (enqueue_run st p ps n s l1 l2 r Q Hp Hs Hpar) as (st1 & R1 & Q1 & Hb1).
  destruct (backlog_sock _ _ _ _ _ Hb1) as (ps1 & Hp1 & Ep1).
  destruct (backlog_other _ _ _ _ _ n s Hb1 (not_eq_sym Hne) Hs) as (s1 & Hs1 & Es1).
  set (s2 := set_state TCP_ESTABLISHED s1). set (st2 := set_socks (<[n := s2]> (socks st1)) st1).
  assert (Hs2 : socks st2 !! n = Some s2) by apply lookup_insert_eq.
  assert (Hp2 : socks st2 !! p = Some ps1) by (simpl; by rewrite lookup_insert_ne).
  assert (Hpar2 : parent s2 = sock_ptr p) by (rewrite <- Hpar; exact (f_equal parent Es1)).
  assert (Ew : wait_accept ps1 = wait_accept ps) by exact (f_equal wait_accept Ep1).
  assert (R3 : wake_up (sock_ptr p) WAccept st2 = Done 0 _)
    by (apply (wake_up_live st2 p ps1 WAccept Hp2); simpl; by rewrite Ew).
  eexists _, _, s2. split.
  { rewrite (process_run st n s cb) by (rewrite ?Hf; done). rewrite Hst. unfold tcp_process_state.
    rewrite Hf, Z.eqb_refl. erewrite bind_done; [|exact R1].
    erewrite bind_done; [|by apply modify_run]. fold s2 st2.
    erewrite bind_done; [|by apply sock_run]. rewrite Hpar2. erewrite bind_done; [reflexivity|exact R3]. }
  split; [apply Hb1|]. split.
  { apply wait_keeps; [done|]. by apply (state_keeps st1 n s1). }
  cbn [socks set_socks]. rewrite lookup_insert_ne, lookup_insert_eq by done.
  split; [done|]. split; [exact (f_equal (set_state TCP_ESTABLISHED) Es1)|].
  split; [done|]. split; [exact (f_equal accept_backlog Ep1)|]. split; [by simpl; rewrite Ew|].
  intros m t Hmn Hmp Ht. rewrite lookup_insert_ne by done.
  replace (socks st2 !! m) with (socks st1 !! m) by (simpl; by rewrite lookup_insert_ne).
  exact (backlog_other _ _ _ _ _ m t Hb1 Hmp Ht).
Qed.


Lemma listen_syn_run st n s cb :
  (forall m, is_Some (socks st !! m) -> (m < next_blk st)%positive) ->
  socks st !! n = Some s -> state s = TCP_LISTEN -> parent s = NULL ->
  seq_valid s cb = true -> flags cb = TCP_SYN ->
  tcp_process (sock_ptr n) cb st = Fault BadAccess.
Proof.
  intros Hfresh Hs Hst Hpar Hv Hf. rewrite (process_run st n s cb) by (rewrite ?Hf; done).
  rewrite Hst. unfold tcp_process_state. rewrite Hf, Z.eqb_refl. unfold tcp_process_listen.
  destruct (alloc_cases st Hfresh) as [F|(st1 & R & Hnew & Hsocks)]; [by apply bind_fault|].
  erewrite bind_done; [|exact R]. set (m := next_blk st) in *.
  assert (Hne : m ≠ n) by (intros E; rewrite <- E in Hs; congruence).
  assert (Hm1 : socks st1 !! m = Some (new_sock m)) by (rewrite Hsocks; apply lookup_insert_eq).
  assert (Hs1 : socks st1 !! n = Some s) by (rewrite Hsocks; by rewrite lookup_insert_ne).
  erewrite bind_done; [|by apply modify_run].
  do 4 (erewrite bind_done; [|apply modify_run, lookup_insert_eq]).
  erewrite bind_done; [|apply sock_run; cbn [socks set_socks]; rewrite !lookup_insert_ne by done; exact Hs1].
  apply bind_fault. rewrite Hpar. done.
Qed.

(** A SYN for a listening socket, which has no parent, never gets
    an answer: the child is queued on the listen queue of the socket's parent
    instead of the socket's own, a null dereference, in every run. *)
Theorem listen_syn_faults st n s cb :
  (forall m, is_Some (socks st !! m) -> (m < next_blk st)%positive) ->
  socks st !! n = Some s -> state s = TCP_LISTEN -> parent s = NULL ->
  seq_valid s cb = true -> flags cb = TCP_SYN ->
  tcp_process (sock_ptr n) cb st = Fault BadAccess.
Proof. apply listen_syn_run. Qed.

(** A packet inside the window with exactly the flag RST makes the socket
    send an ACK and close; with RST|ACK, which is what [tcp_send_reset] sends, it
    is not taken for a reset: an established socket ignores it. *)
Theorem reset_handling st n s cb :
  malloc_ok (nmalloc st) = true -> socks st !! n = Some s -> sock_ok s -> seq_valid s cb = true ->
  (flags cb = TCP_RST -> exists p st1,
     sent st1 = sent st ++ [p] /\ flags (cb_of p) = TCP_ACK /\ socks st1 = socks st /\ table st1 = table st /\
     tcp_process (sock_ptr n) cb st = tcp_sock_close (sock_ptr n) st1) /\
  (flags cb = Z.lor TCP_RST TCP_ACK -> state s = TCP_ESTABLISHED ->
     tcp_process (sock_ptr n) cb st = Done tt st).
Proof.
  intros Hm Hs Hok Hv. split.
  - intros Hf. destruct (control_run st n s TCP_ACK Hs Hm) as (ck & Hacc & R).
    eexists _, _. split; [|split; [|split; [|split]]]; cycle 4.
    + unfold tcp_process. rewrite (bind_done _ _ _ _ _ (valid_run st n s cb Hs)), Hv, Hf. cbn [negb Z.eqb].
      rewrite Z.eqb_refl. erewrite bind_done; [reflexivity|exact R].
    + done.
    + by rewrite ctl_packet_cb.
    + apply (insert_id _ n s Hs).
    + done.
  - intros Hf Hst. rewrite (process_run st n s cb) by (rewrite ?Hf; done). by rewrite Hst.
Qed.

(** A FIN inside the window closes an established socket as if the
    application had asked for it: it sends FIN and goes to FIN_WAIT_1, without
    acknowledging the peer's FIN or passing through CLOSE_WAIT. *)
Theorem fin_handling st n s cb :
  (forall k, malloc_ok k = true) -> socks st !! n = Some s -> sock_ok s -> seq_valid s cb = true ->
  flags cb = TCP_FIN -> state s = TCP_ESTABLISHED -> 1 < ref_cnt s ->
  exists p st' s', tcp_process (sock_ptr n) cb st = Done tt st' /\ sent st' = sent st ++ [p] /\
    flags (cb_of p) = TCP_FIN /\ ack (cb_of p) = rcv_nxt s /\
    socks st' !! n = Some s' /\ state s' = TCP_FIN_WAIT_1 /\ rcv_nxt s' = rcv_nxt s.
Proof.
  intros Hm Hs Hok Hv Hf Hst Href.
  destruct (close_run st n s Hm Hs Hok) as [_ Hrun]; [congruence|].
  destruct Hrun as (ps & st1 & R & E1 & E2 & _ & E4 & _); [congruence|]. rewrite Hst in *.
  assert (Hfl : (fun c => (flags c, ack c)) <$> (cb_of <$> ps) = [(TCP_FIN, rcv_nxt s)]) by (by rewrite E2).
  clear E2. destruct ps as [|p [|]]; try discriminate Hfl. injection Hfl as Hfl Hak.
  unfold released in R. replace (ref_cnt (set_state _ _)) with (ref_cnt s) in R by done.
  destruct (Z.leb_spec (ref_cnt s - 1) 0); [lia|]. eexists p, _, _. split.
  { unfold tcp_process. rewrite (bind_done _ _ _ _ _ (valid_run st n s cb Hs)), Hv, Hf. exact R. }
  split; [exact E1|]. split; [exact Hfl|]. split; [exact Hak|]. split; [apply lookup_insert_eq|done].
Qed.

(** [tcp_update_window_safe] takes over the window a packet
    advertises exactly when its acknowledgement [x + a] lies between [snd_una] at
    [x] and [snd_nxt] at [x + k], wrap-around included; it notifies a blocked
    sender exactly when the low 16 bits of the old window were zero; otherwise
    nothing changes. *)
Theorem tcp_update_window_safe_spec st n s cb x a k :
  socks st !! n = Some s -> snd_una s = u32 x -> snd_nxt s = u32 (x + k) -> ack cb = u32 (x + a) ->
  0 <= k < 2 ^ 30 -> - 2 ^ 30 < a < 2 ^ 30 ->
  Wait.dead (wait_send s) = 0 -> Wait.notified (wait_send s) = 0 ->
  tcp_update_window_safe (sock_ptr n) cb st = Done tt (
    if decide (0 <= a <= k) then
      set_socks (<[n := (if u16 (snd_wnd s) =? 0
                         then set_wait_send (Wait.SynchWait 1 0 (Wait.sleep (wait_send s))) else id)
                        (set_snd_wnd (rwnd cb) s)]> (socks st)) st
    else st).
Proof.
  intros Hs Hu Hx Ha Hk Hak Hd Hn. unfold tcp_update_window_safe.
  rewrite (bind_done _ _ _ s st) by (by apply sock_run).
  assert (Ht : less_or_equal_32b (snd_una s) (ack cb) && less_or_equal_32b (ack cb) (snd_nxt s)
               = bool_decide (0 <= a <= k)).
  { rewrite Hu, Hx, Ha. replace (u32 x) with (u32 (x + 0)) by (by rewrite Z.add_0_r).
    destruct (less_32b_offset x 0 a) as [_ ->]; [lia|]. destruct (less_32b_offset x a k) as [_ ->]; [lia|].
    apply eq_true_iff_eq. rewrite bool_decide_eq_true, andb_true_iff, !Z.leb_le. done. }
  rewrite Ht. destruct (decide (0 <= a <= k)) as [Hin|Hout];
    [rewrite bool_decide_true by done|by rewrite bool_decide_false].
  unfold tcp_update_window. rewrite (bind_done _ _ _ s st) by (by apply sock_run).
  erewrite bind_done; [|by apply modify_run].
  destruct (u16 (snd_wnd s) =? 0); [|done].
  erewrite bind_done; [|apply (wake_up_run _ n (set_snd_wnd (rwnd cb) s) WSend); [apply lookup_insert_eq|done..]].
  cbn [socks set_socks]. by rewrite insert_insert_eq.
Qed.

End Theorems.

Section Witnesses.
Existing Instances demo_env demo_layer demo_layer_ok.

(** A packet of the demo connection, at the sequence number expected. *)
Definition cb_with (fl : Z) : tcp_cb := TcpCb 0x0a000002 0x0a000001 12345 10001 0 0 0 0 fl 20 0.
Definition heap1 (s : tcp_sock) : stack := Stack {[ 1%positive := s ]} 2 ∅ zero_node [] 0.

(** The demo socket starts with an empty window: number 0 is still accepted. *)
Lemma seq_window_spec_witness :
  is_tcp_seq_valid (sock_ptr 1) (cb_with TCP_ACK) (heap1 (demo_sock TCP_ESTABLISHED)) =
  Done true (heap1 (demo_sock TCP_ESTABLISHED)).
Proof.
  destruct (seq_window_spec (heap1 (demo_sock TCP_ESTABLISHED)) 1%positive (demo_sock TCP_ESTABLISHED)
    (cb_with TCP_ACK) 0 0 0) as [R _];
    [reflexivity|unfold is_u16; simpl; lia|reflexivity|reflexivity|reflexivity|lia|lia|].
  rewrite R. reflexivity.
Defined.

Lemma syn_sent_establishes_witness :
  exists p st', tcp_process (sock_ptr 1) (cb_with (Z.lor TCP_RST TCP_ACK)) (heap1 (demo_sock TCP_SYN_SENT)) = Done tt st' /\
    sent st' = [p] /\ flags (cb_of p) = TCP_ACK.
Proof.
  destruct (syn_sent_establishes (heap1 (demo_sock TCP_SYN_SENT)) 1%positive (demo_sock TCP_SYN_SENT)
    (cb_with (Z.lor TCP_RST TCP_ACK))) as (p & st' & R & E & _ & Ecb & _);
    [reflexivity|reflexivity|apply demo_sock_ok|reflexivity|reflexivity|reflexivity|reflexivity|discriminate|discriminate|].
  exists p, st'. split; [exact R|]. split; [exact E|]. by rewrite Ecb.
Defined.


Lemma listen_syn_faults_witness :
  tcp_process (sock_ptr 1) (cb_with TCP_SYN) (heap1 (demo_sock TCP_LISTEN)) = Fault BadAccess.
Proof.
  apply (listen_syn_faults (heap1 (demo_sock TCP_LISTEN)) 1%positive (demo_sock TCP_LISTEN) (cb_with TCP_SYN));
    [|reflexivity|reflexivity|reflexivity|reflexivity|reflexivity].
  intros m [x Hx]. simpl in Hx. apply lookup_singleton_Some in Hx as [<- _]. done.
Defined.

Lemma reset_handling_witness :
  tcp_process (sock_ptr 1) (cb_with (Z.lor TCP_RST TCP_ACK)) (heap1 (demo_sock TCP_ESTABLISHED)) =
  Done tt (heap1 (demo_sock TCP_ESTABLISHED)).
Proof.
  destruct (reset_handling (heap1 (demo_sock TCP_ESTABLISHED)) 1%positive (demo_sock TCP_ESTABLISHED)
    (cb_with (Z.lor TCP_RST TCP_ACK))) as [_ R]; [reflexivity|reflexivity|apply demo_sock_ok|reflexivity|].
  apply R; reflexivity.
Defined.

Lemma fin_handling_witness :
  exists p st', tcp_process (sock_ptr 1) (cb_with TCP_FIN) (heap1 (set_ref_cnt 2 (demo_sock TCP_ESTABLISHED))) = Done tt st' /\
    sent st' = [p] /\ flags (cb_of p) = TCP_FIN.
Proof.
  destruct (fin_handling (heap1 (set_ref_cnt 2 (demo_sock TCP_ESTABLISHED))) 1%positive
    (set_ref_cnt 2 (demo_sock TCP_ESTABLISHED)) (cb_with TCP_FIN)) as (p & st' & s' & R & E & Ef & _);
    [done|reflexivity|by destruct (demo_sock_ok TCP_ESTABLISHED)|reflexivity|reflexivity|reflexivity|simpl; lia|].
  exists p, st'. split; [exact R|]. split; [exact E|exact Ef].
Defined.

Lemma tcp_update_window_safe_spec_witness :
  exists st', tcp_update_window_safe (sock_ptr 1) (cb_with TCP_ACK) (heap1 (demo_sock TCP_ESTABLISHED)) = Done tt st'.
Proof.
  rewrite (tcp_update_window_safe_spec (heap1 (demo_sock TCP_ESTABLISHED)) 1%positive (demo_sock TCP_ESTABLISHED)
    (cb_with TCP_ACK) 0 0 0); [by eexists|reflexivity|reflexivity|reflexivity|reflexivity|lia|lia|reflexivity|reflexivity].
Defined.

End Witnesses.
