(* ===== verification/Handshake.v ===== *)
(** * From the last packet of the handshake to the application

    The receive loop and a thread in [tcp_sock_accept] together: children in
    SYN_RECV wait in the listen queue of their parent, the application sleeps on
    [wait_accept], and the ACKs that complete the handshakes come in.  (Outside this
    file nothing puts a child into that queue: in tcp_in.c the SYN of a listening
    socket faults.) *)

From S2P Require Import Prelude DList RingBuffer SynchWait Layout Segment Memory Sock SockTables Out SockApi AcceptQueue Calls TcpIn.

Section Handshake.
Context `{Env} `{IpLayerOk}.

(** Segments in the order they arrive, each with the socket it is for. *)
Fixpoint process_all (l : list (positive * tcp_cb)) : M unit :=
  match l with
  | [] => ret tt
  | (n, cb) :: l => tcp_process (sock_ptr n) cb;; process_all l
  end.

(** [k] calls of [tcp_sock_accept], one after the other. *)
Fixpoint accept_all (k : nat) (tsk : ptr) : M (list ptr) :=
  match k with
  | O => ret []
  | S k => do c <- tcp_sock_accept tsk; do cs <- accept_all k tsk; ret (c :: cs)
  end.

(** Child [n] of [p] waits for its ACK, and [cb] is one. *)
Definition awaits (st : stack) (p n : positive) (cb : tcp_cb) : Prop :=
  n ≠ p /\ flags cb = TCP_ACK /\
  exists s, socks st !! n = Some s /\ parent s = sock_ptr p /\ state s = TCP_SYN_RECV /\ seq_valid s cb = true.

Definition established (st : stack) (n : positive) : Prop :=
  exists s, socks st !! n = Some s /\ state s = TCP_ESTABLISHED.

Lemma strip_state_eq s s' : strip s' = strip s -> state s' = state s.
Proof. intros E. exact (f_equal state E). Qed.

Lemma awaits_strip st st' p n cb :
  (forall s, socks st !! n = Some s -> exists s', socks st' !! n = Some s' /\ strip s' = strip s) ->
  awaits st p n cb -> awaits st' p n cb.
Proof.
  intros Hk (Hne & Hf & s & Hs & Hpar & Hst & Hv). split; [done|]. split; [done|].
  destruct (Hk s Hs) as (s' & Hs' & Es). exists s'. split; [done|].
  split; [rewrite <- Hpar; exact (f_equal parent Es)|].
  split; [rewrite <- Hst; exact (f_equal state Es)|].
  rewrite <- Hv. exact (f_equal (fun x => seq_valid x cb) Es).
Qed.

Lemma established_strip st st' n :
  (forall s, socks st !! n = Some s -> exists s', socks st' !! n = Some s' /\ strip s' = strip s) ->
  established st n -> established st' n.
Proof.
  intros Hk (s & Hs & Hst). destruct (Hk s Hs) as (s' & Hs' & Es). exists s'. split; [done|].
  by rewrite (strip_state_eq _ _ Es).
Qed.

(** The children whose ACK is not among [l]. *)
Definition still (l : list (positive * tcp_cb)) (pending : list positive) : list positive :=
  filter (fun m => m ∉ l.*1) pending.

Lemma still_nil pending : still [] pending = pending.
Proof.
  unfold still. induction pending as [|m l IH]; [done|].
  rewrite filter_cons_True by apply not_elem_of_nil. by rewrite IH.
Qed.

Lemma still_cons n cb l l1 l2 :
  NoDup (l1 ++ n :: l2) -> still l (l1 ++ l2) = still ((n, cb) :: l) (l1 ++ n :: l2).
Proof.
  intros ND. unfold still. rewrite <- (filter_middle n l1 l2 ND), list_filter_filter.
  apply list_filter_iff. intros m. rewrite fmap_cons, not_elem_of_cons. naive_solver.
Qed.

(** The ACKs complete the handshakes in the order in which they come. *)
Lemma process_all_run l st p ps pending ready :
  queues st p pending ready -> socks st !! p = Some ps -> Wait.dead (wait_accept ps) = 0 ->
  NoDup l.*1 -> Forall (fun x => x.1 ∈ pending /\ awaits st p x.1 x.2) l ->
  exists st' ps', process_all l st = Done tt st' /\ sent st' = sent st /\
    queues st' p (still l pending) (ready ++ l.*1) /\ Forall (established st') l.*1 /\
    socks st' !! p = Some ps' /\ Wait.dead (wait_accept ps') = 0 /\
    (l ≠ [] -> Wait.notified (wait_accept ps') ≠ 0) /\
    accept_backlog ps' = accept_backlog ps + Z.of_nat (length l) /\
    (Wait.notified (wait_accept ps) ≠ 0 -> Wait.notified (wait_accept ps') ≠ 0) /\
    (forall m t, m ∉ l.*1 -> m ≠ p -> socks st !! m = Some t ->
       exists t', socks st' !! m = Some t' /\ strip t' = strip t).
Proof.
  revert st ps pending ready. induction l as [|[n cb] l IH]; intros st ps pending ready Q Hp Hd ND Hl.
  - exists st, ps. split; [done|]. split; [done|]. rewrite app_nil_r.
    split; [|split; [by constructor|split; [done|split; [done|split; [done|split; [simpl; lia|split; [done|eauto]]]]]]].
    by rewrite still_nil.
  - apply NoDup_cons in ND as [Hn ND]. apply Forall_cons in Hl as [[Hin Haw] Hl]. simpl in Hin, Haw, Hn.
    destruct Haw as (Hne & Hf & s & Hs & Hpar & Hst & Hv).
    destruct (list_elem_of_split _ _ Hin) as (l1 & l2 & ->).
    pose proof (proj1 (dlist_socks _ _ _ _ (q_lq _ _ _ _ Q))) as NDp.
    destruct (syn_recv_run st p ps n s l1 l2 ready cb Q Hp Hs (not_eq_sym Hne) Hpar Hst Hv Hd Hf)
      as (st1 & ps1 & s1 & R1 & Ese1 & Q1 & Hs1 & Es1 & Hp1 & Eb1 & Ew1 & Ho1).
    assert (Hd1 : Wait.dead (wait_accept ps1) = 0)
      by (rewrite Ew1; unfold notified_wait; by destruct (_ =? 0)).
    destruct (IH st1 ps1 (l1 ++ l2) (ready ++ [n]) Q1 Hp1 Hd1 ND) as (st' & ps' & R & Ese & Q' & He & Hp' & Hd' & _ & Eb & Hno & Ho).
    { rewrite Forall_forall in Hl |- *. intros [m cb'] Hm. destruct (Hl _ Hm) as [Hmin Hmaw]. simpl in *.
      assert (Hmn : m ≠ n) by (intros ->; apply Hn; by apply (list_elem_of_fmap_2 fst) in Hm).
      split; [set_solver|]. apply (awaits_strip st); [|done]. intros t Ht. apply Ho1; [done|by destruct Hmaw|done]. }
    assert (Hnot : Wait.notified (wait_accept ps1) ≠ 0).
    { rewrite Ew1. unfold notified_wait. by destruct (Z.eqb_spec (Wait.notified (wait_accept ps)) 0). }
    exists st', ps'. split; [cbn [process_all]; by rewrite (bind_done _ _ _ _ _ R1)|].
    split; [congruence|]. rewrite (still_cons n cb l l1 l2 NDp) in Q'. rewrite <- app_assoc in Q'. split; [exact Q'|].
    split; [|split; [done|split; [done|split; [auto|split; [simpl; lia|split; [auto|]]]]]].
    + constructor; [|done]. destruct (Ho n s1 Hn Hne Hs1) as (s' & Hs' & Es'). exists s'. split; [done|].
      rewrite (strip_state_eq _ _ Es'), (strip_state_eq _ _ Es1). done.
    + simpl. intros m t [Hmn Hml]%not_elem_of_cons Hmp Ht.
      destruct (Ho1 m t Hmn Hmp Ht) as (t1 & Ht1 & Et1). destruct (Ho m t1 Hml Hmp Ht1) as (t' & Ht' & Et').
      exists t'. split; [done|congruence].
Qed.

(** As many calls as there are children take them all, in order. *)
Lemma accept_all_run st p ps l r :
  queues st p l r -> socks st !! p = Some ps ->
  exists st', accept_all (length r) (sock_ptr p) st = Done (sock_ptr <$> r) st' /\ queues st' p l [] /\
    (forall m t, m ≠ p -> socks st !! m = Some t -> exists t', socks st' !! m = Some t' /\ strip t' = strip t).
Proof.
  revert st ps. induction r as [|n r IH]; intros st ps Q Hp; [exists st; simpl; eauto|].
  destruct (dequeue_run st p ps l n r Q Hp) as (st1 & R1 & Q1 & _ & Hb1).
  destruct (backlog_sock _ _ _ _ _ Hb1) as (ps1 & Hp1 & _).
  destruct (IH st1 ps1 Q1 Hp1) as (st' & R & Q' & Ho). exists st'. split; [|split; [done|]].
  - cbn [accept_all length fmap list_fmap]. assert (Ra : tcp_sock_accept (sock_ptr p) st = Done (sock_ptr n) st1).
    { unfold tcp_sock_accept. erewrite bind_done; [|by apply (accept_empty_test st p l (n :: r))].
      rewrite bool_decide_false by done. exact R1. }
    rewrite (bind_done _ _ _ _ _ Ra), (bind_done _ _ _ _ _ R). done.
  - intros m t Hm Ht. destruct (backlog_other _ _ _ _ _ m t Hb1 Hm Ht) as (t1 & Ht1 & Et1).
    destruct (Ho m t1 Hm Ht1) as (t' & Ht' & Et'). exists t'. split; [done|congruence].
Qed.

(** C9: a thread that sleeps in [tcp_sock_accept] is served.  When ACKs complete
    the handshakes of any number of pending children, in any order, the first of
    them signals the sleeper; woken up, the thread returns the child whose ACK came
    first, and the calls that follow return the others in the order of their ACKs,
    at once, each exactly once and each ESTABLISHED; the other children go on
    waiting in the listen queue, and nothing is sent. *)
Theorem acceptor_served st0 p ps0 pending0 :
  queues st0 p pending0 [] -> socks st0 !! p = Some ps0 ->
  Wait.dead (wait_accept ps0) = 0 -> Wait.notified (wait_accept ps0) = 0 ->
  exists st1 k, tcp_sock_accept (sock_ptr p) st0 = Asleep st1 (sock_ptr p) WAccept k /\
    (exists ps1, socks st1 !! p = Some ps1 /\ wait_accept ps1 = Wait.SynchWait 0 0 1) /\
    forall st ps pending n cb l,
      let acks := (n, cb) :: l in
      queues st p pending [] -> socks st !! p = Some ps -> wait_accept ps = Wait.SynchWait 0 0 1 ->
      NoDup acks.*1 -> Forall (fun x => x.1 ∈ pending /\ awaits st p x.1 x.2) acks ->
      (Wait.wake_up (wait_accept ps)).2 = Wait.Signal /\
      (exists st1 ps1, process_all [(n, cb)] st = Done tt st1 /\ socks st1 !! p = Some ps1 /\
         Wait.notified (wait_accept ps1) ≠ 0) /\
      exists st2 st3 st4,
        process_all acks st = Done tt st2 /\ sent st2 = sent st /\
        k st2 = Done (sock_ptr n) st3 /\
        accept_all (length l) (sock_ptr p) st3 = Done (sock_ptr <$> l.*1) st4 /\
        queues st4 p (still acks pending) [] /\ Forall (established st4) acks.*1.
Proof.
  intros Q0 Hp0 Hd0 Hn0. unfold tcp_sock_accept at 1.
  erewrite bind_done; [|by apply (accept_empty_test st0 p pending0 [])].
  rewrite bool_decide_true by done. cbn [negb]. eexists _, _. split.
  { unfold bind at 1. rewrite (sleep_on_blocks st0 p ps0 WAccept); [reflexivity|done..]. }
  split; [exists (set_wait WAccept (Wait.SynchWait 0 0 1) ps0); split; [apply lookup_insert_eq|done]|].
  intros st ps pending n cb l. set (acks := (n, cb) :: l). intros Q Hp Hw ND Hl. split; [by rewrite Hw|]. split.
  { destruct (process_all_run [(n, cb)] st p ps pending [] Q Hp ltac:(by rewrite Hw))
      as (st1 & ps1 & R1 & _ & _ & _ & Hp1 & _ & Hno & _);
      [apply NoDup_singleton|by apply Forall_cons in Hl as [Hl _]; repeat constructor; apply Hl|].
    exists st1, ps1. auto. }
  destruct (process_all_run acks st p ps pending [] Q Hp ltac:(by rewrite Hw) ND Hl)
    as (st2 & ps2 & R2 & Ese & Q2 & He & Hp2 & Hd2 & _).
  destruct (dequeue_run _ p _ (still acks pending) n l.*1
    (wait_keeps st2 p ps2 WAccept Wait.wait_init Hp2 p _ _ Q2) (lookup_insert_eq _ _ _)) as (st3 & R3 & Q3 & _ & Hb3).
  destruct (backlog_sock _ _ _ _ _ Hb3) as (ps3 & Hp3 & _).
  destruct (accept_all_run st3 p ps3 _ _ Q3 Hp3) as (st4 & R4 & Q4 & Ho4).
  exists st2, st3, st4. split; [exact R2|]. split; [exact Ese|]. split; [|split; [|split; [exact Q4|]]].
  - rewrite (resume_run st2 p ps2 WAccept) by done. simpl. exact R3.
  - rewrite <- R4. by rewrite length_fmap.
  - rewrite Forall_forall in He |- *. intros m Hm. specialize (He m Hm).
    assert (Hmp : m ≠ p).
    { rewrite Forall_forall in Hl. apply list_elem_of_fmap in Hm as (x & -> & Hx). by destruct (Hl x Hx) as [_ [? _]]. }
    apply (established_strip st2); [|done]. intros s Hs.
    destruct (backlog_other _ _ _ _ _ m s Hb3 Hmp) as (s3 & Hs3 & Es3);
      [cbn [socks set_socks]; by rewrite lookup_insert_ne|].
    destruct (Ho4 m s3 Hmp Hs3) as (s4 & Hs4 & Es4). exists s4. split; [done|congruence].
Qed.

End Handshake.

Section Witnesses.
Existing Instances demo_env demo_layer demo_layer_ok.

Definition idle_listener : stack :=
  two (listener (self (lq 1)) (self (aq 1)) Wait.wait_init) (child (node 2)).
Definition child_pending : stack :=
  two (listener (self (node 2)) (self (aq 1)) (Wait.SynchWait 0 0 1)) (child (lq 1)).

Lemma idle_listener_queues : queues idle_listener 1 [] [].
Proof. demo_queues. Qed.
Lemma child_pending_queues : queues child_pending 1 [2%positive] [].
Proof. demo_queues. Qed.

Lemma acceptor_served_witness : exists st1 k st2 st3,
  tcp_sock_accept (sock_ptr 1) idle_listener = Asleep st1 (sock_ptr 1) WAccept k /\
  process_all [(2%positive, cb_with TCP_ACK)] child_pending = Done tt st2 /\
  k st2 = Done (sock_ptr 2) st3 /\ established st3 2.
Proof.
  destruct (acceptor_served idle_listener 1%positive (listener (self (lq 1)) (self (aq 1)) Wait.wait_init) [])
    as (st1 & k & R & _ & Hk); [apply idle_listener_queues|reflexivity|reflexivity|reflexivity|].
  destruct (Hk child_pending (listener (self (node 2)) (self (aq 1)) (Wait.SynchWait 0 0 1)) [2%positive]
    2%positive (cb_with TCP_ACK) []) as (_ & _ & st2 & st3 & st4 & R2 & _ & R3 & R4 & _ & He).
  - apply child_pending_queues.
  - reflexivity.
  - reflexivity.
  - apply NoDup_singleton.
  - constructor; [|constructor]. split; [apply list_elem_of_singleton; reflexivity|].
    split; [discriminate|]. split; [reflexivity|]. eexists. split; [reflexivity|].
    split; [reflexivity|]. split; [reflexivity|]. vm_compute. reflexivity.
  - exists st1, k, st2, st3. split; [exact R|]. split; [exact R2|]. split; [exact R3|].
    injection R4 as <-. apply Forall_inv in He. exact He.
Defined.

End Witnesses.
