(* ===== verification/Timer.v ===== *)
(** * Timers (tcp_timer.c)

    tcp_timer.c does not compile as it stands; it is read as it is evidently
    meant: the member [list_head] in [tcp_scan_timer_list] as [list],
    [retranstimer->enable] in [tcp_set_timewait_timer] as [time_wait->enable], and
    in [tcp_unset_retrans_timer] the missing second argument of
    [list_for_each_entry_safe] and the missing [&&] supplied.  None of the three
    functions that set or unset timers is called by the program. *)

From S2P Require Import Prelude DList RingBuffer SynchWait Layout Segment Memory Sock SockTables Ports Out SockApi AcceptQueue Calls.

Definition TCP_MSL : Z := 1000000.
Definition TCP_TIMEWAIT_TIMEOUT : Z := 2 * TCP_MSL.
Definition TCP_TIMER_SCAN_INTERVAL : Z := 100000.
Definition TCP_RETRANS_INTERVAL_INITIAL : Z := 200000.

(** [&timer_list] *)
Definition timer_head : ptr := Ptr BTimers 0.

Definition set_type (v : Z) (t : tcp_timer) : tcp_timer := TcpTimer v (timeout t) (tlist t) (enable t).
Definition set_timeout (v : Z) (t : tcp_timer) : tcp_timer := TcpTimer (type t) v (tlist t) (enable t).
Definition set_enable (v : Z) (t : tcp_timer) : tcp_timer := TcpTimer (type t) (timeout t) (tlist t) v.

Section Code.
Context `{Env}.

(** The timer at an offset of a socket, with the way to replace it. *)
Definition sock_timer (o : Z) : option ((tcp_sock -> tcp_timer) * (tcp_timer -> tcp_sock -> tcp_sock)) :=
  if o =? off_timewait then Some (timewait, set_timewait)
  else if o =? off_retrans_timer then Some (retrans_timer, set_retrans_timer)
  else None.

(** [*t] and [t->member = ...] for a pointer to a timer. *)
Definition timer (t : ptr) : M tcp_timer := fun st =>
  match t with
  | Ptr (BSock n) o =>
      match socks st !! n, sock_timer o with
      | Some s, Some (get, _) => Done (get s) st
      | _, _ => Fault BadAccess
      end
  | _ => Fault BadAccess
  end.
Definition modify_timer (t : ptr) (f : tcp_timer -> tcp_timer) : M unit := fun st =>
  match t with
  | Ptr (BSock n) o =>
      match socks st !! n, sock_timer o with
      | Some s, Some (get, set) => Done tt (set_socks (<[n := set (f (get s)) s]> (socks st)) st)
      | _, _ => Fault BadAccess
      end
  | _ => Fault BadAccess
  end.

Definition timewait_to_tcp_sock (t : ptr) : ptr := ptr_add t (- off_timewait).
Definition retranstimer_to_tcp_sock (t : ptr) : ptr := ptr_add t (- off_retrans_timer).

(** The loop of [tcp_scan_timer_list] from node [pos] on.  Through the pointer
    that [timewait_to_tcp_sock] makes of a retransmission timer, the stores hit
    members of other types, which is reported as a fault. *)
Fixpoint scan_from (fuel : nat) (pos : ptr) : M unit :=
  match fuel with
  | O => fail Endless
  | S fuel =>
      if decide (pos = timer_head) then ret tt
      else
        let t := ptr_add pos (- off_timer_list) in
        do tm <- timer t;
        (if TCP_TIMEWAIT_TIMEOUT <=? timeout tm then
           let tsk := timewait_to_tcp_sock t in
           tcp_set_state tsk TCP_CLOSED;;
           free_tcp_sock tsk
         else ret tt);;
        (fun st => match node_get st pos with
           | Some n => scan_from fuel (next n) st | None => Fault BadAccess end)
  end.

(** A socket has two timers. *)
Definition timer_fuel (st : stack) : nat := S (2 * size (socks st)).

Definition tcp_scan_timer_list : M unit := fun st =>
  match node_get st timer_head with
  | Some n => scan_from (timer_fuel st) (next n) st
  | None => Fault BadAccess
  end.

Definition tcp_set_timewait_timer (tsk : ptr) : M unit :=
  let time_wait := ptr_add tsk off_timewait in
  modify_timer time_wait (set_type 0);;
  modify_timer time_wait (set_timeout TCP_TIMEWAIT_TIMEOUT);;
  list_op (fun st => list_add_tail st (ptr_add time_wait off_timer_list) timer_head);;
  modify_timer time_wait (set_enable 1).

Definition tcp_set_retrans_timer (tsk : ptr) : M unit :=
  let retranstimer := ptr_add tsk off_retrans_timer in
  modify_timer retranstimer (set_type 1);;
  modify_timer retranstimer (set_timeout TCP_TIMEWAIT_TIMEOUT);;
  list_op (fun st => list_add_tail st (ptr_add retranstimer off_timer_list) timer_head);;
  modify_timer retranstimer (set_enable 1).

(** [tmp->sk_sip], [sk_dip], [sk_sport] and [sk_dport], where [tmp] points to a
    socket or, made of a retransmission timer, 32 bytes into one: there lie the
    two pointers of [hash_list]. *)
Definition hash_list_bytes (s : tcp_sock) : list Z :=
  le_store 8 (ptr_addr (next (hash_list s))) ++ le_store 8 (ptr_addr (prev (hash_list s))).
Definition tuple_at (tmp : ptr) : M (Z * Z * Z * Z) := fun st =>
  match tmp with
  | Ptr (BSock n) o =>
      match socks st !! n with
      | Some s =>
          if o =? 0 then Done (conn s) st
          else if o =? off_hash_list then
            let bs := hash_list_bytes s in
            Done (load 4 bs 0, load 4 bs 6, load 2 bs 4, load 2 bs 10) st
          else Fault BadAccess
      | None => Fault BadAccess
      end
  | _ => Fault BadAccess
  end.

Fixpoint unset_from (fuel : nat) (pos : ptr) (tsk : ptr) : M unit :=
  match fuel with
  | O => fail Endless
  | S fuel =>
      if decide (pos = timer_head) then ret tt
      else
        let t := ptr_add pos (- off_timer_list) in
        do q <- (fun st => match node_get st pos with Some n => Done (next n) st | None => Fault BadAccess end);
        let tmp := timewait_to_tcp_sock t in
        do a <- tuple_at tmp;
        do b <- tuple_at tsk;
        if decide (a = b) then
          list_op (fun st => list_delete_entry st pos);;
          modify_timer (ptr_add tsk off_retrans_timer) (set_enable 0)
        else unset_from fuel q tsk
  end.

Definition tcp_unset_retrans_timer (tsk : ptr) : M unit := fun st =>
  match node_get st timer_head with
  | Some n => unset_from (timer_fuel st) (next n) tsk st
  | None => Fault BadAccess
  end.

(** [n] rounds of the timer thread. *)
Fixpoint timer_rounds (n : nat) : M unit :=
  match n with O => ret tt | S n => tcp_scan_timer_list;; timer_rounds n end.
Definition tcp_timer_thread (n : nat) : M unit :=
  list_op (fun st => init_list_head st timer_head);; timer_rounds n.

End Code.

(** ** Lemmas *)

(** Where the nodes of the time-wait timers lie. *)
Definition off_tw : Z := off_timewait + off_timer_list.
Definition expired (s : tcp_sock) : Prop := TCP_TIMEWAIT_TIMEOUT <= timeout (timewait s).

(** A timer of the list: its socket, and whether it is the retransmission timer. *)
Definition entry : Type := positive * bool.
Definition entry_off (e : entry) : Z := if e.2 then off_retrans_timer else off_timewait.
Definition entry_ptr (e : entry) : ptr := Ptr (BSock e.1) (entry_off e + off_timer_list).
Definition entry_timer (e : entry) (s : tcp_sock) : tcp_timer := if e.2 then retrans_timer s else timewait s.

(** An entry the scan cannot pass: its timeout is that of the time-wait state, and
    it is a retransmission timer or belongs to a socket that loses its last
    reference. *)
Definition fatal (st : stack) (e : entry) : Prop :=
  exists s, socks st !! e.1 = Some s /\ TCP_TIMEWAIT_TIMEOUT <= timeout (entry_timer e s) /\
    (e.2 = true \/ ref_cnt s <= 1).

(** The sockets a scan closes. *)
Definition closes (st : stack) (es : list entry) (n : positive) : bool :=
  bool_decide ((n, false) ∈ es) && on_sock st (fun s => TCP_TIMEWAIT_TIMEOUT <=? timeout (timewait s)) n.

(** What a scan does to such a socket. *)
Definition scanned (s : tcp_sock) : tcp_sock := set_ref_cnt (ref_cnt s - 1) (set_state TCP_CLOSED s).

Lemma list_walk_ext (st st' : stack) fuel pos h :
  (forall p : ptr, node_get st' p = node_get st p) -> list_walk fuel st' pos h = list_walk fuel st pos h.
Proof.
  intros E. revert pos. induction fuel as [|fuel IH]; intros pos; [done|]. cbn [list_walk].
  case_decide; [done|]. rewrite E. destruct (node_get st pos); [|done]. cbn [mbind option_bind]. by rewrite IH.
Qed.

Lemma scanned_keeps (s : tcp_sock) o get set : sock_node o = Some (get, set) -> get (scanned s) = get s.
Proof. revert o get set. unfold scanned. keeps. Qed.

Section Theorems.
Context `{Env}.

Lemma timer_run st e s :
  socks st !! e.1 = Some s -> timer (Ptr (BSock e.1) (entry_off e)) st = Done (entry_timer e s) st.
Proof. intros Hs. unfold timer. rewrite Hs. destruct e as [n []]; done. Qed.

(** The body of the loop, for a timer with the timeout of the time-wait state. *)
Lemma scan_step st n s :
  socks st !! n = Some s ->
  (tcp_set_state (sock_ptr n) TCP_CLOSED;; free_tcp_sock (sock_ptr n)) st =
  Done tt (set_socks (if ref_cnt s <=? 1 then delete n (socks st) else <[n := scanned s]> (socks st)) st).
Proof.
  intros Hs. erewrite bind_done; [|by apply modify_run].
  rewrite (free_tcp_sock_run _ n (set_state TCP_CLOSED s)) by apply lookup_insert_eq.
  unfold released. change (ref_cnt (set_state TCP_CLOSED s)) with (ref_cnt s).
  destruct (Z.leb_spec (ref_cnt s - 1) 0), (Z.leb_spec (ref_cnt s) 1); try lia; cbn [socks set_socks].
  - by rewrite delete_insert_eq.
  - by rewrite insert_insert_eq.
Qed.

Lemma scan_from_overdue fuel st e s :
  socks st !! e.1 = Some s -> TCP_TIMEWAIT_TIMEOUT <= timeout (entry_timer e s) ->
  scan_from (S fuel) (entry_ptr e) st =
  if e.2 || (ref_cnt s <=? 1) then Fault BadAccess
  else
    let st1 := set_socks (<[e.1 := scanned s]> (socks st)) st in
    match node_get st1 (entry_ptr e) with Some n => scan_from fuel (next n) st1 | None => Fault BadAccess end.
Proof.
  intros Hs Hx. cbn [scan_from]. rewrite decide_False by done.
  replace (ptr_add (entry_ptr e) (- off_timer_list)) with (Ptr (BSock e.1) (entry_off e)) by (by destruct e as [n []]).
  erewrite bind_done; [|by apply timer_run]. rewrite (proj2 (Z.leb_le _ _) Hx).
  destruct e as [n []]; [by do 2 apply bind_fault|]. simpl fst in *. cbn [snd orb].
  change (timewait_to_tcp_sock (Ptr (BSock n) (entry_off (n, false)))) with (sock_ptr n).
  erewrite bind_done; [|by apply scan_step]. destruct (ref_cnt s <=? 1); [|done].
  simpl. by rewrite lookup_delete_eq.
Qed.

Lemma scan_from_other fuel st e s nd :
  socks st !! e.1 = Some s -> timeout (entry_timer e s) < TCP_TIMEWAIT_TIMEOUT -> node_get st (entry_ptr e) = Some nd ->
  scan_from (S fuel) (entry_ptr e) st = scan_from fuel (next nd) st.
Proof.
  intros Hs Hx Hnd. cbn [scan_from]. rewrite decide_False by done.
  replace (ptr_add (entry_ptr e) (- off_timer_list)) with (Ptr (BSock e.1) (entry_off e)) by (by destruct e as [n []]).
  erewrite bind_done; [|by apply timer_run]. rewrite (proj2 (Z.leb_gt _ _) Hx).
  rewrite (bind_done _ _ _ tt st) by done. by rewrite Hnd.
Qed.

(** Scanning a socket does not matter for the other entries. *)
Lemma fatal_scanned st n s e :
  socks st !! n = Some s -> e ≠ (n, false) ->
  fatal (set_socks (<[n := scanned s]> (socks st)) st) e <-> fatal st e.
Proof.
  intros Hs Hne. unfold fatal. simpl. destruct (decide (e.1 = n)) as [E|E]; [|by rewrite lookup_insert_ne].
  destruct e as [m r]. simpl in *. subst m. rewrite lookup_insert_eq, Hs. destruct r; [|done].
  split; intros (t & [= <-] & Hx & _); eexists; (split; [reflexivity|]); auto.
Qed.

Lemma closes_cons st n r es m :
  closes st ((n, r) :: es) m =
  (bool_decide (m = n) && negb r && on_sock st (fun s => TCP_TIMEWAIT_TIMEOUT <=? timeout (timewait s)) m || closes st es m)%bool.
Proof.
  unfold closes. destruct (on_sock _ _ m); [|by rewrite !andb_false_r]. rewrite !andb_true_r.
  destruct r; simpl; case_bool_decide as E1; case_bool_decide as E2; try case_bool_decide as E3; set_solver.
Qed.

Lemma closes_scanned st n s es m :
  socks st !! n = Some s -> closes (set_socks (<[n := scanned s]> (socks st)) st) es m = closes st es m.
Proof.
  intros Hs. unfold closes, on_sock. simpl. destruct (decide (m = n)) as [->|]; [by rewrite lookup_insert_eq, Hs|].
  by rewrite lookup_insert_ne.
Qed.

(** What a scan leaves. *)
Definition scan_done (st : stack) (es : list entry) (st' : stack) : Prop :=
  (forall p : ptr, node_get st' p = node_get st p) /\ sent st' = sent st /\
  (forall n, socks st' !! n = if closes st es n then scanned <$> socks st !! n else socks st !! n).

Lemma scan_done_cons st n s es st' :
  socks st !! n = Some s -> expired s -> (n, false) ∉ es ->
  scan_done (set_socks (<[n := scanned s]> (socks st)) st) es st' -> scan_done st ((n, false) :: es) st'.
Proof.
  intros Hs Hx Hn (Dk & Ds & Dn). split; [|split; [exact Ds|]].
  - intros p. rewrite Dk. apply (modify_node_get st n s); [done|]. intros. by eapply scanned_keeps.
  - intros m. rewrite Dn, closes_scanned, closes_cons by done. cbn [socks set_socks].
    assert (Hcl : closes st es n = false) by (unfold closes; by rewrite bool_decide_false).
    case_bool_decide as E; [subst m|by rewrite lookup_insert_ne].
    unfold on_sock. rewrite Hcl, lookup_insert_eq, Hs, (proj2 (Z.leb_le _ _) Hx). done.
Qed.

Lemma scan_from_run fuel st pos es :
  list_walk fuel st pos timer_head = Some (entry_ptr <$> es) -> NoDup es ->
  (forall e, e ∈ es -> is_Some (socks st !! e.1)) ->
  ((exists e, e ∈ es /\ fatal st e) /\ scan_from fuel pos st = Fault BadAccess) \/
  ((forall e, e ∈ es -> ~ fatal st e) /\ exists st', scan_from fuel pos st = Done tt st' /\ scan_done st es st').
Proof.
  revert st pos es. induction fuel as [|fuel IH]; intros st pos es Hw ND Hl; [done|].
  cbn [list_walk] in Hw. case_decide as Hpos.
  { injection Hw as Hw. destruct es as [|? es]; [|discriminate]. right. split; [set_solver|]. exists st.
    cbn [scan_from]. rewrite decide_True by done. by repeat split. }
  destruct (node_get st pos) as [nd|] eqn:Hnd; [|done]. cbn [mbind option_bind] in Hw.
  destruct (list_walk fuel st (next nd) timer_head) as [l'|] eqn:Hl'; [|done]. injection Hw as Hw.
  destruct es as [|e es]; [done|]. injection Hw as -> ->. apply NoDup_cons in ND as [He ND].
  destruct (Hl e ltac:(set_solver)) as [s Hs].
  destruct (Z.lt_ge_cases (timeout (entry_timer e s)) TCP_TIMEWAIT_TIMEOUT) as [Hx|Hx].
  - assert (Hf : ~ fatal st e) by (intros (t & Ht & ? & _); simplify_eq; lia).
    rewrite (scan_from_other fuel st e s nd Hs Hx Hnd).
    destruct (IH st (next nd) es Hl' ND) as [[(e' & ? & ?) R]|(Hno & st' & R & D)]; [set_solver|left|right].
    + split; [exists e'; set_solver|done].
    + split; [set_solver|]. exists st'. split; [done|]. destruct D as (Dk & Ds & Dn). split; [done|]. split; [done|].
      intros m. rewrite Dn. destruct e as [n r]. rewrite closes_cons. unfold on_sock at 1.
      case_bool_decide as E; [|done]. subst m. simpl in Hs. rewrite Hs. destruct r; [done|]. simpl in Hx.
      by rewrite (proj2 (Z.leb_gt _ (timeout (timewait s))) Hx).
  - rewrite (scan_from_overdue fuel st e s Hs Hx). destruct (e.2 || (ref_cnt s <=? 1)) eqn:Ef.
    { left. split; [|done]. exists e. split; [set_solver|]. exists s. split; [done|]. split; [done|].
      apply orb_true_iff in Ef as [->|Ef%Z.leb_le]; auto. }
    apply orb_false_iff in Ef as [Er Ec%Z.leb_gt]. destruct e as [n r]. simpl in Er, Hs. subst r. cbn [fst].
    cbv zeta. set (st1 := set_socks (<[n := scanned s]> (socks st)) st).
    assert (Hk : forall p : ptr, node_get st1 p = node_get st p).
    { intros p. apply (modify_node_get st n s); [done|]. intros. by eapply scanned_keeps. }
    assert (Hfat : forall e', e' ∈ es -> fatal st1 e' <-> fatal st e')
      by (intros e' He'; apply fatal_scanned; [done|by intros ->]).
    rewrite Hk, Hnd. destruct (IH st1 (next nd) es) as [[(e' & He' & Hf') R]|(Hno & st' & R & D)];
      [by rewrite (list_walk_ext st)|done| |left|right].
    + intros e' He'. simpl. rewrite lookup_insert_is_Some'. right. apply Hl. set_solver.
    + split; [|done]. exists e'. split; [set_solver|]. by apply Hfat.
    + split; [|by exists st'; split; [|by apply (scan_done_cons st n s)]].
      intros e' [->|He']%elem_of_cons; [|by rewrite <- Hfat; auto].
      intros (t & Ht & _ & [?|?]); simpl in *; simplify_eq; lia.
Qed.

Lemma entries_ok st es :
  dlist st timer_head (entry_ptr <$> es) ->
  NoDup es /\ (forall e, e ∈ es -> is_Some (socks st !! e.1)) /\ (length es < timer_fuel st)%nat.
Proof.
  intros D. assert (ND : NoDup es) by (destruct D as [ND _]; apply NoDup_cons in ND as [_ ND]; by apply NoDup_fmap_1 in ND).
  assert (Hs : forall e, e ∈ es -> is_Some (socks st !! e.1)).
  { intros e He. destruct (dlist_node st timer_head _ (entry_ptr e) D) as [nd Hnd].
    - apply elem_of_cons. right. apply list_elem_of_fmap. by exists e.
    - simpl in Hnd. by destruct (socks st !! e.1). }
  split; [done|]. split; [done|]. unfold timer_fuel.
  assert (E : forall b, (length (filter (fun e : entry => e.2 = b) es) <= size (socks st))%nat).
  { intros b. rewrite <- (length_fmap (fst : entry -> positive)). rewrite <- size_dom, <- (size_list_to_set (C := gset positive)).
    - apply subseteq_size. intros n (e & -> & [_ He]%list_elem_of_filter)%elem_of_list_to_set%list_elem_of_fmap.
      by apply elem_of_dom, Hs.
    - apply NoDup_fmap_2_strong; [|by apply NoDup_filter].
      intros [n1 b1] [n2 b2] [E1 _]%list_elem_of_filter [E2 _]%list_elem_of_filter. simpl in *. by intros ->; subst. }
  pose proof (E true) as E1. pose proof (E false) as E2. clear -E1 E2.
  assert (Ee : length es = (length (filter (fun e : entry => e.2 = true) es) + length (filter (fun e : entry => e.2 = false) es))%nat);
    [|rewrite Ee; lia].
  clear. induction es as [|[n []] es IH]; [done|..]; rewrite !filter_cons; simpl; rewrite IH; lia.
Qed.

Lemma scan_cases st es :
  dlist st timer_head (entry_ptr <$> es) ->
  ((exists e, e ∈ es /\ fatal st e) /\ tcp_scan_timer_list st = Fault BadAccess) \/
  ((forall e, e ∈ es -> ~ fatal st e) /\ exists st', tcp_scan_timer_list st = Done tt st' /\ scan_done st es st').
Proof.
  intros D. destruct (entries_ok st es D) as (ND & Hs & Hlen).
  destruct (list_for_each_entry_ok st timer_head _ (timer_fuel st) D) as [Hw _]; [rewrite length_fmap; lia|].
  unfold list_for_each_entry in Hw. unfold tcp_scan_timer_list.
  destruct (node_get st timer_head) as [nd|]; [|done]. cbn [mbind option_bind] in Hw. by apply scan_from_run.
Qed.

(** ** Theorems *)

(** C39: a scan of any well-formed list of timers, of both kinds and with any
    timeouts: it faults if and only if some timer in the list whose timeout is
    that of the time-wait state is a retransmission timer or belongs to a socket
    with no more than one reference.  Otherwise it ends; exactly the
    sockets whose time-wait timers are in the list with that timeout are
    set to CLOSED and lose a reference, however short the time they have been there,
    since the code never compares with or counts down any time; nothing is taken
    off the list, nothing else of a socket changes and nothing is sent. *)
Theorem tcp_scan_timer_list_spec st es :
  dlist st timer_head (entry_ptr <$> es) ->
  (tcp_scan_timer_list st = Fault BadAccess <-> exists e, e ∈ es /\ fatal st e) /\
  ((forall e, e ∈ es -> ~ fatal st e) ->
   exists st', tcp_scan_timer_list st = Done tt st' /\ dlist st' timer_head (entry_ptr <$> es) /\ sent st' = sent st /\
     (forall n, socks st' !! n =
        if closes st es n then (fun s => set_ref_cnt (ref_cnt s - 1) (set_state TCP_CLOSED s)) <$> socks st !! n
        else socks st !! n)).
Proof.
  intros D. destruct (scan_cases st es D) as [[Hf R]|(Hno & st' & R & Hk & Hse & Hso)].
  - split; [done|]. intros Hno. destruct Hf as (e & He & Hf). by destruct (Hno e He).
  - split; [rewrite R; split; [done|intros (e & He & Hf); by destruct (Hno e He)]|]. intros _. exists st'.
    split; [done|]. split; [by apply (dlist_ext st)|]. by split.
Qed.

(** When the first socket of the list holds its last reference, the
    scan frees it and then follows the link in the freed memory. *)
Theorem scan_use_after_free st n s l :
  dlist st timer_head (nodes off_tw (n :: l)) -> socks st !! n = Some s -> expired s -> ref_cnt s <= 1 ->
  tcp_scan_timer_list st = Fault BadAccess.
Proof.
  intros D Hs Hx Hr. assert (E : nodes off_tw (n :: l) = entry_ptr <$> ((fun m => (m, false)) <$> n :: l))
    by (unfold nodes; by rewrite <- list_fmap_compose).
  rewrite E in D. destruct (scan_cases st _ D) as [[_ R]|[Hno _]]; [done|]. destruct (Hno (n, false)); [by left|].
  exists s. auto.
Qed.

(** ** Setting timers *)

Lemma modify_timer_run st n s o get set f :
  socks st !! n = Some s -> sock_timer o = Some (get, set) ->
  modify_timer (Ptr (BSock n) o) f st = Done tt (set_socks (<[n := set (f (get s)) s]> (socks st)) st).
Proof. intros Hs Ho. unfold modify_timer. by rewrite Hs, Ho. Qed.

(** A timer set and armed, but for its list node. *)
Definition armed (ty : Z) (t : tcp_timer) : Prop :=
  type t = ty /\ timeout t = TCP_TIMEWAIT_TIMEOUT /\ enable t = 1.

Lemma timewait_nodes s t o get set :
  tlist t = tlist (timewait s) -> sock_node o = Some (get, set) -> get (set_timewait t s) = get s.
Proof. intros E. unfold sock_node. repeat (case_match; [intros [= <- <-]; done|]). done. Qed.
Lemma retrans_nodes s t o get set :
  tlist t = tlist (retrans_timer s) -> sock_node o = Some (get, set) -> get (set_retrans_timer t s) = get s.
Proof. intros E. unfold sock_node. repeat (case_match; [intros [= <- <-]; done|]). done. Qed.

(** [tcp_set_timewait_timer] of a socket whose timer is not in the
    list appends the timer, armed with two seconds, and changes nothing else of
    the socket but its list nodes; the timer counts as expired at once, so that
    the next scan, at most a tenth of a second later, releases the socket. *)
Theorem tcp_set_timewait_timer_spec st n s l :
  dlist st timer_head (nodes off_tw l) -> socks st !! n = Some s -> n ∉ l ->
  exists st' s', tcp_set_timewait_timer (sock_ptr n) st = Done tt st' /\
    dlist st' timer_head (nodes off_tw (l ++ [n])) /\ socks st' !! n = Some s' /\
    armed 0 (timewait s') /\ expired s' /\ ref_cnt s' = ref_cnt s /\ state s' = state s /\ conn s' = conn s /\
    (forall m t, m ≠ n -> socks st !! m = Some t -> exists t', socks st' !! m = Some t' /\ strip t' = strip t).
Proof.
  intros D Hs Hn. set (t1 := set_timeout TCP_TIMEWAIT_TIMEOUT (set_type 0 (timewait s))).
  set (s1 := set_timewait t1 s). set (st1 := set_socks (<[n := s1]> (socks st)) st).
  assert (Hs1 : socks st1 !! n = Some s1) by apply lookup_insert_eq.
  assert (D1 : dlist st1 timer_head (nodes off_tw l)).
  { apply (dlist_ext st); [done|]. intros p _. apply (modify_node_get st n s); [done|].
    intros o get set. by apply timewait_nodes. }
  destruct (list_add_ok st1 timer_head (nodes off_tw l) (Ptr (BSock n) off_tw) D1) as [_ (st2 & E2 & D2 & O2)].
  { intros [?|Hx]%elem_of_cons; [done|]. by apply nodes_elem in Hx. }
  { simpl. rewrite lookup_insert_eq. simpl. eauto. }
  pose proof (list_add_tail_data _ _ _ _ E2) as X2.
  destruct (data_sock _ _ _ _ X2 Hs1) as (s2 & Hs2 & Es2).
  set (s3 := set_timewait (set_enable 1 (timewait s2)) s2).
  exists (set_socks (<[n := s3]> (socks st2)) st2), s3. split.
  { unfold tcp_set_timewait_timer. erewrite bind_done; [|by apply (modify_timer_run _ n s off_timewait)].
    erewrite bind_done; [|eapply (modify_timer_run _ n _ off_timewait); [apply lookup_insert_eq|done]].
    cbn [socks set_socks]. rewrite insert_insert_eq. change (set_socks _ (set_socks _ st)) with st1.
    erewrite bind_done; [|apply list_op_run; exact E2]. by apply (modify_timer_run _ n s2 off_timewait). }
  split.
  { unfold nodes in *. rewrite fmap_app. apply (dlist_ext st2); [exact D2|]. intros p _.
    apply (modify_node_get st2 n s2); [done|]. intros o get set. by apply timewait_nodes. }
  assert (Et : timeout (timewait s2) = TCP_TIMEWAIT_TIMEOUT) by exact (f_equal (fun x => timeout (timewait x)) Es2).
  split; [apply lookup_insert_eq|]. split; [|split; [unfold expired; simpl; by rewrite Et|]].
  { split; [exact (f_equal (fun x => type (timewait x)) Es2)|]. split; [exact Et|done]. }
  split; [exact (f_equal ref_cnt Es2)|]. split; [exact (f_equal state Es2)|]. split; [exact (f_equal conn Es2)|].
  intros m t Hne Ht. simpl. rewrite lookup_insert_ne by done.
  apply (data_sock st1 st2 m t X2). simpl. by rewrite lookup_insert_ne.
Qed.

(** ** Unsetting timers *)

Lemma first_sock_cons f n l : first_sock f (n :: l) = if f n then Some n else first_sock f l.
Proof.
  unfold first_sock. destruct (f n) eqn:E; [by rewrite filter_cons_True|].
  rewrite filter_cons_False; [done|congruence].
Qed.

(** The test of the loop of [tcp_unset_retrans_timer]. *)
Definition same_conn (s t : tcp_sock) : bool := bool_decide (conn t = conn s).

Lemma unset_from_run fuel st pos l k s :
  list_walk fuel st pos timer_head = Some (nodes off_tw l) -> socks st !! k = Some s ->
  (forall n, n ∈ l -> is_Some (socks st !! n)) ->
  unset_from fuel pos (sock_ptr k) st =
  match first_sock (on_sock st (same_conn s)) l with
  | Some m =>
      (list_op (fun st => list_delete_entry st (Ptr (BSock m) off_tw));;
       modify_timer (Ptr (BSock k) off_retrans_timer) (set_enable 0)) st
  | None => Done tt st
  end.
Proof.
  intros Hw Hk Hl. revert pos l Hw Hl. induction fuel as [|fuel IH]; intros pos l Hw Hl; [done|].
  cbn [list_walk unset_from] in *. case_decide as Hpos.
  { injection Hw as Hw. by destruct l as [|? l]. }
  destruct (node_get st pos) as [nd|] eqn:Hnd; [|done]. cbn [mbind option_bind] in Hw.
  destruct (list_walk fuel st (next nd) timer_head) as [l'|] eqn:Hl'; [|done]. injection Hw as Hw.
  destruct l as [|n l]; [done|]. injection Hw as Hpn El. subst pos l'.
  destruct (Hl n ltac:(set_solver)) as [t Ht].
  rewrite (bind_done _ _ _ (next nd) st) by (by rewrite Hnd).
  change (timewait_to_tcp_sock _) with (sock_ptr n).
  rewrite (bind_done _ _ _ (conn t) st) by (unfold tuple_at, sock_ptr; by rewrite Ht).
  rewrite (bind_done _ _ _ (conn s) st) by (unfold tuple_at, sock_ptr; by rewrite Hk).
  rewrite first_sock_cons. unfold on_sock at 1. rewrite Ht. unfold same_conn at 1.
  case_decide as E; [by rewrite bool_decide_true|]. rewrite bool_decide_false by done.
  apply IH; [done|set_solver].
Qed.

(** [tcp_unset_retrans_timer], with the timer list as the program fills it, that
    is with time-wait timers, does not touch retransmission timers in the list: it
    takes the first time-wait timer off whose socket has the connection given,
    which for a socket in TIME_WAIT is its own, and clears [enable] of the
    socket's retransmission timer; without such a timer nothing happens, and the
    retransmission timer stays enabled.  The loop always ends. *)
Theorem tcp_unset_retrans_timer_spec st l k s :
  dlist st timer_head (nodes off_tw l) -> socks st !! k = Some s ->
  ((forall n t, n ∈ l -> socks st !! n = Some t -> conn t ≠ conn s) ->
     tcp_unset_retrans_timer (sock_ptr k) st = Done tt st) /\
  (forall l1 m l2 t, l = l1 ++ m :: l2 -> socks st !! m = Some t -> conn t = conn s ->
     (forall n t, n ∈ l1 -> socks st !! n = Some t -> conn t ≠ conn s) ->
     exists st' s', tcp_unset_retrans_timer (sock_ptr k) st = Done tt st' /\
       dlist st' timer_head (nodes off_tw (l1 ++ l2)) /\ sent st' = sent st /\
       socks st' !! k = Some s' /\ enable (retrans_timer s') = 0 /\
       timeout (retrans_timer s') = timeout (retrans_timer s) /\ state s' = state s /\ conn s' = conn s).
Proof.
  intros D Hk. pose proof (dlist_length _ _ _ _ D) as Hlen. pose proof (dlist_socks _ _ _ _ D) as [ND Hl].
  destruct (list_for_each_entry_ok st timer_head _ (timer_fuel st) D) as [Hw _];
    [unfold nodes, timer_fuel; rewrite length_fmap; lia|].
  unfold list_for_each_entry in Hw. unfold tcp_unset_retrans_timer.
  destruct (node_get st timer_head) as [nd|]; [|done]. cbn [mbind option_bind] in Hw.
  rewrite (unset_from_run _ st _ l k s Hw Hk Hl). split.
  - intros Hno. rewrite (proj2 (first_sock_None _ _)); [done|]. intros n Hn. unfold on_sock, same_conn.
    destruct (socks st !! n) as [t|] eqn:Et; [|done]. apply bool_decide_false. by apply (Hno n).
  - intros l1 m l2 t -> Hm Hc Hbefore.
    assert (first_sock (on_sock st (same_conn s)) (l1 ++ m :: l2) = Some m) as ->.
    { clear -Hm Hc Hbefore. induction l1 as [|n l1 IH]; cbn [app]; rewrite first_sock_cons; unfold on_sock at 1, same_conn at 1.
      - by rewrite Hm, bool_decide_true.
      - assert (Hrest : first_sock (on_sock st (same_conn s)) (l1 ++ m :: l2) = Some m)
          by (apply IH; intros n' t' Hn'; apply Hbefore; by right).
        destruct (socks st !! n) as [t'|] eqn:Et; [|exact Hrest].
        rewrite bool_decide_false; [exact Hrest|]. apply (Hbefore n); [by left|done]. }
    unfold nodes in D. rewrite fmap_app in D. destruct (list_delete_entry_ok st timer_head _ _ _ D) as (st1 & E1 & D1 & _).
    pose proof (list_delete_entry_data _ _ _ E1) as X1. destruct (data_sock _ _ _ _ X1 Hk) as (s1 & Hs1 & Es1).
    set (s2 := set_retrans_timer (set_enable 0 (retrans_timer s1)) s1).
    exists (set_socks (<[k := s2]> (socks st1)) st1), s2. split.
    { erewrite bind_done; [|apply list_op_run; exact E1]. by apply (modify_timer_run _ k s1 off_retrans_timer). }
    split; [unfold nodes; rewrite fmap_app; apply (dlist_ext st1); [done|]; intros p _; apply (modify_node_get st1 k s1);
      [done|intros o get set; by apply retrans_nodes]|].
    split; [exact (proj1 (proj2 (data_view _ _ X1)))|]. split; [apply lookup_insert_eq|]. split; [done|].
    split; [exact (f_equal (fun x => timeout (retrans_timer x)) Es1)|].
    split; [exact (f_equal state Es1)|exact (f_equal conn Es1)].
Qed.

(** With a retransmission timer in the list, set as [tcp_set_retrans_timer] sets
    it, the scan takes the timer for a time-wait timer and stores through a pointer
    that is not a socket. *)
Theorem retrans_scan_faults st n s es :
  dlist st timer_head (entry_ptr <$> es) -> (n, true) ∈ es -> socks st !! n = Some s ->
  armed 1 (retrans_timer s) -> tcp_scan_timer_list st = Fault BadAccess.
Proof.
  intros D Hn Hs (_ & Hx & _). destruct (scan_cases st es D) as [[_ R]|[Hno _]]; [done|].
  destruct (Hno _ Hn). exists s. split; [done|]. split; [change (TCP_TIMEWAIT_TIMEOUT <= timeout (retrans_timer s)); lia|by left].
Qed.

End Theorems.

Section Witnesses.
Existing Instance demo_env.

(** Socket 1 alone in the timer list, or in no list. *)
Definition in_timers (s : tcp_sock) : stack :=
  set_timers (ListHead (Ptr (BSock 1) off_tw) (Ptr (BSock 1) off_tw)) (with_socks {[ 1%positive := s ]}).
Definition tw_sock (refs : Z) : tcp_sock :=
  set_ref_cnt refs (set_timewait (TcpTimer 0 TCP_TIMEWAIT_TIMEOUT (ListHead timer_head timer_head) 1)
    (demo_sock TCP_TIME_WAIT)).

Lemma in_timers_list refs : dlist (in_timers (tw_sock refs)) timer_head (nodes off_tw [1%positive]).
Proof.
  split; [apply (bool_decide_unpack _); vm_compute; exact I|].
  intros a b Hab. unfold pairs in Hab. simpl in Hab.
  repeat (apply elem_of_cons in Hab as [Hab|Hab]; [injection Hab as -> ->; split; eexists; split; reflexivity|]).
  by apply elem_of_nil in Hab.
Qed.

Lemma tcp_scan_timer_list_spec_witness :
  (exists st' s', tcp_scan_timer_list (in_timers (tw_sock 2)) = Done tt st' /\
    socks st' !! 1%positive = Some s' /\ state s' = TCP_CLOSED /\ ref_cnt s' = 1) /\
  tcp_scan_timer_list (in_timers (tw_sock 1)) = Fault BadAccess.
Proof.
  split.
  - destruct (tcp_scan_timer_list_spec (in_timers (tw_sock 2)) [(1%positive, false)] (in_timers_list 2)) as [_ Hok].
    destruct Hok as (st' & R & _ & _ & Hs).
    { intros e [->|He]%elem_of_cons; [|by apply elem_of_nil in He]. intros (s & E & _ & [Hr|Hr]); [discriminate Hr|].
      change (Some (tw_sock 2) = Some s) in E. injection E as <-. change (2 <= 1) in Hr. lia. }
    exists st', (scanned (tw_sock 2)). split; [exact R|]. split; [rewrite Hs; reflexivity|split; reflexivity].
  - apply (tcp_scan_timer_list_spec (in_timers (tw_sock 1)) [(1%positive, false)] (in_timers_list 1)).
    exists (1%positive, false). split; [apply elem_of_cons; left; reflexivity|]. exists (tw_sock 1). split; [reflexivity|].
    split; [simpl; lia|right; simpl; lia].
Defined.

Lemma scan_use_after_free_witness : tcp_scan_timer_list (in_timers (tw_sock 1)) = Fault BadAccess.
Proof.
  apply (scan_use_after_free (in_timers (tw_sock 1)) 1%positive (tw_sock 1) []);
    [apply in_timers_list|reflexivity|unfold expired; simpl; lia|simpl; lia].
Defined.

Definition no_timers : stack := set_timers (ListHead timer_head timer_head) (one_sock TCP_ESTABLISHED).
Lemma no_timers_list : dlist no_timers timer_head (nodes off_tw []).
Proof.
  split; [apply NoDup_singleton|]. intros a b Hab. unfold pairs in Hab. simpl in Hab.
  apply elem_of_cons in Hab as [[= -> ->]|Hab]; [split; eexists; split; reflexivity|by apply elem_of_nil in Hab].
Qed.

Lemma tcp_set_timewait_timer_spec_witness :
  exists st', tcp_set_timewait_timer (sock_ptr 1) no_timers = Done tt st' /\
    dlist st' timer_head (nodes off_tw [1%positive]).
Proof.
  destruct (tcp_set_timewait_timer_spec no_timers 1%positive (demo_sock TCP_ESTABLISHED) []) as (st' & s' & R & D & _);
    [apply no_timers_list|reflexivity|set_solver|].
  exists st'. split; [exact R|exact D].
Defined.

Definition retrans_sock : tcp_sock :=
  set_retrans_timer (TcpTimer 1 TCP_TIMEWAIT_TIMEOUT (ListHead timer_head timer_head) 1) (demo_sock TCP_ESTABLISHED).
Definition retrans_set : stack :=
  set_timers (ListHead (Ptr (BSock 1) (off_retrans_timer + off_timer_list)) (Ptr (BSock 1) (off_retrans_timer + off_timer_list)))
    (with_socks {[ 1%positive := retrans_sock ]}).
Lemma retrans_scan_faults_witness : tcp_scan_timer_list retrans_set = Fault BadAccess.
Proof.
  apply (retrans_scan_faults retrans_set 1%positive retrans_sock [(1%positive, true)]); [|by left|reflexivity|repeat split].
  split; [apply (bool_decide_unpack _); vm_compute; exact I|].
  intros a b Hab. unfold pairs in Hab. simpl in Hab.
  repeat (apply elem_of_cons in Hab as [Hab|Hab]; [injection Hab as -> ->; split; eexists; split; reflexivity|]).
  by apply elem_of_nil in Hab.
Defined.

Lemma tcp_unset_retrans_timer_spec_witness :
  exists st' s', tcp_unset_retrans_timer (sock_ptr 1) (in_timers (tw_sock 2)) = Done tt st' /\
    dlist st' timer_head (nodes off_tw []) /\ socks st' !! 1%positive = Some s' /\ enable (retrans_timer s') = 0.
Proof.
  destruct (tcp_unset_retrans_timer_spec (in_timers (tw_sock 2)) [1%positive] 1%positive (tw_sock 2) (in_timers_list 2))
    as [_ P]; [reflexivity|].
  destruct (P [] 1%positive [] (tw_sock 2)) as (st' & s' & R & D & _ & Hs & He & _);
    [reflexivity|reflexivity|reflexivity|intros n t Hn; by apply elem_of_nil in Hn|].
  exists st', s'. split; [exact R|]. split; [exact D|]. split; [exact Hs|exact He].
Defined.

End Witnesses.
