(* ===== verification/Stack.v ===== *)
(** * From the wire to the socket, and the applications (ip.c, tcp.c, tcp_apps.c, part of main.c)

    Received frames as the bytes in the buffer [ustack_run] allocates for them; a
    read past its end is a fault.  What is handed to the ARP and ICMP code of the
    library, and whether the buffer is freed, is the result of the handlers. *)

From S2P Require Import Prelude Hash Checksum DList RingBuffer SynchWait Layout Segment Memory Ifaces Sock SockTables Ports Out SockApi AcceptQueue Calls TcpIn.

Definition ETH_P_IP : Z := 0x0800.
Definition ETH_P_ARP : Z := 0x0806.
Definition ICMP_ECHOREQUEST : Z := 8.
Definition BUF_SIZE : Z := 1000.

(** What [handle_packet] did with a frame: whether the ICMP library was asked for
    an echo reply, whether it went to the ARP library, whether the buffer was
    freed here. *)
Record verdict := Verdict { v_echo : bool; v_arp : bool; v_freed : bool }.

(** A TCP header at the start of [bs], with what follows it.  The code reads the
    members up to [checksum], 18 bytes. *)
Definition tcp_at (bs : list Z) : option (tcphdr * list Z) :=
  if (length bs <? 18)%nat then None
  else t ← tcphdr_of_bytes (bs ++ replicate (20 - length bs) 0); Some (t, drop 20 bs).

Section Code.
Context `{Env} `{IpLayer}.

(** [bs]: the memory from the TCP header to the end of the buffer. *)
Definition handle_tcp_packet (ip : iphdr) (bs : list Z) : M unit :=
  do (tcp, rest) <- checked (tcp_at bs);
  if Z.of_nat (length bs) <? tcp_len ip then fail BadAccess
  else
    do ck <- checked (tcp_checksum ip tcp rest);
    if negb (ck =? th_check tcp) then ret tt
    else
      let cb := tcp_cb_init ip tcp in
      do tsk <- tcp_sock_lookup cb;
      tcp_process tsk cb.

Definition handle_ip_packet (iface : option iface_info) (packet : list Z) : M verdict :=
  do ip <- checked (iphdr_of_bytes (drop 14 packet));
  do iface <- checked iface;
  let data := drop (Z.to_nat (14 + IP_HDR_SIZE ip)) packet in
  if ntohl (ip_daddr ip) =? if_ip iface then
    do echo <-
      (if protocol ip =? IPPROTO_ICMP then
         do type <- checked (data !! 0%nat); ret (type =? ICMP_ECHOREQUEST)
       else if protocol ip =? IPPROTO_TCP then handle_tcp_packet ip data;; ret false
       else ret false);
    ret (Verdict echo false true)
  else ret (Verdict false false false).

Definition handle_packet (iface : option iface_info) (packet : list Z) : M verdict :=
  if (length packet <? 14)%nat then fail BadAccess
  else
    let ether_type := ntohs (load 2 packet 12) in
    if ether_type =? ETH_P_IP then handle_ip_packet iface packet
    else if ether_type =? ETH_P_ARP then ret (Verdict false true false)
    else ret (Verdict false false false).

(** The body of the receive loop of [ustack_run] for one ready descriptor:
    [recvfrom] returned [len] bytes of [buf]; [outgoing]: the packet type is
    PACKET_OUTGOING.  [None]: no handler was called. *)
Definition ustack_receive (u : ustack) (fd len : Z) (buf : list Z) (outgoing : bool) : M (option verdict) :=
  if len <=? 0 then ret None
  else if outgoing then ret None
  else
    do iface <- checked (fd_to_iface u fd);
    do ok <- malloc;
    if negb ok then ret None
    else do v <- handle_packet iface (take (Z.to_nat len) buf); ret (Some v).

(** ** Applications *)

(** One round of the server's loop with the buffer [rbuf] of [BUF_SIZE] bytes:
    the buffer after it and what was written to the file, or [None] when the
    loop ends.  [fwrite] of more than the buffer holds reads past it. *)
Definition server_round (csk : ptr) (rbuf : list Z) : M (option (list Z * list Z)) :=
  do (rlen, data) <- tcp_sock_read csk BUF_SIZE;
  let rbuf := Ring.memcpy rbuf 0 data in
  if rlen =? 0 then ret None
  else if 0 <? rlen then
    if BUF_SIZE <? rlen then fail BadAccess
    else ret (Some (rbuf, take (Z.to_nat rlen) rbuf))
  else ret (Some (rbuf, [])).

(** At most [n] rounds; the file's contents. *)
Fixpoint server_loop (n : nat) (csk : ptr) (rbuf : list Z) : M (list Z) :=
  match n with
  | O => fail Endless
  | S n =>
      do r <- server_round csk rbuf;
      match r with
      | None => ret []
      | Some (rbuf, out) => do rest <- server_loop n csk rbuf; ret (out ++ rest)
      end
  end.

(** [port] in network order; [rbuf]: what the stack held. *)
Definition tcp_server (port : Z) (rbuf : list Z) (rounds : nat) : M (list Z) :=
  do tsk <- alloc_tcp_sock;
  do r <- tcp_sock_bind tsk port;
  if r <? 0 then c_exit 1
  else
    do r <- tcp_sock_listen tsk 3;
    if r <? 0 then c_exit 1
    else
      do csk <- tcp_sock_accept tsk;
      do file <- server_loop rounds csk rbuf;
      tcp_sock_close csk;;
      ret file.

(** The loop of the client over the file it sends. *)
Fixpoint client_loop (fuel : nat) (tsk : ptr) (file : list Z) : M unit :=
  match fuel with
  | O => fail Endless
  | S fuel =>
      let buf := take (Z.to_nat BUF_SIZE) file in
      let ret_size := Z.of_nat (length buf) in
      tcp_sock_write tsk buf ret_size;;
      if ret_size <? BUF_SIZE then ret tt else client_loop fuel tsk (drop (Z.to_nat BUF_SIZE) file)
  end.

(** [ip] and [port] in network order. *)
Definition tcp_client (ip port : Z) (file : list Z) : M unit :=
  do tsk <- alloc_tcp_sock;
  do r <- tcp_sock_connect tsk ip port;
  if r <? 0 then c_exit 1
  else
    client_loop (S (length file)) tsk file;;
    tcp_sock_close tsk.

End Code.

(** ** Theorems *)

Lemma tcp_at_bytes t rest : tcphdr_ok t -> tcp_at (tcphdr_bytes t ++ rest) = Some (t, rest).
Proof.
  intros Ht. unfold tcp_at. rewrite length_app, length_tcphdr_bytes.
  destruct (Nat.ltb_spec (20 + length rest) 18); [lia|].
  replace (20 - (20 + length rest))%nat with 0%nat by lia. rewrite app_nil_r, tcphdr_roundtrip by done.
  cbn [mbind option_bind]. by rewrite drop_app_length'.
Qed.

(** A frame with a packet of this program in it: what the device reads. *)
Definition frame_of (eth : list Z) (p : packet) : list Z :=
  eth ++ iphdr_bytes (pk_ip p) ++ tcphdr_bytes (pk_tcp p) ++ pk_data p.

Section Theorems.
Context `{Env} `{IpLayerOk}.

Lemma handle_tcp_run ip t rest st :
  tcphdr_ok t -> tcp_len ip <= 20 + Z.of_nat (length rest) ->
  handle_tcp_packet ip (tcphdr_bytes t ++ rest) st =
  if decide (tcp_checksum ip t rest = Some (th_check t))
  then (do tsk <- tcp_sock_lookup (tcp_cb_init ip t); tcp_process tsk (tcp_cb_init ip t)) st
  else Done tt st.
Proof.
  intros Ht Hl. unfold handle_tcp_packet. rewrite tcp_at_bytes by done.
  rewrite (bind_done _ _ _ (t, rest) st) by done. rewrite length_app, length_tcphdr_bytes.
  destruct (Z.ltb_spec (Z.of_nat (20 + length rest)) (tcp_len ip)); [lia|].
  assert (exists ck, tcp_checksum ip t rest = Some ck) as [ck E].
  { unfold tcp_checksum, read_bytes. rewrite length_app, length_tcphdr_bytes.
    destruct (Z.leb_spec (tcp_len ip) (Z.of_nat (20 + length rest))); [by eexists|lia]. }
  rewrite E. rewrite (bind_done _ _ _ ck st) by done.
  destruct (Z.eqb_spec ck (th_check t)) as [->|Hne]; [by rewrite decide_True|].
  rewrite decide_False by congruence. done.
Qed.

Lemma packet_run eth p iface st :
  length eth = 14%nat -> iphdr_ok (pk_ip p) -> tcphdr_ok (pk_tcp p) -> ihl (pk_ip p) = 5 ->
  protocol (pk_ip p) = IPPROTO_TCP -> tcp_len (pk_ip p) <= 20 + Z.of_nat (length (pk_data p)) ->
  let run := handle_ip_packet (Some iface) (frame_of eth p) st in
  let process := (do tsk <- tcp_sock_lookup (cb_of p); tcp_process tsk (cb_of p)) st in
  (daddr (cb_of p) ≠ if_ip iface -> run = Done (Verdict false false false) st) /\
  (daddr (cb_of p) = if_ip iface -> ~ accepted p -> run = Done (Verdict false false true) st) /\
  (daddr (cb_of p) = if_ip iface -> accepted p ->
     (forall st', process = Done tt st' -> run = Done (Verdict false false true) st') /\
     (forall f, process = Fault f -> run = Fault f)).
Proof.
  intros He Hi Ht Hihl Hp Hl run process. unfold run, handle_ip_packet, frame_of.
  rewrite drop_app_length' by done. rewrite iphdr_roundtrip by done.
  rewrite (bind_done _ _ _ (pk_ip p) st) by done. rewrite (bind_done _ _ _ iface st) by done.
  change (daddr (cb_of p)) with (ntohl (ip_daddr (pk_ip p))).
  destruct (Z.eqb_spec (ntohl (ip_daddr (pk_ip p))) (if_ip iface)) as [Hd|Hd]; [|by repeat split].
  split; [done|]. unfold IP_HDR_SIZE. rewrite Hihl, Hp. change (Z.to_nat (14 + 5 * 4)) with (14 + 20)%nat.
  rewrite <- drop_drop, drop_app_length', drop_app_length' by done.
  change (IPPROTO_TCP =? IPPROTO_ICMP) with false. change (IPPROTO_TCP =? IPPROTO_TCP) with true. cbv iota.
  pose proof (handle_tcp_run (pk_ip p) (pk_tcp p) (pk_data p) st Ht Hl) as R. unfold accepted. split.
  - intros _ Ha. rewrite decide_False in R by done.
    erewrite bind_done; [|by erewrite bind_done; [|exact R]]. done.
  - intros _ Ha. rewrite decide_True in R by done. split.
    + intros st' E. erewrite bind_done; [|by erewrite bind_done; [|rewrite R; exact E]]. done.
    + intros f E. apply bind_fault, bind_fault. rewrite R. exact E.
Qed.

(** C24: a packet whose headers are in range and carry no IP options,
    arriving byte for byte on an interface: addressed to another host it is
    dropped, and the buffer leaks; else, if its checksum is wrong, it is dropped
    and freed without any effect; else exactly [tcp_process] runs, on the socket
    [tcp_sock_lookup] finds and on the control block of the packet, and the
    buffer is freed. *)
Theorem packet_delivery eth p iface st :
  length eth = 14%nat -> iphdr_ok (pk_ip p) -> tcphdr_ok (pk_tcp p) -> ihl (pk_ip p) = 5 ->
  protocol (pk_ip p) = IPPROTO_TCP -> tcp_len (pk_ip p) <= 20 + Z.of_nat (length (pk_data p)) ->
  let run := handle_ip_packet (Some iface) (frame_of eth p) st in
  let process := (do tsk <- tcp_sock_lookup (cb_of p); tcp_process tsk (cb_of p)) st in
  (daddr (cb_of p) ≠ if_ip iface -> run = Done (Verdict false false false) st) /\
  (daddr (cb_of p) = if_ip iface -> ~ accepted p -> run = Done (Verdict false false true) st) /\
  (daddr (cb_of p) = if_ip iface -> accepted p ->
     (forall st', process = Done tt st' -> run = Done (Verdict false false true) st') /\
     (forall f, process = Fault f -> run = Fault f)).
Proof. apply packet_run. Qed.

Lemma lookup_null st c cb :
  tables_ok st c ->
  (forall n s, n ∈ c TEst (tcp_hash_function (daddr cb) (saddr cb) (dport cb) (sport cb)) ->
     socks st !! n = Some s -> conn s ≠ (daddr cb, saddr cb, dport cb, sport cb)) ->
  (forall n s, n ∈ c TLis (tcp_hash_function 0 0 (dport cb) 0) -> socks st !! n = Some s -> sk_sport s ≠ dport cb) ->
  tcp_sock_lookup cb st = Done NULL st.
Proof.
  intros HT He Hl. rewrite (lookup_none st c cb HT He), (lookup_listen_run st c _ _ (to_lists _ _ HT)).
  destruct (first_sock _ _) as [m|] eqn:E; [|done]. exfalso.
  apply first_sock_Some in E as [Hm Ht]. unfold on_sock in Ht.
  destruct (socks st !! m) as [t|] eqn:Et; [|done]. zprop. by apply (Hl m t).
Qed.

(** A TCP segment with a right checksum for which there is neither an
    established nor a listening socket is not answered with a reset: the null
    socket is dereferenced. *)
Theorem unknown_connection_faults st c ip t rest :
  tables_ok st c -> tcphdr_ok t -> tcp_len ip <= 20 + Z.of_nat (length rest) ->
  tcp_checksum ip t rest = Some (th_check t) ->
  let cb := tcp_cb_init ip t in
  (forall n s, n ∈ c TEst (tcp_hash_function (daddr cb) (saddr cb) (dport cb) (sport cb)) ->
     socks st !! n = Some s -> conn s ≠ (daddr cb, saddr cb, dport cb, sport cb)) ->
  (forall n s, n ∈ c TLis (tcp_hash_function 0 0 (dport cb) 0) -> socks st !! n = Some s -> sk_sport s ≠ dport cb) ->
  handle_tcp_packet ip (tcphdr_bytes t ++ rest) st = Fault BadAccess.
Proof.
  intros HT Ht Hl Hck cb He Hli. rewrite handle_tcp_run by done. rewrite decide_True by done.
  rewrite (bind_done _ _ _ _ _ (lookup_null st c cb HT He Hli)). done.
Qed.

(** [handle_tcp_packet] trusts the length in the IP header: when it says
    more than was received, the checksum is computed past the end of the buffer. *)
Theorem short_segment_overread ip bs st :
  (18 <= length bs)%nat -> Z.of_nat (length bs) < tcp_len ip ->
  handle_tcp_packet ip bs st = Fault BadAccess.
Proof.
  intros H18 Hl. unfold handle_tcp_packet.
  assert (exists x, tcp_at bs = Some x) as [[t rest] E].
  { unfold tcp_at. destruct (Nat.ltb_spec (length bs) 18); [lia|]. unfold tcphdr_of_bytes.
    rewrite length_app, length_replicate.
    destruct (Nat.ltb_spec (length bs + (20 - length bs)) 20); [lia|]. by eexists. }
  rewrite E. rewrite (bind_done _ _ _ (t, rest) st) by done.
  by destruct (Z.ltb_spec (Z.of_nat (length bs)) (tcp_len ip)); [|lia].
Qed.

(** ** The server *)

(** The first [tcp_sock_read] of the server on a connection with
    the initial window of 65535 and nothing received returns 65535, and [fwrite]
    reads that many bytes from the 1000-byte buffer. *)
Theorem server_overreads n csk s rbuf st :
  socks st !! csk = Some s -> Ring.wf (rcv_buf s) -> Ring.contents (rcv_buf s) = [] ->
  rcv_wnd s = TCP_DEFAULT_WINDOW ->
  server_loop (S n) (sock_ptr csk) rbuf st = Fault BadAccess.
Proof.
  intros Hs Hwf Hc Hw. cbn [server_loop]. apply bind_fault. unfold server_round.
  destruct (read_run st csk s BUF_SIZE Hs Hwf) as (rb & _ & _ & R); [done|]. rewrite Hc in R.
  rewrite take_nil, Hw in R. rewrite (bind_done _ _ _ _ _ R). done.
Qed.

(** The node of a fresh block and the queues of a new socket. *)
Lemma fresh_no_table st c n : tables_ok st c -> socks st !! n = None -> in_no_table c n.
Proof.
  intros HT Hn w h Hh Hm. destruct (dlist_socks _ _ _ _ (lo_list _ _ (to_lists _ _ HT) w h Hh)) as [_ Hl].
  destruct (Hl n Hm) as [s Hs]. congruence.
Qed.

Lemma next_blk_no_table st c :
  tables_ok st c -> (forall m, is_Some (socks st !! m) -> (m < next_blk st)%positive) ->
  in_no_table c (next_blk st).
Proof.
  intros HT Hfresh. apply (fresh_no_table st); [done|]. apply eq_None_not_Some. intros Hs.
  by apply (Pos.lt_irrefl (next_blk st)), Hfresh.
Qed.

(** [tcp_sock_accept] on an empty queue with no notification pending. *)
Lemma accept_blocks st n s l :
  queues st n l [] -> socks st !! n = Some s -> wait_accept s = Wait.wait_init ->
  tcp_sock_accept (sock_ptr n) st =
  Asleep (set_socks (<[n := set_wait WAccept (Wait.SynchWait 0 0 1) s]> (socks st)) st) (sock_ptr n) WAccept
    (fun st => (sleep_on_resume (sock_ptr n) WAccept;; tcp_sock_accept_dequeue (sock_ptr n)) st).
Proof.
  intros Q Hs Hw. unfold tcp_sock_accept. rewrite (bind_done _ _ _ _ _ (accept_empty_test st n l [] Q)).
  rewrite bool_decide_true by done. cbn [negb]. unfold bind at 1.
  rewrite (sleep_on_blocks st n s WAccept); [reflexivity|done|simpl; by rewrite Hw..].
Qed.

Lemma self_dlist (st : stack) h : node_get st h = Some (ListHead h h) -> dlist st h [].
Proof.
  intros E. split; [apply NoDup_singleton|]. intros a b Hab. unfold pairs in Hab. simpl in Hab.
  apply elem_of_cons in Hab as [[= -> ->]|Hab]; [|by apply elem_of_nil in Hab].
  split; eexists; (split; [exact E|done]).
Qed.

Lemma new_sock_queues st n :
  node_get st (lq n) = Some (listen_queue (new_sock n)) ->
  node_get st (aq n) = Some (accept_queue (new_sock n)) -> queues st n [] [].
Proof. intros E1 E2. split; [by apply self_dlist|by apply self_dlist|set_solver]. Qed.

Lemma sport_keeps p s o get set : sock_node o = Some (get, set) -> get (set_sport p s) = get s.
Proof. revert o get set. keeps. Qed.

(** The server's socket while its thread sleeps in [accept]. *)
Definition listening (n : positive) (p : Z) : tcp_sock :=
  set_wait WAccept (Wait.SynchWait 0 0 1)
    (set_ref_cnt 2 (set_state TCP_LISTEN (set_backlog 3 (set_sport p (new_sock n))))).

(** [tcp_server] up to where it sleeps. *)
Lemma server_run st c port rbuf rounds :
  tables_ok st c -> bound_no_parent st c ->
  (forall m, is_Some (socks st !! m) -> (m < next_blk st)%positive) -> allocs_ok (nmalloc st) = true ->
  let n := next_blk st in let p := if ntohs port =? 0 then PORT_MIN else ntohs port in
  exists st' s' k, tcp_server port rbuf rounds st = Asleep st' (sock_ptr n) WAccept k /\
    tables_ok st' (linked_twice c n TLis (set_sport p (new_sock n))) /\
    socks st' !! n = Some s' /\ strip s' = strip (listening n p) /\
    queues st' n [] [] /\ sent st' = sent st /\ dom (socks st') = {[ n ]} ∪ dom (socks st) /\
    timer_list st' = timer_list st.
Proof.
  intros HT Hp Hfresh Hall n p.
  pose proof (next_blk_no_table st c HT Hfresh) as Hun. fold n in Hun.
  pose proof (alloc_run st) as R1. rewrite Hall in R1. fold n in R1. set (st1 := Stack _ _ _ _ _ _) in R1.
  assert (HT1 : tables_ok st1 c)
    by (apply (tables_same (set_socks (<[n := new_sock n]> (socks st)) st)); [by apply tables_update|done..]).
  assert (Hs1 : socks st1 !! n = Some (new_sock n)) by apply lookup_insert_eq.
  destruct (set_sport_run st1 c n (new_sock n) (ntohs port) p HT1) as (st2 & R2 & HT2 & Hc2);
    [exact (bound_update st c n (new_sock n) Hp Hun)|done|done|done|].
  destruct (counted_sock _ _ _ _ _ Hc2) as (s2 & Hs2 & Es2).
  destruct (listen_run st2 _ n s2 3 HT2 Hs2) as (st3 & s3 & R3 & HT3 & Hs3 & Es3 & Ho3 & Hse3 & Hd3 & _).
  { intros w h Hh Hw. rewrite bucket_ne; [by apply Hun|intros [-> _]; done]. }
  assert (Hq : forall o, o ≠ off_hash_list -> o ≠ off_bind_hash_list ->
    node_get st3 (Ptr (BSock n) o) = node_get st1 (Ptr (BSock n) o)).
  { intros o H1' H2'. rewrite (proj1 Ho3), (proj1 (proj1 (proj2 (proj2 Hc2))) n o H1' H2') by done.
    apply (modify_node_get st1 n (new_sock n)); [done|]. intros. by eapply sport_keeps. }
  assert (Q3 : queues st3 n [] []).
  { apply new_sock_queues; unfold lq, aq; rewrite Hq by done; simpl; by rewrite lookup_insert_eq. }
  assert (Hw3 : wait_accept s3 = Wait.wait_init)
    by exact (eq_trans (f_equal wait_accept Es3) (f_equal wait_accept Es2)).
  assert (Hkey : key TLis s2 = key TLis (set_sport p (new_sock n))) by exact (f_equal (fun x => key_of TLis (conn x)) Es2).
  eexists _, (set_wait WAccept (Wait.SynchWait 0 0 1) s3), _. split.
  { unfold tcp_server. rewrite (bind_done _ _ _ _ _ R1). rewrite (bind_done _ _ _ 0 st2) by exact R2.
    cbn [Z.ltb Z.compare]. rewrite (bind_done _ _ _ _ _ R3). cbn [Z.ltb Z.compare].
    unfold bind at 1. by rewrite (accept_blocks st3 n s3 [] Q3 Hs3 Hw3). }
  split; [rewrite Hkey in HT3; apply (tables_modify st3 _ n s3); [exact HT3|done|done|keeps]|].
  split; [apply lookup_insert_eq|]. split; [|split; [by apply wait_keeps|split; [simpl; rewrite Hse3; apply Hc2|split]]].
  3:{ simpl. rewrite (proj2 Ho3). apply Hc2. }
  2:{ simpl. rewrite dom_insert_lookup_L by (by eexists).
    rewrite Hd3, (counted_dom _ _ _ _ _ (set_sport p (new_sock n)) Hc2) by apply lookup_insert_eq.
    simpl. rewrite !dom_insert_L. set_solver. }
  assert (Href : ref_cnt s2 = 1) by exact (f_equal ref_cnt Es2).
  transitivity (strip (set_wait WAccept (Wait.SynchWait 0 0 1)
    (set_ref_cnt (ref_cnt s2 + 1) (set_state TCP_LISTEN (set_backlog 3 s2))))); [by apply strip_wait|].
  rewrite Href. apply strip_wait. change (1 + 1) with 2.
  assert (E : forall v x, set_ref_cnt 2 (set_state TCP_LISTEN (set_backlog 3 (set_ref_cnt v x))) =
    set_ref_cnt 2 (set_state TCP_LISTEN (set_backlog 3 x))) by reflexivity.
  rewrite <- (E (ref_cnt (set_sport p (new_sock n)) + 1) (set_sport p (new_sock n))).
  by apply strip_set_ref, strip_state, strip_backlog.
Qed.

(** [tcp_server], started on well-formed tables with allocations
    succeeding, gets as far as [accept]: a new socket listens on the port given
    (PORT_MIN for port 0) with a backlog of 3, linked in the bind and in the
    listen table, its queues are empty, nothing has been sent, and the thread is
    asleep on [wait_accept]. *)
Theorem tcp_server_listens st c port rbuf rounds :
  tables_ok st c -> bound_no_parent st c ->
  (forall m, is_Some (socks st !! m) -> (m < next_blk st)%positive) -> allocs_ok (nmalloc st) = true ->
  let n := next_blk st in let p := if ntohs port =? 0 then PORT_MIN else ntohs port in
  exists st' s' k c', tcp_server port rbuf rounds st = Asleep st' (sock_ptr n) WAccept k /\
    tables_ok st' c' /\ socks st' !! n = Some s' /\ state s' = TCP_LISTEN /\ sk_sport s' = p /\ backlog s' = 3 /\
    parent s' = NULL /\ ref_cnt s' = 2 /\ n ∈ c' TLis (key TLis s') /\ n ∈ c' TBnd (key TBnd s') /\
    queues st' n [] [] /\ sent st' = sent st.
Proof.
  intros HT Hp Hfresh Hall n p.
  destruct (server_run st c port rbuf rounds) as (st' & s' & k & R & HT' & Hs' & Es' & Q & E & _); [done..|].
  eexists st', s', k, _. split; [exact R|]. split; [exact HT'|]. split; [done|].
  split; [exact (f_equal state Es')|]. split; [exact (f_equal sk_sport Es')|]. split; [exact (f_equal backlog Es')|].
  split; [exact (f_equal parent Es')|]. split; [exact (f_equal ref_cnt Es')|].
  assert (Hkey : forall w, key w s' = key w (set_sport p (new_sock n)))
    by (intros w; exact (f_equal (fun x => key_of w (conn x)) Es')).
  rewrite !Hkey. split; [apply linked_twice_in|]. split; [by apply linked_twice_bnd|]. done.
Qed.

End Theorems.

Section Witnesses.
Existing Instances demo_env demo_layer demo_layer_ok.

(** A SYN of the demo connection as a frame. *)
Definition demo_syn : packet := ctl_packet 0 (demo_sock TCP_CLOSED) TCP_SYN 0.
Definition demo_iface : iface_info := with_ip 0x0a000002 (with_fd 3 zero_iface).
Definition demo_eth : list Z := replicate 12 0 ++ [8; 0].

Lemma demo_syn_ok : tcphdr_ok (pk_tcp demo_syn).
Proof.
  apply (set_th_check_ok (tcp_init_hdr 10001 12345 0 0 TCP_SYN 0)); [apply tcp_init_hdr_ok|];
    split; vm_compute; congruence.
Qed.

(** Its checksum is not 0: it is dropped. *)
Lemma packet_delivery_witness :
  handle_ip_packet (Some demo_iface) (frame_of demo_eth demo_syn) (one_sock TCP_CLOSED) =
  Done (Verdict false false true) (one_sock TCP_CLOSED).
Proof.
  destruct (packet_delivery demo_eth demo_syn demo_iface (one_sock TCP_CLOSED)) as (_ & R & _).
  - reflexivity.
  - unfold iphdr_ok, is_u8, is_u16, is_u32; simpl. repeat split; vm_compute; congruence.
  - apply demo_syn_ok.
  - reflexivity.
  - reflexivity.
  - vm_compute. congruence.
  - apply R; [reflexivity|]. unfold accepted. vm_compute. congruence.
Defined.

(** The same segment with its checksum, for a host without sockets. *)
Lemma unknown_connection_faults_witness :
  exists ck, handle_tcp_packet (pk_ip demo_syn) (tcphdr_bytes (set_th_check (pk_tcp demo_syn) ck) ++ [])
    (one_sock TCP_CLOSED) = Fault BadAccess.
Proof.
  exists (default 0 (tcp_checksum (pk_ip demo_syn) (pk_tcp demo_syn) [])).
  apply (unknown_connection_faults (one_sock TCP_CLOSED) no_socks).
  - apply with_socks_ok.
  - apply set_th_check_ok; [apply demo_syn_ok|].
    unfold is_u16. vm_compute. split; congruence.
  - vm_compute. congruence.
  - vm_compute. reflexivity.
  - intros n s Hn. by apply elem_of_nil in Hn.
  - intros n s Hn. by apply elem_of_nil in Hn.
Defined.

Lemma short_segment_overread_witness :
  handle_tcp_packet (pk_ip demo_syn) (replicate 18 0) (one_sock TCP_CLOSED) = Fault BadAccess.
Proof. apply short_segment_overread; [rewrite length_replicate; lia|vm_compute; reflexivity]. Defined.

Definition fresh_conn : tcp_sock :=
  set_rcv_wnd TCP_DEFAULT_WINDOW (set_rcv_buf (Ring.alloc_ring_buffer 7) (demo_sock TCP_ESTABLISHED)).
Lemma server_overreads_witness :
  server_loop 1 (sock_ptr 1) [] (heap1 fresh_conn) = Fault BadAccess.
Proof.
  apply (server_overreads 0 1%positive fresh_conn); [reflexivity|unfold Ring.wf; simpl; lia|reflexivity|reflexivity].
Defined.

Lemma tcp_server_listens_witness :
  exists n st' s' k, tcp_server (htons 10001) [] 1 (with_socks ∅) = Asleep st' (sock_ptr n) WAccept k /\
    socks st' !! n = Some s' /\ sk_sport s' = 10001.
Proof.
  destruct (tcp_server_listens (with_socks ∅) no_socks (htons 10001) [] 1) as (st' & s' & k & c' & R & _ & Hs & _ & Hp & _);
    [apply with_socks_ok|apply no_socks_no_parent| |reflexivity|].
  - intros m [x Hx]. unfold with_socks in Hx.
    change (socks (set_socks ∅ stack0)) with (∅ : gmap positive tcp_sock) in Hx. by rewrite lookup_empty in Hx.
  - exists (next_blk (with_socks ∅)), st', s', k. split; [exact R|]. split; [exact Hs|exact Hp].
Defined.

End Witnesses.
