(* ===== verification/Races.v ===== *)
(** * Packets that arrive during a socket call (tcp_sock.c, include/list.h)

    [tcp_hash] runs in the thread of an application ([tcp_sock_connect],
    [tcp_sock_listen]) and [tcp_sock_lookup] in the thread that receives packets;
    the tables have no lock.  ListConc.v says what a walk of a list can meet while
    the list is changed; this file says what it means for the established table,
    where a socket is linked through [hash_list], which [alloc_tcp_sock] leaves
    null.  And [tcp_sock_connect] sends its SYN before it links the socket: an
    answer may come first. *)

From S2P Require Import Prelude DList ListConc Hash RingBuffer SynchWait Layout Segment Memory Sock SockTables Ports Out SockApi Calls TcpIn Stack.

Section Races.
Context `{Env}.

(** Single stores to list nodes leave the data of the sockets alone. *)
Lemma exec_stores_data (ts : list (store ptr)) (st st' : stack) :
  exec_stores st ts = Some st' -> data st' = data st.
Proof.
  revert st. induction ts as [|t ts IH]; intros st; cbn [exec_stores]; [by intros [= <-]|].
  destruct (exec_store st t) as [st1|] eqn:E; [|done]. cbn [mbind option_bind]. intros E'.
  rewrite (IH _ E'). destruct t; simpl in E;
    [exact (set_prev_view data node_set_data _ _ _ _ E)|exact (set_next_view data node_set_data _ _ _ _ E)].
Qed.

(** A test that the data decide gives the same answer. *)
Lemma on_sock_data st st' f m :
  data st' = data st -> (forall s s', strip s' = strip s -> f s' = f s) ->
  on_sock st' f m = on_sock st f m.
Proof.
  intros Ed Hf. unfold on_sock. destruct (socks st !! m) as [s|] eqn:E.
  - destruct (data_sock _ _ _ _ Ed E) as (s' & -> & Es). by apply Hf.
  - destruct (socks st' !! m) as [s'|] eqn:E'; [|done].
    destruct (data_sock st' st m s' (eq_sym Ed) E') as (s & Hs & _). congruence.
Qed.

Lemma first_sock_ext f g l : (forall m, m ∈ l -> f m = g m) -> first_sock f l = first_sock g l.
Proof.
  intros Hfg. unfold first_sock. replace (filter (fun n => f n = true) l) with (filter (fun n => g n = true) l); [done|].
  induction l as [|m l IH]; [done|]. rewrite !filter_cons, (Hfg m) by set_solver.
  rewrite IH by (intros; apply Hfg; set_solver). done.
Qed.

Lemma conn_is_strip a b p q s s' : strip s' = strip s -> conn_is a b p q s' = conn_is a b p q s.
Proof. intros E. exact (f_equal (conn_is a b p q) E). Qed.
Lemma sport_is_strip p s s' : strip s' = strip s -> (sk_sport s' =? p) = (sk_sport s =? p).
Proof. intros E. exact (f_equal (fun s => sk_sport s =? p) E). Qed.

(** The lookup before and after a socket of another connection is linked. *)
Lemma lookup_unaffected st st' c n s cb :
  lists_ok st c -> lists_ok st' (set_bucket c TEst (key TEst s) (n :: c TEst (key TEst s))) ->
  data st' = data st -> socks st !! n = Some s ->
  conn_is (daddr cb) (saddr cb) (dport cb) (sport cb) s = false ->
  exists r, tcp_sock_lookup cb st = Done r st /\ tcp_sock_lookup cb st' = Done r st'.
Proof.
  intros L L' Ed Hs Hc. unfold tcp_sock_lookup.
  set (f := conn_is (daddr cb) (saddr cb) (dport cb) (sport cb)) in *.
  set (hash := tcp_hash_function (daddr cb) (saddr cb) (dport cb) (sport cb)).
  set (c' := set_bucket c TEst (key TEst s) (n :: c TEst (key TEst s))).
  assert (E1 : first_sock (on_sock st' f) (c' TEst hash) = first_sock (on_sock st f) (c TEst hash)).
  { rewrite (first_sock_ext _ (on_sock st f)) by (intros; apply on_sock_data; [done|apply conn_is_strip]).
    unfold c', set_bucket. case_decide as Hh; [|done]. destruct Hh as [_ <-].
    assert (Hon : on_sock st f n = false) by (unfold on_sock; by rewrite Hs).
    unfold first_sock. by rewrite filter_cons_False by congruence. }
  assert (E2 : forall l, first_sock (on_sock st' (fun t => sk_sport t =? dport cb)) l =
                         first_sock (on_sock st (fun t => sk_sport t =? dport cb)) l).
  { intros l. apply first_sock_ext. intros m _. apply on_sock_data; [done|apply sport_is_strip]. }
  rewrite (bind_done _ _ _ _ _ (lookup_established_run st c _ _ _ _ L)).
  rewrite (bind_done _ _ _ _ _ (lookup_established_run st' c' _ _ _ _ L')). fold hash f. rewrite E1.
  case_decide; [|eauto].
  rewrite (lookup_listen_run st c _ _ L), (lookup_listen_run st' c' _ _ L'), E2.
  unfold c', set_bucket. rewrite decide_False by (by intros [? _]). eauto.
Qed.

(** The search comes to a socket that does not match and whose node is null. *)
Lemma null_node_faults st head n s nw a b p q :
  socks st !! n = Some s -> node_get st (ptr_add (sock_ptr n) off_hash_list) = Some nw -> next nw = NULL ->
  (forall m o, head ≠ Ptr (BSock m) o) -> head ≠ NULL -> conn_is a b p q s = false ->
  find_entry_from (loop_fuel st) (ptr_add (sock_ptr n) off_hash_list) head off_hash_list (fun tmp =>
    do t <- sock tmp;
    ret ((sk_sip t =? a) && (sk_sport t =? p) && (sk_dip t =? b) && (sk_dport t =? q))) st = Fault BadAccess.
Proof.
  intros Hs Gw Ew Hh Hh0 Hc. unfold loop_fuel. destruct (size (socks st)) as [|k] eqn:Ek.
  { apply map_size_empty_iff in Ek. rewrite Ek in Hs. by rewrite lookup_empty in Hs. }
  cbn [find_entry_from]. rewrite decide_False by (intros E; by apply (Hh n off_hash_list)).
  change (ptr_add (ptr_add (sock_ptr n) off_hash_list) (- off_hash_list)) with (sock_ptr n).
  erewrite bind_done; [|erewrite bind_done; [reflexivity|by apply sock_run]].
  fold (conn_is a b p q s). rewrite Hc, Gw, Ew. by rewrite decide_False by congruence.
Qed.

(** C30: while [tcp_hash] links a new socket into a bucket of the established table,
    a segment of any other connection of that bucket crashes the stack.  Between the
    second and the third store of [list_add_head], [tcp_sock_lookup] comes to the new
    socket, does not match it, and follows the null pointer its node still holds;
    the same lookup before the call and after it ends, with the same socket. *)
Theorem lookup_during_hash st c n s :
  tables_ok st c -> socks st !! n = Some s -> unlinked c TEst n -> hash_list s = ListHead NULL NULL ->
  let head := tcp_established_sock_table (key TEst s) in
  let new := ptr_add (sock_ptr n) off_hash_list in
  exists nxt st2 st4,
    exec_stores st [StPrev nxt new; StNext head new] = Some st2 /\
    exec_stores st2 [StNext new nxt; StPrev new head] = Some st4 /\
    list_add_head st new head = Some st4 /\
    forall cb, tcp_hash_function (daddr cb) (saddr cb) (dport cb) (sport cb) = key TEst s ->
      conn_is (daddr cb) (saddr cb) (dport cb) (sport cb) s = false ->
      tcp_sock_lookup cb st2 = Fault BadAccess /\
      exists r, tcp_sock_lookup cb st = Done r st /\ tcp_sock_lookup cb st4 = Done r st4.
Proof.
  intros HT Hs Hun Hnull head new. pose proof (to_lists _ _ HT) as HL. pose proof (key_bucket TEst s) as Hk.
  set (l := nodes off_hash_list (c TEst (key TEst s))).
  assert (D : dlist st head ([] ++ l)) by exact (lo_list _ _ HL TEst _ Hk).
  assert (Hf : new ∉ head :: [] ++ l).
  { intros [E|Hx]%elem_of_cons; [done|]. apply nodes_elem in Hx. by apply (Hun TEst (key TEst s)). }
  assert (Hn : node_get st new = Some (ListHead NULL NULL)) by (simpl; rewrite Hs; simpl; by rewrite Hnull).
  assert (Hx : next (ListHead NULL NULL) = List.hd head l \/ node_get st (next (ListHead NULL NULL)) = None) by (by right).
  destruct (two_stores st head [] l new _ D Hf Hn) as (st2 & E2 & _).
  destruct (lists_add st c TEst (key TEst s) n HL Hk ltac:(eauto) Hun) as (st4 & E4 & HL4 & Ed4 & _).
  exists (List.hd head l), st2, st4. split; [exact E2|]. split; [|split; [exact E4|]].
  - destruct (inserts st head [] l new _ D Hf Hn) as (s' & Es & _).
    rewrite <- (take_drop 2 (stores head [] l new)), exec_stores_app, E2 in Es. cbn [mbind option_bind] in Es.
    assert (s' = st4) as <-; [|exact Es].
    pose proof (exec_stores_app st (take 2 (stores head [] l new)) (drop 2 (stores head [] l new))) as Ea.
    rewrite take_drop, E2 in Ea. cbn [mbind option_bind] in Ea. rewrite Es in Ea. unfold stores in Ea.
    rewrite exec_stores_insert in Ea. destruct (dlist_first _ _ _ D) as (nh & Gh & En).
    change (list_add_head st new head = Some st4) in E4. unfold list_add_head in E4. rewrite Gh in E4.
    cbn [mbind option_bind] in E4. rewrite En in E4. change (prv head []) with head in Ea.
    change (List.hd head ([] ++ l)) with (nxt head l) in E4. congruence.
  - intros cb Hh Hc. split; [|by apply (lookup_unaffected st st4 c n s)].
    pose proof (linked_at st head [] l new _ D Hf Hn Hx 2 st2 ltac:(lia) E2) as (_ & (nh & Gh & En) & (nw & Gw & Ew) & _).
    cbn [Nat.ltb Nat.leb] in En, Ew. destruct (data_sock st st2 n s (exec_stores_data _ _ _ E2) Hs) as (s2 & Hs2 & Es2).
    unfold tcp_sock_lookup, tcp_sock_lookup_established. apply bind_fault, bind_fault. rewrite Hh.
    unfold find_entry. fold head. change (prv head []) with head in Gh. rewrite Gh, En.
    eapply (null_node_faults st2 head n s2 nw); [done..|].
    by rewrite (conn_is_strip _ _ _ _ _ _ Es2).
Qed.

(** ** An answer before the socket is linked *)

Context `{IpLayerOk}.

(** [tcp_sock_connect] up to [tcp_hash]. *)
Definition connect_sends (tsk : ptr) (skaddr_ip skaddr_port : Z) : M unit :=
  modify tsk (set_dip (htonl skaddr_ip));;
  modify tsk (set_dport (htons skaddr_port));;
  modify tsk (set_sip past_instance);;
  do port <- tcp_get_port;
  modify tsk (set_sport (htons port));;
  tcp_bind_hash tsk;;
  tcp_send_control_packet tsk TCP_SYN;;
  tcp_set_state tsk TCP_SYN_SENT;;
  ret tt.

(** C31: when [tcp_sock_connect] has sent its SYN it has not yet linked the socket
    into the established table; a segment of that connection which the receiving
    thread handles before it does, the peer's SYN|ACK among them, finds no socket
    and is a null dereference (unless some socket listens on the local port). *)
Theorem answer_before_hash st c n s ip port :
  (forall i, malloc_ok i = true) -> is_u32 past_instance ->
  tables_ok st c -> bound_no_parent st c -> in_no_table c n -> socks st !! n = Some s -> sock_ok s ->
  let s1 := addressed ip port s in
  (forall m t, m ∈ c TEst (key TEst s1) -> socks st !! m = Some t -> conn t ≠ conn s1) ->
  (forall m t, m ∈ c TLis (key TLis s1) -> socks st !! m = Some t -> sk_sport t ≠ sk_sport s1) ->
  exists p st2,
    connect_sends (sock_ptr n) ip port st = Done tt st2 /\
    tcp_sock_connect (sock_ptr n) ip port st =
      (tcp_hash (sock_ptr n);; sleep_on (sock_ptr n) WConnect;; ret 0) st2 /\
    sent st2 = sent st ++ [p] /\ flags (cb_of p) = TCP_SYN /\
    forall iph t rest, let cb := tcp_cb_init iph t in
      (daddr cb, saddr cb, dport cb, sport cb) = conn s1 ->
      tcphdr_ok t -> tcp_len iph <= 20 + Z.of_nat (length rest) -> tcp_checksum iph t rest = Some (th_check t) ->
      handle_tcp_packet iph (tcphdr_bytes t ++ rest) st2 = Fault BadAccess.
Proof.
  intros Hm Hpast HT Hp Hun Hs Hok s1 Hest Hlis.
  assert (Hok1 : sock_ok s1) by (destruct Hok; split; try done; first [apply htonl_range|apply htons_range]).
  set (st1 := set_socks (<[n := s1]> (socks st)) st).
  destruct (connect_send st1 c n s1 Hm)
    as (p & st2 & s2 & R2 & E2 & _ & Hcb & HT2 & _ & _ & Hoth);
    [by apply tables_update|done|apply lookup_insert_eq|done|].
  (* A socket of the tables is one of before. *)
  assert (Hold : forall w m t, w ≠ TBnd -> m ∈ set_bucket c TBnd (key TBnd s1) (n :: c TBnd (key TBnd s1)) w (key w s1) ->
    socks st2 !! m = Some t -> exists t0, m ∈ c w (key w s1) /\ socks st !! m = Some t0 /\ conn t = conn t0).
  { intros w m t Hw Hin Ht. rewrite bucket_ne in Hin by (intros [? _]; done).
    assert (Hne : m ≠ n) by (intros ->; by apply (Hun w _ (key_bucket w s1))).
    destruct (Hoth m t Hne Ht) as (t0 & Ht0 & E0). simpl in Ht0. rewrite lookup_insert_ne in Ht0 by done. eauto. }
  exists p, st2. split; [|split; [|split; [exact E2|split; [by rewrite Hcb|]]]].
  1,2: unfold connect_sends, tcp_sock_connect; rewrite (connect_address st c n s) by done; fold s1 st1; by rewrite R2.
  intros iph t rest cb Hconn Ht Hl Hck.
  assert (Ea : daddr cb = sk_sip s1) by exact (f_equal (fun k => k.1.1.1) Hconn).
  assert (Eb : saddr cb = sk_dip s1) by exact (f_equal (fun k => k.1.1.2) Hconn).
  assert (Ep : dport cb = sk_sport s1) by exact (f_equal (fun k => k.1.2) Hconn).
  assert (Eq : sport cb = sk_dport s1) by exact (f_equal snd Hconn).
  apply (unknown_connection_faults st2 _ iph t rest HT2 Ht Hl Hck); fold cb.
  - rewrite Ea, Eb, Ep, Eq. intros m u Hin Hu Ec.
    destruct (Hold TEst m u ltac:(done) Hin Hu) as (u0 & Hin0 & Hu0 & E0).
    apply (Hest m u0 Hin0 Hu0). rewrite <- E0, Ec. done.
  - rewrite Ep. intros m u Hin Hu Ec.
    destruct (Hold TLis m u ltac:(done) Hin Hu) as (u0 & Hin0 & Hu0 & E0).
    apply (Hlis m u0 Hin0 Hu0). rewrite <- Ec. by injection E0.
Qed.

End Races.

Section Witnesses.
Existing Instances demo_env demo_layer demo_layer_ok.

(** A segment whose addresses are exchanged falls into the same bucket. *)
Lemma lookup_during_hash_witness : exists st2,
  data st2 = data (one_sock TCP_SYN_SENT) /\
  tcp_sock_lookup (TcpCb 0x0a000001 0x0a000002 12345 10001 0 0 0 20 0 0 0) st2 = Fault BadAccess.
Proof.
  destruct (lookup_during_hash (one_sock TCP_SYN_SENT) no_socks 1%positive (demo_sock TCP_SYN_SENT))
    as (nxt & st2 & st4 & E & _ & _ & Hl);
    [apply with_socks_ok|apply one_sock_at|apply no_socks_unlinked|reflexivity|].
  exists st2. split; [exact (exec_stores_data _ _ _ E)|].
  apply (Hl (TcpCb 0x0a000001 0x0a000002 12345 10001 0 0 0 20 0 0 0)); reflexivity.
Defined.

(** The SYN|ACK of the peer, with its checksum. *)
Definition demo_syn_ack : packet :=
  ctl_packet 0 (set_sip 0x0a000002 (set_sport 10001 (set_dip 0 (set_dport 0x3930 zero_sock)))) (Z.lor TCP_SYN TCP_ACK) 0.
Definition demo_syn_ack_tcp : tcphdr :=
  set_th_check (pk_tcp demo_syn_ack) (default 0 (tcp_checksum (pk_ip demo_syn_ack) (pk_tcp demo_syn_ack) [])).

Lemma demo_syn_ack_ok : tcphdr_ok demo_syn_ack_tcp.
Proof.
  apply set_th_check_ok; [|split; vm_compute; congruence].
  apply (set_th_check_ok (tcp_init_hdr 10001 0x3930 0 0 (Z.lor TCP_SYN TCP_ACK) 0)); [apply tcp_init_hdr_ok|];
    split; vm_compute; congruence.
Qed.

Lemma answer_before_hash_witness : exists st2,
  connect_sends (sock_ptr 1) (htonl 0x0a000002) (htons 10001) (one_sock TCP_CLOSED) = Done tt st2 /\
  handle_tcp_packet (pk_ip demo_syn_ack) (tcphdr_bytes demo_syn_ack_tcp ++ []) st2 = Fault BadAccess.
Proof.
  destruct (answer_before_hash (one_sock TCP_CLOSED) no_socks 1%positive (demo_sock TCP_CLOSED)
    (htonl 0x0a000002) (htons 10001)) as (p & st2 & R & _ & _ & _ & Hf);
    [done|unfold is_u32; simpl; lia|apply with_socks_ok|apply no_socks_no_parent|apply in_no_socks|
     apply one_sock_at|apply demo_sock_ok|by intros m t Hm; apply elem_of_nil in Hm|
     by intros m t Hm; apply elem_of_nil in Hm|].
  exists st2. split; [exact R|].
  apply Hf; [vm_compute; reflexivity|apply demo_syn_ack_ok|vm_compute; congruence|vm_compute; reflexivity].
Defined.

End Witnesses.
