(* ===== verification/System.v ===== *)
(** * The whole program

    The threads of the program as a transition system: applications, incoming
    packets, the timer and single socket calls start at any time and run up to
    where they block in [sleep_on]; a blocked one may go on at any later time.
    (The code takes no lock, so a real run may also switch threads elsewhere.)
    A small program logic for invariants of all sockets shows what holds of every
    socket in every reachable state. *)

From S2P Require Import Prelude Hash Checksum DList RingBuffer SynchWait Layout Segment Memory Ifaces Sock SockTables Ports Out SockApi AcceptQueue Calls TcpIn Timer Stack.

(** ** Invariants of sockets *)

(** A property of sockets that does not look at list nodes. *)
Class SockProp (P : tcp_sock -> Prop) : Prop := sock_prop s s' : strip s' = strip s -> P s -> P s'.

Section Logic.
Context (P : tcp_sock -> Prop) (Sent : packet -> Prop) `{SockProp P}.

(** All sockets satisfy [P] and lie below the next free block, and all packets
    sent satisfy [Sent]. *)
Definition all_good (st : stack) : Prop :=
  (forall n s, socks st !! n = Some s -> P s /\ (n < next_blk st)%positive) /\ Forall Sent (sent st).

(** An outcome is safe when sockets and packets are good wherever it stops, also
    after having slept, and a value returned satisfies [Q]. *)
Fixpoint safe {A} (Q : A -> Prop) (o : outcome A) : Prop :=
  match o with
  | Done a st => all_good st /\ Q a
  | Fault _ | Exit _ => True
  | Asleep st _ _ k => all_good st /\ forall st', all_good st' -> safe Q (k st')
  end.

Definition keeps_all {A} (Q : A -> Prop) (m : M A) : Prop := forall st, all_good st -> safe Q (m st).
Definition anything {A} (_ : A) : Prop := True.

Lemma safe_bind {A B} (Q : A -> Prop) (R : B -> Prop) (o : outcome A) (k : A -> M B) :
  safe Q o -> (forall a, Q a -> keeps_all R (k a)) -> safe R (outcome_bind o k).
Proof.
  intros Ho Hk. induction o as [a st|f|c|st tsk c k' IH]; simpl in *; [|done..|].
  - destruct Ho. by apply Hk.
  - destruct Ho as [Ha Ho]. split; [done|]. auto.
Qed.

Lemma keeps_bind {A B} (Q : A -> Prop) (R : B -> Prop) (m : M A) (k : A -> M B) :
  keeps_all Q m -> (forall a, Q a -> keeps_all R (k a)) -> keeps_all R (bind m k).
Proof. intros Hm Hk st Hst. apply (safe_bind Q); [by apply Hm|done]. Qed.

Lemma keeps_ret {A} (Q : A -> Prop) a : Q a -> keeps_all Q (ret a).
Proof. intros Ha st Hst. by split. Qed.
Lemma keeps_fail {A} (Q : A -> Prop) f : keeps_all Q (fail f).
Proof. by intros st _. Qed.
Lemma keeps_exit {A} (Q : A -> Prop) c : keeps_all Q (c_exit c).
Proof. by intros st _. Qed.
Lemma keeps_checked {A} (r : option A) : keeps_all (fun a => r = Some a) (checked r).
Proof. destruct r; [by apply keeps_ret|apply keeps_fail]. Qed.

Lemma keeps_any {A} (Q : A -> Prop) (m : M A) : keeps_all Q m -> keeps_all anything m.
Proof.
  intros Hm st Hst. specialize (Hm st Hst). induction (m st) as [a st'|f|c|st' tsk c k IH]; simpl in *; [|done..|].
  - by split; [apply Hm|].
  - destruct Hm as [Ha Hk]. split; [done|]. auto.
Qed.

Lemma keeps_sock tsk : keeps_all P (sock tsk).
Proof.
  intros st Hst. unfold sock, sock_of. destruct tsk as [|[n| |] o]; try done. destruct (o =? 0); [|done].
  destruct (socks st !! n) as [s|] eqn:E; simpl; [|done]. split; [done|]. by apply (proj1 Hst n).
Qed.

Lemma all_insert st n s s' :
  all_good st -> socks st !! n = Some s -> P s' -> all_good (set_socks (<[n := s']> (socks st)) st).
Proof.
  intros [Hst Hse] Hn Hs. split; [|done]. intros m t. simpl. destruct (decide (n = m)) as [<-|Hne].
  - rewrite lookup_insert_eq. intros [= <-]. split; [done|]. by apply (Hst n s).
  - rewrite lookup_insert_ne by done. apply Hst.
Qed.

Lemma keeps_modify tsk f : (forall s, P s -> P (f s)) -> keeps_all anything (modify tsk f).
Proof.
  intros Hf st Hst. unfold modify, sock_of. destruct tsk as [|[n| |] o]; try done. destruct (o =? 0); [|done].
  destruct (socks st !! n) as [s|] eqn:E; simpl; [|done]. split; [|done].
  apply (all_insert st n s); [done|done|]. by apply Hf, (proj1 Hst n).
Qed.

Lemma keeps_free tsk : keeps_all anything (free tsk).
Proof.
  intros st Hst. unfold free, sock_of. destruct tsk as [|[n| |] o]; try done. destruct (o =? 0); [|done].
  destruct (socks st !! n) as [s|] eqn:E; simpl; [|done]. split; [|done]. split; [|apply Hst].
  intros m t. simpl. intros [_ Ht]%lookup_delete_Some. by apply (proj1 Hst m).
Qed.

Lemma all_data st st' : data st' = data st -> all_good st -> all_good st'.
Proof.
  intros E [Hst Hse]. split; [|by rewrite (proj1 (proj2 (data_view _ _ E)))]. intros n s' Hs'.
  destruct (data_sock st' st n s' (eq_sym E) Hs') as (s & Hs & Es).
  rewrite (f_equal (fun d => d.1.1.2) E : next_blk st' = next_blk st).
  split; [apply (sock_prop s); [done|]|]; by apply (Hst n s).
Qed.

(** List operations change nodes only. *)
Lemma keeps_list_op f :
  (forall st st', f st = Some st' -> data st' = data st) -> keeps_all anything (list_op f).
Proof.
  intros Hf st Hst. unfold list_op. destruct (f st) as [st'|] eqn:E; [|done]. split; [|done].
  by apply (all_data st); [apply Hf|].
Qed.
Lemma keeps_list_test f : keeps_all anything (list_test f).
Proof. intros st Hst. unfold list_test. by destruct (f st). Qed.

Lemma keeps_push p : Sent p -> keeps_all anything (update (push_sent p)).
Proof. intros Hp st [Hst Hse]. split; [|done]. split; [done|]. simpl. apply Forall_app. split; [done|]. by constructor. Qed.

(** Search loops with a harmless test. *)
Lemma keeps_find h moff test :
  (forall p, keeps_all anything (test p)) -> keeps_all anything (find_entry h moff test).
Proof.
  intros Ht st Hst. unfold find_entry. destruct (node_get st h) as [nd|]; [|done].
  generalize (loop_fuel st) as fuel. intros fuel. generalize (next nd) as pos. clear nd. revert st Hst.
  induction fuel as [|fuel IH]; intros st Hst pos; [done|]. cbn [find_entry_from]. case_decide; [by split|].
  apply (safe_bind anything); [by apply Ht|]. intros b _ st' Hst'. destruct b; [by split|].
  destruct (node_get st' pos); [|done]. by apply IH.
Qed.

End Logic.
#[global] Arguments keeps_all : simpl never.

(** ** The invariant of the program's sockets *)

(** The states some function of the program puts a socket in. *)
Definition used_state (x : tcp_state) : bool :=
  match x with
  | TCP_CLOSED | TCP_LISTEN | TCP_SYN_RECV | TCP_SYN_SENT | TCP_ESTABLISHED | TCP_FIN_WAIT_1 => true
  | _ => false
  end.

(** A well-formed buffer that can hold a whole window. *)
Definition rb_ok (r : Ring.ring_buffer) : Prop := Ring.wf r /\ Ring.size r = TCP_DEFAULT_WINDOW + 1.

(** The flags of a wait structure, which nothing marks dead, and the members of a timer. *)
Definition wait_ok (w : Wait.synch_wait) : Prop :=
  (Wait.notified w = 0 \/ Wait.notified w = 1) /\ Wait.dead w = 0 /\ (Wait.sleep w = 0 \/ Wait.sleep w = 1).
Definition timer_ok (t : tcp_timer) : Prop :=
  (type t = 0 \/ type t = 1) /\ (timeout t = 0 \/ timeout t = TCP_TIMEWAIT_TIMEOUT) /\ (enable t = 0 \/ enable t = 1).

(** All members of an unsigned type in its range, and the timers and wait
    structures.  (The three counts are [int]s the code adds to and subtracts from;
    see RefCount.v for the references.) *)
Record members_ok (s : tcp_sock) : Prop := {
  mb_headers : sock_ok s;
  mb_iss : is_u32 (iss s); mb_una : is_u32 (snd_una s); mb_recovery : is_u32 (recovery_point s);
  mb_snd_wnd : is_u32 (snd_wnd s); mb_adv_wnd : is_u16 (adv_wnd s);
  mb_cwnd : is_u32 (cwnd s); mb_ssthresh : is_u32 (ssthresh s);
  mb_timewait : timer_ok (timewait s); mb_retrans : timer_ok (retrans_timer s);
  mb_wait c : wait_ok (get_wait c s)
}.

(** A packet as it should leave the host: a plain IP header in range that says TCP and the
    packet's length, a TCP header in range, and a checksum the receiver accepts. *)
Record packet_ok (p : packet) : Prop := {
  po_ip : iphdr_ok (pk_ip p);
  po_ihl : ihl (pk_ip p) = 5;
  po_proto : protocol (pk_ip p) = IPPROTO_TCP;
  po_len : tot_len (pk_ip p) = htons (pk_len p - ETHER_HDR_SIZE);
  po_tcp : tcphdr_ok (pk_tcp p);
  po_check : accepted p
}.

Record sock_inv (s : tcp_sock) : Prop := {
  si_ok : members_ok s;
  si_rb : rb_ok (rcv_buf s);
  si_state : used_state (state s) = true
}.

Lemma members_strip s : members_ok (strip s) <-> members_ok s.
Proof. by split; intros [Hh]; (split; [by apply sock_ok_strip|..]). Qed.

#[export] Instance sock_inv_prop : SockProp sock_inv.
Proof.
  intros s s' E [Hok Hrb Hst]. split.
  - apply members_strip. rewrite E. by apply members_strip.
  - by rewrite (f_equal rcv_buf E : rcv_buf s' = rcv_buf s).
  - by rewrite (f_equal state E : state s' = state s).
Qed.

(** The members of a control block that end up in sockets. *)
Definition cb_ok (cb : tcp_cb) : Prop :=
  is_u32 (saddr cb) /\ is_u32 (daddr cb) /\ is_u16 (sport cb) /\ is_u16 (dport cb).

Lemma tcp_cb_init_ok ip tcp : cb_ok (tcp_cb_init ip tcp).
Proof. split; [|split; [|split]]; simpl; first [apply htonl_range|apply htons_range]. Qed.

(** Solve the obligations of one assignment. *)
Ltac field_ok :=
  let s := fresh "s" in
  intros s [[[] ? ? ? ? ? ? ? ? ? ?] ? ?]; (split; [split; [split|..]|..]); simpl; try done;
  first [apply htonl_range|apply htons_range|apply u16_range|apply u32_range].

Ltac list_data :=
  let st := fresh "st" in let st' := fresh "st'" in let E := fresh "E" in
  intros st st' E;
  first [by apply list_add_head_data in E|by apply list_add_tail_data in E
        |by apply list_delete_entry_data in E|by apply init_list_head_data in E].

Create HintDb keeps.
#[export] Hint Resolve keeps_fail keeps_exit keeps_checked keeps_list_test keeps_free keeps_sock : keeps.

(** One step of a proof that a function keeps the invariant. *)
Ltac keep_step :=
  lazymatch goal with
  | |- keeps_all _ _ _ (bind _ _) => eapply keeps_bind; [|intros ? ?]
  | |- keeps_all _ _ _ (ret _) => first [apply (keeps_ret _ _ anything); exact I|apply keeps_ret; done]
  | |- keeps_all _ _ _ (modify _ _) => first [apply keeps_modify; field_ok|solve [eauto with keeps]]
  | |- keeps_all _ _ _ (list_op _) => apply keeps_list_op; [apply _|list_data]
  | |- keeps_all _ _ _ (if _ then _ else _) => case_match
  | |- keeps_all _ _ _ (let '(_, _) := _ in _) => case_match
  | |- _ => solve [eauto with keeps]
  end.
Ltac keep := repeat keep_step.

Section Operations.
Context `{Env} `{IpLayerOk}.
Local Abbreviation keeps m := (keeps_all sock_inv packet_ok anything m).

Lemma keeps_malloc : keeps malloc.
Proof. intros st Hst. by split. Qed.
Lemma keeps_seed : keeps fresh_seed.
Proof. intros st Hst. by split. Qed.
Lemma keeps_send p : packet_ok p -> keeps (ip_send_packet p).
Proof. by apply keeps_push. Qed.
Hint Resolve keeps_malloc keeps_seed : keeps.

(** What is sent has the checksum computed for it. *)
Lemma packet_ok_init seed s d len sp dp sq ak fl rw dat ck ip :
  is_u8 fl -> let ip0 := ip_init_hdr seed s d (len - ETHER_HDR_SIZE) IPPROTO_TCP in
  tcp_checksum ip0 (tcp_init_hdr sp dp sq ak fl rw) dat = Some ck ->
  (exists c, is_u16 c /\ ip = set_ip_check ip0 c) \/ ip = ip0 ->
  packet_ok (Packet len ip (set_th_check (tcp_init_hdr sp dp sq ak fl rw) ck) dat).
Proof.
  intros Hfl ip0 Hck Hip.
  assert (Hck16 : is_u16 ck).
  { unfold tcp_checksum in Hck. destruct (read_bytes _ _); [|done]. injection Hck as <-. apply checksum_u16. }
  assert (Hok : iphdr_ok ip).
  { destruct Hip as [(c & Hc & ->)| ->]; [by apply set_ip_check_ok; [apply ip_init_ok|]|apply ip_init_ok]. }
  assert (Eip : ihl ip = ihl ip0 /\ protocol ip = protocol ip0 /\ tot_len ip = tot_len ip0 /\
    tcp_checksum ip (set_th_check (tcp_init_hdr sp dp sq ak fl rw) ck) dat = Some ck).
  { destruct Hip as [(c & _ & ->)| ->]; repeat (split; [done|]); exact Hck. }
  destruct Eip as (E1 & E2 & E3 & E4). split; simpl; [exact Hok|..].
  - rewrite E1. apply ip_init_ihl.
  - rewrite E2. unfold ip0. by rewrite ip_init_protocol.
  - rewrite E3. apply ip_init_tot_len.
  - apply set_th_check_ok; [by apply tcp_init_hdr_ok|done].
  - exact E4.
Qed.

Lemma keeps_malloc_unchecked : keeps malloc_unchecked.
Proof. unfold malloc_unchecked. keep. Qed.
Hint Resolve keeps_malloc_unchecked : keeps.

Lemma keeps_set_state tsk x : used_state x = true -> keeps (tcp_set_state tsk x).
Proof. intros Hx. apply keeps_modify. field_ok. Qed.
Lemma keeps_set_wait tsk c w : wait_ok w -> keeps (modify tsk (set_wait c w)).
Proof.
  intros Hw. apply keeps_modify. intros s [[[] ? ? ? ? ? ? ? ? ? Hc] ? ?].
  by destruct c; (split; [split; [by split|..]|..]); try done; intros []; first [exact Hw|exact (Hc WConnect)|
    exact (Hc WAccept)|exact (Hc WRecv)|exact (Hc WSend)].
Qed.
Hint Resolve keeps_set_state : keeps.

(** A socket as [alloc_tcp_sock] leaves it. *)
Lemma new_sock_inv n : sock_inv (new_sock n).
Proof.
  split; [split; [split|..]|split|done]; simpl; try (unfold is_u16, is_u32, TCP_DEFAULT_WINDOW; lia).
  - repeat split; by left.
  - repeat split; by left.
  - intros []; repeat split; by left.
  - apply Ring.alloc_wf. unfold TCP_DEFAULT_WINDOW. lia.
Qed.

Lemma keeps_alloc : keeps alloc_tcp_sock.
Proof.
  intros st Hst. rewrite alloc_run. destruct (allocs_ok _); [|done]. split; [|done]. split; [|apply Hst].
  intros n s. cbn [socks next_blk]. intros [[<- <-]|[_ Hs]]%lookup_insert_Some.
  - split; [apply new_sock_inv|lia].
  - destruct (proj1 Hst n s Hs). split; [done|lia].
Qed.

Hint Resolve keeps_alloc : keeps.

Lemma keeps_free_tcp_sock tsk : keeps (free_tcp_sock tsk).
Proof. unfold free_tcp_sock. keep. Qed.
Lemma keeps_inc_ref tsk : keeps (tcp_sock_inc_ref_cnt tsk).
Proof. unfold tcp_sock_inc_ref_cnt. keep. Qed.
Lemma keeps_load_u16 p : keeps (load_u16 p).
Proof. intros st Hst. unfold load_u16. destruct p as [|[n| |] o]; try done. by case_match. Qed.
Hint Resolve keeps_free_tcp_sock keeps_inc_ref keeps_load_u16 : keeps.

Lemma keeps_lookup cb : keeps (tcp_sock_lookup cb).
Proof.
  unfold tcp_sock_lookup, tcp_sock_lookup_established, tcp_sock_lookup_listen. keep.
  all: apply keeps_find; intros p; keep.
Qed.
Lemma keeps_port_in_use p : keeps (tcp_port_in_use p).
Proof. unfold tcp_port_in_use. keep. apply keeps_find. intros q. keep. Qed.
Hint Resolve keeps_lookup keeps_port_in_use : keeps.

(** The port chosen is in range, too. *)
Lemma keeps_get_port : keeps_all sock_inv packet_ok is_u16 tcp_get_port.
Proof.
  unfold tcp_get_port. assert (Hr : PORT_MIN + Z.of_nat (Z.to_nat (PORT_MAX - PORT_MIN)) < 2 ^ 16) by done.
  assert (H0' : 0 <= PORT_MIN) by done. revert H0' Hr.
  generalize (Z.to_nat (PORT_MAX - PORT_MIN)) as n. generalize PORT_MIN as p. intros p n. revert p.
  induction n as [|n IH]; intros p Hp Hr; cbn [tcp_get_port_from].
  - apply keeps_ret. unfold is_u16. lia.
  - keep; first [apply keeps_ret; unfold is_u16; lia|apply IH; lia].
Qed.

Lemma keeps_bind_hash tsk : keeps (tcp_bind_hash tsk).
Proof. unfold tcp_bind_hash. keep. Qed.
Lemma keeps_unhash tsk : keeps (tcp_unhash tsk).
Proof. unfold tcp_unhash. keep. Qed.
Lemma keeps_bind_unhash tsk : keeps (tcp_bind_unhash tsk).
Proof. unfold tcp_bind_unhash. keep. Qed.
Lemma keeps_hash tsk : keeps (tcp_hash tsk).
Proof. unfold tcp_hash. keep. apply keeps_find. intros p. keep. Qed.
Hint Resolve keeps_bind_hash keeps_unhash keeps_bind_unhash keeps_hash : keeps.

Lemma keeps_bind_sock tsk port : keeps (tcp_sock_bind tsk port).
Proof.
  unfold tcp_sock_bind, tcp_sock_set_sport. apply keeps_bind with (Q := fun x => is_u16 x.2).
  - case_match; (eapply keeps_bind; [first [apply keeps_port_in_use|apply keeps_get_port]|]); intros a Ha;
      apply keeps_ret; [apply htons_range|done].
  - intros [failed p] Hp. keep.
Qed.

Lemma keeps_control tsk fl : u8 fl = fl -> keeps (tcp_send_control_packet tsk fl).
Proof.
  intros Hfl. assert (is_u8 fl) by (rewrite <- Hfl; apply u8_range).
  unfold tcp_send_control_packet. change (u16 (IP_BASE_HDR_SIZE + TCP_BASE_HDR_SIZE)) with (ctl_size - ETHER_HDR_SIZE).
  keep; cbv beta in *; apply keeps_send; (eapply packet_ok_init; [done|eassumption|by right]).
Qed.
Lemma keeps_reset cb : keeps (tcp_send_reset cb).
Proof.
  unfold tcp_send_reset. change (u16 (IP_BASE_HDR_SIZE + TCP_BASE_HDR_SIZE)) with (ctl_size - ETHER_HDR_SIZE).
  keep; cbv beta in *; apply keeps_send; (eapply packet_ok_init; [by split; vm_compute|eassumption|by right]).
Qed.
Lemma keeps_send_packet tsk dat len : keeps (tcp_send_packet tsk dat len).
Proof.
  unfold tcp_send_packet. keep; cbv beta in *; apply keeps_send; (eapply packet_ok_init; [by split; vm_compute|eassumption|left]).
  eexists. split; [by eapply ip_checksum_u16|done].
Qed.
Hint Extern 1 (u8 _ = _) => reflexivity : keeps.
Hint Resolve keeps_bind_sock keeps_control keeps_reset : keeps.

Lemma wait_enter_ok w : wait_ok w -> wait_ok (Wait.sleep_on_enter w).1.
Proof. intros (Hn & Hd & Hs). unfold Wait.sleep_on_enter. rewrite Hd. simpl. case_match; repeat split; simpl; auto. Qed.
Lemma wait_leave_ok w : wait_ok w -> wait_ok (Wait.sleep_on_leave w).
Proof. intros (Hn & Hd & Hs). repeat split; simpl; auto. Qed.
Lemma wait_wake_ok w : wait_ok w -> wait_ok (Wait.wake_up w).1.
Proof. intros (Hn & Hd & Hs). unfold Wait.wake_up. rewrite Hd. simpl. case_match; repeat split; simpl; auto. Qed.

Lemma sock_wait_ok s c : sock_inv s -> wait_ok (get_wait c s).
Proof. intros [[] _ _]. done. Qed.

Lemma keeps_sleep_resume tsk c : keeps (sleep_on_resume tsk c).
Proof.
  unfold sleep_on_resume. eapply keeps_bind; [apply keeps_sock|]. intros s Hs.
  eapply keeps_bind; [by apply keeps_set_wait, wait_leave_ok, sock_wait_ok|]. intros _ _. by apply keeps_ret.
Qed.
Lemma keeps_sleep_on tsk c : keeps (sleep_on tsk c).
Proof.
  unfold sleep_on. eapply keeps_bind; [apply keeps_sock|]. intros s Hs.
  pose proof (wait_enter_ok _ (sock_wait_ok s c Hs)) as Hw. destruct (Wait.sleep_on_enter _) as [w blocks].
  eapply keeps_bind; [by apply keeps_set_wait|]. intros _ _. destruct blocks; [|by apply keeps_ret].
  intros st Hst. split; [done|]. exact (keeps_sleep_resume tsk c).
Qed.
Lemma keeps_wake_up tsk c : keeps (wake_up tsk c).
Proof.
  unfold wake_up. eapply keeps_bind; [apply keeps_sock|]. intros s Hs.
  pose proof (wait_wake_ok _ (sock_wait_ok s c Hs)) as Hw. destruct (Wait.wake_up _) as [w n].
  eapply keeps_bind; [by apply keeps_set_wait|]. intros _ _. by apply keeps_ret.
Qed.
Hint Resolve keeps_sleep_on keeps_wake_up : keeps.

Lemma keeps_connect tsk ip port : is_u32 past_instance -> keeps (tcp_sock_connect tsk ip port).
Proof.
  intros Hpast. unfold tcp_sock_connect. keep. eapply keeps_any, keeps_get_port.
Qed.
Lemma keeps_listen tsk b : keeps (tcp_sock_listen tsk b).
Proof. unfold tcp_sock_listen. keep. Qed.
Lemma keeps_enqueue tsk : keeps (tcp_sock_accept_enqueue tsk).
Proof. unfold tcp_sock_accept_enqueue. keep. Qed.
Lemma keeps_accept tsk : keeps (tcp_sock_accept tsk).
Proof. unfold tcp_sock_accept, tcp_sock_accept_dequeue. keep. Qed.
Lemma keeps_read tsk n : keeps (tcp_sock_read tsk n).
Proof.
  unfold tcp_sock_read. eapply keeps_bind; [apply keeps_sock|]. intros s [Hok Hrb Hst].
  assert (Hrb' : rb_ok (Ring.read_ring_buffer (rcv_buf s) n).2).
  { destruct Hrb as [Hwf Hsz]. pose proof (Ring.read_shape _ n Hwf) as Hr.
    destruct (Ring.read_ring_buffer _ n) as [[? ?] ?]. destruct Hr as (_ & Es & _ & _ & _ & Hwf' & _).
    split; [done|]. simpl. by rewrite Es. }
  destruct (Ring.read_ring_buffer (rcv_buf s) n) as [[len dat] rb]. keep.
Qed.
Hint Resolve keeps_listen keeps_enqueue keeps_accept keeps_read : keeps.

(** [CLOSE_WAIT] being out of reach, [LAST_ACK] is, too. *)
Lemma keeps_close tsk : keeps (tcp_sock_close tsk).
Proof.
  unfold tcp_sock_close. eapply keeps_bind; [apply keeps_sock|]. intros s [_ _ Hst]. keep.
  exfalso. match goal with E : state s = TCP_CLOSE_WAIT |- _ => by rewrite E in Hst end.
Qed.
Hint Resolve keeps_close : keeps.

Lemma keeps_process tsk cb : cb_ok cb -> keeps (tcp_process tsk cb).
Proof.
  intros (Hs & Hd & Hsp & Hdp). unfold tcp_process, is_tcp_seq_valid, tcp_process_state, tcp_process_listen. keep.
  case_match; keep.
Qed.

Lemma keeps_handle_tcp ip bs : keeps (handle_tcp_packet ip bs).
Proof. unfold handle_tcp_packet. keep. apply keeps_process, tcp_cb_init_ok. Qed.
Hint Resolve keeps_handle_tcp : keeps.
Lemma keeps_receive u fd len buf out : keeps (ustack_receive u fd len buf out).
Proof. unfold ustack_receive, handle_packet, handle_ip_packet. keep. Qed.

Hint Resolve keeps_receive : keeps.

Lemma keeps_timer t : keeps (timer t).
Proof. intros st Hst. unfold timer. destruct t as [|[n| |] o]; try done. by repeat case_match. Qed.
Lemma keeps_modify_timer t f : (forall x, timer_ok x -> timer_ok (f x)) -> keeps (modify_timer t f).
Proof.
  intros Hf st Hst. unfold modify_timer. destruct t as [|[n| |] o]; try done.
  destruct (socks st !! n) as [s|] eqn:E; [|done].
  unfold sock_timer. repeat case_match; simplify_eq; try done; (split; [|done]);
    (eapply all_insert; [done|done|]); destruct (proj1 Hst n s E) as [[[[] ? ? ? ? ? ? ? ? ? ?] ? ?] _];
    (split; [split; [by split|..]|..]); try done; by apply Hf.
Qed.
Lemma set_type_ok v x : v = 0 \/ v = 1 -> timer_ok x -> timer_ok (set_type v x).
Proof. by intros Hv (_ & Hx & He). Qed.
Lemma set_timeout_ok x : timer_ok x -> timer_ok (set_timeout TCP_TIMEWAIT_TIMEOUT x).
Proof. intros (Ht & _ & He). repeat split; auto. Qed.
Lemma set_enable_ok v x : v = 0 \/ v = 1 -> timer_ok x -> timer_ok (set_enable v x).
Proof. by intros Hv (Ht & Hx & _). Qed.
Hint Resolve keeps_timer keeps_modify_timer set_type_ok set_timeout_ok set_enable_ok or_introl or_intror eq_refl : keeps.

Lemma keeps_scan_from fuel pos : keeps (scan_from fuel pos).
Proof.
  revert pos. induction fuel as [|fuel IH]; intros pos; cbn [scan_from]; keep.
  intros st Hst. destruct (node_get st pos); [by apply IH|done].
Qed.
Lemma keeps_scan : keeps tcp_scan_timer_list.
Proof. intros st Hst. unfold tcp_scan_timer_list. destruct (node_get st _); [by apply keeps_scan_from|done]. Qed.
Lemma keeps_set_timers tsk : keeps (tcp_set_timewait_timer tsk) /\ keeps (tcp_set_retrans_timer tsk).
Proof. unfold tcp_set_timewait_timer, tcp_set_retrans_timer. split; keep. Qed.
Lemma keeps_tuple p : keeps (tuple_at p).
Proof. intros st Hst. unfold tuple_at. destruct p as [|[n| |] o]; try done. by repeat case_match. Qed.
Hint Resolve keeps_scan keeps_tuple : keeps.
Lemma keeps_unset tsk : keeps (tcp_unset_retrans_timer tsk).
Proof.
  intros st Hst. unfold tcp_unset_retrans_timer. destruct (node_get st timer_head) as [nd|]; [|done].
  generalize (timer_fuel st) as fuel. intros fuel. generalize (next nd) as pos. clear nd. intros pos.
  revert st Hst. change (keeps (unset_from fuel pos tsk)). revert pos.
  induction fuel as [|fuel IH]; intros pos; cbn [unset_from]; keep.
  eapply keeps_any with (Q := anything). intros st Hst. by destruct (node_get st pos).
Qed.

Lemma keeps_server_loop n csk rbuf : keeps (server_loop n csk rbuf).
Proof.
  revert rbuf. induction n as [|n IH]; intros rbuf; cbn [server_loop]; unfold server_round; keep.
  all: case_match; keep.
Qed.
Lemma keeps_client_loop n tsk file : keeps (client_loop n tsk file).
Proof. revert file. induction n as [|n IH]; intros file; cbn [client_loop]; unfold tcp_sock_write; keep. Qed.
Hint Resolve keeps_server_loop keeps_client_loop keeps_connect : keeps.

Lemma keeps_server port rbuf rounds : keeps (tcp_server port rbuf rounds).
Proof. unfold tcp_server. keep. Qed.
Lemma keeps_client ip port file : is_u32 past_instance -> keeps (tcp_client ip port file).
Proof. intros Hpast. unfold tcp_client. keep. Qed.

End Operations.
#[export] Hint Resolve keeps_alloc keeps_bind_sock keeps_listen keeps_connect keeps_accept keeps_read keeps_close
  keeps_send_packet keeps_receive keeps_scan keeps_unset keeps_server keeps_client : keeps.

(** ** The transition system *)

(** What may start: the two applications, the arrival of a frame, the start of the
    timer thread and a round of it, and any socket call by itself. *)
Section System.
Context `{Env} `{IpLayerOk}.

Definition forget {A} (m : M A) : M unit := m;; ret tt.

Inductive call : M unit -> Prop :=
  | call_server port rbuf rounds : call (forget (tcp_server port rbuf rounds))
  | call_client ip port file : call (forget (tcp_client ip port file))
  | call_frame u fd len buf out : call (forget (ustack_receive u fd len buf out))
  | call_timer_start : call (list_op (fun st => init_list_head st timer_head))
  | call_timer : call tcp_scan_timer_list
  | call_alloc : call (forget alloc_tcp_sock)
  | call_bind tsk port : call (forget (tcp_sock_bind tsk port))
  | call_listen tsk b : call (forget (tcp_sock_listen tsk b))
  | call_connect tsk ip port : call (forget (tcp_sock_connect tsk ip port))
  | call_accept tsk : call (forget (tcp_sock_accept tsk))
  | call_read tsk n : call (forget (tcp_sock_read tsk n))
  | call_write tsk buf n : call (tcp_sock_write tsk buf n)
  | call_close tsk : call (tcp_sock_close tsk)
  | call_send tsk dat len : call (tcp_send_packet tsk dat len)
  | call_set_timewait tsk : call (tcp_set_timewait_timer tsk)
  | call_set_retrans tsk : call (tcp_set_retrans_timer tsk)
  | call_unset_retrans tsk : call (tcp_unset_retrans_timer tsk).

(** The memory, and the threads that sleep. *)
Record sys := Sys { mem : stack; sleepers : list (stack -> outcome unit) }.

Inductive sys_step : sys -> sys -> Prop :=
  | step_call m st st' ks : call m -> m st = Done tt st' -> sys_step (Sys st ks) (Sys st' ks)
  | step_block m st st' tsk c k ks :
      call m -> m st = Asleep st' tsk c k -> sys_step (Sys st ks) (Sys st' (k :: ks))
  | step_resume k st st' ks1 ks2 :
      k st = Done tt st' -> sys_step (Sys st (ks1 ++ k :: ks2)) (Sys st' (ks1 ++ ks2))
  | step_reblock k k' st st' tsk c ks1 ks2 :
      k st = Asleep st' tsk c k' -> sys_step (Sys st (ks1 ++ k :: ks2)) (Sys st' (ks1 ++ k' :: ks2)).

(** From the memory [init_tcp_stack] leaves, with no thread asleep. *)
Inductive reachable : sys -> Prop :=
  | reach_init k st : init_tcp_stack (boot k) = Done tt st -> reachable (Sys st [])
  | reach_step s s' : reachable s -> sys_step s s' -> reachable s'.

Lemma call_keeps m : is_u32 past_instance -> call m -> keeps_all sock_inv packet_ok anything m.
Proof.
  intros Hpast Hm. destruct Hm; unfold forget, tcp_sock_write; keep; apply keeps_set_timers.
Qed.

Definition sys_inv (s : sys) : Prop :=
  all_good sock_inv packet_ok (mem s) /\ Forall (fun k => keeps_all sock_inv packet_ok anything k) (sleepers s).

Lemma sys_step_inv s s' : is_u32 past_instance -> sys_inv s -> sys_step s s' -> sys_inv s'.
Proof.
  intros Hpast [Hm Hk] Hstep. destruct Hstep as [m st st' ks Hc E|m st st' tsk c k ks Hc E|k st st' ks1 ks2 E|
    k k' st st' tsk c ks1 ks2 E]; simpl in *.
  - pose proof (call_keeps m Hpast Hc st Hm) as Hs. rewrite E in Hs. by split; [apply Hs|].
  - pose proof (call_keeps m Hpast Hc st Hm) as Hs. rewrite E in Hs. destruct Hs as [Hs Hk'].
    split; [done|]. by constructor.
  - apply Forall_app in Hk as [Hk1 [Hk Hk2]%Forall_cons]. specialize (Hk st Hm). rewrite E in Hk.
    split; [apply Hk|]. simpl. by apply Forall_app.
  - apply Forall_app in Hk as [Hk1 [Hk Hk2]%Forall_cons]. specialize (Hk st Hm). rewrite E in Hk.
    destruct Hk as [Hs Hk']. split; [done|]. simpl. apply Forall_app. split; [done|]. by constructor.
Qed.

Lemma reachable_inv s : is_u32 past_instance -> reachable s -> sys_inv s.
Proof.
  intros Hpast Hr. induction Hr as [k st E|s s' _ IH Hstep]; [|by apply (sys_step_inv s)].
  destruct (init_tcp_stack_run k) as (st' & E' & _ & Hs & Hse).
  assert (st = st') as -> by congruence. split; [|by constructor]. simpl. split; [|by rewrite Hse].
  intros m x Hx. by rewrite Hs in Hx.
Qed.

Lemma reachable_fresh s : is_u32 past_instance -> reachable s ->
  forall m, is_Some (socks (mem s) !! m) -> (m < next_blk (mem s))%positive.
Proof.
  intros Hpast Hr m [x Hx]. destruct (reachable_inv s Hpast Hr) as [[Hs _] _]. by destruct (Hs m x Hx).
Qed.

(** C1: in every state the program can reach, whatever applications, packets,
    timer rounds and socket calls ran and however they were interleaved at the
    points where they block: every socket has all its unsigned members in the range
    of their types, the flags of its wait structures 0 or 1 and none of them dead,
    its timers unset or set to the one timeout there is, a well-formed receive
    buffer of the size of a window, and one of six states: CLOSE_WAIT, LAST_ACK,
    FIN_WAIT_2, CLOSING and TIME_WAIT are never entered. *)
Theorem reachable_sockets s n t :
  is_u32 past_instance -> reachable s -> socks (mem s) !! n = Some t ->
  members_ok t /\ Ring.wf (rcv_buf t) /\ Ring.size (rcv_buf t) = TCP_DEFAULT_WINDOW + 1 /\
  (state t = TCP_CLOSED \/ state t = TCP_LISTEN \/ state t = TCP_SYN_RECV \/ state t = TCP_SYN_SENT \/
   state t = TCP_ESTABLISHED \/ state t = TCP_FIN_WAIT_1).
Proof.
  intros Hpast Hr Ht. pose proof (reachable_inv s Hpast Hr) as Hinv.
  destruct (proj1 (proj1 Hinv) n t Ht) as [[Hok [Hrb Hsz] Hst] _]. split; [done|]. split; [done|]. split; [done|].
  destruct (state t); try discriminate Hst; tauto.
Qed.

(** C17: whatever the program does, a packet it hands to the IP layer is one the
    receiving stack takes as well-formed: an IP header of five words that names
    TCP and the length of the packet, headers whose members fit their types, and the
    checksum that [handle_tcp_packet] recomputes. *)
Theorem reachable_packets s p :
  is_u32 past_instance -> reachable s -> p ∈ sent (mem s) ->
  ihl (pk_ip p) = 5 /\ protocol (pk_ip p) = IPPROTO_TCP /\
  tot_len (pk_ip p) = htons (pk_len p - ETHER_HDR_SIZE) /\ iphdr_ok (pk_ip p) /\ tcphdr_ok (pk_tcp p) /\ accepted p.
Proof.
  intros Hpast Hr Hp. pose proof (reachable_inv s Hpast Hr) as [[_ Hse] _].
  rewrite Forall_forall in Hse. by destruct (Hse p Hp).
Qed.

End System.

Section Witnesses.
Existing Instances demo_env demo_layer demo_layer_ok.

(** After one allocation there is a socket to speak of. *)
Lemma one_alloc : exists s n, reachable s /\ socks (mem s) !! n = Some (new_sock n).
Proof.
  destruct (init_tcp_stack_run 0) as (st & E & _ & Hs & _).
  pose proof (alloc_run st) as R. change (allocs_ok (nmalloc st)) with true in R. cbv iota in R.
  eexists _, (next_blk st). split.
  - eapply reach_step; [by apply (reach_init 0)|]. eapply step_call; [apply call_alloc|].
    unfold forget. rewrite (bind_done _ _ _ _ _ R). reflexivity.
  - apply lookup_insert_eq.
Qed.

Lemma reachable_sockets_witness : exists s n t,
  reachable s /\ socks (mem s) !! n = Some t /\ members_ok t /\ Ring.wf (rcv_buf t).
Proof.
  destruct one_alloc as (s & n & Hr & Ht). exists s, n, (new_sock n). split; [exact Hr|]. split; [exact Ht|].
  destruct (reachable_sockets s n (new_sock n)) as (Hok & Hrb & _);
    [unfold is_u32; simpl; lia|exact Hr|exact Ht|]. split; [exact Hok|exact Hrb].
Defined.

(** The fresh socket can send four bytes, and then there is a packet. *)
Lemma one_packet : exists s p, reachable s /\ p ∈ sent (mem s).
Proof.
  destruct one_alloc as ([st ks] & n & Hr & Ht).
  destruct (send_packet_run st n (new_sock n) [1; 2; 3; 4]) as (p & R & _); [exact Ht|apply (reachable_inv (Sys st ks)) in Hr as [[Hs _] _]; [by destruct (Hs n _ Ht) as [[[] _ _] _]|unfold is_u32; simpl; lia]|simpl; lia|].
  eexists _, p. split.
  - eapply reach_step; [exact Hr|]. eapply step_call; [|exact R]. apply call_send.
  - simpl. set_solver.
Qed.

Lemma reachable_packets_witness : exists s p, reachable s /\ p ∈ sent (mem s) /\ accepted p.
Proof.
  destruct one_packet as (s & p & Hr & Hp). exists s, p. split; [exact Hr|]. split; [exact Hp|].
  destruct (reachable_packets s p) as (_ & _ & _ & _ & _ & Hacc); [unfold is_u32; simpl; lia|exact Hr|exact Hp|].
  exact Hacc.
Defined.

End Witnesses.
