(* ===== verification/Main.v ===== *)
(** * The program (main.c)

    Command line, start-up and the loop that receives frames, on top of Ifaces.v
    (the interfaces), Stack.v (what is done with a frame, the applications) and
    System.v (everything that may run concurrently).  The answers of [poll] and
    [recvfrom] are given as a list of rounds of the loop. *)

From S2P Require Import Prelude DList Layout Memory Outcome Ifaces Segment Sock SockTables Out SockApi Stack System.
From Stdlib Require Import Ascii.
From stdpp Require Import strings pretty.
#[local] Open Scope Z_scope.
#[local] Open Scope c_scope.

(** ** C library *)

Definition code (c : Ascii.ascii) : Z := Z.of_N (Ascii.N_of_ascii c).
Definition is_space (c : Ascii.ascii) : bool := (code c =? 32) || (9 <=? code c) && (code c <=? 13).
Definition is_digit (c : Ascii.ascii) : bool := (48 <=? code c) && (code c <=? 57).

Fixpoint skip_space (s : string) : string :=
  match s with String c s' => if is_space c then skip_space s' else s | EmptyString => EmptyString end.
(** The number at the start of a string, after [acc]. *)
Fixpoint digits (acc : Z) (s : string) : Z :=
  match s with
  | String c s' => if is_digit c then digits (10 * acc + (code c - 48)) s' else acc
  | EmptyString => acc
  end.

(** [atoi] of the GNU C library: [strtol], which saturates at the limits of [long],
    converted to [int]. *)
Definition atoi (s : string) : Z :=
  let clamp z := Z.max (- 2 ^ 63) (Z.min z (2 ^ 63 - 1)) in
  s32 (clamp (match skip_space s with
              | String "-"%char s' => - digits 0 s'
              | String "+"%char s' => digits 0 s'
              | s' => digits 0 s'
              end)).

(** ** Command line *)

(** The thread that is started, with what its argument points to; [None] is
    [usage_and_exit].  (The argument is a local variable of [run_application],
    which returns at once.)  [inet_addr] belongs to the C library. *)
Inductive application := AppServer (port : Z) | AppClient (ip port : Z).
Definition run_application (inet_addr : string -> Z) (args : list string) : option application :=
  match args with
  | "server"%string :: args => match args with [p] => Some (AppServer (htons (atoi p))) | _ => None end
  | "client"%string :: args =>
      match args with [a; p] => Some (AppClient (inet_addr a) (htons (atoi p))) | _ => None end
  | _ => None
  end.

(** ** The receive loop *)

(** What [recvfrom] returns: the length, the contents of [buf], and whether the
    packet type is PACKET_OUTGOING. *)
Record recv := Recv { r_len : Z; r_buf : list Z; r_out : bool }.
(** A round: the result of [poll], the [revents] it stores, and what [recvfrom]
    would return for each descriptor. *)
Record round := Round { ready : Z; revents : nat -> Z; recvfrom : nat -> recv }.

Section Code.
Context `{Env} `{IpLayer} `{Kernel}.

(** The loop over the descriptors from [i] on, [n] of them. *)
Fixpoint serve (u : ustack) (r : round) (n i : nat) : M unit :=
  match n with
  | O => ret tt
  | S n =>
      do p <- checked (fds u !! i);
      (if Z.land (revents r i) POLLIN =? 0 then ret tt
       else
         let x := recvfrom r i in
         ustack_receive u (pfd_fd p) (r_len x) (r_buf x) (r_out x);; ret tt);;
      serve u r n (S i)
  end.

(** [true]: the loop was left after a failed [poll]; [false]: it still runs. *)
Fixpoint ustack_run (u : ustack) (rounds : list round) : M bool :=
  match rounds with
  | [] => ret false
  | r :: rounds =>
      if ready r <? 0 then ret true
      else if ready r =? 0 then ustack_run u rounds
      else serve u r (Z.to_nat (nifs u)) 0;; ustack_run u rounds
  end.

(** ** Start-up *)

(** [malloc] and [bzero] of the instance, and its interfaces.  The ARP cache and
    the routing table are the library's. *)
Definition init_ustack : ures unit :=
  if malloc_ok 0 then
    (u_list (fun u => init_list_head u IHead) ≫= fun _ => init_all_ifaces)
      (Ustack (ListHead INull INull) 0 [] ∅ 1 0 1)
  else UFault.

Inductive run := Stopped (code : Z) | Crashed | Running (a : application) (u : ustack) (st : stack).

(** What is printed, and the exit. *)
Definition newline : string := String (Ascii.ascii_of_nat 10) EmptyString.
Definition tab : string := String (Ascii.ascii_of_nat 9) EmptyString.
Definition usage_and_exit (basename : string) : string * run :=
  ("Usage: " +:+ newline +:+
   tab +:+ basename +:+ " server local_port" +:+ newline +:+
   tab +:+ basename +:+ " client remote_ip remote_port" +:+ newline,
   Stopped 1).

(** [main] up to [ustack_run]; [argv] with the program's name.  (What [basename]
    makes of that name only shows in the text.) *)
Definition main (inet_addr : string -> Z) (uid euid : Z) (argv : list string) : run :=
  if negb (uid =? 0) && negb (euid =? 0) then Stopped 1
  else if (length argv <? 2)%nat then (usage_and_exit (hd EmptyString argv)).2
  else
    match init_ustack with
    | UFault => Crashed
    | UExit c => Stopped c
    | UOk _ u =>
        match init_tcp_stack (boot (allocs u)) with
        | Done _ st =>
            match run_application inet_addr (tail argv) with
            | None => (usage_and_exit (hd EmptyString argv)).2
            | Some a => Running a u st
            end
        | _ => Crashed
        end
    end.

End Code.

(** ** Arguments *)

Lemma code_digit d : (d < 10)%N -> code (pretty_N_char d) = 48 + Z.of_N d.
Proof.
  intros Hd. assert (d ∈ [0; 1; 2; 3; 4; 5; 6; 7; 8; 9]%N) as Hin by (set_unfold; lia).
  set_unfold in Hin. by destruct Hin as [->|[->|[->|[->|[->|[->|[->|[->|[->|[->|[]]]]]]]]]]].
Qed.

Lemma is_digit_char d : (d < 10)%N -> is_digit (pretty_N_char d) = true.
Proof. intros Hd. unfold is_digit. rewrite code_digit by done. zcases; simpl; lia. Qed.

(** Reading the decimal digits of a number gives the number. *)
Lemma digits_pretty_go x s : digits 0 (pretty_N_go x s) = digits (Z.of_N x) s.
Proof.
  revert s. induction (N.lt_wf_0 x) as [x _ IH]. intros s. destruct (decide (x = 0)%N) as [->|Hx].
  - by rewrite pretty_N_go_0.
  - rewrite pretty_N_go_step by lia. rewrite IH by (apply N.div_lt; lia). cbn [digits].
    assert (x mod 10 < 10)%N as Hm by (apply N.mod_lt; lia). rewrite is_digit_char, code_digit by done. f_equal.
    rewrite N2Z.inj_div, N2Z.inj_mod. pose proof (Z.div_mod (Z.of_N x) 10). lia.
Qed.

Lemma pretty_go_head x s : (0 < x)%N -> exists d s', (d < 10)%N /\ pretty_N_go x s = String (pretty_N_char d) s'.
Proof.
  revert s. induction (N.lt_wf_0 x) as [x _ IH]. intros s Hx. rewrite pretty_N_go_step by done.
  destruct (decide (x < 10)%N) as [Hs|Hs].
  - rewrite N.div_small, pretty_N_go_0 by done. exists (x mod 10)%N. eexists. split; [|done]. apply N.mod_lt; lia.
  - apply IH; [apply N.div_lt; lia|]. apply N.div_str_pos. lia.
Qed.

Lemma atoi_pretty n : (n < 2 ^ 31)%N -> atoi (pretty n) = Z.of_N n.
Proof.
  intros Hn. assert (exists d s', (d < 10)%N /\ pretty n = String (pretty_N_char d) s' /\ digits 0 (pretty n) = Z.of_N n)
    as (d & s' & Hd & Es & Ev).
  { unfold pretty, pretty_N. case_decide as H0.
    - subst. exists 0%N. by eexists.
    - destruct (pretty_go_head n EmptyString) as (d & s' & Hd & E); [lia|]. exists d, s'. split; [done|]. split; [done|].
      by rewrite digits_pretty_go. }
  assert (Ea : atoi (String (pretty_N_char d) s') = s32 (Z.max (- 2 ^ 63) (Z.min (Z.of_N n) (2 ^ 63 - 1)))).
  { rewrite <- Ev, Es. clear Es Ev. assert (d ∈ [0; 1; 2; 3; 4; 5; 6; 7; 8; 9]%N) as Hin by (set_unfold; lia).
    set_unfold in Hin. by destruct Hin as [->|[->|[->|[->|[->|[->|[->|[->|[->|[->|[]]]]]]]]]]]. }
  rewrite Es, Ea. unfold s32. rewrite Z.mod_small; lia.
Qed.

(** A port given on the command line in decimal reaches the application
    unchanged: both applications are started with the port in network order, and
    [ntohs] of it, which the socket code computes, is the number that was typed. *)
Theorem port_argument_roundtrip (inet_addr : string -> Z) (addr : string) (p : N) :
  (p < 65536)%N ->
  exists port, run_application inet_addr ["server"%string; pretty p] = Some (AppServer port) /\
    run_application inet_addr ["client"%string; addr; pretty p] = Some (AppClient (inet_addr addr) port) /\
    is_u16 port /\ ntohs port = Z.of_N p.
Proof.
  intros Hp. exists (htons (Z.of_N p)). cbn [run_application]. rewrite atoi_pretty by lia.
  split; [done|]. split; [done|]. split; [apply htons_range|]. rewrite ntohs_htons. apply u16_id. unfold is_u16. lia.
Qed.

Lemma port_argument_roundtrip_witness :
  exists port, run_application (fun _ => 0) ["server"; "10001"]%string = Some (AppServer port) /\ ntohs port = 10001.
Proof.
  destruct (port_argument_roundtrip (fun _ => 0) "10.0.0.1" 10001) as (port & E & _ & _ & Hp); [lia|]. by exists port.
Defined.

(** ** Receiving *)

(** What the kernel delivers, frame by frame: the interface and the bytes. *)
Definition incoming_at (x : recv) (i : iface_info) : list (iface_info * list Z) :=
  if (r_len x <=? 0) || r_out x then [] else [(i, take (Z.to_nat (r_len x)) (r_buf x))].
Fixpoint incoming_from (r : round) (k : nat) (ifs : list iface_info) : list (iface_info * list Z) :=
  match ifs with
  | [] => []
  | i :: ifs =>
      (if Z.land (revents r k) POLLIN =? 0 then [] else incoming_at (recvfrom r k) i) ++ incoming_from r (S k) ifs
  end.
(** Up to the first failed [poll]. *)
Fixpoint incoming (ifs : list iface_info) (rounds : list round) : list (iface_info * list Z) :=
  match rounds with
  | [] => []
  | r :: rounds =>
      if ready r <? 0 then []
      else if ready r =? 0 then incoming ifs rounds
      else incoming_from r 0 ifs ++ incoming ifs rounds
  end.

Section Loop.
Context `{Env} `{IpLayer}.

(** Each frame is handled on its interface, or dropped when memory is short. *)
Fixpoint deliver (frames : list (iface_info * list Z)) : M unit :=
  match frames with
  | [] => ret tt
  | (i, frame) :: frames =>
      (do ok <- malloc; if negb ok then ret tt else handle_packet (Some i) frame;; ret tt);; deliver frames
  end.

Lemma deliver_app l l' : deliver (l ++ l') ≃ (deliver l;; deliver l').
Proof.
  induction l as [|[i frame] l IH]; cbn [deliver app]; [by rewrite ret_bind|].
  etransitivity; [|symmetry; apply bind_assoc]. apply bind_cong; [done|]. intros _. exact IH.
Qed.

Lemma receive_deliver u fd x i :
  fd_to_iface u fd = Some (Some i) ->
  (ustack_receive u fd (r_len x) (r_buf x) (r_out x);; ret tt) ≃ deliver (incoming_at x i).
Proof.
  intros Hi. unfold ustack_receive, incoming_at.
  destruct (r_len x <=? 0); [done|]. destruct (r_out x); [done|]. cbn [orb deliver]. rewrite Hi. cbn [checked].
  rewrite !bind_assoc, ret_bind. rewrite bind_assoc. apply bind_cong; [done|]. intros ok. destruct ok; cbn [negb].
  - rewrite !bind_assoc. apply bind_cong; [done|]. intros v. by rewrite !ret_bind.
  - by rewrite !ret_bind.
Qed.

(** The loop over the descriptors, for interfaces opened by the start-up code. *)
Lemma serve_deliver u l names r n k :
  listed u l names -> Forall2 (polled u) l (fds u) -> NoDup (pfd_fd <$> fds u) -> (k + n = length l)%nat ->
  serve u r n k ≃ deliver (incoming_from r k (omap (fun m => ifaces u !! m) (drop k l))).
Proof.
  intros L Hp ND. revert k. induction n as [|n IH]; intros k Hk.
  - rewrite drop_ge by lia. done.
  - assert (exists p, fds u !! k = Some p) as [p Hpk].
    { apply lookup_lt_is_Some. rewrite <- (Forall2_length _ _ _ Hp). lia. }
    destruct (fd_to_iface_at u l names k p L Hp ND Hpk) as (m & i & Hm & Hi & _ & Hf).
    rewrite (drop_S l m k Hm). cbn [omap list_omap]. rewrite Hi. cbn [serve incoming_from]. rewrite Hpk. cbn [checked].
    rewrite ret_bind, deliver_app. apply bind_cong; [|intros _; apply IH; lia].
    destruct (Z.land (revents r k) POLLIN =? 0); [done|]. by apply receive_deliver.
Qed.

(** C11: the receive loop, run on interfaces opened by the start-up code with
    different descriptors, does exactly this: every frame [recvfrom] returns for
    a descriptor that [poll] reports as readable, unless it is empty, an error or
    a copy of an outgoing packet, is handled once, in order, on the interface of
    that descriptor (or dropped when its buffer cannot be allocated), until
    [poll] fails. *)
Theorem ustack_run_delivers u l names rounds :
  listed u l names -> Forall2 (polled u) l (fds u) -> NoDup (pfd_fd <$> fds u) ->
  ustack_run u rounds ≃
  (deliver (incoming (omap (fun m => ifaces u !! m) l) rounds);; ret (existsb (fun r => ready r <? 0) rounds)).
Proof.
  intros L Hp ND. induction rounds as [|r rounds IH]; cbn [ustack_run incoming existsb]; [done|].
  destruct (ready r <? 0); [done|]. destruct (ready r =? 0); [exact IH|]. cbn [orb].
  rewrite (serve_deliver u l names r _ 0 L Hp ND) by (rewrite (listed_nifs _ _ _ L), Nat2Z.id; done).
  rewrite deliver_app, bind_assoc. apply bind_cong; [by rewrite drop_0|]. intros _. exact IH.
Qed.

End Loop.

(** ** Start-up *)

Section Start.
Context `{Env} `{IpLayerOk} `{KernelOk}.

Lemma init_ustack_run :
  (forall k, malloc_ok k = true) ->
  exists u, blank u /\ calls u = 0%nat /\ init_ustack = init_all_ifaces u.
Proof.
  intros Hm. unfold init_ustack. rewrite Hm. set (u0 := Ustack _ _ _ _ _ _ _).
  destruct (init_list_head_spec u0 IHead) as (u1 & E1 & _); [by eexists|]. exists u1.
  assert (Ed : idata u1 = idata u0) by (revert E1; apply init_list_head_view, node_set_idata).
  injection Ed as Em En _ Ec _. split; [|split; [done|]; by rewrite (u_bind_ok _ _ u0 tt u1) by (unfold u_list; by rewrite E1)].
  split; [|done]. apply (fmap_empty_iff bare). rewrite Em. by rewrite fmap_empty.
Qed.

Lemma main_run (inet_addr : string -> Z) (uid euid : Z) (argv : list string) :
  let run := main inet_addr uid euid argv in let names := usable_names k_ifaddrs in
  (uid ≠ 0 -> euid ≠ 0 -> run = Stopped 1) /\ ((length argv < 2)%nat -> run = Stopped 1) /\
  (uid = 0 \/ euid = 0 -> (2 <= length argv)%nat -> (forall k, malloc_ok k = true) ->
   (names = [] -> run = Stopped 1) /\
   (DEV_NAMES <= Z.of_nat (length (dev_names names)) -> run = Crashed) /\
   (names ≠ [] -> Z.of_nat (length (dev_names names)) < DEV_NAMES ->
    match devices 0 names, run_application inet_addr (tail argv) with
    | Some ds, Some a =>
        exists u l st, run = Running a u st /\ all_open u l names ds /\ tables_ok st no_socks /\
          reachable (System.Sys st [])
    | _, _ => run = Stopped 1
    end)).
Proof.
  intros run names. unfold run, main. split; [|split].
  - intros Hu He. by rewrite (proj2 (Z.eqb_neq _ _) Hu), (proj2 (Z.eqb_neq _ _) He).
  - intros Hl. destruct (negb (uid =? 0) && negb (euid =? 0)); [done|].
    by destruct (Nat.ltb_spec (length argv) 2); [|lia].
  - intros Hr Hl Hm.
    assert (negb (uid =? 0) && negb (euid =? 0) = false) as -> by (destruct Hr as [-> | ->]; simpl; [done|apply andb_false_r]).
    destruct (Nat.ltb_spec (length argv) 2); [lia|]. destruct (init_ustack_run Hm) as (u0 & Hb & Hc & ->).
    destruct (init_all_ifaces_run u0 Hb Hm) as (Hn & Hlong & Hopen). fold names in Hn, Hlong, Hopen.
    split; [by intros ->%Hn|]. split; [by intros ->%Hlong|]. intros Hne Hlen. specialize (Hopen Hne Hlen).
    rewrite Hc in Hopen. destruct (devices 0 names) as [ds|]; [|by rewrite Hopen].
    destruct Hopen as (u & l & -> & Ho). destruct (init_tcp_stack_run (allocs u)) as (st & E & HT & _). rewrite E.
    destruct (run_application _ _) as [a|]; [|done]. exists u, l, st.
    do 3 (split; [done|]). by eapply reach_init.
Qed.

(** C25: [main] stops with 1 when neither the real nor the effective user is
    root and when an argument is missing.  Otherwise, as long as memory lasts: it
    stops with 1 on a host without usable interfaces; it crashes on one whose
    interface names do not fit into the 1024 bytes of the message logged; and on
    any other it stops with 1 when the kernel does not open or describe one of the
    devices or the arguments are wrong, and else goes on with the chosen
    application, every usable interface open, polled and holding what the kernel
    answered for its device, and the socket tables in an initial state of the
    transition system of System.v. *)
Theorem main_spec (inet_addr : string -> Z) (uid euid : Z) (argv : list string) :
  let run := main inet_addr uid euid argv in let names := usable_names k_ifaddrs in
  (uid ≠ 0 -> euid ≠ 0 -> run = Stopped 1) /\ ((length argv < 2)%nat -> run = Stopped 1) /\
  (uid = 0 \/ euid = 0 -> (2 <= length argv)%nat -> (forall k, malloc_ok k = true) ->
   (names = [] -> run = Stopped 1) /\
   (DEV_NAMES <= Z.of_nat (length (dev_names names)) -> run = Crashed) /\
   (names ≠ [] -> Z.of_nat (length (dev_names names)) < DEV_NAMES ->
    match devices 0 names, run_application inet_addr (tail argv) with
    | Some ds, Some a =>
        exists u l st, run = Running a u st /\ all_open u l names ds /\ tables_ok st no_socks /\
          reachable (System.Sys st [])
    | _, _ => run = Stopped 1
    end)).
Proof. apply main_run. Qed.

End Start.

Section Witnesses.
Existing Instances host_env host_kernel host_kernel_ok demo_layer demo_layer_ok.

Definition two_rounds : list round :=
  [Round 1 (fun _ => POLLIN) (fun _ => Recv 14 (replicate 14 0) false); Round (-1) (fun _ => 0) (fun _ => Recv 0 [] false)].

(** One frame of an unknown type is handled on the host's interface; then [poll]
    fails. *)
Lemma ustack_run_delivers_witness :
  exists u ifs, ustack_run u two_rounds ≃ (deliver (incoming ifs two_rounds);; ret true).
Proof.
  destruct host_open as (l & L & _ & _ & P). exists host, (omap (fun m => ifaces host !! m) l).
  apply (ustack_run_delivers host l _ two_rounds L P). vm_compute. apply NoDup_singleton.
Defined.

Lemma main_spec_witness :
  exists u l st, main (fun _ => 0) 0 0 ["tcp_stack"; "server"; "10001"]%string = Running (AppServer (htons 10001)) u st /\
    all_open u l [eth0] [device_of 1] /\ reachable (System.Sys st []).
Proof.
  destruct (main_spec (fun _ => 0) 0 0 ["tcp_stack"; "server"; "10001"]%string) as (_ & _ & Hm).
  destruct Hm as (_ & _ & Hr); [left; reflexivity|simpl; lia|reflexivity|].
  change (usable_names k_ifaddrs) with [eth0] in Hr. rewrite host_devices in Hr.
  destruct Hr as (u & l & st & E & Ho & _ & Hreach); [discriminate|vm_compute; reflexivity|].
  exists u, l, st. split; [exact E|]. split; [exact Ho|exact Hreach].
Defined.
End Witnesses.
