(* ===== verification/Sessions.v ===== *)
(** * Sessions

    The components put together: the program from its start, the application
    asleep in its first blocking call, the frame that answers it, and what the
    application does when it goes on. *)

From Stdlib Require Import String.
From S2P Require Import Prelude Hash Checksum DList RingBuffer SynchWait Layout Segment Memory Ifaces Sock SockTables Ports Out SockApi AcceptQueue Calls TcpIn Timer Stack System Main.

Section Sessions.
Context `{Env} `{IpLayerOk} `{KernelOk}.

(** ** One frame *)

(** A well-formed segment for this host, in an IP frame read from [fd]. *)
Record arrives (u : ustack) (fd : Z) (eth : list Z) (p : packet) : Prop := {
  ar_eth : length eth = 14%nat;
  ar_type : ntohs (load 2 eth 12) = ETH_P_IP;
  ar_ip : iphdr_ok (pk_ip p);
  ar_tcp : tcphdr_ok (pk_tcp p);
  ar_ihl : ihl (pk_ip p) = 5;
  ar_proto : protocol (pk_ip p) = IPPROTO_TCP;
  ar_len : tcp_len (pk_ip p) <= 20 + Z.of_nat (length (pk_data p));
  ar_payload : 0 <= pl_len (cb_of p);
  ar_check : accepted p;
  ar_iface : exists i, fd_to_iface u fd = Some (Some i) /\ daddr (cb_of p) = if_ip i
}.

Definition receive (u : ustack) (fd : Z) (eth : list Z) (p : packet) : M (option verdict) :=
  ustack_receive u fd (Z.of_nat (length (frame_of eth p))) (frame_of eth p) false.

Definition process (p : packet) : M unit := do tsk <- tcp_sock_lookup (cb_of p); tcp_process tsk (cb_of p).

(** [ustack_run] hands the frame on to [tcp_process]. *)
Lemma receive_run u fd eth p st :
  (forall k, malloc_ok k = true) -> arrives u fd eth p ->
  (forall st', process p (tick_malloc st) = Done tt st' ->
     receive u fd eth p st = Done (Some (Verdict false false true)) st') /\
  (forall f, process p (tick_malloc st) = Fault f -> receive u fd eth p st = Fault f).
Proof.
  intros Hm [He Hty Hi Ht Hihl Hp Hl _ Hck (i & Hf & Hd)]. unfold receive, ustack_receive.
  assert (Hlen : (length (frame_of eth p) >= 14)%nat) by (unfold frame_of; rewrite length_app; lia).
  destruct (Z.leb_spec (Z.of_nat (length (frame_of eth p))) 0); [lia|]. rewrite Hf.
  rewrite (bind_done _ _ _ (Some i) st) by done. rewrite (bind_done _ _ _ _ _ (malloc_run st)), Hm. cbn [negb].
  rewrite Nat2Z.id, take_ge by lia. unfold handle_packet. destruct (Nat.ltb_spec (length (frame_of eth p)) 14); [lia|].
  assert (load 2 (frame_of eth p) 12 = load 2 eth 12) as ->.
  { unfold load, frame_of. rewrite drop_app_le, take_app_le; [done|rewrite length_drop; lia|lia]. }
  rewrite Hty, Z.eqb_refl. destruct (packet_run eth p i (tick_malloc st)) as (_ & _ & R); [done..|].
  destruct (R Hd Hck) as [R1 R2]. split.
  - intros st' E. by rewrite (bind_done _ _ _ _ _ (R1 st' E)).
  - intros f E. by apply bind_fault, R2.
Qed.

(** The window test by offsets from 0, for all of them. *)
Lemma less_offset i j :
  - 2 ^ 31 <= i - j < 2 ^ 31 -> less_than_32b (u32 i) (u32 j) = (i <? j) /\ less_or_equal_32b (u32 i) (u32 j) = (i <=? j).
Proof.
  intros H'. unfold less_than_32b, less_or_equal_32b. rewrite s32_diff, s32_u32, s32_id by lia. zcases; lia.
Qed.

(** A packet that begins with one of the first 65535 numbers, or reaches them past
    [2 ^ 32]; SYN and FIN count for one number. *)
Definition last_seq (cb : tcp_cb) : Z :=
  seq cb + pl_len cb + (if negb (Z.land (flags cb) (Z.lor TCP_SYN TCP_FIN) =? 0) then 1 else 0).
Definition in_first_window (cb : tcp_cb) : Prop := seq cb < TCP_DEFAULT_WINDOW \/ 2 ^ 32 <= last_seq cb.
#[export] Instance in_first_window_dec cb : Decision (in_first_window cb).
Proof. unfold in_first_window. apply _. Defined.

Lemma u32_shift x : u32 (x - 2 ^ 32) = u32 x.
Proof. unfold u32. replace (x - 2 ^ 32) with (x + (-1) * 2 ^ 32) by lia. apply Z_mod_plus_full. Qed.

(** A socket that has received nothing takes exactly those. *)
Lemma first_window u fd eth p s :
  arrives u fd eth p -> rcv_nxt s = 0 -> rcv_wnd s = TCP_DEFAULT_WINDOW ->
  seq_valid s (cb_of p) = bool_decide (in_first_window (cb_of p)).
Proof.
  intros [] Hn Hw. pose proof (htonl_range (th_seq (pk_tcp p))) as Hq.
  pose proof (htons_range (tot_len (pk_ip p))) as [_ Htot].
  change (htonl (th_seq (pk_tcp p))) with (seq (cb_of p)) in Hq.
  assert (Hpl : pl_len (cb_of p) < 2 ^ 16 + 64).
  { simpl. unfold IP_HDR_SIZE, TCP_HDR_SIZE. destruct ar_tcp0 as (_ & _ & _ & _ & _ & Ho & _).
    change (ntohs (tot_len (pk_ip p))) with (htons (tot_len (pk_ip p))).
    rewrite ar_ihl0. lia. }
  assert (Hend : seq_end (cb_of p) = u32 (last_seq (cb_of p))) by done.
  assert (Hl : seq (cb_of p) <= last_seq (cb_of p) <= seq (cb_of p) + 2 ^ 16 + 64) by (unfold last_seq; case_match; lia).
  apply eq_true_iff_eq. rewrite bool_decide_eq_true. unfold seq_valid, in_first_window. rewrite Hend, Hn, Hw.
  set (e := last_seq (cb_of p)) in *. set (q := seq (cb_of p)) in *. change 0 with (u32 0) at 2.
  change (u32 (0 + Z.max TCP_DEFAULT_WINDOW 1)) with (u32 TCP_DEFAULT_WINDOW).
  assert (Eq : q = u32 q) by (by rewrite u32_id). unfold is_u32 in Hq. unfold TCP_DEFAULT_WINDOW in *.
  destruct (Z.ltb_spec q (2 ^ 31 + 65535)).
  - rewrite Eq at 1. rewrite (proj1 (less_offset q 65535 ltac:(lia))).
    destruct (Z.ltb_spec q 65535); [|split; [done|lia]]. rewrite (proj2 (less_offset 0 e ltac:(lia))).
    destruct (Z.leb_spec 0 e); [|lia]. split; [by left|done].
  - rewrite Eq at 1. rewrite <- (u32_shift q), (proj1 (less_offset (q - 2 ^ 32) 65535 ltac:(lia))).
    rewrite <- (u32_shift e), (proj2 (less_offset 0 (e - 2 ^ 32) ltac:(lia))).
    destruct (Z.ltb_spec (q - 2 ^ 32) 65535); [|lia]. simpl. destruct (Z.leb_spec 0 (e - 2 ^ 32)); split; try done; lia.
Qed.

(** ** From [main] to the application's first sleep *)

Lemma main_start inet_addr uid euid argv a u st :
  main inet_addr uid euid argv = Running a u st ->
  tables_ok st no_socks /\ socks st = ∅ /\ sent st = [] /\ reachable (Sys st []).
Proof.
  unfold main. destruct (negb (uid =? 0) && _); [discriminate|]. destruct (length argv <? 2)%nat; [discriminate|].
  destruct init_ustack as [[] u'| |]; [|discriminate|discriminate].
  destruct (init_tcp_stack_run (allocs u')) as (st' & E & HT & Hs & Hse). rewrite E.
  destruct (run_application inet_addr (tail argv)); [|discriminate]. intros [= _ _ <-].
  split; [exact HT|]. split; [exact Hs|]. split; [exact Hse|]. eapply reach_init; exact E.
Qed.

(** The memory after [alloc_tcp_sock] on it. *)
Lemma first_alloc st :
  (forall k, malloc_ok k = true) -> tables_ok st no_socks ->
  let n := next_blk st in
  exists st1, alloc_tcp_sock st = Done (sock_ptr n) st1 /\ tables_ok st1 no_socks /\
    socks st1 !! n = Some (new_sock n) /\ sent st1 = sent st.
Proof.
  intros Hm HT n. pose proof (alloc_run st) as R.
  assert (allocs_ok (nmalloc st) = true) as Ha by (unfold allocs_ok; simpl; by rewrite !Hm). rewrite Ha in R.
  eexists. split; [exact R|]. split; [|split; [apply lookup_insert_eq|done]].
  apply (tables_same (set_socks (<[n := new_sock n]> (socks st)) st)); [|done..].
  apply tables_update; [done|]. intros w h _ Hn. by apply elem_of_nil in Hn.
Qed.

Lemma new_sock_ok n : sock_ok (new_sock n).
Proof. split; simpl; unfold is_u16, is_u32, TCP_DEFAULT_WINDOW; lia. Qed.

Lemma no_socks_out n : in_no_table no_socks n.
Proof. intros w h _ Hn. by apply elem_of_nil in Hn. Qed.

(** ** The client *)

(** [tcp_sock_write] being empty, the client's loop only goes through the file. *)
Lemma client_loop_run fuel tsk file st :
  (length file < fuel)%nat -> client_loop fuel tsk file st = Done tt st.
Proof.
  revert file. induction fuel as [|fuel IH]; intros file Hf; [lia|]. cbn [client_loop]. unfold tcp_sock_write.
  rewrite (bind_done _ _ _ tt st) by done. destruct (_ <? BUF_SIZE) eqn:E; [done|]. apply IH.
  rewrite length_take, length_drop in *. unfold BUF_SIZE in *. zprop. lia.
Qed.

(** [tcp_client] up to where it sleeps, and what is left to do then. *)
Definition client_rest (tsk : ptr) (file : list Z) : M unit :=
  do r <- (sleep_on_resume tsk WConnect;; ret 0);
  if r <? 0 then c_exit 1 else client_loop (S (length file)) tsk file;; tcp_sock_close tsk.

Lemma client_run st ip port file :
  (forall k, malloc_ok k = true) -> is_u32 past_instance -> tables_ok st no_socks ->
  let n := next_blk st in
  exists p st1 s1, tcp_client ip port file st = Asleep st1 (sock_ptr n) WConnect (fun st => client_rest (sock_ptr n) file st) /\
    sent st1 = sent st ++ [p] /\ accepted p /\
    cb_of p = cb_for past_instance (htonl ip) (htons PORT_MIN) (htons port) 0 0 TCP_SYN TCP_DEFAULT_WINDOW 0 /\
    tables_ok st1 (linked_twice no_socks n TEst (addressed ip port (new_sock n))) /\
    socks st1 !! n = Some s1 /\ strip s1 = strip (connecting ip port (new_sock n)).
Proof.
  intros Hm Hpast HT n. destruct (first_alloc st Hm HT) as (st0 & R0 & HT0 & Hs0 & Hse0). fold n in R0, Hs0.
  destruct (connect_run st0 no_socks n (new_sock n) ip port) as (p & st1 & s1 & R & E & P);
    [done|done|done|apply no_socks_no_parent|apply no_socks_out|done|apply new_sock_ok|done|
     by intros m t Hin; apply elem_of_nil in Hin|].
  exists p, st1, s1. rewrite Hse0 in E. split; [|split; [exact E|exact P]].
  unfold tcp_client. rewrite (bind_done _ _ _ _ _ R0). unfold bind at 1. by rewrite R.
Qed.

(** The connection's packets, from the client's side. *)
Definition client_cb (ip port sq fl : Z) : tcp_cb :=
  cb_for past_instance (htonl ip) (htons PORT_MIN) (htons port) sq 0 fl TCP_DEFAULT_WINDOW 0.
Definition of_peer (ip port : Z) (cb : tcp_cb) : Prop :=
  saddr cb = htonl ip /\ daddr cb = past_instance /\ sport cb = htons port /\ dport cb = htons PORT_MIN.

(** The client's socket from the answer on. *)
Definition answered (ip port : Z) (n : positive) : tcp_sock :=
  set_wait WConnect (Wait.SynchWait 1 0 1) (set_state TCP_ESTABLISHED (connecting ip port (new_sock n))).

Lemma connecting_ok ip port n : is_u32 past_instance -> sock_ok (connecting ip port (new_sock n)).
Proof.
  intros Hp. destruct (new_sock_ok n). split; simpl; try done; first [apply htonl_range|apply htons_range|apply u32_range].
Qed.

Lemma sock_ok_wait c w s : sock_ok s -> sock_ok (set_wait c w s).
Proof. intros []. destruct c; by split. Qed.
Lemma sock_ok_state x s : sock_ok s -> sock_ok (set_state x s).
Proof. intros []. by split. Qed.


Section Client.
Context (ip port : Z) (n : positive) (Hm : forall k, malloc_ok k = true) (Hpast : is_u32 past_instance).

(** The packets of a socket whose numbers have not moved since the SYN. *)
Lemma client_cb_of s s' fl :
  strip s = strip s' -> conn s' = conn (connecting ip port (new_sock n)) ->
  (snd_nxt s', rcv_nxt s', rcv_wnd s') = (1, 0, TCP_DEFAULT_WINDOW) ->
  cb_for (sk_sip s) (sk_dip s) (sk_sport s) (sk_dport s) (snd_nxt s) (rcv_nxt s) fl (rcv_wnd s) 0 =
  client_cb ip port 1 fl.
Proof.
  intros Es Hc Hn. assert (Hc' : conn s = conn s') by exact (f_equal conn Es). rewrite Hc in Hc'.
  assert (Hn' : (snd_nxt s, rcv_nxt s, rcv_wnd s) = (snd_nxt s', rcv_nxt s', rcv_wnd s'))
    by exact (f_equal (fun x => (snd_nxt x, rcv_nxt x, rcv_wnd x)) Es).
  rewrite Hn in Hn'. injection Hn' as -> -> ->. injection Hc' as -> -> -> ->. reflexivity.
Qed.

(** What an answer does to the socket asleep in [tcp_sock_connect]. *)
Lemma answer_run u fd eth p st s :
  tables_ok st (linked_twice no_socks n TEst (addressed ip port (new_sock n))) ->
  socks st !! n = Some s -> strip s = strip (connecting ip port (new_sock n)) ->
  arrives u fd eth p -> of_peer ip port (cb_of p) -> flags (cb_of p) ≠ TCP_RST -> flags (cb_of p) ≠ TCP_FIN ->
  if bool_decide (in_first_window (cb_of p)) then
    exists q st' s', process p st = Done tt st' /\ sent st' = sent st ++ [q] /\ accepted q /\
      cb_of q = client_cb ip port 1 TCP_ACK /\ socks st' !! n = Some s' /\ strip s' = strip (answered ip port n)
  else process p st = Done tt st.
Proof.
  intros HT Hs Es Ha (Hsa & Hda & Hsp & Hdp) Hr Hf.
  assert (Hconn : conn s = (daddr (cb_of p), saddr (cb_of p), dport (cb_of p), sport (cb_of p))).
  { rewrite Hsa, Hda, Hsp, Hdp. exact (f_equal conn Es). }
  assert (L : tcp_sock_lookup (cb_of p) st = Done (sock_ptr n) st).
  { eapply (lookup_hashed st _ (cb_of p) n s HT); [|done|done]. rewrite Hsa, Hda, Hsp, Hdp. apply linked_twice_in. }
  unfold process. rewrite (bind_done _ _ _ _ _ L).
  rewrite <- (first_window u fd eth p s); [|done|exact (f_equal rcv_nxt Es)|exact (f_equal rcv_wnd Es)].
  destruct (seq_valid s (cb_of p)) eqn:Hv; [|by apply (process_dropped st n s)].
  destruct (syn_sent_run st n s (cb_of p)) as (q & st' & R & E & Hacc & Hcb & Hso);
    [done|done|apply sock_ok_strip; rewrite Es; by apply sock_ok_strip, connecting_ok|exact (f_equal state Es)
    |exact (f_equal (fun x => Wait.dead (wait_connect x)) Es)
    |exact (f_equal (fun x => Wait.notified (wait_connect x)) Es)|done|done|done|].
  eexists q, st', _. split; [exact R|]. split; [done|]. split; [done|]. split.
  - rewrite Hcb. exact (client_cb_of s (connecting ip port (new_sock n)) TCP_ACK Es eq_refl eq_refl).
  - rewrite Hso. split; [apply lookup_insert_eq|].
    assert (Wait.sleep (wait_connect s) = 1) as -> by exact (f_equal (fun x => Wait.sleep (wait_connect x)) Es).
    by apply (strip_wait WConnect), strip_state.
Qed.

(** What the client does when it wakes up. *)
Lemma rest_run file st s :
  socks st !! n = Some s -> strip s = strip (answered ip port n) ->
  exists q st' s', client_rest (sock_ptr n) file st = Done tt st' /\ sent st' = sent st ++ [q] /\ accepted q /\
    cb_of q = client_cb ip port 1 TCP_FIN /\ socks st' !! n = Some s' /\
    state s' = TCP_FIN_WAIT_1 /\ ref_cnt s' = 1.
Proof.
  intros Hs Es. unfold client_rest. set (s1 := set_wait WConnect Wait.wait_init s).
  set (st1 := set_socks (<[n := s1]> (socks st)) st).
  assert (Es1 : strip s1 = strip (set_wait WConnect Wait.wait_init (answered ip port n)))
    by (by apply strip_wait).
  assert (R1 : (sleep_on_resume (sock_ptr n) WConnect;; ret 0) st = Done 0 st1).
  { rewrite (bind_done _ _ _ 0 st1); [done|].
    apply resume_run; [done|exact (f_equal (fun x => Wait.dead (wait_connect x)) Es)]. }
  rewrite (bind_done _ _ _ _ _ R1). cbn [Z.ltb Z.compare].
  rewrite (bind_done _ _ _ tt st1) by (apply client_loop_run; lia).
  assert (Hst : state s1 = TCP_ESTABLISHED) by exact (f_equal state Es1).
  destruct (close_run st1 n s1 Hm) as [_ C];
    [apply lookup_insert_eq|apply sock_ok_strip; rewrite Es1; apply sock_ok_strip|congruence|].
  { by apply sock_ok_wait, sock_ok_wait, sock_ok_state, connecting_ok. }
  destruct C as (ps & st2 & R2 & E1 & E2 & E3 & E4 & _); [congruence|]. rewrite Hst in *. cbn [close_packets close_state] in *.
  destruct ps as [|q [|]]; try discriminate E2. apply (f_equal head) in E2. cbn [head fmap list_fmap cbs_of] in E2.
  apply (inj Some) in E2. inversion_clear E3.
  set (s2 := set_state TCP_FIN_WAIT_1 (after_flags [TCP_FIN] s1)) in *.
  assert (Href : ref_cnt s2 = 2) by (transitivity (ref_cnt s1); [reflexivity|exact (f_equal ref_cnt Es1)]).
  unfold released in R2. rewrite Href in R2. change (2 - 1 <=? 0) with false in R2. cbv iota in R2.
  eexists q, _, _. split; [exact R2|]. split; [exact E1|]. split; [done|]. split; [|split; [apply lookup_insert_eq|done]].
  rewrite E2. exact (client_cb_of s1 _ TCP_FIN Es1 eq_refl eq_refl).
Qed.

End Client.

Lemma client_session_run inet_addr uid euid argv ip port u st0 fd eth p file :
  (forall k, malloc_ok k = true) -> is_u32 past_instance ->
  main inet_addr uid euid argv = Running (AppClient ip port) u st0 ->
  arrives u fd eth p -> of_peer ip port (cb_of p) -> flags (cb_of p) ≠ TCP_RST -> flags (cb_of p) ≠ TCP_FIN ->
  exists n st1 k, tcp_client ip port file st0 = Asleep st1 (sock_ptr n) WConnect k /\
  if bool_decide (in_first_window (cb_of p)) then
    exists st2 st3 s3, receive u fd eth p st1 = Done (Some (Verdict false false true)) st2 /\
      k st2 = Done tt st3 /\ Forall accepted (sent st3) /\
      cb_of <$> sent st3 = [client_cb ip port 0 TCP_SYN; client_cb ip port 1 TCP_ACK; client_cb ip port 1 TCP_FIN] /\
      socks st3 !! n = Some s3 /\ state s3 = TCP_FIN_WAIT_1 /\ ref_cnt s3 = 1
  else receive u fd eth p st1 = Done (Some (Verdict false false true)) (tick_malloc st1).
Proof.
  intros Hm Hpast Hmain Ha Hpeer Hr Hf. destruct (main_start _ _ _ _ _ _ _ Hmain) as (HT & _ & Hse & _).
  destruct (client_run st0 ip port file Hm Hpast HT) as (q1 & st1 & s1 & R & E1 & A1 & C1 & HT1 & Hs1 & Es1).
  rewrite Hse in E1. exists (next_blk st0), st1. eexists. split; [exact R|]. cbv beta.
  destruct (receive_run u fd eth p st1 Hm Ha) as [Rd _].
  pose proof (answer_run ip port (next_blk st0) Hm Hpast u fd eth p (tick_malloc st1) s1) as HA.
  specialize (HA ltac:(by apply (tables_same st1)) Hs1 Es1 Ha Hpeer Hr Hf).
  case_bool_decide; [|by apply Rd].
  destruct HA as (q2 & st2 & s2 & R2 & E2 & A2 & C2 & Hs2 & Es2).
  destruct (rest_run ip port (next_blk st0) Hm Hpast file st2 s2 Hs2 Es2) as (q3 & st3 & s3 & R3 & E3 & A3 & C3 & Hs3 & P).
  exists st2, st3, s3. split; [by apply Rd|]. split; [exact R3|].
  rewrite E3, E2, (E1 : sent (tick_malloc st1) = [q1]). split; [by repeat constructor|].
  split; [|exact (conj Hs3 P)]. cbn [fmap list_fmap app]. rewrite C1, C2, C3. reflexivity.
Qed.

(** C2: the whole session of a client, from [main] to the end of its thread.
    The application sends a SYN and sleeps.  A well-formed answer from the
    peer's address to the client's whose flags are not exactly RST or FIN is
    handled so, whatever its sequence number: if it neither begins with one of the first
    65535 numbers nor reaches them past [2 ^ 32], it is dropped, and the client
    sleeps on.  Otherwise an ACK is sent and the thread goes on, goes through its
    file, closes the socket and ends.  In all, exactly three packets are sent, SYN,
    ACK and FIN, all valid and without payload, whatever the file holds, and all of
    them acknowledge number 0 instead of the peer's; the socket stays in FIN_WAIT_1. *)
Theorem client_session inet_addr uid euid argv ip port u st0 fd eth p file :
  (forall k, malloc_ok k = true) -> is_u32 past_instance ->
  main inet_addr uid euid argv = Running (AppClient ip port) u st0 ->
  arrives u fd eth p -> of_peer ip port (cb_of p) -> flags (cb_of p) ≠ TCP_RST -> flags (cb_of p) ≠ TCP_FIN ->
  exists n st1 k, tcp_client ip port file st0 = Asleep st1 (sock_ptr n) WConnect k /\
  if bool_decide (in_first_window (cb_of p)) then
    exists st2 st3 s3, receive u fd eth p st1 = Done (Some (Verdict false false true)) st2 /\
      k st2 = Done tt st3 /\ Forall accepted (sent st3) /\
      cb_of <$> sent st3 = [client_cb ip port 0 TCP_SYN; client_cb ip port 1 TCP_ACK; client_cb ip port 1 TCP_FIN] /\
      socks st3 !! n = Some s3 /\ state s3 = TCP_FIN_WAIT_1 /\ ref_cnt s3 = 1
  else receive u fd eth p st1 = Done (Some (Verdict false false true)) (tick_malloc st1).
Proof. apply client_session_run. Qed.

(** ** The server *)

(** The tables of a host whose only socket is the server's. *)
Lemma only_listener n t h w :
  w ≠ TBnd -> linked_twice no_socks n TLis t w h = if decide (w = TLis /\ key TLis t = h) then [n] else [].
Proof.
  intros Hw. unfold linked_twice. case_decide as E.
  - destruct E as [-> <-]. rewrite bucket_eq, bucket_ne by (by intros [? _]). done.
  - rewrite bucket_ne by naive_solver. rewrite bucket_ne by naive_solver. done.
Qed.

Lemma tcp_process_null cb st : tcp_process NULL cb st = Fault BadAccess.
Proof. done. Qed.

Section Server.
Context (n : positive) (port : Z) (st : stack) (s : tcp_sock).
Hypothesis HT : tables_ok st (linked_twice no_socks n TLis (set_sport port (new_sock n))).
Hypothesis Hs : socks st !! n = Some s.
Hypothesis Es : strip s = strip (listening n port).

Lemma server_no_connection cb m t :
  m ∈ linked_twice no_socks n TLis (set_sport port (new_sock n)) TEst
        (tcp_hash_function (daddr cb) (saddr cb) (dport cb) (sport cb)) ->
  socks st !! m = Some t -> conn t ≠ (daddr cb, saddr cb, dport cb, sport cb).
Proof. rewrite only_listener by done. rewrite decide_False by naive_solver. by intros ?%elem_of_nil. Qed.

Lemma server_port : sk_sport s = port.
Proof using Es. exact (f_equal sk_sport Es). Qed.

(** A packet for the server's port goes to its socket, one for another port
    to no socket. *)
Lemma server_lookup cb :
  tcp_sock_lookup cb st = Done (if decide (dport cb = port) then sock_ptr n else NULL) st.
Proof using HT Hs Es.
  case_decide as Hd.
  - rewrite (lookup_none st _ cb HT) by apply server_no_connection.
    rewrite (lookup_listen_run st _ _ _ (to_lists _ _ HT)).
    rewrite only_listener by done.
    rewrite decide_True by (split; [done|by rewrite Hd]).
    assert (on_sock st (fun t => sk_sport t =? dport cb) n = true) as Hon
      by (unfold on_sock; by rewrite Hs, server_port, Hd, Z.eqb_refl).
    unfold first_sock. rewrite filter_cons_True by done. done.
  - rewrite (lookup_null st _ cb HT); [done|apply server_no_connection|].
    intros m t. rewrite only_listener by done. case_decide; [|by intros ?%elem_of_nil].
    intros ->%list_elem_of_singleton Ht. assert (t = s) as -> by congruence. rewrite server_port. congruence.
Qed.

End Server.

(** The empty timer list, as [tcp_timer_thread] makes it first of all. *)
Definition empty_timers : list_head ptr := ListHead timer_head timer_head.

(** The server waits: its socket is the only one, nothing is queued and nobody
    has notified it; only resets have been sent; if the timer thread has started
    ([ticks]), its list is empty. *)
Record waits (ticks : bool) (n : positive) (port : Z) (st : stack) : Prop := Waits {
  wa_tables : tables_ok st (linked_twice no_socks n TLis (set_sport port (new_sock n)));
  wa_sock : exists s, socks st !! n = Some s /\ strip s = strip (listening n port);
  wa_only m : is_Some (socks st !! m) -> m = n;
  wa_fresh : (n < next_blk st)%positive;
  wa_queues : queues st n [] [];
  wa_sent : Forall (fun q => accepted q /\ flags (cb_of q) = Z.lor TCP_RST TCP_ACK) (sent st);
  wa_timers : ticks = true -> timer_list st = empty_timers
}.

Lemma queues_same st st' n l r : queues st n l r -> socks st' = socks st -> queues st' n l r.
Proof.
  intros [Ql Qa Qd] Es. assert (Hn : forall o, node_get st' (Ptr (BSock n) o) = node_get st (Ptr (BSock n) o))
    by (intros o; simpl; by rewrite Es).
  assert (Hx : forall h l', dlist st (Ptr (BSock n) h) (nodes off_list l') -> dlist st' (Ptr (BSock n) h) (nodes off_list l')).
  { intros h l' D. apply (dlist_ext st); [done|]. intros q [->|Hq]%elem_of_cons; [apply Hn|].
    apply list_elem_of_fmap in Hq as (m & -> & _). simpl. by rewrite Es. }
  by split; [apply Hx|apply Hx|].
Qed.

(** Steps that do not touch sockets and tables. *)
Lemma waits_same ticks ticks' n port st st' :
  waits ticks n port st -> socks st' = socks st -> table st' = table st -> next_blk st' = next_blk st ->
  (ticks' = true -> timer_list st' = empty_timers) ->
  Forall (fun q => accepted q /\ flags (cb_of q) = Z.lor TCP_RST TCP_ACK) (sent st') -> waits ticks' n port st'.
Proof.
  intros [] Es Et En Htm Hse. split; [by apply (tables_same st)|by rewrite Es|by rewrite Es|by rewrite En| |done|done].
  by apply (queues_same st).
Qed.

(** Runs that fault or leave the server waiting. *)
Definition stuck {A} (ticks : bool) (n : positive) (port : Z) (m : M A) : Prop := forall st,
  waits ticks n port st -> match m st with Done _ st' => waits ticks n port st' | Fault _ => True | _ => False end.

Lemma stuck_bind {A B} ticks n port (m : M A) (k : A -> M B) :
  stuck ticks n port m -> (forall a, stuck ticks n port (k a)) -> stuck ticks n port (bind m k).
Proof.
  intros Hm Hk st Hst. specialize (Hm st Hst). unfold bind. destruct (m st) as [a st'| | |]; simpl; [|done..].
  by apply Hk.
Qed.
Lemma stuck_ret {A} ticks n port (a : A) : stuck ticks n port (ret a).
Proof. by intros st Hst. Qed.
Lemma stuck_checked {A} ticks n port (r : option A) : stuck ticks n port (checked r).
Proof. intros st Hst. by destruct r. Qed.
Lemma stuck_fail {A} ticks n port f : stuck (A := A) ticks n port (fail f).
Proof. by intros st Hst. Qed.
Lemma stuck_malloc ticks n port : stuck ticks n port malloc.
Proof. intros st Hst. apply (waits_same ticks ticks n port st); [done..|apply Hst|apply Hst]. Qed.

Lemma stuck_reset ticks n port cb : stuck ticks n port (tcp_send_reset cb).
Proof.
  intros st Hst. destruct (malloc_ok (nmalloc st)) eqn:Hm.
  - destruct (reset_run st cb Hm) as (ck & Hacc & ->).
    apply (waits_same ticks ticks n port st); [done..|apply Hst|]. apply Forall_app. split; [apply Hst|]. by constructor.
  - rewrite (reset_fails st cb Hm). by apply stuck_malloc in Hst.
Qed.

(** Any segment: the null socket, a packet outside the window, a reset in
    answer, or one of the faults of a listening socket. *)
Lemma stuck_process ticks n port cb :
  stuck ticks n port (do tsk <- tcp_sock_lookup cb; tcp_process tsk cb).
Proof.
  intros st Hst. destruct (Hst) as [HT (s & Hs & Es) Ho Hfr Q Hse _].
  rewrite (bind_done _ _ _ _ _ (server_lookup n port st s HT Hs Es cb)). case_decide as Hd; [|done].
  destruct (seq_valid s cb) eqn:Hv; [|by rewrite (process_dropped st n s)].
  assert (Hl : state s = TCP_LISTEN) by exact (f_equal state Es).
  assert (Hcl : forall st', socks st' = socks st -> table st' = table st -> tcp_sock_close (sock_ptr n) st' = Fault BadAccess).
  { intros st' E1 E2. apply (close_listening_run st' _ n s (tables_same st st' _ HT E1 E2));
      [by rewrite E1|done| | |exact (f_equal ref_cnt Es)];
      replace (key _ s) with (key_of TLis (conn (set_sport port (new_sock n)))) by (symmetry; exact (f_equal (fun x => key_of TLis (conn x)) Es)).
    - apply linked_twice_in.
    - by apply linked_twice_bnd. }
  destruct (decide (flags cb = TCP_RST)) as [Hr|Hr]; [|destruct (decide (flags cb = TCP_FIN)) as [Hf|Hf]].
  - unfold tcp_process. rewrite (bind_done _ _ _ _ _ (valid_run st n s cb Hs)), Hv, Hr. cbn [negb].
    rewrite Z.eqb_refl. destruct (malloc_ok (nmalloc st)) eqn:Hm.
    + destruct (control_run st n s TCP_ACK Hs Hm) as (ck & _ & R). rewrite (bind_done _ _ _ _ _ R).
      rewrite Hcl; [done| |done]. simpl. apply insert_id. exact Hs.
    + rewrite (bind_done _ _ _ _ _ (control_fails st n TCP_ACK Hm)). by rewrite Hcl.
  - unfold tcp_process. rewrite (bind_done _ _ _ _ _ (valid_run st n s cb Hs)), Hv, Hf. cbn [negb].
    rewrite Z.eqb_refl. change (TCP_FIN =? TCP_RST) with false. cbv iota. by rewrite Hcl.
  - destruct (decide (flags cb = TCP_SYN)) as [Hy|Hy].
    + rewrite (listen_syn_run st n s cb); [done| |done|done|exact (f_equal parent Es)|done|done].
      intros m Hm. by rewrite (Ho m Hm).
    + rewrite (process_run st n s cb), Hl by done. unfold tcp_process_state.
      rewrite (proj2 (Z.eqb_neq _ _) Hy). by apply stuck_reset.
Qed.

Lemma stuck_handle_tcp ticks n port ip bs : stuck ticks n port (handle_tcp_packet ip bs).
Proof.
  unfold handle_tcp_packet. apply stuck_bind; [apply stuck_checked|]. intros [tcp rest].
  case_match; [apply stuck_fail|]. apply stuck_bind; [apply stuck_checked|]. intros ck.
  case_match; [apply stuck_ret|apply stuck_process].
Qed.

Ltac stuck_step :=
  lazymatch goal with
  | |- stuck _ _ _ (bind _ _) => apply stuck_bind; [|intros ?]
  | |- stuck _ _ _ (ret _) => apply stuck_ret
  | |- stuck _ _ _ (checked _) => apply stuck_checked
  | |- stuck _ _ _ (fail _) => apply stuck_fail
  | |- stuck _ _ _ malloc => apply stuck_malloc
  | |- stuck _ _ _ (handle_tcp_packet _ _) => apply stuck_handle_tcp
  | |- stuck _ _ _ (if _ then _ else _) => case_match
  end.

(** Any frame, and the whole receive loop. *)
Lemma stuck_receive ticks n port u fd len buf out : stuck ticks n port (ustack_receive u fd len buf out).
Proof. unfold ustack_receive, handle_packet, handle_ip_packet. repeat stuck_step. Qed.

Lemma stuck_loop ticks n port u rounds : stuck ticks n port (ustack_run u rounds).
Proof.
  assert (Hserve : forall r k i, stuck ticks n port (serve u r k i)).
  { intros r k. induction k as [|k IH]; intros i; cbn [serve]; repeat stuck_step; try apply IH. apply stuck_receive. }
  induction rounds as [|r rounds IH]; cbn [ustack_run]; repeat stuck_step; try apply IH. apply Hserve.
Qed.

(** What may happen while the server sleeps: rounds of the receive loop, the
    start of the timer thread, and, once it has started, scans of the timer list. *)
Inductive activity := Frames (rounds : list round) | StartTimer | Scan.
Fixpoint activities (u : ustack) (ticks : bool) (l : list activity) : M unit :=
  match l with
  | [] => ret tt
  | Frames rounds :: l => ustack_run u rounds;; activities u ticks l
  | StartTimer :: l => list_op (fun st => init_list_head st timer_head);; activities u true l
  | Scan :: l => (if ticks then tcp_scan_timer_list else ret tt);; activities u ticks l
  end.

Lemma start_timer_run st :
  list_op (fun st => init_list_head st timer_head) st = Done tt (set_timers empty_timers st).
Proof. done. Qed.
Lemma scan_empty_run st : timer_list st = empty_timers -> tcp_scan_timer_list st = Done tt st.
Proof.
  intros E. unfold tcp_scan_timer_list. cbn [node_get stack_nodes timer_head Z.eqb]. rewrite E.
  unfold timer_fuel. cbn [scan_from next empty_timers]. by rewrite decide_True.
Qed.

Lemma stuck_activities n port u l ticks st :
  waits ticks n port st ->
  match activities u ticks l st with
  | Done _ st' => exists ticks', waits ticks' n port st' | Fault _ => True | _ => False
  end.
Proof.
  revert ticks st. induction l as [|a l IH]; intros ticks st Hst; cbn [activities]; [by exists ticks|].
  destruct a as [rounds| |].
  - pose proof (stuck_loop ticks n port u rounds st Hst) as Hr. unfold bind.
    destruct (ustack_run u rounds st) as [b st1| | |]; simpl; [by apply (IH ticks)|done..].
  - rewrite (bind_done _ _ _ _ _ (start_timer_run st)). apply IH. apply (waits_same ticks true n port st); [done..|apply Hst].
  - rewrite (bind_done _ _ _ tt st); [by apply (IH ticks)|]. destruct ticks; [|done]. by apply scan_empty_run, Hst.
Qed.

Lemma server_waits inet_addr uid euid argv port u st0 (ticks : bool) rbuf rounds :
  (forall k, malloc_ok k = true) -> is_u32 past_instance ->
  main inet_addr uid euid argv = Running (AppServer port) u st0 ->
  let lport := if ntohs port =? 0 then PORT_MIN else ntohs port in
  let st0' := if ticks then set_timers empty_timers st0 else st0 in
  exists n st1 k, tcp_server port rbuf rounds st0' = Asleep st1 (sock_ptr n) WAccept k /\
    waits ticks n lport st1 /\ sent st1 = [].
Proof.
  intros Hm Hpast Hmain lport st0'. destruct (main_start _ _ _ _ _ _ _ Hmain) as (HT & Hs0 & Hse & Hreach).
  assert (HT' : tables_ok st0' no_socks) by (unfold st0'; destruct ticks; [by apply (tables_same st0)|done]).
  assert (Hs0' : socks st0' = ∅ /\ sent st0' = []) by (unfold st0'; by destruct ticks). destruct Hs0' as [Hs0' Hse'].
  assert (Hreach' : reachable (Sys st0' [])).
  { unfold st0'. destruct ticks; [|done]. eapply reach_step; [exact Hreach|].
    eapply step_call; [apply call_timer_start|apply start_timer_run]. }
  destruct (server_run st0' no_socks port rbuf rounds HT') as (st1 & s & k & R & HT1 & Hs & Es & Q & E & Hd & Htl);
    [apply no_socks_no_parent|by rewrite Hs0'; intros m [? ?]|unfold allocs_ok; simpl; by rewrite !Hm|].
  exists (next_blk st0'), st1, k. split; [exact R|]. rewrite E, Hse'. split; [|done].
  rewrite Hs0', dom_empty_L, union_empty_r_L in Hd.
  split; [exact HT1|by eauto| | |exact Q|by rewrite E, Hse'|by rewrite Htl; unfold st0'; intros ->].
  - intros m Hm'. apply elem_of_dom in Hm'. rewrite Hd in Hm'. by apply elem_of_singleton in Hm'.
  - assert (Hr1 : reachable (Sys st1 [fun st => outcome_bind (k st) (fun _ => ret tt)])).
    { eapply reach_step; [exact Hreach'|]. eapply (step_block _ _ _ (sock_ptr (next_blk st0')) WAccept);
        [apply (call_server port rbuf rounds)|]. unfold forget, bind at 1. by rewrite R. }
    by apply (reachable_fresh _ Hpast Hr1); eexists.
Qed.

(** C3: the server of this program cannot be reached.  It gets to [accept] and
    sleeps there, whether or not the timer thread has started before.  Whatever
    then happens - rounds of [ustack_run] with any frames, any bytes, the start of
    the timer thread and its scans, in any order - the program either crashes or
    is still in the same situation: the listening socket is the only one, its
    queues are empty, nobody has notified the sleeping thread, and nothing but
    resets has been sent.  In particular no SYN|ACK is ever sent and no connection
    accepted. *)
Theorem server_never_accepts inet_addr uid euid argv port u st0 (ticks : bool) rbuf rounds l :
  (forall k, malloc_ok k = true) -> is_u32 past_instance ->
  main inet_addr uid euid argv = Running (AppServer port) u st0 ->
  let lport := if ntohs port =? 0 then PORT_MIN else ntohs port in
  let st0' := if ticks then set_timers empty_timers st0 else st0 in
  exists n st1 k, tcp_server port rbuf rounds st0' = Asleep st1 (sock_ptr n) WAccept k /\
  match activities u ticks l st1 with
  | Fault _ => True
  | Done _ st2 => exists ticks', waits ticks' n lport st2
  | _ => False
  end.
Proof.
  intros Hm Hpast Hmain lport st0'.
  destruct (server_waits inet_addr uid euid argv port u st0 ticks rbuf rounds Hm Hpast Hmain) as (n & st1 & k & R & Hw & _).
  exists n, st1, k. split; [exact R|]. exact (stuck_activities n lport u l ticks st1 Hw).
Qed.

(** A segment for another port, or a SYN for the server's, while it waits. *)
Lemma waits_receive ticks n port st u fd eth p :
  (forall k, malloc_ok k = true) -> waits ticks n port st -> arrives u fd eth p ->
  (dport (cb_of p) ≠ port -> receive u fd eth p st = Fault BadAccess) /\
  (dport (cb_of p) = port -> flags (cb_of p) = TCP_SYN ->
   receive u fd eth p st =
   if bool_decide (in_first_window (cb_of p)) then Fault BadAccess
   else Done (Some (Verdict false false true)) (tick_malloc st)).
Proof.
  intros Hm Hw Ha. destruct (receive_run u fd eth p st Hm Ha) as [Rd Rf].
  assert (Hw' : waits ticks n port (tick_malloc st)) by exact (stuck_malloc ticks n port st Hw).
  destruct Hw' as [HT (s & Hs & Es) Ho Hfr _ _ _]. pose proof (server_lookup n port _ s HT Hs Es (cb_of p)) as L. split.
  - intros Hd. apply Rf. unfold process. rewrite (bind_done _ _ _ _ _ L), decide_False by done. done.
  - intros Hd Hy. rewrite decide_True in L by done.
    rewrite <- (first_window u fd eth p s) by (done || exact (f_equal rcv_nxt Es) || exact (f_equal rcv_wnd Es)).
    destruct (seq_valid s (cb_of p)) eqn:Hv; [apply Rf|apply Rd]; unfold process; rewrite (bind_done _ _ _ _ _ L).
    + apply (listen_syn_run _ n s); [|done|exact (f_equal state Es)|exact (f_equal parent Es)|done|done].
      intros m Hm'. by rewrite (Ho m Hm').
    + by apply (process_dropped _ n s).
Qed.

(** And the first connection request crashes it.  With the server asleep in
    [accept], a well-formed segment for another port is a null dereference; a SYN
    for its port that begins with or reaches the first 65535 sequence numbers is one,
    too; any other is dropped without an answer. *)
Theorem first_syn_crashes inet_addr uid euid argv port u st0 rbuf rounds fd eth p :
  (forall k, malloc_ok k = true) -> is_u32 past_instance ->
  main inet_addr uid euid argv = Running (AppServer port) u st0 -> arrives u fd eth p ->
  let lport := if ntohs port =? 0 then PORT_MIN else ntohs port in
  exists n st1 k, tcp_server port rbuf rounds st0 = Asleep st1 (sock_ptr n) WAccept k /\
    (dport (cb_of p) ≠ lport -> receive u fd eth p st1 = Fault BadAccess) /\
    (dport (cb_of p) = lport -> flags (cb_of p) = TCP_SYN ->
     receive u fd eth p st1 =
     if bool_decide (in_first_window (cb_of p)) then Fault BadAccess
     else Done (Some (Verdict false false true)) (tick_malloc st1)).
Proof.
  intros Hm Hpast Hmain Ha lport.
  destruct (server_waits inet_addr uid euid argv port u st0 false rbuf rounds Hm Hpast Hmain) as (n & st1 & k & R & Hw & _).
  exists n, st1, k. split; [exact R|]. by apply (waits_receive false n).
Qed.

End Sessions.

Section Witnesses.
(** An environment with the address [a] in the memory the code reads its own from. *)
Definition addr_env (a : Z) : Env := {|
  malloc_ok _ := true; block_addr n := 4096 * Z.pos n; table_addr := 1024; timers_addr := 512;
  past_instance := a |}.
#[local] Instance session_env : Env := addr_env 0x0a000001.
Existing Instances host_kernel host_kernel_ok demo_layer demo_layer_ok.

Definition server_argv : list String.string := ["tcp_stack"; "server"; "10001"]%string.
Definition client_argv : list String.string := ["tcp_stack"; "client"; "10.0.0.2"; "10001"]%string.
Definition peer_addr : Z := 0x0200000a.

(** A packet from 10.0.0.2, port 10001, to the host. *)
Definition peer_packet (dp fl : Z) : packet :=
  let s := set_sip 0x0a000002 (set_sport 10001 (set_dip 0x0a000001 (set_dport dp zero_sock))) in
  let p := ctl_packet 0 s fl 0 in
  ctl_packet 0 s fl (default 0 (tcp_checksum (pk_ip p) (pk_tcp p) [])).

Definition host_at (x : Z) : ustack :=
  match init_ustack (H1 := kernel_at x) with UOk _ u => u | _ => blank_ustack end.
Definition session_host : ustack := host_at 1.

(** The host 10.0.0.x of Ifaces.v runs the application of its arguments. *)
Lemma host_main x addr inet argv a :
  (2 <= length argv)%nat -> run_application inet (tail argv) = Some a ->
  exists st, main (H := addr_env addr) (H1 := kernel_at x) inet 0 0 argv = Running a (host_at x) st.
Proof.
  intros Hl Ha. pose proof (kernel_at_ok x) as Hk.
  destruct (main_run (H := addr_env addr) (H2 := kernel_at x) inet 0 0 argv) as (_ & _ & Hm).
  destruct Hm as (_ & _ & Hr); [by left|done|done|]. change (usable_names (@k_ifaddrs (kernel_at x))) with [eth0] in Hr.
  rewrite (kernel_at_devices x), Ha in Hr. destruct Hr as (u & l & st & E & _); [done|vm_compute; reflexivity|].
  exists st. rewrite E. f_equal. revert E. unfold host_at, main. cbn [Z.eqb negb andb].
  destruct (length argv <? 2)%nat; [discriminate|]. destruct init_ustack as [[] u'| |]; [|discriminate|discriminate].
  destruct (init_tcp_stack (boot (allocs u'))); [|discriminate..]. rewrite Ha. by intros [= ->].
Qed.
Lemma session_main argv a :
  (2 <= length argv)%nat -> run_application (fun _ => peer_addr) (tail argv) = Some a ->
  exists st, main (fun _ => peer_addr) 0 0 argv = Running a session_host st.
Proof. apply (host_main 1 0x0a000001). Qed.

Lemma peer_arrives dp fl :
  (dp, fl) = (htons PORT_MIN, Z.lor TCP_SYN TCP_ACK) \/ (dp, fl) = (10001, TCP_SYN) ->
  arrives session_host 3 demo_eth (peer_packet dp fl).
Proof.
  intros [[= -> ->]|[= -> ->]].
  all: split; [reflexivity|reflexivity|..].
  all: try (unfold iphdr_ok, tcphdr_ok, is_u8, is_u16, is_u32; repeat split; vm_compute; congruence).
  all: try (vm_compute; reflexivity).
  all: eexists; split; vm_compute; reflexivity.
Qed.

Lemma client_session_witness :
  exists st0 n st1 k st2 st3, main (fun _ => peer_addr) 0 0 client_argv = Running (AppClient peer_addr (htons 10001)) session_host st0 /\
    tcp_client peer_addr (htons 10001) [1; 2; 3] st0 = Asleep st1 (sock_ptr n) WConnect k /\
    receive session_host 3 demo_eth (peer_packet (htons PORT_MIN) (Z.lor TCP_SYN TCP_ACK)) st1 =
      Done (Some (Verdict false false true)) st2 /\
    k st2 = Done tt st3 /\ (flags <$> (cb_of <$> sent st3)) = [TCP_SYN; TCP_ACK; TCP_FIN].
Proof.
  destruct (session_main client_argv (AppClient peer_addr (htons 10001))) as (st0 & Hmain); [simpl; lia|reflexivity|].
  destruct (client_session (fun _ => peer_addr) 0 0 client_argv peer_addr (htons 10001) session_host st0 3 demo_eth
    (peer_packet (htons PORT_MIN) (Z.lor TCP_SYN TCP_ACK)) [1; 2; 3]) as (n & st1 & k & R & st2 & st3 & s3 & R2 & R3 & _ & E & _).
  - intros i. reflexivity.
  - unfold is_u32. simpl. lia.
  - exact Hmain.
  - apply peer_arrives. left. reflexivity.
  - unfold of_peer. vm_compute. repeat split; reflexivity.
  - vm_compute. discriminate.
  - vm_compute. discriminate.
  - exists st0, n, st1, k, st2, st3. split; [exact Hmain|]. split; [exact R|]. split; [exact R2|]. split; [exact R3|].
    rewrite E. reflexivity.
Defined.

(** On the server's host the timer thread starts and scans, and [poll] fails. *)
Lemma server_never_accepts_witness :
  exists st0 n st1 k, main (fun _ => peer_addr) 0 0 server_argv = Running (AppServer (htons 10001)) session_host st0 /\
    tcp_server (htons 10001) [] 1 st0 = Asleep st1 (sock_ptr n) WAccept k /\
    exists ticks, waits ticks n 10001 (set_timers empty_timers st1).
Proof.
  destruct (session_main server_argv (AppServer (htons 10001))) as (st0 & Hmain); [simpl; lia|reflexivity|].
  destruct (server_never_accepts (fun _ => peer_addr) 0 0 server_argv (htons 10001) session_host st0 false [] 1
    [StartTimer; Scan; Frames [Round (-1) (fun _ => 0) (fun _ => Recv 0 [] false)]]) as (n & st1 & k & R & Hw).
  - intros i. reflexivity.
  - unfold is_u32. simpl. lia.
  - exact Hmain.
  - exists st0, n, st1, k. split; [exact Hmain|]. split; [exact R|exact Hw].
Defined.

Lemma first_syn_crashes_witness :
  exists st0 n st1 k, main (fun _ => peer_addr) 0 0 server_argv = Running (AppServer (htons 10001)) session_host st0 /\
    tcp_server (htons 10001) [] 1 st0 = Asleep st1 (sock_ptr n) WAccept k /\
    receive session_host 3 demo_eth (peer_packet 10001 TCP_SYN) st1 = Fault BadAccess.
Proof.
  destruct (session_main server_argv (AppServer (htons 10001))) as (st0 & Hmain); [simpl; lia|reflexivity|].
  destruct (first_syn_crashes (fun _ => peer_addr) 0 0 server_argv (htons 10001) session_host st0 [] 1 3 demo_eth
    (peer_packet 10001 TCP_SYN)) as (n & st1 & k & R & _ & R2).
  - intros i. reflexivity.
  - unfold is_u32. simpl. lia.
  - exact Hmain.
  - apply peer_arrives. right. reflexivity.
  - exists st0, n, st1, k. split; [exact Hmain|]. split; [exact R|]. rewrite R2; vm_compute; reflexivity.
Defined.

End Witnesses.
