(* ===== verification/Network.v ===== *)
(** * Two hosts

    A packet from one machine that runs the program to another one, and the client
    of one machine against the server, or the client, of the other.  Each machine
    has its own environment; both are linked against the same IP library. *)

From Stdlib Require Import String.
From S2P Require Import Prelude Layout Segment Memory Outcome Ifaces Sock Out SockApi Calls TcpIn Stack System Main Sessions.

(** ** What the receiver makes of a packet *)

Section Receiver.
Context `{Env} `{IpLayerOk}.

Definition taken : option verdict := Some (Verdict false false true).

(** The interface a descriptor belongs to has the address [a]. *)
Definition has_address (u : ustack) (fd a : Z) : Prop :=
  exists i, fd_to_iface u fd = Some (Some i) /\ a = if_ip i.
Definition ip_frame (eth : list Z) : Prop := length eth = 14%nat /\ ntohs (load 2 eth 12) = ETH_P_IP.

Lemma handle_ip_eq eth p i st :
  length eth = 14%nat -> iphdr_ok (pk_ip p) -> tcphdr_ok (pk_tcp p) -> ihl (pk_ip p) = 5 ->
  protocol (pk_ip p) = IPPROTO_TCP -> tcp_len (pk_ip p) <= 20 + Z.of_nat (length (pk_data p)) ->
  daddr (cb_of p) = if_ip i -> accepted p ->
  outcome_eq (handle_ip_packet (Some i) (frame_of eth p) st) ((process p;; ret (Verdict false false true)) st).
Proof.
  intros He Hi Ht Hihl Hp Hl Hd Hck. unfold handle_ip_packet, frame_of.
  rewrite drop_app_length' by done. rewrite iphdr_roundtrip by done.
  rewrite (bind_done _ _ _ (pk_ip p) st) by done. rewrite (bind_done _ _ _ i st) by done.
  change (daddr (cb_of p)) with (ntohl (ip_daddr (pk_ip p))) in Hd. rewrite Hd, Z.eqb_refl.
  unfold IP_HDR_SIZE. rewrite Hihl, Hp. change (Z.to_nat (14 + 5 * 4)) with (14 + 20)%nat.
  rewrite <- drop_drop, drop_app_length', drop_app_length' by done.
  change (IPPROTO_TCP =? IPPROTO_ICMP) with false. change (IPPROTO_TCP =? IPPROTO_TCP) with true. cbv iota.
  transitivity (outcome_bind (handle_tcp_packet (pk_ip p) (tcphdr_bytes (pk_tcp p) ++ pk_data p) st)
    (fun _ => ret (Verdict false false true))).
  - apply (bind_assoc (handle_tcp_packet _ _) (fun _ => ret false) (fun echo => ret (Verdict echo false true))).
  - rewrite handle_tcp_run, decide_True by done. done.
Qed.

(** The whole path from the device to [tcp_process], as one equation. *)
Lemma receive_eq u fd eth p st :
  (forall k, malloc_ok k = true) -> arrives u fd eth p ->
  outcome_eq (receive u fd eth p st) ((process p;; ret taken) (tick_malloc st)).
Proof.
  intros Hm [He Hty Hi Ht Hihl Hp Hl _ Hck (i & Hf & Hd)]. unfold receive, ustack_receive.
  assert (Hlen : (length (frame_of eth p) >= 14)%nat) by (unfold frame_of; rewrite length_app; lia).
  destruct (Z.leb_spec (Z.of_nat (length (frame_of eth p))) 0); [lia|]. rewrite Hf.
  rewrite (bind_done _ _ _ (Some i) st) by done. rewrite (bind_done _ _ _ _ _ (malloc_run st)), Hm. cbn [negb].
  rewrite Nat2Z.id, take_ge by lia. unfold handle_packet. destruct (Nat.ltb_spec (length (frame_of eth p)) 14); [lia|].
  assert (load 2 (frame_of eth p) 12 = load 2 eth 12) as ->.
  { unfold load, frame_of. rewrite drop_app_le, take_app_le; [done|rewrite length_drop; lia|lia]. }
  rewrite Hty, Z.eqb_refl.
  transitivity (outcome_bind ((process p;; ret (Verdict false false true)) (tick_malloc st)) (fun v => ret (Some v))).
  - apply outcome_bind_proper; [by apply handle_ip_eq|done].
  - apply (bind_assoc (process p)).
Qed.

(** What a machine has sent arrives. *)
Lemma sent_arrives u fd eth p :
  packet_ok p -> 0 <= pl_len (cb_of p) -> ip_frame eth -> has_address u fd (daddr (cb_of p)) -> arrives u fd eth p.
Proof.
  intros [Hip Hihl Hp _ Ht Hck] Hpl [He Hty] Ha. split; try done. unfold accepted, tcp_checksum, read_bytes in Hck.
  rewrite length_app, length_tcphdr_bytes in Hck.
  destruct (Z.leb_spec (tcp_len (pk_ip p)) (Z.of_nat (20 + length (pk_data p)))); [lia|done].
Qed.

Lemma sent_packet_ok s p : is_u32 past_instance -> reachable s -> p ∈ sent (mem s) -> packet_ok p.
Proof.
  intros Hpast Hr Hp. destruct (reachable_inv s Hpast Hr) as [[_ Hse] _]. rewrite Forall_forall in Hse. by apply Hse.
Qed.

(** The client from [main] to its sleep: one packet. *)
Lemma client_first `{Kernel} inet_addr uid euid argv ip port u st file :
  (forall k, malloc_ok k = true) -> is_u32 past_instance ->
  main inet_addr uid euid argv = Running (AppClient ip port) u st ->
  exists q st' n k ks, tcp_client ip port file st = Asleep st' (sock_ptr n) WConnect k /\ sent st' = [q] /\
    cb_of q = client_cb ip port 0 TCP_SYN /\ reachable (Sys st' ks).
Proof.
  intros Hm Hpast Hmain. destruct (main_start _ _ _ _ _ _ _ Hmain) as (HT & _ & Hse & Hreach).
  destruct (client_run st ip port file Hm Hpast HT) as (q & st' & s1 & R & E1 & A1 & C1 & _).
  rewrite Hse in E1. eexists q, st', _, _, _. split; [exact R|]. split; [exact E1|]. split; [exact C1|].
  eapply reach_step; [exact Hreach|]. eapply step_block; [apply (call_client ip port file)|].
  unfold forget, bind at 1. by rewrite R.
Qed.

End Receiver.

(** ** From one machine to another *)

Section Network.
Context `{IpLayerOk}.
Context (EA EB : Env) (HA : is_u32 (@past_instance EA)) (HB : forall k, @malloc_ok EB k = true).

(** C15: from machine to machine.  Whatever the one machine has been doing, a
    packet it has sent (with the IP and TCP headers its length says), read from a
    device of another machine that has the address the packet is for, is taken
    there: up to the buffer that is allocated for it, the receive loop does exactly what
    [tcp_process] does with the control block of the packet on the socket
    [tcp_sock_lookup] finds, and frees the buffer.  No header field is misread on the way and the
    checksum is the one the receiver computes. *)
Theorem packet_transmission s p u fd eth st :
  reachable (H := EA) s -> p ∈ sent (mem s) -> 0 <= pl_len (cb_of p) -> ip_frame eth -> has_address u fd (daddr (cb_of p)) ->
  outcome_eq (receive (H := EB) u fd eth p st) ((process (H := EB) p;; ret taken) (tick_malloc st)).
Proof.
  intros Hr Hp Hpl He Ha. apply receive_eq; [done|]. apply sent_arrives; [|done..].
  by apply (sent_packet_ok (H := EA) s).
Qed.

Context (HB' : is_u32 (@past_instance EB)) (HA' : forall k, @malloc_ok EA k = true).

(** C29: the client of this program and its server.  On one machine [main] runs
    the client, on the other the server.  The client sends one packet and sleeps;
    the server sleeps in [accept], and may have done anything since - received any
    frames, started its timers.  Unless it has crashed before, the client's packet
    crashes it, for its own port or another: the client is never answered. *)
Theorem client_crashes_server (KA KB : Kernel) inet_a uid_a euid_a argv_a ip port ua sta file
    inet_b uid_b euid_b argv_b port_b ub stb rbuf rounds :
  main (H := EA) (H1 := KA) inet_a uid_a euid_a argv_a = Running (AppClient ip port) ua sta ->
  main (H := EB) (H1 := KB) inet_b uid_b euid_b argv_b = Running (AppServer port_b) ub stb ->
  exists q sta' tsk ka stb' lsk kb,
    tcp_client (H := EA) ip port file sta = Asleep sta' tsk WConnect ka /\ sent sta' = [q] /\
    tcp_server (H := EB) port_b rbuf rounds stb = Asleep stb' lsk WAccept kb /\ sent stb' = [] /\
    forall fd eth l b st, ip_frame eth -> has_address ub fd (htonl ip) ->
      activities (H := EB) ub false l stb' = Done b st -> receive (H := EB) ub fd eth q st = Fault BadAccess.
Proof.
  intros Ma Mb. set (lport := if ntohs port_b =? 0 then PORT_MIN else ntohs port_b).
  destruct (client_first (H := EA) _ _ _ _ _ _ _ _ file HA' HA Ma) as (q & sta' & na & ka & ks & R & E1 & C1 & Hr).
  destruct (server_waits (H := EB) inet_b uid_b euid_b argv_b port_b ub stb false rbuf rounds HB HB' Mb)
    as (n & stb' & kb & Rb & Hw & Esb).
  exists q, sta', (sock_ptr na), ka, stb', (sock_ptr n), kb. split; [exact R|]. split; [exact E1|]. split; [exact Rb|].
  split; [exact Esb|]. intros fd eth l b st He Ha Hl.
  assert (Hq : packet_ok q) by (apply (sent_packet_ok (H := EA) _ q HA Hr); simpl; rewrite E1; by left).
  pose proof (stuck_activities (H := EB) n lport ub l false stb' Hw) as Hs. rewrite Hl in Hs. destruct Hs as [ticks Hw'].
  destruct (waits_receive (H := EB) ticks n lport st ub fd eth q HB Hw') as [Hother Hsyn].
  { apply sent_arrives; [done|by rewrite C1|done|by rewrite C1]. }
  destruct (decide (dport (cb_of q) = lport)) as [Hd|Hd]; [|by apply Hother].
  rewrite Hsyn; [|done|by rewrite C1]. rewrite bool_decide_true; [done|]. left. by rewrite C1.
Qed.

(** The packet [q] reaches a client asleep at [k] in [tcp_sock_connect], and its
    thread goes on to its end: connected and closed, with three packets sent. *)
Definition finishes `{Env} (u : ustack) (fd : Z) (eth : list Z) (q : packet) (st : stack) (n : positive)
    (k : stack -> outcome unit) : Prop :=
  exists st' st'' s, receive u fd eth q st = Done taken st' /\ k st' = Done tt st'' /\ Forall accepted (sent st'') /\
    (flags ∘ cb_of) <$> sent st'' = [TCP_SYN; TCP_ACK; TCP_FIN] /\ socks st'' !! n = Some s /\
    state s = TCP_FIN_WAIT_1.

Lemma client_finishes `{Env} `{Kernel} inet_addr uid euid argv ip port u st n st' k file q fd eth :
  (forall i, malloc_ok i = true) -> is_u32 past_instance ->
  main inet_addr uid euid argv = Running (AppClient ip port) u st ->
  tcp_client ip port file st = Asleep st' (sock_ptr n) WConnect k ->
  packet_ok q -> ip_frame eth -> has_address u fd past_instance -> htons port = htons PORT_MIN ->
  cb_of q = cb_for (htonl ip) past_instance (htons PORT_MIN) (htons PORT_MIN) 0 0 TCP_SYN TCP_DEFAULT_WINDOW 0 ->
  finishes u fd eth q st' n k.
Proof.
  intros Hm Hpast Hmain R Hok He Hfd Hport C.
  assert (Ha : arrives u fd eth q) by (apply sent_arrives; [done|by rewrite C|done|by rewrite C]).
  assert (Hp : of_peer ip port (cb_of q)) by (rewrite C; unfold of_peer; by rewrite Hport).
  assert (Hf : flags (cb_of q) = TCP_SYN) by (by rewrite C). assert (Hq : seq (cb_of q) = 0) by (by rewrite C).
  destruct (client_session_run inet_addr uid euid argv ip port u st fd eth q file) as (n' & st1 & k' & R' & Hs);
    [done..|by rewrite Hf|by rewrite Hf|].
  rewrite R in R'. injection R' as <- <- <-. rewrite bool_decide_true in Hs by (by left; rewrite Hq).
  destruct Hs as (st2 & st3 & s3 & R2 & R3 & Hacc & E & Hs3 & Hst & _).
  exists st2, st3, s3. split; [exact R2|]. split; [exact R3|]. split; [exact Hacc|].
  split; [by rewrite list_fmap_compose, E|done].
Qed.

(** C16: two clients of this program connect to each other.  Two hosts run
    [tcp_client] against each other's address, with the port that names, in network
    order, the one every client takes.  Both send a SYN and sleep; each is woken up by the
    other's SYN, which it takes for the answer to its own, and both run to their
    end: each has sent SYN, ACK and FIN, all valid, and left its socket in FIN_WAIT_1. *)
Theorem clients_meet (KA KB : Kernel) inet_a uid_a euid_a argv_a ip_a port_a ua sta file_a
    inet_b uid_b euid_b argv_b ip_b port_b ub stb file_b fda fdb eth :
  main (H := EA) (H1 := KA) inet_a uid_a euid_a argv_a = Running (AppClient ip_a port_a) ua sta ->
  main (H := EB) (H1 := KB) inet_b uid_b euid_b argv_b = Running (AppClient ip_b port_b) ub stb ->
  htonl ip_a = @past_instance EB -> htonl ip_b = @past_instance EA ->
  htons port_a = htons PORT_MIN -> htons port_b = htons PORT_MIN ->
  ip_frame eth -> has_address ua fda (@past_instance EA) -> has_address ub fdb (@past_instance EB) ->
  exists na sta' ka qa nb stb' kb qb,
    tcp_client (H := EA) ip_a port_a file_a sta = Asleep sta' (sock_ptr na) WConnect ka /\ sent sta' = [qa] /\
    tcp_client (H := EB) ip_b port_b file_b stb = Asleep stb' (sock_ptr nb) WConnect kb /\ sent stb' = [qb] /\
    finishes (H1 := EA) ua fda eth qb sta' na ka /\ finishes (H1 := EB) ub fdb eth qa stb' nb kb.
Proof.
  intros Ma Mb Ia Ib Pa Pb He Ha Hb.
  destruct (client_first (H := EA) _ _ _ _ _ _ _ _ file_a HA' HA Ma) as (qa & sta' & na & ka & ksa & Ra & Ea & Ca & Hra).
  destruct (client_first (H := EB) _ _ _ _ _ _ _ _ file_b HB HB' Mb) as (qb & stb' & nb & kb & ksb & Rb & Eb & Cb & Hrb).
  assert (Hqa : packet_ok qa) by (apply (sent_packet_ok (H := EA) _ qa HA Hra); simpl; rewrite Ea; by left).
  assert (Hqb : packet_ok qb) by (apply (sent_packet_ok (H := EB) _ qb HB' Hrb); simpl; rewrite Eb; by left).
  exists na, sta', ka, qa, nb, stb', kb, qb. split; [exact Ra|]. split; [exact Ea|]. split; [exact Rb|]. split; [exact Eb|].
  unfold client_cb in Ca, Cb. rewrite Ia, Pa in Ca. rewrite Ib, Pb in Cb. split.
  - by apply (client_finishes (H1 := EA) (H2 := KA) inet_a uid_a euid_a argv_a ip_a port_a ua sta na sta' ka file_a);
      rewrite ?Ia.
  - by apply (client_finishes (H1 := EB) (H2 := KB) inet_b uid_b euid_b argv_b ip_b port_b ub stb nb stb' kb file_b);
      rewrite ?Ib.
Qed.

End Network.

Section Witnesses.
Existing Instances host_kernel host_kernel_ok demo_layer demo_layer_ok.

(** The client's host is 10.0.0.2, the server's 10.0.0.1. *)
Definition client_env : Env := addr_env 0x0a000002.
Definition server_env : Env := addr_env 0x0a000001.
Definition server_addr : Z := 0x0100000a.

Lemma network_addresses : is_u32 (@past_instance client_env) /\ is_u32 (@past_instance server_env).
Proof. unfold is_u32. simpl. lia. Qed.

Lemma server_has_address : has_address session_host 3 0x0a000001.
Proof. eexists. split; vm_compute; reflexivity. Qed.
Lemma client_has_address : has_address (host_at 2) 3 0x0a000002.
Proof. eexists. split; vm_compute; reflexivity. Qed.

Lemma packet_transmission_witness : exists s p,
  reachable (H := client_env) s /\ p ∈ sent (mem s) /\
  outcome_eq (receive (H := server_env) session_host 3 demo_eth p (boot 0))
    ((process (H := server_env) p;; ret taken) (tick_malloc (boot 0))).
Proof.
  destruct (host_main 2 0x0a000002 (fun _ => server_addr) client_argv (AppClient server_addr (htons 10001)))
    as (sta & Ma); [simpl; lia|reflexivity|].
  destruct (client_first (H := client_env) _ _ _ _ _ _ _ _ [] (fun _ => eq_refl) (proj1 network_addresses) Ma)
    as (q & sta' & tsk & k & ks & _ & E1 & C1 & Hr).
  exists (Sys sta' ks), q. split; [exact Hr|]. split; [simpl; rewrite E1; left|].
  apply (packet_transmission client_env server_env (proj1 network_addresses) (fun _ => eq_refl) (Sys sta' ks) q).
  - exact Hr.
  - simpl. rewrite E1. left.
  - rewrite C1. vm_compute. discriminate.
  - split; reflexivity.
  - rewrite C1. exact server_has_address.
Defined.

Lemma client_crashes_server_witness : exists sta sta' tsk k q stb,
  tcp_client (H := client_env) server_addr (htons 10001) [1; 2; 3] sta = Asleep sta' tsk WConnect k /\
  sent sta' = [q] /\ receive (H := server_env) session_host 3 demo_eth q stb = Fault BadAccess.
Proof.
  destruct (host_main 2 0x0a000002 (fun _ => server_addr) client_argv (AppClient server_addr (htons 10001)))
    as (sta & Ma); [simpl; lia|reflexivity|].
  destruct (host_main 1 0x0a000001 (fun _ => peer_addr) server_argv (AppServer (htons 10001)))
    as (stb & Mb); [simpl; lia|reflexivity|].
  destruct (client_crashes_server client_env server_env (proj1 network_addresses) (fun _ => eq_refl)
    (proj2 network_addresses) (fun _ => eq_refl) (kernel_at 2) (kernel_at 1) _ _ _ _ _ _ _ _ [1; 2; 3]
    _ _ _ _ _ _ _ [] 1 Ma Mb) as (q & sta' & tsk & ka & stb' & lsk & kb & R & E1 & Rb & _ & Hcrash).
  exists sta, sta', tsk, ka, q, stb'. split; [exact R|]. split; [exact E1|].
  apply (Hcrash 3 demo_eth [] tt stb'); [split; reflexivity|exact server_has_address|reflexivity].
Defined.

(** Both are started with the port 14640, 12345 in network order. *)
Definition meet_argv : list String.string := ["tcp_stack"; "client"; "10.0.0.x"; "14640"]%string.

Lemma clients_meet_witness : exists ka sta kb stb na nb qa qb,
  finishes (H1 := client_env) (host_at 2) 3 demo_eth qb sta na ka /\
  finishes (H1 := server_env) session_host 3 demo_eth qa stb nb kb.
Proof.
  destruct (host_main 2 0x0a000002 (fun _ => server_addr) meet_argv (AppClient server_addr (htons 14640)))
    as (sta & Ma); [simpl; lia|reflexivity|].
  destruct (host_main 1 0x0a000001 (fun _ => peer_addr) meet_argv (AppClient peer_addr (htons 14640)))
    as (stb & Mb); [simpl; lia|reflexivity|].
  destruct (clients_meet client_env server_env (proj1 network_addresses) (fun _ => eq_refl)
    (proj2 network_addresses) (fun _ => eq_refl) (kernel_at 2) (kernel_at 1) _ _ _ _ _ _ _ _ [1; 2; 3]
    _ _ _ _ _ _ _ _ [4] 3 3 demo_eth Ma Mb) as (na & sta' & ka & qa & nb & stb' & kb & qb & _ & _ & _ & _ & Fa & Fb).
  - reflexivity.
  - reflexivity.
  - reflexivity.
  - reflexivity.
  - split; reflexivity.
  - exact client_has_address.
  - exact server_has_address.
  - exists ka, sta', kb, stb', na, nb, qa, qb. split; [exact Fa|exact Fb].
Defined.

End Witnesses.
